(* ===== verification/_CoqProject ===== *)
-Q . S2P
Prelude.v
VarInt.v
Endian.v
Buffers.v
Traits.v
Config.v
Formats.v
Doubles.v
FreeSpace.v
PageAlloc.v
SpaceMgr.v
DbFile.v
Instruments.v
LoggerThreads.v
Pages.v
PageFacts.v
Ownership.v
Keys.v
Nodes.v
NodeFacts.v
Tree.v
TreeShape.v
TreeFacts.v
TreeSearch.v
TreeInsert.v
TreeErase.v
TreeValid.v
TreeRebalance.v
TreeReach.v
TreeDemo.v
TreeDict.v
Cursor.v
TreeSnapshot.v
SnapshotFacts.v
Wal.v
Utilities.v
WalManager.v
WalFacts.v
WalLog.v
WalReopen.v
WalSink.v
Recovery.v
RecoveryFacts.v
TreeLog.v
LogScan.v
Database.v
DatabaseFacts.v
Intact.v
DatabaseTools.v
Example.v
ExampleFacts.v
Benchmarks.v
Tools.v
