(* ===== verification/Prelude.v ===== *)
(** * QuartzDB: the storage engine

    QuartzDB (src/src, src/include/quartz) is an embedded storage engine: a
    B-tree over fixed-size pages, a space manager that hands out the pages, a
    serialization layer that turns keys, references and nodes into page bytes,
    typed pages and a database file that holds them, and, above them, a
    write-ahead log, recovery and a database facade with its tools.  This library
    models all these layers as executable definitions and proves what they do.

    ** Files

    - Prelude: machine integers with their wrap-around, [Status] and the effects
      of the code (see below), vectors, [std::lower_bound], little-endian
      images, the shared tactics and lemmas.
    - VarInt (serialization/VariableLengthInteger), Endian (util/Endian.h).
    - Buffers (serialization/Buffer, BufferView, BinaryWriter, BinaryReader,
      Serializer, SerializationTraits): a buffer is its bytes and the capacity of
      its vector; [emits] and [parses] describe serializers and deserializers
      independently of where they run, and are composed along the code.
    - Traits (serialization/SerializationContext.h, SerializationTraits.h,
      Serializer.h): the traits template as a type class with its laws, and the
      templates over it.
    - Config (common/Config.h, storage/StorageConstants.h, StorageTypes.h),
      Doubles (IEEE doubles as [spec_float]).
    - Formats (format, metadata): versions, feature flags, object ids, database
      header, superblock, descriptors, their validators and the catalog.
    - FreeSpace (space/Extent, FreeSpaceMap): the sorted vector of free extents.
    - PageAlloc (storage/PageAllocator), with the class [PageSpace], the promise
      of a supplier of pages to its clients.
    - SpaceMgr (space/AllocationPolicy, ExtentAllocator, SpaceStatistics,
      FragmentationAnalyzer, SpaceManager), which implements [PageSpace].
    - DbFile (storage/DatabaseFile): a [std::fstream] over a map of files.
    - Instruments (instrumentation, common/Logger, common/Version): counters,
      memory figures, timers, the profiler, the logger; LoggerThreads: the logger
      called by several threads.
    - Pages (storage/Page, PageHeader.h, pages, and the page operations of
      storage/DatabaseFile) and PageFacts, what they do; Ownership: page objects
      as pointers into a heap, constructed, moved and destroyed.
    - Keys (btree/Key, KeyComparator.h, BTreeTypes.h).
    - Nodes (btree/BTreeNode, LeafNode, InternalNode, NodeValidator,
      SplitMergePlanner, format/PageReference.h, pages/IndexPage) and NodeFacts,
      the behaviour of every node operation.
    - Tree (btree/BTree, SearchPath, Rebalance, TreeValidator, TreeStatistics,
      BTreeWalSink): the tree over any [PageSpace] and any [BTreeWalSink].
    - TreeShape (the mathematical trees behind the page maps), TreeFacts (the
      invariant [Inv] of the maps and each primitive step), TreeSearch,
      TreeInsert, TreeErase, TreeValid (one operation each), TreeRebalance
      (borrowing, merging and collapsing after an erasure), TreeReach (the tree
      as a state machine and its main theorems), TreeDemo (small concrete trees),
      TreeDict (the abstract dictionary the tree refines, and what follows for
      whole histories).
    - Cursor (btree/Cursor, and the cursor operations of btree/BTree).
    - TreeSnapshot (btree/BTree: serialize, deserialize, statistics;
      BTreeStatistics, TreeStatistics) and SnapshotFacts.
    - Wal (wal/LogTypes.h, LogSequenceNumber, LogRecord, LogValidator,
      LogStatistics, LogBuffer, LogFile; format/MagicNumbers.h) and WalManager
      (wal/LogWriter, LogReader, LogManager, BTreeWalAdapter): the write-ahead log.
    - Utilities (common/BuildOptions.h, Assertions, ScopeGuard.h, util/FileUtils,
      the flag sets, the operators of keys, ids and sequence numbers, the moves of
      a database file).
    - WalFacts (records and the log file), WalLog (the manager as a state machine
      and its [append]), WalReopen (written logs read and opened again), WalSink
      (the adapter under the tree).
    - Recovery (recovery) and RecoveryFacts: checkpoints, replay, recovery.
    - TreeLog (what the tree hands to any sink), LogScan (what scans return on any
      bytes): the two halves the facade joins.
    - Database (core, diagnostics, maintenance), DatabaseFacts (sessions with a
      log), Intact (log files that hold what the reader expects, and recovery
      from them), DatabaseTools (sessions without a log, the scan, the loader,
      the vacuum).
    - Example (src/examples/main.cpp), the program as the text it prints, and
      ExampleFacts; Benchmarks (src/benchmarks), the programs with their exit
      codes; Tools (src/tools, src/fuzz), the verification tool and the fuzz
      targets.

    ** How the code is rendered

    A call that returns [Status] is an [outcome]: [Ok] with the out-parameters,
    [Err] with the status, [Throw] for a C++ exception that leaves the call, [UB]
    for undefined behaviour, [Fuel] for an exhausted iteration bound.  Member
    functions run in the state monad [M], which keeps the state reached when a
    call fails, so that partial updates are visible.  [w]-bit integers are [Z],
    wrapped where the code can leave the range.  [std::vector]s are lists,
    [unordered_map]s are [gmap]s, pointers to nodes in the tree's maps are page
    ids (a reference into an [unordered_map] stays valid, so a node is read again
    where the code reads it again).  The layout pointer of a page is never null
    for an index page, and the model has no such test.  The order in which an
    [unordered_map] is traversed is a parameter [ord] wherever it is visible, the
    clocks are sequences of readings, and random words are arguments.  Where two
    objects share a third (the data file and the log share the file system, the
    tree and the facade share the log's adapter) the shared one is kept once and
    passed to whichever runs.  A page is a value with its bytes inside, except in
    Ownership, which has the pointers and shows that the objects behave like the
    values.  What the example, the benchmarks and the tools take from their
    host is one record, [Host].

    ** Fuel

    [lower_bound_loop] and [bound_loop] run on the length of the vector, which
    halves each round.  [descend_loop] and [validateSubtree] run on the number of
    internal nodes, and so does [edge_loop] of the cursor;
    [TreeSearch.height_bound] shows that a tree of the invariant
    is never higher, so [find], [insert], [erase] and [validate] never run out.
    [insertIntoParent] and [fixInternalUnderflow] recurse on the search path and
    need none.  [restore_loop], [seek_loop], [log_validate_loop], [find_loop],
    [truncate_loop] and [replay_loop] run on the size of the log file, of which
    every record takes at least one byte: [RecoveryFacts.log_scans_terminate]
    shows that the bound is never what stops them, and
    [RecoveryFacts.replay_ends] that a replay runs out only where an operation of
    the tree does.

    ** What is shown

    - Serialization: unsigned varints and fixed-width integers round-trip, and
      decoding never leaves its input; the reader keeps to its view unless the
      bounds check wraps at 64 bits.  Overwriting in place is exact; appending
      stores zeros ([BinaryWriter::writeBytes]), which makes appended keys and
      the page images of nodes unreadable; signed varints and the big-endian
      templates fail on part of their range.  Each is proved for all inputs.
      A value of any type with lawful traits, written with a header in place, is
      read back with the writer's version.
    - Space: the page allocator is a set of pages in use; [markFree] is set
      union; [markAllocated] is set difference except on a prefix; the policies
      are sound and complete; pages are never shared after any history, while
      extents can be handed out twice and reservations can block allocation.
    - Keys and nodes: comparison is a total order, the binary searches are exact,
      a leaf is a bounded finite map, except that an insertion its page has no
      room for reports an error and is made all the same.
    - Tree: on every tree reachable by [insert] (of keys that fit and are no
      separator at the time, while pages last), [erase] (of any key) and [clear]
      the validator accepts the tree, [find] answers from the leaves, [insert]
      binds one key or, through splits up to the root, drops the promoted entry,
      and [erase] unbinds its key on every branch of the rebalancing: other keys
      keep their answers, except that a loan between leaves moves one reference
      to the former separator, and a merge of internal nodes is always refused
      with an error, after which another erasure may throw.  Over histories the tree refines an abstract dictionary with
      separators; nothing is found that was not inserted; and the pages in use
      are exactly those of the nodes and of other holders ([ForeignPages]), so
      none leaks and [clear] returns all.  Outside the guards ([TreeDemo]):
      re-inserting a separator breaks the tree, and a key that overflows its page
      is refused and found.
    - Cursor: a scan of a tree of one or two levels without empty leaves visits the
      stored entries in order and ends; an empty leaf stops it, and on three or
      more levels it never ends.
    - Write-ahead log: the record format and the log file round-trip; [append] is
      exact on every branch of every reachable manager.  But what the writer puts
      in a record is zeros, so a log written without error cannot be read and is
      recovered as empty; a torn record is accepted and disables the open file;
      and the buffer is never flushed when it fills, so the log ends up refusing
      reports of changes the tree has already made.
    - Formats: object ids round-trip through their text, the page-size test is
      "a power of two from 512 to 65536", the catalog answers with the latest
      registration of any history.
    - Pages: every page object keeps to the type of its class or of its class's
      reset, and free lists to the bounds of their array, unless a page that breaks
      them is read from outside; a free-list page is a bounded list; a page written to a file is read back and no other page
      changes; index and overflow pages change their types when they are reset.
      A program that uses page objects while they live frees no buffer twice, uses
      none that was freed and loses none, unless it resets a page it has moved
      from, which writes through a null pointer.
    - Snapshots: a tree written over existing storage is read back page by page,
      whatever the traversal orders.
    - Recovery: checkpoints round-trip; replaying a delete is idempotent, also when
      it starts a rebalancing; replaying an update is an idempotent "upsert" but
      for the entry that the split of a full leaf drops; scans end on any bytes; the result never names the checkpoint that was used.  An intact log
      of updates and deletions over the keys of one leaf is recovered exactly:
      the database then answers by the finite map the log describes.
    - Facade: a session with a log opens, works and closes, and cannot be opened
      again once an insertion succeeded; this joins the tree's reports, the zero
      records of the writer, and the scans of recovery.  Its data file never
      holds more than its header page and what was behind it before.  Without a log an open
      database refines the dictionary of its tree over any history, and nothing
      reaches the file.  A created file passes the integrity scan.  The vacuum
      reclaims nothing.
    - Logger: the calls of threads, interleaved one step at a time, are atomic; no
      thread is ever stuck.
    - Programs: the example's load of consecutive keys succeeds for any number of
      keys and every key is found or a separator; its file demonstration prints
      the page it wrote and leaves no file; its serialization demonstration prints
      zeros.  The log benchmark exits with code 1 on every host.  The verification
      tool rejects every database that was used with a log, and turns a file
      shorter than a page into an empty database it accepts; what each fuzz
      target does on any input, and that one of them can be made to ask for 4 GiB.

    ** Not modelled

    The copy and move markers of common and the database contexts, which hold no
    code of their own; accessors that return a field, which the model reads as
    that field; the formatting of local time and of doubles (a parameter); the
    main functions that take the fuzz targets' place in a build without a fuzzer,
    which do nothing.  Memory is unlimited: allocations do not fail, also where the
    code resizes a vector to a length it has just read, before it checks the
    bounds ([LogRecord_deserialize], [LogFile_readRecord],
    [CheckpointPayload_deserialize]); only the fuzz target of Tools has a limit.  The recovery benchmark is modelled, but no
    theorem says how it ends.  The file layer has no device errors and no crashes:
    a stream sees at once what it wrote. *)
From stdpp Require Import base gmap strings list list_numbers sorting.
From Stdlib Require Import ZArith Lia.

#[global] Open Scope Z_scope.

Declare Scope quartz_scope.
Delimit Scope quartz_scope with quartz.

(** ** Machine integers

    A [w]-bit unsigned integer is a [Z]; every operation of the code that can
    leave its range is written with the wrap-around of its width. *)
Definition wrap (w x : Z) : Z := x mod 2 ^ w.
Definition u8 (x : Z) : Z := wrap 8 x.
Definition u16 (x : Z) : Z := wrap 16 x.
Definition u32 (x : Z) : Z := wrap 32 x.
Definition u64 (x : Z) : Z := wrap 64 x.

(** The two's complement reading of a [w]-bit pattern. *)
Definition sgn (w x : Z) : Z := if x <? 2 ^ (w - 1) then x else x - 2 ^ w.

Definition in_u (w x : Z) : Prop := 0 <= x < 2 ^ w.

(** ** Status (common/Status.h)

    [Status] is a code with a message.  A call that returns [Status] and fills
    out-parameters is an [outcome]: [Ok] carries the out-parameters, [Err] the
    status that is returned instead.  [Throw] is a C++ exception leaving the
    call ([std::out_of_range] of [at]), [UB] undefined behaviour, [Fuel] a loop
    whose iteration bound was exhausted. *)
Inductive StatusCode : Set :=
  InvalidArgument | IOError | Corruption | OutOfMemory | Unknown.

Record Status : Set := mkStatus { st_code : StatusCode; st_message : string }.

Inductive outcome (A : Type) : Type :=
  | Ok (a : A)
  | Err (e : Status)
  | Throw (what : string)
  | UB
  | Fuel.
Arguments Ok {A} a.
Arguments Err {A} e.
Arguments Throw {A} what.
Arguments UB {A}.
Arguments Fuel {A}.

Definition invalidArgument {A} (msg : string) : outcome A := Err (mkStatus InvalidArgument msg).
Definition ioError {A} (msg : string) : outcome A := Err (mkStatus IOError msg).
Definition corruption {A} (msg : string) : outcome A := Err (mkStatus Corruption msg).
Definition outOfMemory {A} (msg : string) : outcome A := Err (mkStatus OutOfMemory msg).

(** [Status::ok]. *)
Definition is_ok {A} (o : outcome A) : bool :=
  match o with Ok _ => true | _ => false end.

(** Status::toString. *)
Definition Status_toString (s : option Status) : string :=
  match s with
  | None => "OK"
  | Some e =>
      (match st_code e with
       | InvalidArgument => "InvalidArgument"
       | IOError => "IOError"
       | Corruption => "Corruption"
       | OutOfMemory => "OutOfMemory"
       | Unknown => "Unknown"
       end +:+ ": " +:+ st_message e)%string
  end.

(** ** Effects

    [if (!st.ok()) return st;] is the bind of [outcome]; stateful code runs in
    [M S], which keeps the state reached when a call fails. *)
#[global] Instance outcome_ret : MRet outcome := λ A a, Ok a.
#[global] Instance outcome_bind : MBind outcome := λ A B f o,
  match o with
  | Ok a => f a
  | Err e => Err e
  | Throw w => Throw w
  | UB => UB
  | Fuel => Fuel
  end.

Definition M (S A : Type) : Type := S → outcome A * S.

#[global] Instance M_ret {S} : MRet (M S) := λ A a s, (Ok a, s).
#[global] Instance M_bind {S} : MBind (M S) := λ A B f m s,
  match m s with
  | (Ok a, s') => f a s'
  | (Err e, s') => (Err e, s')
  | (Throw w, s') => (Throw w, s')
  | (UB, s') => (UB, s')
  | (Fuel, s') => (Fuel, s')
  end.

Definition get {S} : M S S := λ s, (Ok s, s).
Definition put {S} (s : S) : M S unit := λ _, (Ok tt, s).
Definition modify {S} (f : S → S) : M S unit := λ s, (Ok tt, f s).
Definition gets {S A} (f : S → A) : M S A := λ s, (Ok (f s), s).
Definition lift {S A} (o : outcome A) : M S A := λ s, (o, s).
(** Runs a computation on a component of the state. *)
Definition zoom {S T A} (proj : S → T) (upd : T → S → S) (m : M T A) : M S A :=
  λ s, let '(o, t) := m (proj s) in (o, upd t s).
(** Runs a computation on a local object, whose final value is returned. *)
Definition local {S T A} (t : T) (m : M T A) : M S (A * T) :=
  λ s, (let '(o, t') := m t in a ← o; Ok (a, t'), s).
(** [(void)call();]: the status is discarded, the state is kept. *)
Definition ignore {S A} (m : M S A) : M S unit :=
  λ s, match m s with
       | (Ok _, s') | (Err _, s') => (Ok tt, s')
       | (Throw w, s') => (Throw w, s')
       | (UB, s') => (UB, s')
       | (Fuel, s') => (Fuel, s')
       end.

(** ** Vectors *)

(** [v.at(i)]. *)
Definition at_ {A} (l : list A) (i : nat) : outcome A :=
  match l !! i with Some x => Ok x | None => Throw "std::out_of_range" end.
(** [v[i]]. *)
Definition index {A} (l : list A) (i : nat) : outcome A :=
  match l !! i with Some x => Ok x | None => UB end.
(** [v.insert(v.begin() + i, x)]; past the end it is undefined. *)
Definition vinsert {A} (i : nat) (x : A) (l : list A) : list A :=
  take i l ++ x :: drop i l.
(** [v.erase(v.begin() + i)]. *)
Definition verase {A} (i : nat) (l : list A) : list A :=
  take i l ++ drop (S i) l.

(** [std::lower_bound], as its halving loop: the first position whose element
    does not come [before].  The range shrinks in every round, so its length is
    enough fuel. *)
Fixpoint lower_bound_loop {A} (fuel : nat) (before : A → bool) (l : list A) (first len : nat) : nat :=
  match fuel with
  | O => first
  | S fuel =>
      if (0 <? len)%nat then
        let half := (len / 2)%nat in
        match l !! (first + half)%nat with
        | Some x =>
            if before x then lower_bound_loop fuel before l (S (first + half)) (len - half - 1)
            else lower_bound_loop fuel before l first half
        | None => first
        end
      else first
  end.
Definition lower_bound {A} (before : A → bool) (l : list A) : nat :=
  lower_bound_loop (length l) before l 0 (length l).

(** ** Memory images of integers on the little-endian host *)
Fixpoint le_bytes (n : nat) (v : Z) : list Z :=
  match n with
  | O => []
  | S n => v mod 256 :: le_bytes n (v / 256)
  end.
Fixpoint le_value (bs : list Z) : Z :=
  match bs with
  | [] => 0
  | b :: bs => b + 256 * le_value bs
  end.

Definition zeros (n : nat) : list Z := replicate n 0.

(** Overwrites [length bs] bytes of [m] from [i]: a [memcpy] inside [m]. *)
Definition splice (i : nat) (bs m : list Z) : list Z :=
  take i m ++ bs ++ drop (i + length bs) m.

Definition bytes_ok (bs : list Z) : Prop := Forall (λ b, 0 <= b < 256) bs.

Create HintDb quartz.

(** ** Automation *)
Ltac Zify.zify_post_hook ::= Z.div_mod_to_equations.

(** Case analysis on the tests of the code, from the outside in. *)
Ltac case_test :=
  match goal with
  | |- context [match ?x with _ => _ end] =>
      lazymatch x with context [match _ with _ => _ end] => fail | _ => destruct x eqn:? end
  end.
Ltac case_hyp H :=
  match type of H with
  | context [match ?x with _ => _ end] =>
      lazymatch x with context [match _ with _ => _ end] => fail | _ => destruct x eqn:? end
  end.
Ltac case_tests := repeat (case_test; simplify_eq/=).

(** Turns boolean comparisons in the context into propositions. *)
Ltac bools :=
  repeat match goal with
  | H : (_ <? _) = true |- _ => apply Z.ltb_lt in H
  | H : (_ <? _) = false |- _ => apply Z.ltb_ge in H
  | H : (_ <=? _) = true |- _ => apply Z.leb_le in H
  | H : (_ <=? _) = false |- _ => apply Z.leb_gt in H
  | H : (_ =? _) = true |- _ => apply Z.eqb_eq in H
  | H : (_ =? _) = false |- _ => apply Z.eqb_neq in H
  | H : (_ <? _)%nat = true |- _ => apply Nat.ltb_lt in H
  | H : (_ <? _)%nat = false |- _ => apply Nat.ltb_ge in H
  | H : (_ <=? _)%nat = true |- _ => apply Nat.leb_le in H
  | H : (_ <=? _)%nat = false |- _ => apply Nat.leb_gt in H
  | H : (_ =? _)%nat = true |- _ => apply Nat.eqb_eq in H
  | H : (_ =? _)%nat = false |- _ => apply Nat.eqb_neq in H
  | H : (_ && _) = true |- _ => apply andb_true_iff in H as [? ?]
  | H : (_ && _) = false |- _ => apply andb_false_iff in H
  | H : (_ || _) = true |- _ => apply orb_true_iff in H
  | H : (_ || _) = false |- _ => apply orb_false_iff in H as [? ?]
  | H : negb _ = true |- _ => apply negb_true_iff in H
  | H : negb _ = false |- _ => apply negb_false_iff in H
  end.

(** ** Integers *)

Lemma wrap_small w x : in_u w x → wrap w x = x.
Proof. unfold in_u, wrap. intros. by apply Z.mod_small. Qed.

Lemma wrap_range w x : 0 <= w → in_u w (wrap w x).
Proof. intros. apply Z.mod_pos_bound. lia. Qed.

Lemma wrap_idem w x : 0 <= w → wrap w (wrap w x) = wrap w x.
Proof. intros. apply wrap_small, wrap_range. done. Qed.

Lemma u32_small x : 0 <= x < 2 ^ 32 → u32 x = x.
Proof. apply wrap_small. Qed.
Lemma u64_small x : 0 <= x < 2 ^ 64 → u64 x = x.
Proof. apply wrap_small. Qed.
Lemma u16_small x : 0 <= x < 2 ^ 16 → u16 x = x.
Proof. apply wrap_small. Qed.
#[export] Hint Resolve wrap_range : quartz.

(** ** Little-endian images *)

Lemma length_le_bytes n v : length (le_bytes n v) = n.
Proof. revert v; induction n; intros; simpl; auto. Qed.

Lemma le_bytes_ok n v : bytes_ok (le_bytes n v).
Proof.
  revert v; induction n as [|n IH]; intros v; simpl; constructor; [|apply IH].
  apply Z.mod_pos_bound. lia.
Qed.

Lemma le_value_bytes n v : le_value (le_bytes n v) = v mod 256 ^ Z.of_nat n.
Proof.
  revert v; induction n as [|n IH]; intros v.
  - simpl. by rewrite Z.mod_1_r.
  - cbn [le_bytes le_value]. rewrite IH, Nat2Z.inj_succ, Z.pow_succ_r by lia.
    rewrite Z.rem_mul_r by lia. lia.
Qed.

Lemma le_value_range bs : bytes_ok bs → 0 <= le_value bs < 256 ^ Z.of_nat (length bs).
Proof.
  induction 1 as [|b bs Hb _ IH]; [simpl; lia|].
  cbn [le_value length]. rewrite Nat2Z.inj_succ, Z.pow_succ_r by lia. lia.
Qed.

Lemma le_bytes_value bs : bytes_ok bs → le_bytes (length bs) (le_value bs) = bs.
Proof.
  induction 1 as [|b bs Hb _ IH]; [done|].
  cbn [le_value length le_bytes]. f_equal.
  - rewrite Z.mul_comm, Z.mod_add, Z.mod_small by lia. done.
  - rewrite Z.mul_comm, Z.div_add, Z.div_small, Z.add_0_l by lia. done.
Qed.

Lemma le_value_small n v : 0 <= v < 256 ^ Z.of_nat n → le_value (le_bytes n v) = v.
Proof. intros. rewrite le_value_bytes. by apply Z.mod_small. Qed.

Lemma le_bytes_app n m v : le_bytes (n + m) v = le_bytes n v ++ le_bytes m (v / 256 ^ Z.of_nat n).
Proof.
  revert v; induction n as [|n IH]; intros v; [by rewrite Z.div_1_r|].
  cbn [Nat.add le_bytes app]. rewrite IH. do 3 f_equal.
  rewrite Nat2Z.inj_succ, Z.pow_succ_r, Z.div_div by lia. done.
Qed.

Lemma le_value_app xs ys :
  le_value (xs ++ ys) = le_value xs + 256 ^ Z.of_nat (length xs) * le_value ys.
Proof.
  induction xs as [|x xs IH]; [cbn [app le_value length]; lia|].
  cbn [app le_value length]. rewrite IH, Nat2Z.inj_succ, Z.pow_succ_r by lia. lia.
Qed.

Lemma le_bytes_mod n v w : 0 <= w → (256 ^ Z.of_nat n | w) → w ≠ 0 → le_bytes n (v mod w) = le_bytes n v.
Proof.
  intros Hw Hd H0. rewrite <-(le_bytes_value (le_bytes n v)), length_le_bytes by apply le_bytes_ok.
  rewrite <-(le_bytes_value (le_bytes n (v mod w))), length_le_bytes by apply le_bytes_ok.
  f_equal. rewrite !le_value_bytes. destruct Hd as [q ->].
  rewrite Z.mul_comm, Z.rem_mul_r by nia. rewrite Z.mul_comm, Z.mod_add, Z.mod_mod by lia. done.
Qed.

Lemma le_value_zeros n : le_value (zeros n) = 0.
Proof. induction n; simpl in *; [done|]. unfold zeros in IHn. lia. Qed.

Create Rewrite HintDb quartz_len.
#[export] Hint Rewrite length_le_bytes : quartz_len.
#[export] Hint Resolve le_bytes_ok : quartz.

(** ** Vectors *)

Section vectors.
Context {A : Type}.
Implicit Types (l : list A) (x : A).

Lemma length_vinsert i x l : length (vinsert i x l) = S (length l).
Proof.
  unfold vinsert. rewrite length_app. cbn. rewrite length_take, length_drop. lia.
Qed.

Lemma length_verase i l : (i < length l)%nat → length (verase i l) = pred (length l).
Proof.
  intros. unfold verase. rewrite length_app, length_take, length_drop. lia.
Qed.

Lemma vinsert_perm i x l : vinsert i x l ≡ₚ x :: l.
Proof.
  unfold vinsert. rewrite <-Permutation_middle. by rewrite take_drop.
Qed.

Lemma verase_vinsert i x l : (i <= length l)%nat → verase i (vinsert i x l) = l.
Proof.
  intros Hi. unfold verase, vinsert.
  rewrite take_app_le by (rewrite length_take; lia).
  rewrite take_take, Nat.min_id.
  rewrite drop_app_ge by (rewrite length_take; lia).
  rewrite length_take, Nat.min_l by lia.
  replace (S i - i)%nat with 1%nat by lia. simpl. rewrite drop_0. apply take_drop.
Qed.

Lemma verase_perm i x l : l !! i = Some x → l ≡ₚ x :: verase i l.
Proof.
  intros Hx. unfold verase. rewrite <-(take_drop_middle l i x Hx) at 1.
  by rewrite Permutation_middle.
Qed.

Lemma lookup_vinsert_eq i x l : (i <= length l)%nat → vinsert i x l !! i = Some x.
Proof.
  intros. unfold vinsert. rewrite lookup_app_r by (rewrite length_take; lia).
  rewrite length_take, Nat.min_l, Nat.sub_diag by lia. done.
Qed.

(** [lower_bound] finds the boundary of a partitioned vector. *)
Lemma lower_bound_loop_spec before fuel l xs ys first len :
  l = xs ++ ys → Forall (λ x, before x = true) xs → Forall (λ y, before y = false) ys →
  (first <= length xs <= first + len)%nat → (first + len <= length l)%nat → (len <= fuel)%nat →
  lower_bound_loop fuel before l first len = length xs.
Proof.
  intros -> Hxs Hys. revert first len. induction fuel as [|fuel IH]; intros first len Hr Hl Hf.
  { simpl. lia. }
  cbn [lower_bound_loop]. destruct (Nat.ltb_spec 0 len); [|lia].
  assert (len / 2 < len)%nat by (apply Nat.div_lt; lia).
  set (half := (len / 2)%nat) in *.
  destruct (decide (first + half < length xs)%nat) as [Hlt|Hge].
  - rewrite lookup_app_l by done. destruct (lookup_lt_is_Some_2 xs _ Hlt) as [x Hx].
    rewrite Hx. rewrite Forall_lookup in Hxs. rewrite (Hxs _ _ Hx). apply IH; lia.
  - rewrite lookup_app_r by lia.
    destruct (lookup_lt_is_Some_2 ys (first + half - length xs)) as [y Hy].
    { rewrite length_app in Hl. lia. }
    rewrite Hy. rewrite Forall_lookup in Hys. rewrite (Hys _ _ Hy). apply IH; lia.
Qed.

Lemma lower_bound_app before xs ys :
  Forall (λ x, before x = true) xs → Forall (λ y, before y = false) ys →
  lower_bound before (xs ++ ys) = length xs.
Proof.
  intros. unfold lower_bound. apply lower_bound_loop_spec with ys; rewrite ?length_app; auto; lia.
Qed.

Lemma sorted_partition (R : relation A) before l :
  StronglySorted R l → (∀ x y, R x y → before y = true → before x = true) →
  ∃ xs ys, l = xs ++ ys ∧ Forall (λ x, before x = true) xs ∧ Forall (λ y, before y = false) ys.
Proof.
  intros Hs Hmono. induction Hs as [|x l Hs IH Hx].
  { exists [], []. auto. }
  destruct (before x) eqn:Hb.
  - destruct IH as (xs & ys & -> & ? & ?). exists (x :: xs), ys. auto.
  - exists [], (x :: l). split; [done|]. split; [done|]. constructor; [done|].
    eapply Forall_impl; [exact Hx|]. intros y Hy. destruct (before y) eqn:?; [|done].
    by rewrite <-Hb, (Hmono x y).
Qed.

Lemma StronglySorted_app_iff (R : relation A) xs ys :
  StronglySorted R (xs ++ ys) ↔
  StronglySorted R xs ∧ StronglySorted R ys ∧ Forall (λ x, Forall (R x) ys) xs.
Proof.
  induction xs as [|x xs IH]; simpl.
  { split; [|naive_solver]. intros. repeat split; [constructor|done|constructor]. }
  split.
  - intros H. apply StronglySorted_inv in H as [H1 H2]. apply IH in H1 as (?&?&?).
    apply Forall_app in H2 as [??]. repeat split; auto. by constructor.
  - intros (H1 & ? & H3). apply StronglySorted_inv in H1 as [??]. apply Forall_cons in H3 as [??].
    constructor; [apply IH; auto|]. apply Forall_app; auto.
Qed.
End vectors.

Lemma length_splice i bs m :
  (i + length bs <= length m)%nat → length (splice i bs m) = length m.
Proof.
  intros. unfold splice. rewrite !length_app, length_take, length_drop. lia.
Qed.

(** Reading back the bytes a [splice] wrote. *)
Lemma splice_read i bs m :
  (i + length bs <= length m)%nat → take (length bs) (drop i (splice i bs m)) = bs.
Proof.
  intros. unfold splice. rewrite drop_app_ge by (rewrite length_take; lia).
  rewrite length_take, Nat.min_l, Nat.sub_diag, drop_0 by lia.
  rewrite take_app_le by lia. by rewrite take_ge by lia.
Qed.

(** ** Bits *)
Lemma bits_above x k i : 0 <= x < 2 ^ k → k <= i → Z.testbit x i = false.
Proof.
  intros Hx Hi. destruct (decide (x = 0)) as [->|]; [apply Z.bits_0|].
  apply Z.bits_above_log2; [lia|]. apply (Z.lt_le_trans _ k); [apply Z.log2_lt_pow2; lia|done].
Qed.

Lemma lor_disjoint lo hi k : 0 <= k → 0 <= lo < 2 ^ k → Z.lor (hi * 2 ^ k) lo = hi * 2 ^ k + lo.
Proof.
  intros Hk Hlo. assert (E : Z.land (hi * 2 ^ k) lo = 0).
  { apply Z.bits_inj'. intros i Hi. rewrite Z.land_spec, Z.bits_0, Z.mul_pow2_bits by lia.
    destruct (decide (i < k)); [by rewrite Z.testbit_neg_r by lia|].
    rewrite (bits_above lo k i) by lia. apply andb_false_r. }
  by rewrite <-Z.lxor_lor, <-Z.add_nocarry_lxor.
Qed.
