(* ===== verification/VarInt.v ===== *)
(** Variable-length integers (src/src/serialization/VariableLengthInteger.cpp):
    the LEB128-style codec for 32- and 64-bit integers, its size function and
    the ZigZag mapping of the signed variants. *)
From stdpp Require Import base strings list.
From Stdlib Require Import ZArith Lia.
From S2P Require Import Prelude.

Definition kMaxVarInt32Bytes : nat := 5.
Definition kMaxVarInt64Bytes : nat := 10.

(** The [do ... while] of [encodeImpl]; [rem] is [maxBytes - i]. *)
Fixpoint encode_loop (rem : nat) (value : Z) (buf : list Z) : outcome (list Z) :=
  match rem with
  | O => invalidArgument "VarInt: value too large for encoding"
  | S rem =>
      let byte := Z.land value 0x7F in
      let value := Z.shiftr value 7 in
      let byte := if value =? 0 then byte else Z.lor byte 0x80 in
      if value =? 0 then Ok (buf ++ [byte])
      else encode_loop rem value (buf ++ [byte])
  end.

(** [encodeImpl]: the bytes stored in [out]; [bytesWritten] is their number. *)
Definition encodeImpl (value : Z) (outSize maxBytes : nat) : outcome (list Z) :=
  buf ← encode_loop maxBytes value [];
  if (outSize <? length buf)%nat then invalidArgument "VarInt: output buffer too small"
  else Ok buf.

(** The [for] of [decodeImpl]; [rem] is [maxBytes - i], [input] is [in + i]. *)
Fixpoint decode_loop (rem : nat) (input : list Z) (value shift : Z) (i : nat) : outcome (Z * nat) :=
  match rem with
  | O => corruption "VarInt: malformed input"
  | S rem =>
      match input with
      | [] => corruption "VarInt: unexpected end of input"
      | byte :: input =>
          let value := Z.lor value (u64 (Z.shiftl (Z.land byte 0x7F) shift)) in
          let shift := shift + 7 in
          if Z.land byte 0x80 =? 0 then Ok (value, S i)
          else if (64 <=? shift) && negb (Z.land byte 0x7F =? 0)
          then corruption "VarInt: overflow"
          else decode_loop rem input value shift (S i)
      end
  end.

Definition decodeImpl (input : list Z) (maxBytes : nat) : outcome (Z * nat) :=
  decode_loop maxBytes input 0 0 0.

(** The [while] of [encodedSizeImpl]. A 64-bit value is shifted to zero after
    ten rounds. *)
Fixpoint encodedSize_loop (fuel : nat) (value : Z) (count : nat) : nat :=
  match fuel with
  | O => count
  | S fuel =>
      if 0x80 <=? value then encodedSize_loop fuel (Z.shiftr value 7) (S count) else count
  end.
Definition encodedSizeImpl (value : Z) : nat := encodedSize_loop kMaxVarInt64Bytes value 1.

Definition encodeU32 (value : Z) (outSize : nat) : outcome (list Z) :=
  encodeImpl value outSize kMaxVarInt32Bytes.
Definition decodeU32 (input : list Z) : outcome (Z * nat) :=
  '(tmp, consumed) ← decodeImpl input kMaxVarInt32Bytes;
  if 0xFFFFFFFF <? tmp then corruption "VarInt: value too large for uint32"
  else Ok (u32 tmp, consumed).
Definition encodeU64 (value : Z) (outSize : nat) : outcome (list Z) :=
  encodeImpl value outSize kMaxVarInt64Bytes.
Definition decodeU64 (input : list Z) : outcome (Z * nat) :=
  decodeImpl input kMaxVarInt64Bytes.

(** [(uN(value) << 1) ^ (uN(value) >> (N-1))], the shift being the unsigned one
    the code performs. *)
Definition zigzag (w value : Z) : Z :=
  let u := wrap w value in Z.lxor (wrap w (Z.shiftl u 1)) (Z.shiftr u (w - 1)).
(** [intN((z >> 1) ^ (-intN(z & 1)))]. *)
Definition unzigzag (w z : Z) : Z :=
  sgn w (Z.lxor (Z.shiftr z 1) (wrap w (- Z.land z 1))).

Definition encodeS32 (value : Z) (outSize : nat) : outcome (list Z) :=
  encodeU32 (zigzag 32 value) outSize.
Definition decodeS32 (input : list Z) : outcome (Z * nat) :=
  '(z, consumed) ← decodeU32 input; Ok (unzigzag 32 z, consumed).
Definition encodeS64 (value : Z) (outSize : nat) : outcome (list Z) :=
  encodeU64 (zigzag 64 value) outSize.
Definition decodeS64 (input : list Z) : outcome (Z * nat) :=
  '(z, consumed) ← decodeU64 input; Ok (unzigzag 64 z, consumed).

Definition encodedSizeU32 (value : Z) : nat := encodedSizeImpl value.
Definition encodedSizeU64 (value : Z) : nat := encodedSizeImpl value.
Definition encodedSizeS32 (value : Z) : nat := encodedSizeImpl (zigzag 32 value).
Definition encodedSizeS64 (value : Z) : nat := encodedSizeImpl (zigzag 64 value).

(** ** The encoding as a relation

    [varint v bs]: [bs] is the base-128 expansion of [v], least significant
    group first, with the continuation bit on every byte but the last. *)
Inductive varint : Z → list Z → Prop :=
  | varint_last v : 0 <= v < 128 → varint v [v]
  | varint_more v bs : 128 <= v → varint (v / 128) bs → varint v (128 + v mod 128 :: bs).

Lemma land_7F v : Z.land v 0x7F = v mod 128.
Proof. change 0x7F with (Z.ones 7). by rewrite Z.land_ones. Qed.

Lemma land_above b n : 0 <= n → 0 <= b < 2 ^ n → ∀ c, Z.land b (Z.shiftl c n) = 0.
Proof.
  intros Hn Hb c. apply Z.bits_inj'. intros i Hi. rewrite Z.land_spec, Z.bits_0.
  destruct (decide (i < n)).
  - by rewrite Z.shiftl_spec_low, andb_false_r by done.
  - destruct (decide (b = 0)) as [->|]; [by rewrite Z.bits_0|].
    rewrite (Z.bits_above_log2 b i); [done|lia|].
    assert (Z.log2 b < n) by (apply Z.log2_lt_pow2; lia). lia.
Qed.

Lemma lor_80 b : 0 <= b < 128 → Z.lor b 0x80 = 128 + b.
Proof.
  intros. pose proof (Z.add_lor_land b 0x80).
  pose proof (land_above b 7 ltac:(lia) ltac:(lia) 1) as Hl. change (Z.shiftl 1 7) with 0x80 in Hl. lia.
Qed.

Lemma land_80_low b : 0 <= b < 128 → Z.land b 0x80 = 0.
Proof.
  intros. pose proof (Z.add_lor_land b 0x80). rewrite lor_80 in * by done. lia.
Qed.

Lemma land_80_high b : 0 <= b < 128 → Z.land (128 + b) 0x80 = 128.
Proof.
  intros. rewrite <-lor_80 by done. rewrite Z.land_lor_distr_l, land_80_low by done. done.
Qed.

Lemma lor_shiftl_add acc b s :
  0 <= s → 0 <= acc < 2 ^ s → 0 <= b → Z.lor acc (Z.shiftl b s) = acc + b * 2 ^ s.
Proof.
  intros Hs Hacc Hb. rewrite <-Z.shiftl_mul_pow2 by done.
  pose proof (Z.add_lor_land acc (Z.shiftl b s)).
  pose proof (land_above acc s Hs Hacc b). lia.
Qed.

Lemma encode_loop_spec rem v buf :
  (0 < rem)%nat → 0 <= v < 2 ^ (7 * Z.of_nat rem) →
  ∃ bs, encode_loop rem v buf = Ok (buf ++ bs) ∧ varint v bs ∧ (length bs <= rem)%nat.
Proof.
  revert v buf. induction rem as [|rem IH]; intros v buf Hrem Hv; [lia|].
  cbn [encode_loop]. rewrite land_7F, Z.shiftr_div_pow2 by lia. change (2 ^ 7) with 128.
  destruct (v / 128 =? 0) eqn:E; bools.
  - exists [v]. assert (v < 128) by lia. rewrite Z.mod_small by lia.
    repeat split; [constructor; lia|simpl; lia].
  - assert (Hd : 0 <= v / 128 < 2 ^ (7 * Z.of_nat rem)).
    { rewrite Nat2Z.inj_succ, Z.mul_succ_r, Z.pow_add_r in Hv by lia.
      change (2 ^ 7) with 128 in Hv.
      split; [lia|]. apply Z.div_lt_upper_bound; lia. }
    destruct rem as [|rem]; [change (7 * Z.of_nat 0) with 0 in Hd; lia|].
    destruct (IH (v / 128) (buf ++ [Z.lor (v mod 128) 128])) as (bs & -> & Hbs & Hl); [lia|done|].
    rewrite lor_80 by lia.
    exists (128 + v mod 128 :: bs). rewrite <-app_assoc.
    repeat split; [constructor; [lia|done]|simpl; lia].
Qed.

Lemma decode_loop_spec v bs : varint v bs → ∀ rem rest acc s i,
  (length bs <= rem)%nat → 0 <= s → 0 <= acc < 2 ^ s → 0 <= v → v * 2 ^ s < 2 ^ 64 →
  decode_loop rem (bs ++ rest) acc s i = Ok (acc + v * 2 ^ s, (i + length bs)%nat).
Proof.
  induction 1 as [v Hv|v bs Hv Hbs IH]; intros rem rest acc s i Hrem Hs Hacc Hv0 Hb.
  - destruct rem as [|rem]; [simpl in Hrem; lia|]. cbn.
    rewrite land_80_low, land_7F, Z.mod_small by lia. cbn.
    rewrite u64_small by (rewrite Z.shiftl_mul_pow2; nia).
    rewrite lor_shiftl_add by lia. do 2 f_equal. lia.
  - destruct rem as [|rem]; [simpl in Hrem; lia|]. cbn [decode_loop app].
    rewrite land_80_high by lia. change (128 =? 0) with false. cbn [negb].
    rewrite land_7F.
    replace ((128 + v mod 128) mod 128) with (v mod 128) by lia.
    set (d := v / 128) in *. assert (Hvd : v = 128 * d + v mod 128) by lia.
    assert (Hs64 : s + 7 < 64).
    { apply Z.nle_gt. intros Hge.
      assert (2 ^ 64 <= 2 ^ (s + 7)) by (apply Z.pow_le_mono_r; lia).
      rewrite Z.pow_add_r in * by lia. change (2 ^ 7) with 128 in *. nia. }
    replace (64 <=? s + 7) with false by lia. cbn [andb].
    assert (0 < 2 ^ s) by lia. assert (0 <= v mod 128 < 128) by lia.
    rewrite u64_small by (rewrite Z.shiftl_mul_pow2 by lia; nia).
    rewrite lor_shiftl_add by lia.
    rewrite IH.
    + rewrite Z.pow_add_r by lia. change (2 ^ 7) with 128. simpl length. f_equal. f_equal; [|lia].
      nia.
    + simpl in Hrem; lia.
    + lia.
    + rewrite Z.pow_add_r by lia. change (2 ^ 7) with 128. nia.
    + lia.
    + rewrite Z.pow_add_r by lia. change (2 ^ 7) with 128. nia.
Qed.

Lemma varint_size v bs : varint v bs → ∀ fuel c,
  (length bs <= S fuel)%nat → encodedSize_loop fuel v c = (c + pred (length bs))%nat.
Proof.
  induction 1 as [v Hv|v bs Hv Hbs IH]; intros fuel c Hf.
  - destruct fuel as [|fuel]; cbn; [lia|]. replace (128 <=? v) with false by lia. simpl. lia.
  - assert (0 < length bs)%nat by (destruct Hbs; simpl; lia).
    destruct fuel as [|fuel]; [simpl in Hf; lia|].
    cbn [encodedSize_loop]. replace (128 <=? v) with true by lia.
    rewrite Z.shiftr_div_pow2 by lia. change (2 ^ 7) with 128. rewrite IH by (simpl in Hf; lia).
    simpl. lia.
Qed.

(** Encoding at width [7 * max] followed by decoding. *)
Lemma encodeImpl_roundtrip max outSize v rest :
  (0 < max <= kMaxVarInt64Bytes)%nat → 0 <= v < 2 ^ (7 * Z.of_nat max) → v < 2 ^ 64 →
  (max <= outSize)%nat →
  ∃ bs, encodeImpl v outSize max = Ok bs ∧ length bs = encodedSizeImpl v ∧
        (length bs <= max)%nat ∧ decodeImpl (bs ++ rest) max = Ok (v, length bs).
Proof.
  unfold kMaxVarInt64Bytes. intros Hm Hv H64 Ho.
  destruct (encode_loop_spec max v [] ltac:(lia) Hv) as (bs & He & Hbs & Hl).
  exists bs. unfold encodeImpl, decodeImpl. rewrite He. cbn [mbind outcome_bind app].
  rewrite (proj2 (Nat.ltb_ge outSize (length bs))) by lia.
  repeat split; [|done|].
  - unfold encodedSizeImpl, kMaxVarInt64Bytes. rewrite (varint_size v bs Hbs) by lia.
    destruct Hbs; simpl; lia.
  - rewrite (decode_loop_spec v bs Hbs) by lia. f_equal. f_equal; lia.
Qed.

(** ** ZigZag *)

Lemma lxor_ones m w : 0 <= w → 0 <= m < 2 ^ w → Z.lxor m (Z.ones w) = Z.ones w - m.
Proof.
  intros Hw Hm.
  assert (Hhigh : ∀ i, w <= i → Z.testbit m i = false).
  { intros i Hi. destruct (decide (m = 0)) as [->|]; [apply Z.bits_0|].
    apply Z.bits_above_log2; [lia|]. assert (Z.log2 m < w) by (apply Z.log2_lt_pow2; lia). lia. }
  rewrite Z.sub_nocarry_ldiff.
  - apply Z.bits_inj'. intros i Hi. rewrite Z.lxor_spec, Z.ldiff_spec.
    destruct (decide (i < w)).
    + rewrite Z.ones_spec_low by lia. by destruct (Z.testbit m i).
    + rewrite Z.ones_spec_high, Hhigh by lia. done.
  - apply Z.bits_inj'. intros i Hi. rewrite Z.ldiff_spec, Z.bits_0.
    destruct (decide (i < w)).
    + rewrite Z.ones_spec_low by lia. by rewrite andb_false_r.
    + by rewrite Hhigh by lia.
Qed.

Lemma lxor_even_1 m : Z.lxor (2 * m) 1 = 2 * m + 1.
Proof.
  assert (Hl : Z.land (2 * m) 1 = 0).
  { change 1 with (Z.ones 1). rewrite Z.land_ones by lia. change (2 ^ 1) with 2. lia. }
  by rewrite <-Z.add_nocarry_lxor.
Qed.

Lemma unzigzag_zigzag w n :
  1 < w → - 2 ^ (w - 1) <= n < 2 ^ (w - 1) →
  in_u w (zigzag w n) ∧
  unzigzag w (zigzag w n) = if 0 <=? n then n else - 2 ^ (w - 1) - 1 - n.
Proof.
  intros Hw Hn. set (h := 2 ^ (w - 1)) in *.
  assert (Hh : 2 ^ w = 2 * h).
  { unfold h. rewrite <-Z.pow_succ_r by lia. f_equal. lia. }
  assert (Hodd : ∀ m, Z.shiftr (2 * m) 1 = m ∧ Z.shiftr (2 * m + 1) 1 = m ∧
                      Z.land (2 * m) 1 = 0 ∧ Z.land (2 * m + 1) 1 = 1).
  { intros m. change 1 with (Z.ones 1) at 4 6. rewrite !Z.land_ones, !Z.shiftr_div_pow2 by lia.
    change (2 ^ 1) with 2. lia. }
  unfold zigzag, unzigzag, sgn, wrap, in_u. fold h. rewrite Hh.
  rewrite !Z.shiftl_mul_pow2, !(Z.shiftr_div_pow2 _ (w - 1)) by lia. fold h. change (2 ^ 1) with 2.
  destruct (0 <=? n) eqn:E; bools.
  - rewrite (Z.mod_small n) by lia. rewrite (Z.div_small n h), Z.lxor_0_r by lia.
    rewrite Z.mul_comm, Z.mod_small by lia. destruct (Hodd n) as (-> & _ & -> & _).
    split; [lia|]. rewrite Z.mod_small, Z.lxor_0_r by lia.
    by replace (n <? h) with true by lia.
  - assert (∃ m, m = n + h ∧ 0 <= m < h) as (m & Hm & Hmr) by (exists (n + h); lia).
    replace (n mod (2 * h)) with (h + m) by (apply (Z.mod_unique n (2 * h) (-1)); lia).
    replace ((h + m) / h) with 1 by (apply (Z.div_unique _ _ _ m); lia).
    replace (((h + m) * 2) mod (2 * h)) with (2 * m)
      by (apply (Z.mod_unique _ _ 1); lia).
    rewrite lxor_even_1. destruct (Hodd m) as (_ & -> & _ & ->). split; [lia|].
    replace (Z.opp 1 mod (2 * h)) with (Z.ones w)
      by (rewrite Z.ones_equiv, Hh; apply (Z.mod_unique _ _ (-1)); lia).
    rewrite lxor_ones by lia. rewrite Z.ones_equiv, Hh.
    destruct (Z.ltb_spec (Z.pred (2 * h) - m) h); lia.
Qed.

(** Unsigned varints round-trip: every 64-bit (32-bit) value is encoded,
    the number of bytes is the one [encodedSizeU64] ([encodedSizeU32]) predicts
    and stays within the ten (five) byte buffer the writer provides, and
    decoding the bytes, whatever follows them, gives the value back and
    consumes exactly those bytes. *)
Theorem varint_unsigned_roundtrip v rest :
  (in_u 64 v →
   ∃ bs, encodeU64 v kMaxVarInt64Bytes = Ok bs ∧ length bs = encodedSizeU64 v ∧
         (length bs <= kMaxVarInt64Bytes)%nat ∧ decodeU64 (bs ++ rest) = Ok (v, length bs)) ∧
  (in_u 32 v →
   ∃ bs, encodeU32 v kMaxVarInt32Bytes = Ok bs ∧ length bs = encodedSizeU32 v ∧
         (length bs <= kMaxVarInt32Bytes)%nat ∧ decodeU32 (bs ++ rest) = Ok (v, length bs)).
Proof.
  unfold in_u, kMaxVarInt64Bytes, kMaxVarInt32Bytes. split; intros Hv.
  - apply (encodeImpl_roundtrip 10); unfold kMaxVarInt64Bytes; lia.
  - destruct (encodeImpl_roundtrip 5 5 v rest) as (bs & He & Hs & Hl & Hd);
      unfold kMaxVarInt64Bytes; [lia..|].
    exists bs. repeat split; [done..|]. unfold decodeU32, kMaxVarInt32Bytes. rewrite Hd.
    cbn [mbind outcome_bind]. rewrite (proj2 (Z.ltb_ge _ _)) by lia. by rewrite u32_small by lia.
Qed.

(** The signed varints do not round-trip on negative numbers.  The code
    computes ZigZag with an unsigned right shift, so a 32-bit [n] decodes to
    itself exactly when [n >= 0], and a negative [n] decodes to
    [-2^31 - 1 - n]. *)
Theorem varint_signed_roundtrip_iff n rest :
  - 2 ^ 31 <= n < 2 ^ 31 →
  ∃ bs, encodeS32 n kMaxVarInt32Bytes = Ok bs ∧ length bs = encodedSizeS32 n ∧
        decodeS32 (bs ++ rest) = Ok (if 0 <=? n then n else - 2 ^ 31 - 1 - n, length bs) ∧
        (decodeS32 (bs ++ rest) = Ok (n, length bs) ↔ 0 <= n).
Proof.
  intros Hn. destruct (unzigzag_zigzag 32 n ltac:(lia) Hn) as [Hz Hu].
  destruct (encodeImpl_roundtrip 5 5 (zigzag 32 n) rest) as (bs & He & Hs & Hl & Hd);
    unfold in_u, kMaxVarInt64Bytes in *; [lia..|].
  exists bs. unfold decodeS32, decodeU32, kMaxVarInt32Bytes. rewrite Hd.
  cbn [mbind outcome_bind]. rewrite (proj2 (Z.ltb_ge _ _)) by lia.
  cbn [mbind outcome_bind]. rewrite u32_small, Hu by lia.
  repeat split; [done..|intros [= Heq]|intros]; destruct (Z.leb_spec 0 n); lia || done.
Qed.

Lemma varint_signed_roundtrip_iff_witness :
  (- 2 ^ 31 <= -1 < 2 ^ 31) ∧
  ∃ bs, encodeS32 (-1) kMaxVarInt32Bytes = Ok bs ∧ length bs = encodedSizeS32 (-1) ∧
        decodeS32 (bs ++ []) = Ok (if 0 <=? -1 then -1 else - 2 ^ 31 - 1 - (-1), length bs) ∧
        (decodeS32 (bs ++ []) = Ok (-1, length bs) ↔ 0 <= -1).
Proof. split; [lia|]. apply varint_signed_roundtrip_iff. lia. Defined.

(** Decoding bytes of any origin stays within the width and the input. *)
Lemma decode_loop_bounds rem input acc s i v c :
  bytes_ok input → 0 <= s → in_u 64 acc →
  decode_loop rem input acc s i = Ok (v, c) →
  in_u 64 v ∧ (i < c <= i + rem)%nat ∧ (c <= i + length input)%nat.
Proof.
  revert input acc s i. induction rem as [|rem IH]; intros [|b input] acc s i Hb Hs Ha;
    cbn [decode_loop]; try discriminate.
  apply Forall_cons in Hb as [Hb Hin].
  assert (Hu : in_u 64 (Z.lor acc (u64 (Z.shiftl (Z.land b 127) s)))).
  { pose proof (wrap_range 64 (Z.shiftl (Z.land b 127) s) ltac:(lia)) as Hw. fold u64 in Hw.
    unfold in_u, u64 in *. split; [apply Z.lor_nonneg; lia|].
    apply Z.log2_lt_cancel. rewrite Z.log2_lor, Z.log2_pow2 by lia.
    assert (∀ x, 0 <= x < 2 ^ 64 → Z.log2 x < 64) as Hlog; [|apply Z.max_lub_lt; auto].
    intros x Hx. destruct (decide (x = 0)) as [->|]; [done|]. apply Z.log2_lt_pow2; lia. }
  destruct (_ =? 0); [intros [= <- <-]; cbn; repeat split; [apply Hu..|lia|lia|lia]|].
  destruct (_ && _); [done|]. intros (Hv & Hc & Hl)%IH; [cbn; repeat split; [apply Hv..|lia|lia|lia]|done|lia|done].
Qed.

(** Decoding untrusted bytes is safe: a successful [decodeU64] returns a
    64-bit value and consumes at least one byte, at most ten, and never more
    than the input holds; [decodeU32] returns a 32-bit value and consumes at
    most five; with no input both report corruption. *)
Theorem varint_decode_safe input :
  bytes_ok input →
  (∀ v c, decodeU64 input = Ok (v, c) → in_u 64 v ∧ (0 < c <= 10)%nat ∧ (c <= length input)%nat) ∧
  (∀ v c, decodeU32 input = Ok (v, c) → in_u 32 v ∧ (0 < c <= 5)%nat ∧ (c <= length input)%nat) ∧
  (input = [] → is_ok (decodeU64 input) = false ∧ is_ok (decodeU32 input) = false).
Proof.
  intros Hb. split; [|split].
  - intros v c H. apply (decode_loop_bounds _ _ _ _ _ _ _ Hb) in H; unfold in_u, kMaxVarInt64Bytes in *; lia.
  - intros v c. unfold decodeU32.
    destruct (decodeImpl input kMaxVarInt32Bytes) as [[t n]| | | |] eqn:E; try discriminate.
    cbn. case_test; [discriminate|]. intros [= <- <-]. bools.
    apply (decode_loop_bounds _ _ _ _ _ _ _ Hb) in E; unfold in_u, kMaxVarInt32Bytes in *; [|lia..].
    rewrite u32_small; lia.
  - intros ->. done.
Qed.

Lemma varint_decode_safe_witness :
  bytes_ok [0x80; 0x01] ∧
  (∀ v c, decodeU64 [0x80; 0x01] = Ok (v, c) → in_u 64 v ∧ (0 < c <= 10)%nat ∧ (c <= 2)%nat).
Proof.
  assert (Hb : bytes_ok [0x80; 0x01]) by (repeat constructor; lia).
  split; [done|]. exact (proj1 (varint_decode_safe _ Hb)).
Defined.

(** A ten-byte encoding whose last group does not fit in the remaining bit is
    accepted and truncated. *)
Example decodeU64_truncates : decodeU64 (replicate 9 0x80 ++ [0x7E]) = Ok (0, 10%nat).
Proof. reflexivity. Qed.

Lemma varint_unsigned_roundtrip_witness :
  in_u 64 300 ∧
  ∃ bs, encodeU64 300 kMaxVarInt64Bytes = Ok bs ∧ length bs = encodedSizeU64 300 ∧
        (length bs <= kMaxVarInt64Bytes)%nat ∧ decodeU64 (bs ++ [7]) = Ok (300, length bs).
Proof.
  assert (H : in_u 64 300) by (unfold in_u; lia).
  split; [exact H|]. exact (proj1 (varint_unsigned_roundtrip 300 [7]) H).
Defined.
