(* ===== verification/Endian.v ===== *)
(** Byte order (src/include/quartz/util/Endian.h).  The host order is a
    parameter of every definition: [mem_store]/[mem_load] are the memory image
    of an integer on that host, and the [swapN] are the portable bodies of the
    header, shown equal to byte reversal (what the compiler builtins compute). *)
From stdpp Require Import base list.
From Stdlib Require Import ZArith Lia.
From S2P Require Import Prelude.

Inductive Order : Set := Little | Big.

(** [memcpy] of an [n]-byte integer to and from memory on the host. *)
Definition mem_store (host : Order) (n : nat) (v : Z) : list Z :=
  match host with Little => le_bytes n v | Big => rev (le_bytes n v) end.
Definition mem_load (host : Order) (bs : list Z) : Z :=
  match host with Little => le_value bs | Big => le_value (rev bs) end.

(** The run-time test of the header: the first byte of 0x0001. *)
Definition isLittleEndian (host : Order) : bool :=
  match mem_store host 2 0x0001 with b :: _ => b =? 0x01 | [] => false end.
Definition isBigEndian (host : Order) : bool := negb (isLittleEndian host).
Definition nativeOrder (host : Order) : Order :=
  if isLittleEndian host then Little else Big.

Definition swap16 (value : Z) : Z :=
  u16 (Z.lor (Z.shiftl value 8) (Z.shiftr value 8)).
Definition swap32 (value : Z) : Z :=
  Z.lor (Z.lor (Z.land (Z.shiftr value 24) 0x000000FF) (Z.land (Z.shiftr value 8) 0x0000FF00))
        (Z.lor (Z.land (u32 (Z.shiftl value 8)) 0x00FF0000)
               (Z.land (u32 (Z.shiftl value 24)) 0xFF000000)).
Definition swap64 (value : Z) : Z :=
  let lo := u32 (Z.land value 0xFFFFFFFF) in
  let hi := u32 (Z.shiftr value 32) in
  Z.lor (u64 (Z.shiftl (swap32 lo) 32)) (swap32 hi).

Definition readLE16 (host : Order) (p : list Z) : Z :=
  let value := mem_load host (take 2 p) in if isBigEndian host then swap16 value else value.
Definition readLE32 (host : Order) (p : list Z) : Z :=
  let value := mem_load host (take 4 p) in if isBigEndian host then swap32 value else value.
Definition readLE64 (host : Order) (p : list Z) : Z :=
  let value := mem_load host (take 8 p) in if isBigEndian host then swap64 value else value.
Definition readBE16 (host : Order) (p : list Z) : Z :=
  let value := mem_load host (take 2 p) in if isLittleEndian host then swap16 value else value.
Definition readBE32 (host : Order) (p : list Z) : Z :=
  let value := mem_load host (take 4 p) in if isLittleEndian host then swap32 value else value.
Definition readBE64 (host : Order) (p : list Z) : Z :=
  let value := mem_load host (take 8 p) in if isLittleEndian host then swap64 value else value.
Definition writeLE16 (host : Order) (value : Z) : list Z :=
  mem_store host 2 (if isBigEndian host then swap16 value else value).
Definition writeLE32 (host : Order) (value : Z) : list Z :=
  mem_store host 4 (if isBigEndian host then swap32 value else value).
Definition writeLE64 (host : Order) (value : Z) : list Z :=
  mem_store host 8 (if isBigEndian host then swap64 value else value).
Definition writeBE16 (host : Order) (value : Z) : list Z :=
  mem_store host 2 (if isLittleEndian host then swap16 value else value).
Definition writeBE32 (host : Order) (value : Z) : list Z :=
  mem_store host 4 (if isLittleEndian host then swap32 value else value).
Definition writeBE64 (host : Order) (value : Z) : list Z :=
  mem_store host 8 (if isLittleEndian host then swap64 value else value).

(** Byte reversal of an [n]-byte integer. *)
Definition bswap (n : nat) (v : Z) : Z := le_value (rev (le_bytes n v)).

Lemma rev_bytes_ok bs : bytes_ok bs → bytes_ok (rev bs).
Proof. intros. by apply Forall_rev. Qed.

Lemma bswap_bytes n v : le_bytes n (bswap n v) = rev (le_bytes n v).
Proof.
  unfold bswap. rewrite <-(length_le_bytes n v) at 1. rewrite <-length_rev.
  apply le_bytes_value, rev_bytes_ok, le_bytes_ok.
Qed.

Lemma bswap_involutive n v : in_u (8 * Z.of_nat n) v → bswap n (bswap n v) = v.
Proof.
  intros Hv. unfold bswap at 1. rewrite bswap_bytes, rev_involutive.
  apply le_value_small. unfold in_u in Hv. rewrite Z.pow_mul_r in Hv by lia. done.
Qed.

(** The value of a four-byte image, and the byte a shift-and-mask extracts. *)
Lemma byte_land v k m : 0 <= k → m = Z.shiftl 0xFF k → Z.land v m = ((v / 2 ^ k) mod 256) * 2 ^ k.
Proof.
  intros Hk ->. rewrite <-Z.shiftl_mul_pow2 by done.
  rewrite <-(Z.shiftr_div_pow2 v k) by done. change 256 with (2 ^ 8).
  rewrite <-Z.land_ones by lia. apply Z.bits_inj'. intros i Hi.
  rewrite Z.land_spec, !Z.shiftl_spec, Z.land_spec by done.
  destruct (decide (i < k)).
  - rewrite (Z.testbit_neg_r _ (i - k)) by lia. rewrite andb_false_r.
    by rewrite (Z.testbit_neg_r (Z.ones 8)), andb_false_r by lia.
  - rewrite Z.shiftr_spec by lia. do 2 f_equal. lia.
Qed.

Lemma swap32_bswap v : in_u 32 v → swap32 v = bswap 4 v.
Proof.
  unfold in_u. intros Hv. unfold swap32, bswap, u32, wrap. cbn -[Z.land Z.lor Z.shiftl Z.shiftr Z.modulo Z.div Z.mul Z.add].
  rewrite (byte_land (v ≫ 24) 0 0xFF), (byte_land (v ≫ 8) 8 0xFF00),
    (byte_land _ 16 0xFF0000), (byte_land _ 24 0xFF000000) by (lia || done).
  rewrite !Z.shiftr_div_pow2, !Z.shiftl_mul_pow2 by lia.
  replace (2 ^ 0) with 1 by done. change (2 ^ 8) with 256. change (2 ^ 16) with 65536.
  change (2 ^ 24) with 16777216. change (2 ^ 32) with 4294967296 in *.
  replace ((v / 16777216 / 1) mod 256 * 1) with (v / 16777216) by lia.
  replace ((v / 256 / 256) mod 256) with (v / 65536 mod 256) by lia.
  replace ((v * 256) mod 4294967296 / 65536 mod 256) with (v / 256 mod 256) by lia.
  replace ((v * 16777216) mod 4294967296 / 16777216 mod 256) with (v mod 256) by lia.
  rewrite (Z.lor_comm (v / 16777216)).
  change 256 with (2 ^ 8) at 2. rewrite (lor_disjoint (v / 16777216)) by lia.
  rewrite (Z.lor_comm (v / 256 mod 256 * 65536)).
  change 16777216 with (2 ^ 24) at 2. rewrite (lor_disjoint (v / 256 mod 256 * 65536)) by lia.
  rewrite Z.lor_comm.
  replace (v mod 256 * 2 ^ 24 + v / 256 mod 256 * 65536)
    with ((v mod 256 * 256 + v / 256 mod 256) * 2 ^ 16) by lia.
  rewrite lor_disjoint by lia. lia.
Qed.

Lemma swap16_bswap v : in_u 16 v → swap16 v = bswap 2 v.
Proof.
  unfold in_u. intros Hv. unfold swap16, bswap, u16, wrap.
  rewrite Z.shiftl_mul_pow2, Z.shiftr_div_pow2 by lia.
  rewrite lor_disjoint by lia. cbn -[Z.modulo Z.div Z.mul Z.add Z.pow].
  change (2 ^ 8) with 256. change (2 ^ 16) with 65536 in *. lia.
Qed.

Lemma bswap_range n v : in_u (8 * Z.of_nat n) (bswap n v).
Proof.
  unfold in_u, bswap. rewrite Z.pow_mul_r by lia. change (2 ^ 8) with 256.
  pose proof (le_value_range (rev (le_bytes n v)) (rev_bytes_ok _ (le_bytes_ok n v))) as H.
  by rewrite length_rev, length_le_bytes in H.
Qed.

Lemma swap64_bswap v : in_u 64 v → swap64 v = bswap 8 v.
Proof.
  intros Hv. assert (E32 : 2 ^ 64 = 2 ^ 32 * 2 ^ 32) by done. unfold in_u in Hv.
  unfold swap64. change 0xFFFFFFFF with (Z.ones 32). rewrite Z.land_ones by lia.
  rewrite Z.shiftr_div_pow2 by lia.
  assert (Hhi : 0 <= v / 2 ^ 32 < 2 ^ 32) by (split; [lia|apply Z.div_lt_upper_bound; lia]).
  assert (Hlo : 0 <= v mod 2 ^ 32 < 2 ^ 32) by (apply Z.mod_pos_bound; lia).
  rewrite !u32_small, !swap32_bswap by done.
  pose proof (bswap_range 4 (v mod 2 ^ 32)) as Hb. pose proof (bswap_range 4 (v / 2 ^ 32)) as Hc.
  change (8 * Z.of_nat 4) with 32 in *. unfold in_u in Hb, Hc.
  rewrite Z.shiftl_mul_pow2 by lia. rewrite u64_small by nia. rewrite lor_disjoint by lia.
  unfold bswap. rewrite le_bytes_mod by (try done; exists 1; done).
  change (le_bytes 8 v) with (le_bytes (4 + 4) v).
  rewrite (le_bytes_app 4 4 v), rev_app_distr, le_value_app, length_rev, length_le_bytes.
  change (256 ^ Z.of_nat 4) with (2 ^ 32). lia.
Qed.

Lemma host_tests host :
  isLittleEndian host = match host with Little => true | Big => false end ∧
  isBigEndian host = match host with Little => false | Big => true end.
Proof. by destruct host. Qed.

Lemma mem_store_LE host n v (swap : Z → Z) :
  swap v = bswap n v →
  mem_store host n (if isBigEndian host then swap v else v) = le_bytes n v.
Proof.
  intros Hs. rewrite (proj2 (host_tests host)). destruct host; [done|].
  cbn [mem_store]. rewrite Hs, bswap_bytes. apply rev_involutive.
Qed.

Lemma mem_store_BE host n v (swap : Z → Z) :
  swap v = bswap n v →
  mem_store host n (if isLittleEndian host then swap v else v) = rev (le_bytes n v).
Proof.
  intros Hs. rewrite (proj1 (host_tests host)). destruct host; [|done].
  cbn [mem_store]. by rewrite Hs, bswap_bytes.
Qed.

Lemma mem_load_LE host n v (swap : Z → Z) :
  (∀ x, in_u (8 * Z.of_nat n) x → swap x = bswap n x) → in_u (8 * Z.of_nat n) v →
  let x := mem_load host (take n (le_bytes n v)) in (if isBigEndian host then swap x else x) = v.
Proof.
  intros Hs Hv x. unfold x. rewrite take_ge by (rewrite length_le_bytes; lia).
  assert (H256 : 0 <= v < 256 ^ Z.of_nat n)
    by (unfold in_u in Hv; rewrite Z.pow_mul_r in Hv by lia; done).
  rewrite (proj2 (host_tests host)). destruct host; cbn [mem_load]; [by apply le_value_small|].
  change (le_value (rev (le_bytes n v))) with (bswap n v).
  rewrite Hs by apply bswap_range. by apply bswap_involutive.
Qed.

Lemma mem_load_BE host n v (swap : Z → Z) :
  (∀ x, in_u (8 * Z.of_nat n) x → swap x = bswap n x) → in_u (8 * Z.of_nat n) v →
  let x := mem_load host (take n (rev (le_bytes n v))) in (if isLittleEndian host then swap x else x) = v.
Proof.
  intros Hs Hv x. unfold x. rewrite take_ge by (rewrite length_rev, length_le_bytes; lia).
  assert (H256 : 0 <= v < 256 ^ Z.of_nat n)
    by (unfold in_u in Hv; rewrite Z.pow_mul_r in Hv by lia; done).
  rewrite (proj1 (host_tests host)).
  destruct host; cbn [mem_load]; [|rewrite rev_involutive; by apply le_value_small].
  change (le_value (rev (le_bytes n v))) with (bswap n v).
  rewrite Hs by apply bswap_range. by apply bswap_involutive.
Qed.

(** Byte order is portable: on a host of either order [writeLE32]/[writeLE64]
    store the little-endian image and [writeBE32]/[writeBE64] the reversed one,
    and each read function gives back what the matching write stored. *)
Theorem endian_portable_roundtrip host v :
  (in_u 32 v →
   writeLE32 host v = le_bytes 4 v ∧ writeBE32 host v = rev (le_bytes 4 v) ∧
   readLE32 host (writeLE32 host v) = v ∧ readBE32 host (writeBE32 host v) = v) ∧
  (in_u 64 v →
   writeLE64 host v = le_bytes 8 v ∧ writeBE64 host v = rev (le_bytes 8 v) ∧
   readLE64 host (writeLE64 host v) = v ∧ readBE64 host (writeBE64 host v) = v) ∧
  (in_u 16 v →
   writeLE16 host v = le_bytes 2 v ∧ writeBE16 host v = rev (le_bytes 2 v) ∧
   readLE16 host (writeLE16 host v) = v ∧ readBE16 host (writeBE16 host v) = v).
Proof.
  unfold writeLE32, writeBE32, writeLE64, writeBE64, writeLE16, writeBE16.
  split; [|split]; intros Hv;
    (rewrite mem_store_LE, mem_store_BE by auto using swap16_bswap, swap32_bswap, swap64_bswap);
    repeat split;
    first [ apply (mem_load_LE host 4) | apply (mem_load_BE host 4)
          | apply (mem_load_LE host 8) | apply (mem_load_BE host 8)
          | apply (mem_load_LE host 2) | apply (mem_load_BE host 2) ];
    auto using swap16_bswap, swap32_bswap, swap64_bswap.
Qed.

Lemma endian_portable_roundtrip_witness :
  in_u 32 0x01020304 ∧
  writeLE32 Big 0x01020304 = le_bytes 4 0x01020304 ∧ writeBE32 Big 0x01020304 = rev (le_bytes 4 0x01020304) ∧
  readLE32 Big (writeLE32 Big 0x01020304) = 0x01020304 ∧ readBE32 Big (writeBE32 Big 0x01020304) = 0x01020304.
Proof.
  assert (H : in_u 32 0x01020304) by (unfold in_u; lia).
  split; [exact H|]. exact (proj1 (endian_portable_roundtrip Big 0x01020304) H).
Defined.
