(* ===== verification/Buffers.v ===== *)
(** Byte buffers and binary I/O (src/src/serialization/Buffer.cpp,
    BufferView.cpp, BinaryWriter.cpp, BinaryReader.cpp, Serializer.cpp and the
    templates of their headers).

    A [Buffer] is the [std::vector<uint8_t>] it wraps: its elements and its
    capacity.  [resize] value-initialises the elements it appends, whatever was
    stored in the spare capacity before; that is what makes the writer's
    [memcpy]-then-[resize] lose the bytes it appends.  Sizes and offsets are
    [size_t], so sums wrap at 64 bits.  The host is little-endian: a trivially
    copyable integer is read and written as its [le_bytes] image. *)
From stdpp Require Import base strings list pretty.
From Stdlib Require Import ZArith Lia.
From S2P Require Import Prelude VarInt Endian.

Definition zlen {A} (l : list A) : Z := Z.of_nat (length l).
Definition ztake {A} (n : Z) (l : list A) : list A := take (Z.to_nat n) l.
Definition zdrop {A} (n : Z) (l : list A) : list A := drop (Z.to_nat n) l.

(** ** Buffer *)

Record Buffer : Set := mkBuffer { buf_bytes : list Z; buf_capacity : Z }.

Definition kMinCapacity : Z := 64.
Definition Buffer_empty : Buffer := mkBuffer [] 0.
Definition Buffer_size (b : Buffer) : Z := zlen (buf_bytes b).

(** [Buffer(initialCapacity)]. *)
Definition Buffer_make (initialCapacity : Z) : Buffer :=
  mkBuffer [] (Z.max initialCapacity kMinCapacity).

Definition Buffer_reserve (newCapacity : Z) (b : Buffer) : Buffer :=
  if buf_capacity b <? newCapacity then mkBuffer (buf_bytes b) newCapacity else b.

(** [std::vector::resize]: truncates, or appends zero bytes; when it has to
    reallocate, the capacity becomes what the library grows it to. *)
Definition Buffer_resize (newSize : Z) (b : Buffer) : Buffer :=
  mkBuffer (ztake newSize (buf_bytes b) ++ zeros (Z.to_nat (newSize - Buffer_size b)))
    (if buf_capacity b <? newSize
     then Buffer_size b + Z.max (Buffer_size b) (newSize - Buffer_size b)
     else buf_capacity b).

Definition Buffer_clear (b : Buffer) : Buffer := mkBuffer [] (buf_capacity b).

(** The move constructor, and the move assignment of two buffers (an
    assignment of a buffer to itself is guarded and does nothing): the first
    component is the target, the second what is left of the source, which has
    given up its storage. *)
Definition Buffer_move (other : Buffer) : Buffer * Buffer := (other, Buffer_empty).
Definition Buffer_moveAssign (self other : Buffer) (same : bool) : Buffer * Buffer :=
  if same then (self, self) else (other, Buffer_empty).
Definition Buffer_swap (self other : Buffer) : Buffer * Buffer := (other, self).

(** [while (newCap < needed) newCap *= 2;]: 64 doublings of a positive 64-bit
    number leave it zero, so more rounds change nothing. *)
Fixpoint doubling (fuel : nat) (newCap needed : Z) : outcome Z :=
  if newCap <? needed then
    match fuel with O => Fuel | S fuel => doubling fuel (u64 (newCap * 2)) needed end
  else Ok newCap.

Definition Buffer_grow (minCapacity : Z) (b : Buffer) : outcome Buffer :=
  newCap ← doubling 64 (Z.max (u64 (buf_capacity b * 2)) kMinCapacity) minCapacity;
  Ok (Buffer_reserve newCap b).

(** [append(src, count)]: grow, [resize], then [memcpy]. *)
Definition Buffer_append (src : list Z) (b : Buffer) : outcome Buffer :=
  if zlen src =? 0 then Ok b
  else
    let needed := Buffer_size b + zlen src in
    b ← (if buf_capacity b <? needed then Buffer_grow needed b else Ok b);
    let oldSize := Buffer_size b in
    let b := Buffer_resize (oldSize + zlen src) b in
    Ok (mkBuffer (splice (Z.to_nat oldSize) src (buf_bytes b)) (buf_capacity b)).

Definition Buffer_at (index : Z) (b : Buffer) : outcome Z :=
  if Buffer_size b <=? index then Throw "Buffer::at: index out of range"
  else Prelude.index (buf_bytes b) (Z.to_nat index).

(** ** BufferView *)

Definition BufferView_at (index : Z) (v : list Z) : outcome Z :=
  if zlen v <=? index then Throw "BufferView::at: index out of range"
  else Prelude.index v (Z.to_nat index).
Definition BufferView_subview (offset count : Z) (v : list Z) : list Z :=
  if zlen v <? offset then []
  else let actualCount := Z.min count (zlen v - offset) in ztake actualCount (zdrop offset v).
Definition BufferView_slice (offset : Z) (v : list Z) : list Z :=
  if zlen v <? offset then [] else zdrop offset v.
Definition BufferView_remove_prefix (n : Z) (v : list Z) : list Z :=
  zdrop (Z.min n (zlen v)) v.
Definition BufferView_remove_suffix (n : Z) (v : list Z) : list Z :=
  ztake (zlen v - Z.min n (zlen v)) v.

(** ** BinaryWriter *)

Record BinaryWriter : Set := mkWriter { w_buffer : Buffer; w_offset : Z }.

(** [BinaryWriter(buffer)] starts at the end of the buffer. *)
Definition BinaryWriter_make (b : Buffer) : BinaryWriter := mkWriter b (Buffer_size b).

Definition BinaryWriter_remainingCapacity (w : BinaryWriter) : Z :=
  if buf_capacity (w_buffer w) <? w_offset w then 0 else buf_capacity (w_buffer w) - w_offset w.

Definition BinaryWriter_seek (position : Z) : M BinaryWriter unit := λ w,
  if Buffer_size (w_buffer w) <? position
  then (invalidArgument "BinaryWriter::seek: position out of range", w)
  else (Ok tt, mkWriter (w_buffer w) position).

Definition ensureCapacity (needed : Z) : M BinaryWriter unit := λ w,
  let b := w_buffer w in
  if needed <=? buf_capacity b then (Ok tt, w)
  else
    match doubling 64 (Z.max (u64 (buf_capacity b * 2)) kMinCapacity) needed with
    | Ok newCap => (Ok tt, mkWriter (Buffer_reserve newCap b) (w_offset w))
    | _ => (Fuel, w)
    end.

(** [offset_ += count; if (offset_ > buffer_.size()) buffer_.resize(offset_);] *)
Definition advance (count : Z) : M BinaryWriter unit := modify (λ w,
  let offset := u64 (w_offset w + count) in
  mkWriter (if Buffer_size (w_buffer w) <? offset
            then Buffer_resize offset (w_buffer w) else w_buffer w) offset).

Definition BinaryWriter_skip (count : Z) : M BinaryWriter unit :=
  off ← gets w_offset;
  _ ← ensureCapacity (u64 (off + count));
  advance count.

Definition BinaryWriter_align (alignment : Z) : M BinaryWriter unit := λ w,
  if alignment =? 0 then (Ok tt, w)
  else
    let misalignment := w_offset w mod alignment in
    if misalignment =? 0 then (Ok tt, w) else BinaryWriter_skip (alignment - misalignment) w.

(** [memcpy(buffer_.data() + offset_, src, count)]: what falls inside the
    vector's elements is stored in them; the rest goes to spare capacity, which
    holds no element of the vector. *)
Definition memcpy_into (offset : Z) (src : list Z) (b : Buffer) : Buffer :=
  mkBuffer (splice (Z.to_nat offset) (ztake (Buffer_size b - offset) src) (buf_bytes b))
    (buf_capacity b).

Definition BinaryWriter_writeBytes (src : list Z) : M BinaryWriter unit :=
  if zlen src =? 0 then mret tt
  else
    off ← gets w_offset;
    _ ← ensureCapacity (u64 (off + zlen src));
    _ ← modify (λ w, mkWriter (memcpy_into (w_offset w) src (w_buffer w)) (w_offset w));
    advance (zlen src).

(** [write<T>] for an integer of [n] bytes. *)
Definition BinaryWriter_write (n : nat) (v : Z) : M BinaryWriter unit :=
  BinaryWriter_writeBytes (le_bytes n v).

(** [writeLE<T>]/[writeBE<T>]: the value is widened to a zeroed 64-bit [raw],
    converted as 64 bits, and its first [sizeof(T)] bytes are written. *)
Definition BinaryWriter_writeLE (host : Order) (n : nat) (v : Z) : M BinaryWriter unit :=
  let raw := mem_load host (mem_store host n v ++ zeros (8 - n)) in
  BinaryWriter_writeBytes (take n (writeLE64 host raw)).
Definition BinaryWriter_writeBE (host : Order) (n : nat) (v : Z) : M BinaryWriter unit :=
  let raw := mem_load host (mem_store host n v ++ zeros (8 - n)) in
  BinaryWriter_writeBytes (take n (writeBE64 host raw)).

Definition BinaryWriter_writeVarU32 (v : Z) : M BinaryWriter unit :=
  buf ← lift (encodeU32 v kMaxVarInt32Bytes); BinaryWriter_writeBytes buf.
Definition BinaryWriter_writeVarU64 (v : Z) : M BinaryWriter unit :=
  buf ← lift (encodeU64 v kMaxVarInt64Bytes); BinaryWriter_writeBytes buf.
Definition BinaryWriter_writeVarS32 (v : Z) : M BinaryWriter unit :=
  buf ← lift (encodeS32 v kMaxVarInt32Bytes); BinaryWriter_writeBytes buf.
Definition BinaryWriter_writeVarS64 (v : Z) : M BinaryWriter unit :=
  buf ← lift (encodeS64 v kMaxVarInt64Bytes); BinaryWriter_writeBytes buf.

Definition BinaryWriter_overwriteAt (position : Z) (src : list Z) : M BinaryWriter unit := λ w,
  if Buffer_size (w_buffer w) <? u64 (position + zlen src)
  then (invalidArgument "BinaryWriter::overwriteAt: range out of bounds", w)
  else if Buffer_size (w_buffer w) <? position + zlen src then (UB, w)
  else (Ok tt, mkWriter (memcpy_into position src (w_buffer w)) (w_offset w)).

(** ** BinaryReader *)

Record BinaryReader : Set := mkReader { r_view : list Z; r_offset : Z }.

Definition BinaryReader_make (view : list Z) : BinaryReader := mkReader view 0.
Definition BinaryReader_remaining (r : BinaryReader) : Z := u64 (zlen (r_view r) - r_offset r).

Definition BinaryReader_seek (position : Z) : M BinaryReader unit := λ r,
  if zlen (r_view r) <? position
  then (invalidArgument "BinaryReader::seek: position out of range", r)
  else (Ok tt, mkReader (r_view r) position).

Definition BinaryReader_skip (count : Z) : M BinaryReader unit := λ r,
  if zlen (r_view r) <? u64 (r_offset r + count)
  then (corruption "BinaryReader::skip: unexpected end of input", r)
  else (Ok tt, mkReader (r_view r) (u64 (r_offset r + count))).

Definition BinaryReader_align (alignment : Z) : M BinaryReader unit := λ r,
  if alignment =? 0 then (Ok tt, r)
  else
    let misalignment := r_offset r mod alignment in
    if misalignment =? 0 then (Ok tt, r) else BinaryReader_skip (alignment - misalignment) r.

(** [readBytes(dest, count)]: the bytes stored in [dest].  The check is on the
    wrapped sum; a [count] that passes it only by wrapping copies outside the
    view. *)
Definition BinaryReader_readBytes (count : Z) : M BinaryReader (list Z) := λ r,
  if count =? 0 then (Ok [], r)
  else if zlen (r_view r) <? u64 (r_offset r + count)
  then (corruption "BinaryReader: unexpected end of input", r)
  else if zlen (r_view r) <? r_offset r + count then (UB, r)
  else (Ok (ztake count (zdrop (r_offset r) (r_view r))),
        mkReader (r_view r) (u64 (r_offset r + count))).

(** [readBytes(Buffer& dest, count)]. *)
Definition BinaryReader_readBuffer (dest : Buffer) (count : Z) : M BinaryReader Buffer := λ r,
  if zlen (r_view r) <? u64 (r_offset r + count)
  then (corruption "BinaryReader: unexpected end of input", r)
  else if zlen (r_view r) <? r_offset r + count then (UB, r)
  else
    match Buffer_append (ztake count (zdrop (r_offset r) (r_view r))) dest with
    | Ok b => (Ok b, mkReader (r_view r) (u64 (r_offset r + count)))
    | Err e => (Err e, r)
    | _ => (Fuel, r)
    end.

(** [read<T>] for an integer of [n] bytes. *)
Definition BinaryReader_read (n : nat) : M BinaryReader Z :=
  bs ← BinaryReader_readBytes (Z.of_nat n); mret (le_value bs).

Definition BinaryReader_readLE (host : Order) (n : nat) : M BinaryReader Z :=
  bs ← BinaryReader_readBytes (Z.of_nat n);
  mret (wrap (8 * Z.of_nat n) (readLE64 host (bs ++ zeros (8 - n)))).
Definition BinaryReader_readBE (host : Order) (n : nat) : M BinaryReader Z :=
  bs ← BinaryReader_readBytes (Z.of_nat n);
  mret (wrap (8 * Z.of_nat n) (readBE64 host (bs ++ zeros (8 - n)))).

(** The four [readVar*]: decode at the current position, then advance. *)
Definition readVar (decode : list Z → outcome (Z * nat)) : M BinaryReader Z := λ r,
  match decode (zdrop (r_offset r) (r_view r)) with
  | Ok (v, consumed) => (Ok v, mkReader (r_view r) (u64 (r_offset r + Z.of_nat consumed)))
  | Err e => (Err e, r)
  | Throw s => (Throw s, r)
  | UB => (UB, r)
  | Fuel => (Fuel, r)
  end.
Definition BinaryReader_readVarU32 : M BinaryReader Z := readVar decodeU32.
Definition BinaryReader_readVarU64 : M BinaryReader Z := readVar decodeU64.
Definition BinaryReader_readVarS32 : M BinaryReader Z := readVar decodeS32.
Definition BinaryReader_readVarS64 : M BinaryReader Z := readVar decodeS64.

Definition BinaryReader_remainingView (r : BinaryReader) : list Z :=
  BufferView_subview (r_offset r) (BinaryReader_remaining r) (r_view r).
Definition BinaryReader_ensure (count : Z) (r : BinaryReader) : outcome unit :=
  if zlen (r_view r) <? u64 (r_offset r + count)
  then corruption "BinaryReader: unexpected end of input" else Ok tt.
Definition BinaryReader_subReader (count : Z) (r : BinaryReader) : BinaryReader :=
  BinaryReader_make (BufferView_subview (r_offset r) count (r_view r)).

(** ** Serializer and the string trait *)

Definition kFormatMagic : Z := 0x51444253.
Definition kDefaultVersion : Z := 1.
Definition kLatestVersion : Z := 1.
Definition isVersionSupported (v : Z) : bool := (kDefaultVersion <=? v) && (v <=? kLatestVersion).

(** [Header { magic, version, dataSize }], sixteen bytes without padding. *)
Definition Serializer_writeHeader (version : Z) : M BinaryWriter unit :=
  BinaryWriter_writeBytes (le_bytes 4 kFormatMagic ++ le_bytes 4 version ++ le_bytes 8 0).

(** Returns the version stored in the context. *)
Definition Serializer_readHeader : M BinaryReader Z := λ r,
  match BinaryReader_readBytes 16 r with
  | (Ok bs, r) =>
      let magic := le_value (take 4 bs) in
      let version := le_value (take 4 (drop 4 bs)) in
      if negb (magic =? kFormatMagic) then (corruption "Serializer: invalid header magic", r)
      else if negb (isVersionSupported version)
      then (invalidArgument ("Serializer: unsupported version " +:+ pretty version), r)
      else (Ok version, r)
  | (Err _, r) => (corruption "Serializer: failed to read header", r)
  | (Throw s, r) => (Throw s, r)
  | (UB, r) => (UB, r)
  | (Fuel, r) => (Fuel, r)
  end.

(** [SerializationTraits<std::string>]. *)
Definition string_serialize (s : list Z) : M BinaryWriter unit :=
  _ ← BinaryWriter_writeVarU32 (u32 (zlen s)); BinaryWriter_writeBytes s.
Definition string_deserialize : M BinaryReader (list Z) :=
  len ← BinaryReader_readVarU32; BinaryReader_readBytes len.

(** ** The writer *)

(** Sizes below [2^62], far beyond any buffer the engine builds, keep every
    [size_t] sum of the writer from wrapping. *)
Definition Writer_ok (w : BinaryWriter) : Prop :=
  0 <= w_offset w <= Buffer_size (w_buffer w) ∧ Buffer_size (w_buffer w) <= 2 ^ 62 ∧
  0 <= buf_capacity (w_buffer w) <= 2 ^ 63.

(** The elements of the vector after [src] was written at [off]. *)
Definition written (off : Z) (src bytes : list Z) : list Z :=
  splice (Z.to_nat off) (ztake (zlen bytes - off) src) bytes ++
  zeros (Z.to_nat (off + zlen src - zlen bytes)).

Lemma zlen_app {A} (l k : list A) : zlen (l ++ k) = zlen l + zlen k.
Proof. unfold zlen. rewrite length_app. lia. Qed.
Lemma zlen_nonneg {A} (l : list A) : 0 <= zlen l.
Proof. unfold zlen. lia. Qed.
Lemma zlen_zeros n : zlen (zeros n) = Z.of_nat n.
Proof. unfold zlen, zeros. by rewrite length_replicate. Qed.
#[export] Hint Resolve zlen_nonneg : quartz.

Lemma doubling_spec fuel c needed :
  0 < c < 2 ^ 64 → needed <= 2 ^ 62 → needed <= c * 2 ^ Z.of_nat fuel →
  ∃ c', doubling fuel c needed = Ok c' ∧ needed <= c' ∧ (c' = c ∨ c' <= 2 ^ 63).
Proof.
  revert c. induction fuel as [|fuel IH]; intros c Hc Hn Hf; cbn [doubling].
  - destruct (Z.ltb_spec c needed); [cbn in Hf; lia|]. eauto with lia.
  - destruct (Z.ltb_spec c needed); [|eauto with lia].
    rewrite u64_small by lia.
    destruct (IH (c * 2)) as (c' & -> & ? & ?); [lia|lia| |eauto 6 with lia].
    rewrite Nat2Z.inj_succ, Z.pow_succ_r in Hf by lia. lia.
Qed.

Lemma ensureCapacity_spec needed w :
  Writer_ok w → 0 <= needed <= 2 ^ 62 →
  ∃ cap, ensureCapacity needed w =
           (Ok tt, mkWriter (mkBuffer (buf_bytes (w_buffer w)) cap) (w_offset w)) ∧
         needed <= cap <= 2 ^ 63 ∧ buf_capacity (w_buffer w) <= cap.
Proof.
  destruct w as [[bs cap] off]. unfold Writer_ok, Buffer_size. cbn. intros (Ho & Hs & Hc) Hn.
  unfold ensureCapacity. cbn [w_buffer buf_capacity]. destruct (Z.leb_spec needed cap); [exists cap; repeat split; (done || lia)|].
  rewrite u64_small by lia.
  destruct (doubling_spec 64 (Z.max (cap * 2) kMinCapacity) needed) as (c' & -> & ? & ?);
    [unfold kMinCapacity; lia|lia|unfold kMinCapacity; lia|].
  unfold kMinCapacity, Buffer_reserve in *. cbn.
  destruct (Z.ltb_spec cap c'); [|lia]. exists c'. repeat split; lia || done.
Qed.

Lemma zlen_written off src bytes :
  0 <= off <= zlen bytes → zlen (written off src bytes) = Z.max (zlen bytes) (off + zlen src).
Proof.
  unfold written, splice, ztake, zlen. intros.
  rewrite !length_app, !length_take, !length_drop. unfold zeros.
  rewrite length_replicate. lia.
Qed.

(** [writeBytes] always succeeds; what it leaves in the vector is [written]. *)
Lemma writeBytes_spec src w :
  Writer_ok w → w_offset w + zlen src <= 2 ^ 62 →
  ∃ cap, BinaryWriter_writeBytes src w =
           (Ok tt, mkWriter (mkBuffer (written (w_offset w) src (buf_bytes (w_buffer w))) cap)
                            (w_offset w + zlen src)) ∧
         buf_capacity (w_buffer w) <= cap <= 2 ^ 63.
Proof.
  intros Hw Hl. pose proof (zlen_nonneg src). unfold BinaryWriter_writeBytes.
  destruct w as [[bs cap0] off]. cbn [w_offset w_buffer buf_bytes buf_capacity] in *.
  destruct (Z.eqb_spec (zlen src) 0) as [E0|E0].
  - assert (src = []) as -> by (unfold zlen in E0; destruct src; [done|simpl in E0; lia]).
    exists cap0. destruct Hw as ((? & Ho) & ? & ?). unfold Buffer_size in *. cbn in *.
    rewrite Z.add_0_r in *. split; [|lia]. unfold mret, M_ret. do 3 f_equal.
    unfold written, splice, ztake, zeros. rewrite take_nil. cbn.
    rewrite Nat.add_0_r, take_drop. replace (Z.to_nat _) with 0%nat by (unfold zlen in *; cbn; lia).
    cbn. by rewrite app_nil_r.
  - assert (u64 (off + zlen src) = off + zlen src) as E.
    { apply u64_small. destruct Hw as ((? & ?) & ? & ?). cbn in *. lia. }
    destruct (ensureCapacity_spec (off + zlen src) (mkWriter (mkBuffer bs cap0) off) Hw)
      as (cap & He & Hc1 & Hc2); [destruct Hw as ((? & ?) & ? & ?); cbn in *; lia|].
    exists cap. split; [|cbn in *; lia].
    unfold mbind, M_bind, gets. cbn [w_offset]. rewrite E, He. cbn -[u64 zlen].
    unfold advance, modify, memcpy_into. cbn -[u64 zlen ztake splice]. rewrite E.
    destruct Hw as ((Ho1 & Ho2) & Hs & _). unfold Buffer_size in *. cbn -[zlen] in *.
    assert (Hz : zlen (splice (Z.to_nat off) (ztake (zlen bs - off) src) bs) = zlen bs).
    { unfold zlen. rewrite length_splice; [done|]. unfold ztake, zlen in *. rewrite length_take. lia. }
    rewrite Hz. unfold written. destruct (Z.ltb_spec (zlen bs) (off + zlen src)).
    + unfold Buffer_resize, Buffer_size. cbn -[zlen ztake splice]. rewrite Hz.
      rewrite (proj2 (Z.ltb_ge cap (off + zlen src))) by lia.
      unfold ztake at 1. rewrite take_ge; [done|]. unfold zlen in *. lia.
    + replace (Z.to_nat (off + zlen src - zlen bs)) with 0%nat by lia. cbn.
      by rewrite app_nil_r.
Qed.

Lemma Writer_ok_written w src cap :
  Writer_ok w → w_offset w + zlen src <= 2 ^ 62 → 0 <= cap <= 2 ^ 63 →
  Writer_ok (mkWriter (mkBuffer (written (w_offset w) src (buf_bytes (w_buffer w))) cap)
                      (w_offset w + zlen src)).
Proof.
  intros (Ho & Hs & Hc) Hl Hcap. pose proof (zlen_nonneg src).
  unfold Writer_ok, Buffer_size in *. cbn [w_buffer w_offset buf_bytes buf_capacity].
  rewrite zlen_written by done. lia.
Qed.

(** In place, the bytes are stored; at the end, zeros are appended. *)
Lemma written_inside off src bytes :
  0 <= off → off + zlen src <= zlen bytes → written off src bytes = splice (Z.to_nat off) src bytes.
Proof.
  intros. unfold written. replace (Z.to_nat (off + zlen src - zlen bytes)) with 0%nat by lia.
  cbn. rewrite app_nil_r. unfold ztake. rewrite take_ge; [done|]. unfold zlen in *. lia.
Qed.

Lemma written_end src bytes : written (zlen bytes) src bytes = bytes ++ zeros (length src).
Proof.
  unfold written, splice, ztake. rewrite Z.sub_diag.
  change (take (Z.to_nat 0) src) with ([] : list Z). cbn [app length].
  replace (zlen bytes + zlen src - zlen bytes) with (zlen src) by lia.
  unfold zlen. rewrite !Nat2Z.id, Nat.add_0_r, take_drop. done.
Qed.

(** ** The reader *)

Definition Reader_ok (r : BinaryReader) : Prop :=
  0 <= r_offset r <= zlen (r_view r) ∧ zlen (r_view r) < 2 ^ 63.

(** A reader that has consumed [pre] and has [post] ahead of it. *)
Definition reading (pre post : list Z) : BinaryReader := mkReader (pre ++ post) (zlen pre).

Lemma readBytes_spec count r :
  Reader_ok r → 0 <= count < 2 ^ 63 →
  BinaryReader_readBytes count r =
    if r_offset r + count <=? zlen (r_view r)
    then (Ok (ztake count (zdrop (r_offset r) (r_view r))), mkReader (r_view r) (r_offset r + count))
    else (corruption "BinaryReader: unexpected end of input", r).
Proof.
  destruct r as [v o]. intros [Ho Hs] Hc. unfold BinaryReader_readBytes.
  cbn [r_view r_offset] in *. rewrite u64_small by lia.
  destruct (Z.eqb_spec count 0) as [->|].
  - rewrite Z.add_0_r. by rewrite (proj2 (Z.leb_le _ _)) by lia.
  - destruct (Z.ltb_spec (zlen v) (o + count)), (Z.leb_spec (o + count) (zlen v)); by try lia.
Qed.

Lemma reading_ok pre post : zlen (pre ++ post) < 2 ^ 63 → Reader_ok (reading pre post).
Proof.
  unfold Reader_ok, reading. cbn. rewrite zlen_app.
  pose proof (zlen_nonneg pre). pose proof (zlen_nonneg post). lia.
Qed.

Lemma readBytes_reading pre bs post :
  zlen (pre ++ bs ++ post) < 2 ^ 63 →
  BinaryReader_readBytes (zlen bs) (reading pre (bs ++ post)) = (Ok bs, reading (pre ++ bs) post).
Proof.
  intros Hl. pose proof (zlen_nonneg bs). pose proof (zlen_nonneg pre). pose proof (zlen_nonneg post).
  rewrite readBytes_spec by (try apply reading_ok; rewrite ?zlen_app in *; lia).
  unfold reading. cbn [r_view r_offset]. rewrite (proj2 (Z.leb_le _ _)) by (rewrite !zlen_app; lia).
  unfold ztake, zdrop, zlen. rewrite !Nat2Z.id, drop_app_length, take_app_length, <-app_assoc, length_app.
  do 2 f_equal. lia.
Qed.

Lemma read_reading n pre v post :
  zlen (pre ++ le_bytes n v ++ post) < 2 ^ 63 → 0 <= v < 256 ^ Z.of_nat n →
  BinaryReader_read n (reading pre (le_bytes n v ++ post)) = (Ok v, reading (pre ++ le_bytes n v) post).
Proof.
  intros Hl Hv. unfold BinaryReader_read, mbind, M_bind.
  replace (Z.of_nat n) with (zlen (le_bytes n v)) by (unfold zlen; by rewrite length_le_bytes).
  rewrite readBytes_reading by done. unfold mret, M_ret. by rewrite le_value_small.
Qed.

(** ** Serializers and parsers

    [emits m bs]: the writer action [m] is a [writeBytes] of [bs], whatever the
    position.  [parses m bs a]: the reader action [m] consumes exactly [bs] and
    returns [a].  Both compose along the sequencing of the code. *)
Definition emits (m : M BinaryWriter unit) (bs : list Z) : Prop :=
  ∀ w, Writer_ok w → w_offset w + zlen bs <= 2 ^ 62 →
  ∃ cap, m w = (Ok tt, mkWriter (mkBuffer (written (w_offset w) bs (buf_bytes (w_buffer w))) cap)
                                (w_offset w + zlen bs)) ∧
         0 <= cap <= 2 ^ 63.

Definition parses {A} (m : M BinaryReader A) (bs : list Z) (a : A) : Prop :=
  ∀ pre post, zlen (pre ++ bs ++ post) < 2 ^ 63 →
  m (reading pre (bs ++ post)) = (Ok a, reading (pre ++ bs) post).

Lemma lookup_zeros n i : zeros n !! i = if decide (i < n)%nat then Some 0 else None.
Proof.
  unfold zeros. case_decide; [by apply lookup_replicate_2|apply lookup_ge_None_2].
  rewrite length_replicate. lia.
Qed.

Lemma lookup_written off src bytes i : 0 <= off <= zlen bytes →
  written off src bytes !! i =
    if decide (i < length bytes)%nat then
      if decide (Z.to_nat off <= i < Z.to_nat off + length src)%nat
      then src !! (i - Z.to_nat off)%nat else bytes !! i
    else if decide (Z.of_nat i < off + zlen src) then Some 0 else None.
Proof.
  intros Ho. unfold written, splice, ztake, zlen in *.
  assert (Hb : length (take (Z.to_nat (Z.of_nat (length bytes) - off)) src) =
    Nat.min (length bytes - Z.to_nat off) (length src)) by (rewrite length_take; lia).
  assert (Hl : length (take (Z.to_nat off) bytes) = Z.to_nat off) by (rewrite length_take; lia).
  destruct (decide (i < length bytes)%nat).
  - rewrite lookup_app_l by (rewrite !length_app, Hl, Hb, length_drop; lia).
    destruct (decide (i < Z.to_nat off)%nat).
    { rewrite decide_False by lia. rewrite lookup_app_l by lia. by rewrite lookup_take_lt by lia. }
    rewrite lookup_app_r, Hl by lia. destruct (decide (i < Z.to_nat off + length src)%nat).
    + rewrite decide_True by lia. rewrite lookup_app_l by lia. by rewrite lookup_take_lt by lia.
    + rewrite decide_False by lia. rewrite lookup_app_r, Hb, lookup_drop by lia. f_equal. lia.
  - rewrite lookup_app_r by (rewrite !length_app, Hl, Hb, length_drop; lia).
    rewrite !length_app, Hl, Hb, length_drop, lookup_zeros.
    repeat case_decide; try done; lia.
Qed.

(** Writing [a] and then [b] is writing both at once, wherever the end is. *)
Lemma written_app off a b bytes : 0 <= off <= zlen bytes →
  written (off + zlen a) b (written off a bytes) = written off (a ++ b) bytes.
Proof.
  intros Ho. apply list_eq. intros i. pose proof (zlen_written off a bytes Ho) as Hz.
  pose proof (zlen_nonneg a). rewrite !lookup_written by lia.
  assert (Hl : length (written off a bytes) = Nat.max (length bytes) (Z.to_nat off + length a)).
  { unfold zlen in *. lia. }
  rewrite Hl, length_app, zlen_app. unfold zlen in *. rewrite Z2Nat.inj_add, Nat2Z.id by lia.
  destruct (decide (i < length bytes)%nat).
  - rewrite decide_True by lia.
    destruct (decide (Z.to_nat off + length a <= i < Z.to_nat off + length a + length b)%nat).
    + rewrite decide_True by lia. rewrite lookup_app_r by lia. f_equal. lia.
    + destruct (decide (Z.to_nat off <= i < Z.to_nat off + length a)%nat).
      * rewrite decide_True by lia. by rewrite lookup_app_l by lia.
      * by rewrite decide_False by lia.
  - repeat case_decide; try done; try lia.
Qed.

Lemma emits_writeBytes src : emits (BinaryWriter_writeBytes src) src.
Proof.
  intros w Hw Hl. destruct (writeBytes_spec src w Hw Hl) as (cap & He & Hc).
  exists cap. split; [done|]. destruct Hw as (_ & _ & ?). lia.
Qed.

Lemma emits_nil : emits (mret tt) [].
Proof. exact (emits_writeBytes []). Qed.

Lemma emits_write n v : emits (BinaryWriter_write n v) (le_bytes n v).
Proof. apply emits_writeBytes. Qed.

Lemma emits_bind m k a b : emits m a → emits (k tt) b → emits (m ≫= k) (a ++ b).
Proof.
  intros Hm Hk w Hw Hl. rewrite zlen_app in *. pose proof (zlen_nonneg a). pose proof (zlen_nonneg b).
  destruct (Hm w Hw) as (cap & He & Hc); [lia|].
  pose proof (Writer_ok_written w a cap Hw ltac:(lia) Hc) as Hw'.
  destruct (Hk _ Hw') as (cap' & He' & Hc'); [cbn [w_offset]; lia|].
  exists cap'. split; [|done]. unfold mbind, M_bind. rewrite He, He'.
  cbn [w_offset w_buffer buf_bytes]. rewrite written_app, Z.add_assoc by (destruct Hw; unfold Buffer_size in *; lia).
  done.
Qed.

Lemma emits_app_nil m a : emits m (a ++ []) → emits m a.
Proof. by rewrite app_nil_r. Qed.

(** In place the bytes are stored; appended they read as zeros. *)
Lemma emits_inside m bs w : emits m bs → Writer_ok w →
  w_offset w + zlen bs <= Buffer_size (w_buffer w) →
  ∃ w', m w = (Ok tt, w') ∧ Writer_ok w' ∧ w_offset w' = w_offset w + zlen bs ∧
    buf_bytes (w_buffer w') = splice (Z.to_nat (w_offset w)) bs (buf_bytes (w_buffer w)).
Proof.
  intros Hm Hw Hl. pose proof Hw as ((? & ?) & Hs & _).
  destruct (Hm w Hw) as (cap & He & Hc); [lia|]. eexists. split; [exact He|].
  split; [apply Writer_ok_written; auto; lia|]. cbn. split; [done|].
  apply written_inside; unfold Buffer_size in *; lia.
Qed.

Lemma emits_end m bs b : emits m bs → Buffer_size b + zlen bs <= 2 ^ 62 → 0 <= buf_capacity b <= 2 ^ 63 →
  ∃ w', m (BinaryWriter_make b) = (Ok tt, w') ∧ Writer_ok w' ∧
    w_offset w' = Buffer_size (w_buffer w') ∧
    buf_bytes (w_buffer w') = buf_bytes b ++ zeros (length bs).
Proof.
  intros Hm Hl Hc. pose proof (zlen_nonneg bs). pose proof (zlen_nonneg (buf_bytes b)).
  assert (Hw : Writer_ok (BinaryWriter_make b)).
  { unfold Writer_ok, BinaryWriter_make. cbn. unfold Buffer_size in *. lia. }
  destruct (Hm _ Hw Hl) as (cap & He & Hc'). eexists. split; [exact He|].
  split; [by apply Writer_ok_written|]. cbn. unfold Buffer_size. rewrite written_end. cbn.
  rewrite zlen_app, zlen_zeros. done.
Qed.

Lemma parses_ret {A} (a : A) : parses (mret a) [] a.
Proof. intros pre post _. cbn. by rewrite app_nil_r. Qed.

Lemma parses_readBytes bs : parses (BinaryReader_readBytes (zlen bs)) bs bs.
Proof. intros pre post. apply readBytes_reading. Qed.

Lemma parses_read n v : 0 <= v < 256 ^ Z.of_nat n → parses (BinaryReader_read n) (le_bytes n v) v.
Proof. intros Hv pre post Hl. by apply read_reading. Qed.

Lemma parses_bind {A B} (m : M BinaryReader A) (k : A → M BinaryReader B) a b x y :
  parses m a x → parses (k x) b y → parses (m ≫= k) (a ++ b) y.
Proof.
  intros Hm Hk pre post Hl. rewrite <-app_assoc in *. unfold mbind, M_bind. rewrite Hm by done.
  rewrite app_assoc in Hl. rewrite Hk by done. by rewrite <-app_assoc.
Qed.

(** A serializer and its parser meet over storage that is already there. *)
Lemma in_place_roundtrip {A} m (d : M BinaryReader A) bs a w pre old post :
  emits m bs → parses d bs a → Writer_ok w → buf_bytes (w_buffer w) = pre ++ old ++ post →
  w_offset w = zlen pre → length old = length bs →
  ∃ w', m w = (Ok tt, w') ∧ buf_bytes (w_buffer w') = pre ++ bs ++ post ∧ w_offset w' = zlen (pre ++ bs) ∧
    d (reading pre (bs ++ post)) = (Ok a, reading (pre ++ bs) post).
Proof.
  intros Hm Hd Hw Hbuf Hoff Hlen. assert (Hz : zlen old = zlen bs) by (unfold zlen; by rewrite Hlen).
  destruct (emits_inside m bs w Hm Hw) as (w' & He & _ & Hoff' & Hbytes).
  { unfold Buffer_size. rewrite Hbuf, Hoff, !zlen_app. pose proof (zlen_nonneg post). lia. }
  exists w'. split; [done|]. split; [|split].
  - rewrite Hbytes, Hbuf, Hoff. unfold splice, zlen. rewrite Nat2Z.id, take_app_length, <-Hlen.
    rewrite (app_assoc pre old post), <-length_app, drop_app_length. done.
  - by rewrite Hoff', Hoff, zlen_app.
  - apply Hd. destruct Hw as (_ & Hs & _). unfold Buffer_size in Hs. rewrite Hbuf in Hs.
    rewrite !zlen_app in *. lia.
Qed.

#[export] Hint Resolve emits_writeBytes emits_write emits_nil parses_readBytes parses_ret : quartz.

(** ** Properties *)

(** Writing an integer over bytes the buffer already holds is exact: the
    call succeeds, advances by the size of the type, changes no other byte and
    not the size, and a reader at the same position reads the value back. *)
Theorem writer_in_place_roundtrip n v w :
  Writer_ok w → (0 < n <= 8)%nat → in_u (8 * Z.of_nat n) v →
  w_offset w + Z.of_nat n <= Buffer_size (w_buffer w) →
  ∃ w', BinaryWriter_write n v w = (Ok tt, w') ∧
    w_offset w' = w_offset w + Z.of_nat n ∧
    Buffer_size (w_buffer w') = Buffer_size (w_buffer w) ∧
    buf_bytes (w_buffer w') = splice (Z.to_nat (w_offset w)) (le_bytes n v) (buf_bytes (w_buffer w)) ∧
    BinaryReader_read n (mkReader (buf_bytes (w_buffer w')) (w_offset w)) =
      (Ok v, mkReader (buf_bytes (w_buffer w')) (w_offset w + Z.of_nat n)).
Proof.
  intros Hw Hn Hv Hfit. assert (Hz : zlen (le_bytes n v) = Z.of_nat n)
    by (unfold zlen; by rewrite length_le_bytes).
  pose proof Hw as ((Ho & Ho2) & Hs & _).
  destruct (writeBytes_spec (le_bytes n v) w Hw) as (cap & He & _); [lia|].
  rewrite Hz in He. unfold Buffer_size in *.
  rewrite written_inside in He by lia.
  assert (Hlen : zlen (splice (Z.to_nat (w_offset w)) (le_bytes n v) (buf_bytes (w_buffer w))) =
                 zlen (buf_bytes (w_buffer w))).
  { unfold zlen in *. rewrite length_splice; [done|]. rewrite length_le_bytes. lia. }
  eexists. split; [exact He|]. cbn [w_offset w_buffer buf_bytes]. repeat split; [exact Hlen|].
  unfold BinaryReader_read, mbind, M_bind.
  rewrite readBytes_spec by (unfold Reader_ok; cbn [r_offset r_view]; lia).
  cbn [r_view r_offset]. rewrite (proj2 (Z.leb_le _ _)) by lia.
  unfold ztake, zdrop. rewrite Nat2Z.id.
  assert (Hr : take n (drop (Z.to_nat (w_offset w))
       (splice (Z.to_nat (w_offset w)) (le_bytes n v) (buf_bytes (w_buffer w)))) = le_bytes n v).
  { rewrite <-(length_le_bytes n v) at 1. apply splice_read.
    rewrite length_le_bytes. unfold zlen in *. lia. }
  rewrite Hr. unfold mret, M_ret. rewrite le_value_small; [done|].
  unfold in_u in Hv. rewrite Z.pow_mul_r in Hv by lia. done.
Qed.

Lemma writer_in_place_roundtrip_witness :
  ∃ w', BinaryWriter_write 4 0xDEADBEEF (mkWriter (mkBuffer (zeros 6) 64) 1) = (Ok tt, w') ∧
    BinaryReader_read 4 (mkReader (buf_bytes (w_buffer w')) 1) =
      (Ok 0xDEADBEEF, mkReader (buf_bytes (w_buffer w')) 5).
Proof.
  destruct (writer_in_place_roundtrip 4 0xDEADBEEF (mkWriter (mkBuffer (zeros 6) 64) 1))
    as (w' & H1 & _ & _ & _ & H2).
  - unfold Writer_ok, Buffer_size, zlen, zeros. cbn. lia.
  - lia.
  - unfold in_u. lia.
  - unfold Buffer_size, zlen, zeros. cbn. lia.
  - exists w'. split; [exact H1|exact H2].
Defined.

(** Writing at the end of the buffer loses the data: [writeBytes] copies
    into spare capacity and then [resize]s, which value-initialises those
    elements.  The call reports success, the buffer grows by the right number
    of bytes, and every one of them is zero, so two writes of the same length
    are indistinguishable. *)
Theorem writer_append_zeroes src src' w :
  Writer_ok w → w_offset w = Buffer_size (w_buffer w) → w_offset w + zlen src <= 2 ^ 62 →
  length src = length src' →
  ∃ w', BinaryWriter_writeBytes src w = (Ok tt, w') ∧
        buf_bytes (w_buffer w') = buf_bytes (w_buffer w) ++ zeros (length src) ∧
        w_offset w' = Buffer_size (w_buffer w') ∧
        ∃ w'', BinaryWriter_writeBytes src' w = (Ok tt, w'') ∧
               buf_bytes (w_buffer w'') = buf_bytes (w_buffer w').
Proof.
  intros Hw Hend Hl Hlen. assert (Hz : zlen src' = zlen src) by (unfold zlen; by rewrite Hlen).
  destruct (writeBytes_spec src w Hw Hl) as (cap & He & _).
  destruct (writeBytes_spec src' w Hw) as (cap' & He' & _); [lia|].
  eexists. split; [exact He|]. cbn [w_buffer buf_bytes w_offset].
  rewrite Hend in He' |- *. unfold Buffer_size in *. rewrite written_end in He' |- *.
  repeat split.
  - cbn [buf_bytes]. rewrite zlen_app, zlen_zeros. unfold zlen. reflexivity.
  - eexists. split; [exact He'|]. cbn [w_buffer buf_bytes]. by rewrite Hlen.
Qed.

Lemma writer_append_zeroes_witness :
  ∃ w', BinaryWriter_writeBytes [0xEF; 0xBE; 0xAD; 0xDE] (BinaryWriter_make Buffer_empty) = (Ok tt, w') ∧
        buf_bytes (w_buffer w') = [0; 0; 0; 0].
Proof.
  destruct (writer_append_zeroes [0xEF; 0xBE; 0xAD; 0xDE] [0; 0; 0; 0] (BinaryWriter_make Buffer_empty))
    as (w' & H1 & H2 & _).
  - repeat split; by vm_compute.
  - reflexivity.
  - by vm_compute.
  - reflexivity.
  - exists w'. split; [exact H1|exact H2].
Defined.

(** C34: How a read meets the bounds of its view, for every 64-bit count: a
    well-positioned reader succeeds exactly when that many bytes remain, returns
    exactly those bytes and advances past them; when fewer remain it reports
    corruption and does not move, except that a count whose sum with the position
    wraps at 64 bits passes the test and makes [memcpy] leave the view.  A 32-bit
    count, the width of every length in the formats, never wraps. *)
Theorem reader_exact_bounds r count :
  Reader_ok r → in_u 64 count →
  (r_offset r + count <= zlen (r_view r) →
     ∃ bs r', BinaryReader_readBytes count r = (Ok bs, r') ∧ zlen bs = count ∧ Reader_ok r' ∧
              r_view r = ztake (r_offset r) (r_view r) ++ bs ++ zdrop (r_offset r') (r_view r)) ∧
  (zlen (r_view r) < r_offset r + count < 2 ^ 64 →
     BinaryReader_readBytes count r = (corruption "BinaryReader: unexpected end of input", r)) ∧
  (2 ^ 64 <= r_offset r + count → BinaryReader_readBytes count r = (UB, r)) ∧
  (in_u 32 count → r_offset r + count < 2 ^ 64).
Proof.
  intros Hr Hc. unfold in_u in *. pose proof Hr as [Ho Hs]. split_and!.
  - intros H. rewrite readBytes_spec by (try done; lia). destruct r as [v o]. cbn [r_view r_offset] in *.
    rewrite (proj2 (Z.leb_le _ _)) by lia. do 2 eexists. split; [done|].
    cbn [r_view r_offset]. unfold zlen, ztake, zdrop, Reader_ok in *. cbn [r_view r_offset].
    rewrite length_take, length_drop. repeat split; try (unfold zlen; lia).
    rewrite Z2Nat.inj_add by lia. rewrite <-drop_drop, !take_drop. done.
  - intros H. unfold BinaryReader_readBytes. rewrite u64_small by lia.
    by rewrite (proj2 (Z.eqb_neq _ _)), (proj2 (Z.ltb_lt _ _)) by lia.
  - intros H. unfold BinaryReader_readBytes. rewrite (proj2 (Z.eqb_neq count 0)) by lia.
    assert (Hw : u64 (r_offset r + count) = r_offset r + count - 2 ^ 64).
    { unfold u64, wrap. rewrite <-(Z.mod_small (r_offset r + count - 2 ^ 64) (2 ^ 64)) by lia.
      rewrite <-(Z.mod_add (r_offset r + count - 2 ^ 64) 1) by lia. f_equal. lia. }
    by rewrite Hw, (proj2 (Z.ltb_ge (zlen (r_view r)) _)), (proj2 (Z.ltb_lt (zlen (r_view r)) _)) by lia.
  - lia.
Qed.

Lemma reader_exact_bounds_witness :
  Reader_ok (mkReader [1; 2; 3; 4; 5] 1) ∧ in_u 64 3 ∧
  (∃ bs r', BinaryReader_readBytes 3 (mkReader [1; 2; 3; 4; 5] 1) = (Ok bs, r') ∧ zlen bs = 3) ∧
  BinaryReader_readBytes (2 ^ 64 - 1) (mkReader [1; 2; 3; 4; 5] 1) = (UB, mkReader [1; 2; 3; 4; 5] 1).
Proof.
  assert (H1 : Reader_ok (mkReader [1; 2; 3; 4; 5] 1)) by (unfold Reader_ok, zlen; cbn; lia).
  assert (H2 : in_u 64 3) by (unfold in_u; lia).
  split; [exact H1|]. split; [exact H2|]. split.
  - destruct (proj1 (reader_exact_bounds _ _ H1 H2)) as (bs & r' & E & L & _).
    + unfold zlen. cbn. lia.
    + exists bs, r'. split; [exact E|exact L].
  - apply (reader_exact_bounds (mkReader [1; 2; 3; 4; 5] 1) (2 ^ 64 - 1) H1); [unfold in_u; lia|cbn; lia].
Defined.

Lemma le_value_swap8 bs n :
  bytes_ok bs → length bs = n → (n <= 4)%nat →
  wrap (8 * Z.of_nat n) (bswap 8 (le_value (bs ++ zeros (8 - n)))) = 0.
Proof.
  intros Hb Hl Hn. unfold bswap.
  assert (Hok : bytes_ok (bs ++ zeros (8 - n))).
  { apply Forall_app; split; [done|]. unfold zeros. apply Forall_replicate. lia. }
  assert (H8 : length (bs ++ zeros (8 - n)) = 8%nat)
    by (rewrite length_app; unfold zeros; rewrite length_replicate; lia).
  rewrite <-H8 at 1. rewrite le_bytes_value, rev_app_distr, le_value_app by done.
  assert (Hz : rev (zeros (8 - n)) = zeros (8 - n)) by (unfold zeros; rewrite rev_alt; apply reverse_replicate).
  rewrite Hz, le_value_zeros, Z.add_0_l. unfold zeros. rewrite length_replicate.
  replace (256 ^ Z.of_nat (8 - n)) with (256 ^ Z.of_nat (8 - 2 * n) * 2 ^ (8 * Z.of_nat n)).
  - unfold wrap. rewrite (Z.mul_comm (256 ^ _)), <-Z.mul_assoc, Z.mul_comm. apply Z.mod_mul. lia.
  - rewrite Z.pow_mul_r by lia. change (2 ^ 8) with 256. rewrite <-Z.pow_add_r by lia. f_equal. lia.
Qed.

(** The big-endian template only works for 64-bit types: [readBE<T>] widens
    to 64 bits before it swaps, so on a little-endian host it returns zero for
    every 1-, 2- or 4-byte input, and is exact for eight bytes. *)
Theorem readBE_narrow_is_zero n pre bs post :
  bytes_ok bs → length bs = n → zlen (pre ++ bs ++ post) < 2 ^ 63 →
  ((n <= 4)%nat →
     BinaryReader_readBE Little n (reading pre (bs ++ post)) = (Ok 0, reading (pre ++ bs) post)) ∧
  (n = 8%nat →
     BinaryReader_readBE Little n (reading pre (bs ++ post)) =
       (Ok (le_value (rev bs)), reading (pre ++ bs) post)).
Proof.
  intros Hb Hl Hz. unfold BinaryReader_readBE, mbind, M_bind.
  replace (Z.of_nat n) with (zlen bs) by (unfold zlen; by rewrite Hl).
  rewrite readBytes_reading by done.
  assert (Hrange : ∀ l, bytes_ok l → length l = 8%nat → in_u 64 (le_value l)).
  { intros l Hok H8. pose proof (le_value_range l Hok) as Hr. rewrite H8 in Hr. exact Hr. }
  unfold mret, M_ret, readBE64. change (isLittleEndian Little) with true. cbn [mem_load].
  split; intros Hn.
  - assert (Hok : bytes_ok (bs ++ zeros (8 - n)))
      by (apply Forall_app; split; [done|]; unfold zeros; apply Forall_replicate; lia).
    assert (H8 : length (bs ++ zeros (8 - n)) = 8%nat)
      by (rewrite length_app; unfold zeros; rewrite length_replicate; lia).
    rewrite take_ge by lia. rewrite swap64_bswap by auto.
    unfold zlen. rewrite Hl, le_value_swap8 by done. done.
  - subst n. rewrite Hn in *. change (zeros (8 - 8)) with ([] : list Z). rewrite app_nil_r, take_ge by lia.
    rewrite swap64_bswap by auto. unfold bswap. rewrite <-Hn at 1. rewrite le_bytes_value by done.
    unfold zlen. rewrite Hn. rewrite wrap_small; [done|].
    apply Hrange; [by apply rev_bytes_ok|by rewrite length_rev].
Qed.

Lemma readBE_narrow_is_zero_witness :
  BinaryReader_readBE Little 4 (reading [] ([1; 2; 3; 4] ++ [])) = (Ok 0, reading ([] ++ [1; 2; 3; 4]) []).
Proof.
  apply (readBE_narrow_is_zero 4 [] [1; 2; 3; 4] []).
  - repeat constructor; lia.
  - reflexivity.
  - unfold zlen. cbn. lia.
  - lia.
Defined.

(** [skip] checks a wrapped sum: a huge count moves the reader backwards. *)
Example reader_skip_wraps :
  BinaryReader_skip (2 ^ 64 - 3) (mkReader [1; 2; 3; 4] 4) = (Ok tt, mkReader [1; 2; 3; 4] 1).
Proof. reflexivity. Qed.
