(* ===== verification/Traits.v ===== *)
(** Serialization by type (src/include/quartz/serialization/Serializer.h,
    SerializationTraits.h, SerializationContext.h): the context, the traits
    template with its default and its specialisation for strings, and the
    templates of [Serializer] over any type that has traits.

    The template is a type class, a specialisation an instance; what the
    templates of [Serializer] rely on is the class [TraitsLaws], which the
    instances discharge. *)
From stdpp Require Import base strings list pretty.
From Stdlib Require Import ZArith Lia.
From S2P Require Import Prelude VarInt Endian Buffers.

(** ** SerializationContext *)
Record SerializationContext : Set := mkContext { ctx_version : Z; ctx_byteOrder : Order; ctx_strict : bool }.
Definition SerializationContext_default : SerializationContext := mkContext kLatestVersion Little true.
(** The byte order defaults to that of the host. *)
Definition SerializationContext_make (host : Order) (version : Z) : SerializationContext := mkContext version host true.
Definition ctx_setVersion (v : Z) (c : SerializationContext) : SerializationContext :=
  mkContext v (ctx_byteOrder c) (ctx_strict c).
Definition ctx_setByteOrder (o : Order) (c : SerializationContext) : SerializationContext :=
  mkContext (ctx_version c) o (ctx_strict c).
Definition ctx_setStrict (s : bool) (c : SerializationContext) : SerializationContext :=
  mkContext (ctx_version c) (ctx_byteOrder c) s.
Definition ctx_allowsField (fieldVersion : Z) (c : SerializationContext) : bool := fieldVersion <=? ctx_version c.

(** ** SerializationTraits *)
Class SerializationTraits (T : Type) : Type := {
  traits_serialize : T → SerializationContext → M BinaryWriter unit;
  traits_deserialize : SerializationContext → M BinaryReader T }.

(** A trivially copyable type: its size and its bytes in memory. *)
Class TriviallyCopyable (T : Type) : Type := {
  size_of : nat; to_memory : T → list Z; of_memory : list Z → T }.

(** The default: [writer.write(value)] and [reader.read(value)]. *)
#[global] Instance default_traits {T} `{TriviallyCopyable T} : SerializationTraits T := {
  traits_serialize x _ := BinaryWriter_writeBytes (to_memory x);
  traits_deserialize _ := bs ← BinaryReader_readBytes (Z.of_nat (size_of (T := T))); mret (of_memory bs) }.

(** An unsigned integer of [n] bytes, on a little-endian host. *)
Inductive uint (n : nat) : Set := Uint (v : Z).
Arguments Uint {n}.
Definition uint_value {n} (x : uint n) : Z := let 'Uint v := x in v.
#[global] Instance uint_copyable n : TriviallyCopyable (uint n) := {
  size_of := n; to_memory x := le_bytes n (uint_value x); of_memory bs := Uint (le_value bs) }.

(** [std::string]: the bytes of a string. *)
Inductive std_string : Set := StdString (bytes : list Z).
Definition string_bytes (s : std_string) : list Z := let 'StdString bs := s in bs.
#[global] Instance string_traits : SerializationTraits std_string := {
  traits_serialize s _ := string_serialize (string_bytes s);
  traits_deserialize _ := bs ← string_deserialize; mret (StdString bs) }.

(** ** The templates of Serializer *)
Section templates.
Context {T : Type} `{SerializationTraits T}.

Definition Serializer_serialize (x : T) (ctx : SerializationContext) : M BinaryWriter unit := traits_serialize x ctx.
Definition Serializer_deserialize (ctx : SerializationContext) : M BinaryReader T := traits_deserialize ctx.
Definition serializeWithHeader (x : T) (ctx : SerializationContext) : M BinaryWriter unit :=
  _ ← Serializer_writeHeader (ctx_version ctx); Serializer_serialize x ctx.
(** The header sets the version of the context, which is the caller's. *)
Definition deserializeWithHeader : M (BinaryReader * SerializationContext) T := λ '(r, ctx),
  match Serializer_readHeader r with
  | (Ok version, r) =>
      let ctx := ctx_setVersion version ctx in
      let '(x, r) := Serializer_deserialize ctx r in (x, (r, ctx))
  | (Err e, r) => (Err e, (r, ctx))
  | (Throw s, r) => (Throw s, (r, ctx))
  | (UB, r) => (UB, (r, ctx))
  | (Fuel, r) => (Fuel, (r, ctx))
  end.
End templates.

(** ** What a specialisation promises *)
Class TraitsLaws (T : Type) `{SerializationTraits T} : Type := {
  storable : T → Prop;
  wire : T → list Z;
  traits_emits x ctx : storable x → emits (traits_serialize x ctx) (wire x);
  traits_parses x ctx : storable x → parses (traits_deserialize ctx) (wire x) x }.

(** Copying a value to memory and back. *)
Class CopyLaws (T : Type) `{TriviallyCopyable T} : Type := {
  representable : T → Prop;
  length_memory x : representable x → length (to_memory x) = size_of (T := T);
  copy_back x : representable x → of_memory (to_memory x) = x }.

#[global] Instance uint_laws n : CopyLaws (uint n).
Proof.
  refine {| representable := λ x : uint n, 0 <= uint_value x < 256 ^ Z.of_nat n |}.
  - intros [v] _. apply length_le_bytes.
  - intros [v] Hv. cbn in *. by rewrite le_value_small.
Defined.

#[global] Instance default_laws {T} `{CopyLaws T} : TraitsLaws T.
Proof.
  refine {| storable := representable; wire := to_memory |}.
  - intros x ctx _. apply emits_writeBytes.
  - intros x ctx Hx. rewrite <-(app_nil_r (to_memory x)). eapply parses_bind.
    + rewrite <-(length_memory x Hx). apply parses_readBytes.
    + rewrite copy_back by done. apply parses_ret.
Defined.

(** The varint the writer emits before a string, and what the reader makes of it. *)
Definition varint_bytes (v : Z) : list Z := match encodeU32 v kMaxVarInt32Bytes with Ok bs => bs | _ => [] end.
Lemma varint_bytes_spec v : in_u 32 v → encodeU32 v kMaxVarInt32Bytes = Ok (varint_bytes v) ∧
  ∀ rest, decodeU32 (varint_bytes v ++ rest) = Ok (v, length (varint_bytes v)).
Proof.
  intros Hv. unfold varint_bytes. destruct (proj2 (varint_unsigned_roundtrip v []) Hv) as (bs & E & _).
  rewrite E. split; [done|]. intros rest. destruct (proj2 (varint_unsigned_roundtrip v rest) Hv) as (bs' & E' & _ & _ & D).
  rewrite E in E'. by injection E' as <-.
Qed.
Lemma emits_writeVarU32 v : in_u 32 v → emits (BinaryWriter_writeVarU32 v) (varint_bytes v).
Proof.
  intros Hv w Hw Hl. unfold BinaryWriter_writeVarU32, mbind, M_bind, lift.
  rewrite (proj1 (varint_bytes_spec v Hv)). by apply emits_writeBytes.
Qed.
Lemma parses_readVarU32 v : in_u 32 v → parses BinaryReader_readVarU32 (varint_bytes v) v.
Proof.
  intros Hv pre post Hl. unfold BinaryReader_readVarU32, readVar, reading. cbn [r_view r_offset].
  replace (zdrop (zlen pre) (pre ++ varint_bytes v ++ post)) with (varint_bytes v ++ post)
    by (unfold zdrop, zlen; by rewrite Nat2Z.id, drop_app_length).
  rewrite (proj2 (varint_bytes_spec v Hv)). rewrite <-app_assoc, zlen_app.
  pose proof (zlen_nonneg pre). pose proof (zlen_nonneg (varint_bytes v)). pose proof (zlen_nonneg post).
  rewrite !zlen_app in Hl. unfold zlen in *. by rewrite u64_small by lia.
Qed.

#[global] Instance string_laws : TraitsLaws std_string.
Proof.
  refine {| storable := λ s, zlen (string_bytes s) < 2 ^ 32;
            wire := λ s, varint_bytes (zlen (string_bytes s)) ++ string_bytes s |}.
  - intros [bs] ctx Hs. cbn in *. pose proof (zlen_nonneg bs). unfold string_serialize.
    rewrite u32_small by lia. apply emits_bind; [apply emits_writeVarU32; unfold in_u; lia|apply emits_writeBytes].
  - intros [bs] ctx Hs. cbn in *. pose proof (zlen_nonneg bs).
    rewrite <-(app_nil_r (_ ++ bs)). eapply parses_bind; [|apply parses_ret].
    unfold string_deserialize. eapply parses_bind; [apply parses_readVarU32; unfold in_u; lia|apply parses_readBytes].
Defined.

(** ** Headers *)
Definition magic_wire (version : Z) : list Z := le_bytes 4 kFormatMagic ++ le_bytes 4 version ++ le_bytes 8 0.

Lemma parses_header version : isVersionSupported version = true →
  parses Serializer_readHeader (magic_wire version) version.
Proof.
  intros Hv pre post Hl. unfold Serializer_readHeader. change 16 with (zlen (magic_wire version)).
  rewrite readBytes_reading by done.
  assert (version = 1) as -> by (unfold isVersionSupported, kDefaultVersion, kLatestVersion in Hv; lia).
  done.
Qed.
(** A reader of zeros finds no magic number. *)
Lemma zeros_header n : (16 <= n)%nat → Z.of_nat n < 2 ^ 63 →
  ∃ r, Serializer_readHeader (BinaryReader_make (zeros n)) = (corruption "Serializer: invalid header magic", r).
Proof.
  intros Hn Hl. unfold Serializer_readHeader.
  rewrite readBytes_spec by (unfold Reader_ok; cbn [BinaryReader_make r_view r_offset]; rewrite ?zlen_zeros; lia).
  cbn [BinaryReader_make r_view r_offset]. rewrite zlen_zeros, (proj2 (Z.leb_le _ _)) by lia.
  replace n with (16 + (n - 16))%nat by lia. unfold zeros. rewrite replicate_add. eexists. reflexivity.
Qed.

(** C25: A value of any type with lawful traits, written with its header over
    bytes the buffer already holds: the write succeeds and changes no other byte,
    and reading with the header gives the value back and the version of the
    writer's context.  Written the same way to an empty buffer the write succeeds
    as well, but the result cannot be read: the header's bytes are lost and the
    reader reports an invalid magic number. *)
Theorem with_header_roundtrip {T} `{TraitsLaws T} (x : T) ctx ctx' w pre old post :
  storable x → isVersionSupported (ctx_version ctx) = true → Writer_ok w →
  buf_bytes (w_buffer w) = pre ++ old ++ post → w_offset w = zlen pre → length old = (16 + length (wire x))%nat →
  (∃ w' image, serializeWithHeader x ctx w = (Ok tt, w') ∧ buf_bytes (w_buffer w') = pre ++ image ++ post ∧
     length image = length old ∧
     deserializeWithHeader (reading pre (image ++ post), ctx') =
       (Ok x, (reading (pre ++ image) post, ctx_setVersion (ctx_version ctx) ctx'))) ∧
  (∃ w' r, serializeWithHeader x ctx (BinaryWriter_make Buffer_empty) = (Ok tt, w') ∧
     buf_bytes (w_buffer w') = zeros (length old) ∧
     deserializeWithHeader (T := T) (BinaryReader_make (buf_bytes (w_buffer w')), ctx') =
       (corruption "Serializer: invalid header magic", (r, ctx'))).
Proof.
  intros Hx Hv Hw Hb Ho Hold. set (image := magic_wire (ctx_version ctx) ++ wire x).
  assert (Hl : length image = length old) by (unfold image; rewrite length_app, Hold; done).
  assert (Hs : zlen image <= 2 ^ 62).
  { destruct Hw as (_ & Hs & _). unfold Buffer_size in Hs. rewrite Hb, !zlen_app in Hs.
    pose proof (zlen_nonneg pre). pose proof (zlen_nonneg post). unfold zlen in *. lia. }
  assert (He : emits (serializeWithHeader x ctx) image).
  { apply emits_bind; [apply emits_writeBytes|by apply traits_emits]. }
  split.
  - destruct (emits_inside _ image w He Hw) as (w' & E & _ & _ & Hbytes).
    { unfold Buffer_size. rewrite Hb, Ho, !zlen_app. pose proof (zlen_nonneg post). unfold zlen in *. lia. }
    exists w', image. split_and!; [done| |done|].
    + rewrite Hbytes, Hb, Ho. unfold splice, zlen. rewrite Nat2Z.id, take_app_length, Hl.
      by rewrite (app_assoc pre old post), <-length_app, drop_app_length.
    + assert (Hz : zlen (pre ++ image ++ post) < 2 ^ 63).
      { destruct Hw as (_ & Hs' & _). unfold Buffer_size in Hs'. rewrite Hb, !zlen_app in *. unfold zlen in *. lia. }
      unfold deserializeWithHeader, image in *. rewrite <-app_assoc in *.
      rewrite (parses_header _ Hv) by done. cbv zeta. unfold Serializer_deserialize.
      rewrite traits_parses; [by rewrite <-app_assoc|done|by rewrite <-app_assoc].
  - destruct (emits_end _ image Buffer_empty He) as (w' & E & _ & _ & Hbytes);
      [change (Buffer_size Buffer_empty) with 0; lia|cbn [Buffer_empty buf_capacity]; lia|].
    cbn [Buffer_empty buf_bytes app] in Hbytes.
    destruct (zeros_header (length image)) as (r & Er); [rewrite Hl, Hold; lia|unfold zlen in Hs; lia|].
    exists w', r. rewrite Hbytes, Hl in *. split_and!; [done..|]. unfold deserializeWithHeader. by rewrite Er.
Qed.

(** Witness: the string "Hi" after one byte of a buffer of twenty-two. *)
Lemma with_header_roundtrip_witness : ∃ w' image,
  serializeWithHeader (StdString [72; 105]) SerializationContext_default (mkWriter (mkBuffer (zeros 22) 64) 1) = (Ok tt, w') ∧
  buf_bytes (w_buffer w') = [0] ++ image ++ [0; 0] ∧
  deserializeWithHeader (reading [0] (image ++ [0; 0]), SerializationContext_default) =
    (Ok (StdString [72; 105]), (reading ([0] ++ image) [0; 0], SerializationContext_default)).
Proof.
  destruct (with_header_roundtrip (StdString [72; 105]) SerializationContext_default SerializationContext_default
    (mkWriter (mkBuffer (zeros 22) 64) 1) [0] (zeros 19) [0; 0]) as [(w' & image & E & B & _ & R) _];
    [reflexivity|reflexivity| |reflexivity|reflexivity|reflexivity|].
  - unfold Writer_ok, Buffer_size, zlen, zeros. cbn. lia.
  - exists w', image. split_and!; [exact E|exact B|exact R].
Defined.
