(* ===== verification/Config.v ===== *)
(** Configuration constants and the storage enumerations
    (src/include/quartz/common/Config.h, storage/StorageConstants.h,
    storage/StorageTypes.h). *)
From stdpp Require Import base decidable.
From Stdlib Require Import ZArith.
From S2P Require Import Prelude.

Definition kPageSize : Z := 4096.
Definition kPageHeaderSize : Z := 64.
Definition kPagePayloadSize : Z := kPageSize - kPageHeaderSize.
Definition kInvalidPageId : Z := 0xFFFFFFFF.
Definition kMaxPageCount : Z := 1024 * 1024.
Definition kReservedPages : Z := 8.

Definition kMaxPageId : Z := kMaxPageCount - 1.
Definition kHeaderPageId : Z := 0.
Definition kMetadataPageId : Z := 1.
Definition kFirstDataPageId : Z := kReservedPages.
Definition kReservedPageCount : Z := kReservedPages.

Inductive PageType : Set :=
  PT_Invalid | PT_Header | PT_Metadata | PT_FreeList | PT_Data | PT_Overflow | PT_Index
  | PT_Journal | PT_Reserved.

(** The underlying [uint8_t]. *)
Definition PageType_value (t : PageType) : Z :=
  match t with
  | PT_Invalid => 0 | PT_Header => 1 | PT_Metadata => 2 | PT_FreeList => 3 | PT_Data => 4
  | PT_Overflow => 5 | PT_Index => 6 | PT_Journal => 7 | PT_Reserved => 8
  end.

#[global] Instance PageType_eq_dec : EqDecision PageType.
Proof. solve_decision. Defined.
