(* ===== verification/Formats.v ===== *)
(** The descriptors of the on-disk format and the metadata catalog
    (src/include/quartz/format, src/src/format, src/src/metadata): magic numbers,
    versions, feature flags, object ids, the database header, the superblock, the
    metadata and schema descriptors, their validator, the compatibility rules and
    the in-memory catalog.

    The random words of [ObjectId::generate] are arguments.  A [std::unordered_map]
    has no order the code may rely on, so the lists of ids of the catalog are those
    of a [gmap]. *)
From Stdlib Require Import Ascii.
From stdpp Require Import base strings list gmap pretty.
From Stdlib Require Import ZArith Lia.
From S2P Require Import Prelude Config.

(** ** MagicNumbers *)
Definition kDatabaseMagic : Z := 0x51444231.
Definition kSuperblockMagic : Z := 0x51444253.
Definition kPageMagic : Z := 0x50475132.
Definition kFreeListMagic : Z := 0x464C5133.
Definition kMetadataMagic : Z := 0x4D445134.
Definition kJournalMagic : Z := 0x4A524E35.
Definition kFormatMagicV1 : Z := 0x51444231.
Definition kFormatMagicV2 : Z := 0x51444232.

Definition MagicNumbers_isValid (value : Z) : bool :=
  (value =? kFormatMagicV1) || (value =? kFormatMagicV2).
Definition MagicNumbers_isRecognized (value : Z) : bool :=
  (value =? kDatabaseMagic) || (value =? kSuperblockMagic) || (value =? kPageMagic)
  || (value =? kFreeListMagic) || (value =? kMetadataMagic) || (value =? kJournalMagic).

(** ** Versioning *)
Definition kMajorVersion : Z := 1.
Definition kMinorVersion : Z := 0.
Definition kPatchVersion : Z := 0.

Record Version : Set := mkVersion { v_major : Z; v_minor : Z; v_patch : Z }.
Definition Version_eqb (a b : Version) : bool :=
  (v_major a =? v_major b) && (v_minor a =? v_minor b) && (v_patch a =? v_patch b).
Definition Version_isCompatible (v required : Version) : bool :=
  (v_major v =? v_major required) && (v_minor required <=? v_minor v).
Definition Versioning_current : Version := mkVersion kMajorVersion kMinorVersion kPatchVersion.

Definition Versioning_validate (v : Version) : outcome unit :=
  if negb (v_major v =? kMajorVersion)
  then invalidArgument ("Version major mismatch: expected " +:+ pretty kMajorVersion +:+
                        ", got " +:+ pretty (v_major v))
  else if kMinorVersion <? v_minor v
  then invalidArgument ("Version minor too new: reader supports up to " +:+
                        pretty kMinorVersion +:+ ", got " +:+ pretty (v_minor v))
  else Ok tt.

Definition Versioning_isReadable (writer reader : Version) : bool :=
  (v_major writer =? v_major reader) && (v_minor writer <=? v_minor reader).
Definition Versioning_toString (v : Version) : string :=
  pretty (v_major v) +:+ "." +:+ pretty (v_minor v) +:+ "." +:+ pretty (v_patch v).
Definition encodeVersion (major minor : Z) : Z :=
  Z.lor (u32 (Z.shiftl major 16)) (Z.land minor 0xFFFF).
Definition decodeVersion (encoded : Z) : Version :=
  mkVersion (Z.shiftr encoded 16) (Z.land encoded 0xFFFF) 0.

(** ** FeatureFlags *)
Definition kNone : Z := 0.
Definition kChecksums : Z := Z.shiftl 1 0.
Definition kCompression : Z := Z.shiftl 1 1.
Definition kEncryption : Z := Z.shiftl 1 2.
Definition kJournaling : Z := Z.shiftl 1 3.
Definition kLargePages : Z := Z.shiftl 1 4.
Definition kExtendedIds : Z := Z.shiftl 1 5.
Definition kCustomPageSize : Z := Z.shiftl 1 6.
Definition kMetadataRegion : Z := Z.shiftl 1 7.
Definition kUserFlags : Z := Z.shiftl 1 8.

(** [~x] on [uint64_t]. *)
Definition not64 (x : Z) : Z := u64 (Z.lnot x).
Definition kReservedMask : Z :=
  not64 (Z.lor (Z.lor (Z.lor (Z.lor (Z.lor (Z.lor (Z.lor (Z.lor
    kChecksums kCompression) kEncryption) kJournaling) kLargePages) kExtendedIds)
    kCustomPageSize) kMetadataRegion) kUserFlags).

(** The flags are the [uint64_t] they wrap. *)
Definition FeatureFlags : Set := Z.
Definition FF_has (flag : Z) (f : FeatureFlags) : bool := Z.land f flag =? flag.
Definition FF_hasAny (flag : Z) (f : FeatureFlags) : bool := negb (Z.land f flag =? 0).
Definition FF_set (flag : Z) (f : FeatureFlags) : FeatureFlags := Z.lor f flag.
Definition FF_clear (flag : Z) (f : FeatureFlags) : FeatureFlags := Z.land f (not64 flag).
Definition FF_hasReservedBits (f : FeatureFlags) : bool := negb (Z.land f kReservedMask =? 0).
Definition FF_validate (f : FeatureFlags) : outcome unit :=
  if FF_hasReservedBits f then invalidArgument "FeatureFlags: reserved bits are set" else Ok tt.

Definition FF_append (oss : string * bool) (name : string) : string * bool :=
  let '(s, first) := oss in ((if first then s else s +:+ "|") +:+ name, false).
Definition FF_toString (f : FeatureFlags) : string :=
  if f =? kNone then "none"
  else
    let add := λ flag name oss, if FF_has flag f then FF_append oss name else oss in
    fst (add kUserFlags "user_flags" (add kMetadataRegion "metadata_region"
      (add kCustomPageSize "custom_page_size" (add kExtendedIds "extended_ids"
      (add kLargePages "large_pages" (add kJournaling "journaling"
      (add kEncryption "encryption" (add kCompression "compression"
      (add kChecksums "checksums" (EmptyString, true)))))))))).

(** ** ObjectId: sixteen bytes, read as two little-endian words by the union *)
Record ObjectId : Set := mkObjectId { oid_bytes : list Z }.
Definition oid_high (id : ObjectId) : Z := le_value (take 8 (oid_bytes id)).
Definition oid_low (id : ObjectId) : Z := le_value (drop 8 (oid_bytes id)).
Definition ObjectId_nil : ObjectId := mkObjectId (zeros 16).
Definition ObjectId_isNil (id : ObjectId) : bool := (oid_high id =? 0) && (oid_low id =? 0).

(** [r1] and [r2] are the two words drawn from the generator. *)
Definition ObjectId_generate (r1 r2 : Z) : ObjectId :=
  let bytes := le_bytes 8 r1 ++ le_bytes 8 r2 in
  let bytes := alter (λ b, Z.lor (Z.land b 0x3F) 0x80) 8%nat bytes in
  mkObjectId (alter (λ b, Z.lor (Z.land b 0x0F) 0x40) 6%nat bytes).

Definition hexToNybble (c : ascii) : Z :=
  let c := Z.of_N (N_of_ascii c) in
  if (48 <=? c) && (c <=? 57) then c - 48
  else if (97 <=? c) && (c <=? 102) then c - 97 + 10
  else if (65 <=? c) && (c <=? 70) then c - 65 + 10
  else -1.

(** The loop over the characters: [i] is the position, [hexPos] the number of
    digits seen; the digits are stored in [out] as they come. *)
Fixpoint collect_hex (cs : list ascii) (i hexPos : nat) (out : ObjectId) : outcome nat * ObjectId :=
  match cs with
  | [] => (Ok hexPos, out)
  | c :: cs =>
      if bool_decide (c = "-"%char) then collect_hex cs (S i) hexPos out
      else
        let nybble := hexToNybble c in
        if nybble <? 0
        then (invalidArgument ("ObjectId: invalid hex character at position " +:+ pretty i), out)
        else
          let byte := if Nat.even hexPos then λ _, u8 (Z.shiftl nybble 4) else λ b, Z.lor b (u8 nybble) in
          collect_hex cs (S i) (S hexPos) (mkObjectId (alter byte (hexPos / 2)%nat (oid_bytes out)))
  end.

Definition char_at (i : nat) (c : ascii) (cs : list ascii) : bool :=
  bool_decide (cs !! i = Some c).
Definition ObjectId_fromString (str : string) : M ObjectId unit := λ out,
  let cs := String.list_ascii_of_string str in
  if negb (length cs =? 36)%nat
  then (invalidArgument "ObjectId: invalid string length (expected 36)", out)
  else if negb (char_at 8 "-"%char cs) || negb (char_at 13 "-"%char cs)
          || negb (char_at 18 "-"%char cs) || negb (char_at 23 "-"%char cs)
  then (invalidArgument "ObjectId: invalid separator positions", out)
  else
    match collect_hex cs 0 0 out with
    | (Ok hexPos, out) =>
        (if negb (hexPos =? 32)%nat then corruption "ObjectId: unexpected hex digit count" else Ok tt, out)
    | (Err e, out) => (Err e, out)
    | (Throw w, out) => (Throw w, out)
    | (UB, out) => (UB, out)
    | (Fuel, out) => (Fuel, out)
    end.
(** The overload that returns the id, nil when the text is not one. *)
Definition ObjectId_ofString (str : string) : ObjectId :=
  let '(st, id) := ObjectId_fromString str ObjectId_nil in
  if is_ok st then id else ObjectId_nil.

Definition hex_digit (n : Z) : ascii :=
  default "-"%char (String.list_ascii_of_string "0123456789abcdef" !! Z.to_nat n).
Definition print_byte (st : list ascii * nat) (ib : nat * Z) : list ascii * nat :=
  let '(result, outIdx) := st in
  let '(i, b) := ib in
  let outIdx := if (i =? 4)%nat || (i =? 6)%nat || (i =? 8)%nat || (i =? 10)%nat then S outIdx else outIdx in
  let result := <[outIdx := hex_digit (Z.land (Z.shiftr b 4) 0x0F)]> result in
  let result := <[S outIdx := hex_digit (Z.land b 0x0F)]> result in
  (result, S (S outIdx)).
Definition ObjectId_toString (id : ObjectId) : string :=
  String.string_of_list_ascii
    (fst (foldl print_byte (replicate 36 "-"%char, 0%nat) (zip (seq 0 16) (oid_bytes id)))).

Definition ObjectId_compare (a b : ObjectId) : Z :=
  if negb (oid_high a =? oid_high b) then (if oid_high a <? oid_high b then -1 else 1)
  else if negb (oid_low a =? oid_low b) then (if oid_low a <? oid_low b then -1 else 1)
  else 0.
Definition ObjectId_eqb (a b : ObjectId) : bool :=
  (oid_high a =? oid_high b) && (oid_low a =? oid_low b).
Definition ObjectId_ltb (a b : ObjectId) : bool :=
  if negb (oid_high a =? oid_high b) then oid_high a <? oid_high b else oid_low a <? oid_low b.

(** ** DatabaseHeader and Superblock *)
Record DatabaseHeader : Set := mkDatabaseHeader {
  dh_magic : Z; dh_majorVersion : Z; dh_minorVersion : Z; dh_pageSize : Z;
  dh_databaseId : ObjectId; dh_creationTimestamp : Z; dh_modificationTimestamp : Z;
  dh_featureFlags : FeatureFlags; dh_superblockPageId : Z; dh_headerChecksum : Z;
  dh_reserved : list Z }.
Definition DatabaseHeader_make (r1 r2 : Z) : DatabaseHeader :=
  mkDatabaseHeader kDatabaseMagic kMajorVersion kMinorVersion kPageSize
    (ObjectId_generate r1 r2) 0 0 0 1 0 (replicate 8 0).
Definition DatabaseHeader_isValid (h : DatabaseHeader) : bool :=
  (dh_magic h =? kDatabaseMagic) && (dh_majorVersion h =? kMajorVersion) && (dh_pageSize h =? kPageSize).
Definition DatabaseHeader_version (h : DatabaseHeader) : Version :=
  mkVersion (dh_majorVersion h) (dh_minorVersion h) 0.

Definition kInitialFileSize : Z := kPageSize * 8.

Record Superblock : Set := mkSuperblock {
  sb_magic : Z; sb_databaseId : ObjectId;
  sb_totalPages : Z; sb_allocatedPages : Z; sb_freePages : Z; sb_reservedPages : Z;
  sb_firstFreePage : Z; sb_lastAllocatedPage : Z; sb_freeListPage : Z; sb_metadataPage : Z;
  sb_featureFlags : FeatureFlags; sb_minReaderVersion : Z; sb_reserved : list Z }.
Definition Superblock_make (dbId : ObjectId) : Superblock :=
  let totalPages := kInitialFileSize / kPageSize in
  mkSuperblock kSuperblockMagic dbId totalPages kReservedPages (u64 (totalPages - kReservedPages))
    kReservedPages kReservedPages 0 2 1 0 (encodeVersion kMajorVersion kMinorVersion) (replicate 6 0).
Definition Superblock_isValid (s : Superblock) : bool := sb_magic s =? kSuperblockMagic.
Definition Superblock_isConsistent (s : Superblock) : bool :=
  if negb (Superblock_isValid s) then false
  else if negb (u64 (sb_allocatedPages s + sb_freePages s) =? sb_totalPages s) then false
  else true.

(** ** MetadataDescriptor and SchemaDescriptor *)
Record MetadataDescriptor : Set := mkMetadataDescriptor {
  md_magic : Z; md_typeId : Z; md_version : Z; md_startPage : Z; md_pageCount : Z;
  md_byteSize : Z; md_flags : Z; md_reserved : list Z }.
Definition MetadataDescriptor_isValid (d : MetadataDescriptor) : bool :=
  negb (md_magic d =? 0) && negb (md_startPage d =? kInvalidPageId).
Definition MetadataDescriptor_make (sectionMagic type page count size : Z) : MetadataDescriptor :=
  mkMetadataDescriptor sectionMagic type 1 page count size 0 (replicate 2 0).

Record SchemaDescriptor : Set := mkSchemaDescriptor {
  sd_schemaId : Z; sd_version : Z; sd_rootPage : Z; sd_flags : Z; sd_fieldCount : Z;
  sd_reserved : list Z; sd_reserved2 : Z }.
Definition SchemaDescriptor_isValid (d : SchemaDescriptor) : bool :=
  negb (sd_schemaId d =? 0) && negb (sd_rootPage d =? kInvalidPageId).
Definition SchemaDescriptor_make (id page fields : Z) : SchemaDescriptor :=
  mkSchemaDescriptor id 1 page 0 fields (replicate 1 0) 0.

(** ** FormatValidator *)
Definition validateMagic (magic : Z) : outcome unit :=
  if negb (MagicNumbers_isValid magic)
  then corruption ("Invalid magic number: 0x" +:+ pretty magic) else Ok tt.

Definition validatePageSize (pageSize : Z) : outcome unit :=
  if pageSize <? 512 then invalidArgument ("Page size too small: " +:+ pretty pageSize)
  else if 65536 <? pageSize then invalidArgument ("Page size too large: " +:+ pretty pageSize)
  else if negb (Z.land pageSize (u32 (pageSize - 1)) =? 0)
  then invalidArgument ("Page size not a power of two: " +:+ pretty pageSize)
  else Ok tt.

Definition validateHeader (h : DatabaseHeader) : outcome unit :=
  if negb (DatabaseHeader_isValid h)
  then corruption "DatabaseHeader: invalid magic, version, or page size"
  else
    validateMagic (dh_magic h);;
    validatePageSize (dh_pageSize h);;
    if negb (dh_majorVersion h =? kMajorVersion)
    then invalidArgument ("DatabaseHeader: unsupported major version " +:+ pretty (dh_majorVersion h))
    else if kMinorVersion <? dh_minorVersion h
    then invalidArgument ("DatabaseHeader: minor version " +:+ pretty (dh_minorVersion h) +:+
                          " is too new, reader supports up to " +:+ pretty kMinorVersion)
    else if ObjectId_isNil (dh_databaseId h) then corruption "DatabaseHeader: nil database ID"
    else Ok tt.

Definition validateSuperblock (s : Superblock) : outcome unit :=
  if negb (Superblock_isValid s) then corruption "Superblock: invalid magic"
  else if negb (Superblock_isConsistent s) then corruption "Superblock: inconsistent page counts"
  else if sb_totalPages s =? 0 then corruption "Superblock: zero total pages"
  else Ok tt.

Definition validateVersion (v : Version) : outcome unit := Versioning_validate v.
Definition validateFeatureFlags (f : FeatureFlags) : outcome unit := FF_validate f.

Definition validateMetadataDescriptor (d : MetadataDescriptor) : outcome unit :=
  if negb (MetadataDescriptor_isValid d) then corruption "MetadataDescriptor: invalid descriptor"
  else if negb (MagicNumbers_isRecognized (md_magic d))
  then corruption ("MetadataDescriptor: unrecognized magic 0x" +:+ pretty (md_magic d))
  else if md_pageCount d =? 0 then corruption "MetadataDescriptor: zero page count"
  else Ok tt.
Definition validateSchemaDescriptor (d : SchemaDescriptor) : outcome unit :=
  if negb (SchemaDescriptor_isValid d) then corruption "SchemaDescriptor: invalid descriptor" else Ok tt.

(** ** Compatibility *)
Record Requirements : Set := mkRequirements {
  rq_minReaderVersion : Version; rq_minWriterVersion : Version;
  rq_requiredFeatures : FeatureFlags; rq_prohibitedFeatures : FeatureFlags }.

Definition checkReaderCompatibility (header reader : Version) : outcome unit :=
  if negb (v_major header =? v_major reader)
  then invalidArgument ("Reader major version mismatch: file=" +:+ Versioning_toString header +:+
                        ", reader=" +:+ Versioning_toString reader)
  else if v_minor reader <? v_minor header
  then invalidArgument ("File requires newer minor version: file=" +:+ Versioning_toString header +:+
                        ", reader=" +:+ Versioning_toString reader)
  else Ok tt.
Definition checkWriterCompatibility (header writer : Version) : outcome unit :=
  if negb (v_major header =? v_major writer)
  then invalidArgument ("Writer major version mismatch: file=" +:+ Versioning_toString header +:+
                        ", writer=" +:+ Versioning_toString writer)
  else Ok tt.
Definition checkFeatureCompatibility (file reader : FeatureFlags) : outcome unit :=
  FF_validate file;;
  if FF_has kCompression file && negb (FF_has kCompression reader)
  then invalidArgument "File uses compression but reader does not support it"
  else if FF_has kEncryption file && negb (FF_has kEncryption reader)
  then invalidArgument "File uses encryption but reader does not support it"
  else if FF_has kLargePages file && negb (FF_has kLargePages reader)
  then invalidArgument "File uses large pages but reader does not support it"
  else if FF_has kExtendedIds file && negb (FF_has kExtendedIds reader)
  then invalidArgument "File uses extended IDs but reader does not support it"
  else Ok tt.

Definition isDowngrade (old new : Version) : bool :=
  if negb (v_major old =? v_major new) then v_major new <? v_major old
  else if negb (v_minor old =? v_minor new) then v_minor new <? v_minor old
  else v_patch new <? v_patch old.
Definition isUpgrade (old new : Version) : bool :=
  if negb (v_major old =? v_major new) then v_major old <? v_major new
  else if negb (v_minor old =? v_minor new) then v_minor old <? v_minor new
  else v_patch old <? v_patch new.
Definition canRead (r : Requirements) (reader : Version) (readerFlags : FeatureFlags) : bool :=
  if negb (Versioning_isReadable (rq_minReaderVersion r) reader) then false
  else if FF_hasAny (rq_prohibitedFeatures r) readerFlags then false
  else true.

(** ** metadata/VersionCompatibility *)
Definition kVersionMajor : Z := 1.
Definition kVersionMinor : Z := 0.
Definition supportsFormat (major minor : Z) : bool :=
  if kVersionMajor <? major then false
  else if (major =? kVersionMajor) && (kVersionMinor <? minor) then false
  else true.
Definition supportsFeatures (flags : FeatureFlags) : bool := true.
Definition currentFormatVersion : Z := encodeVersion kVersionMajor kVersionMinor.

(** ** metadata/Catalog *)
Record Catalog : Set := mkCatalog {
  cat_schemas : gmap Z SchemaDescriptor; cat_metadata : gmap Z MetadataDescriptor }.
Definition Catalog_empty : Catalog := mkCatalog ∅ ∅.

Definition registerSchema (d : SchemaDescriptor) : M Catalog unit := λ c,
  if negb (SchemaDescriptor_isValid d) then (invalidArgument "Catalog: invalid schema descriptor", c)
  else (Ok tt, mkCatalog (<[sd_schemaId d := d]> (cat_schemas c)) (cat_metadata c)).
Definition registerMetadata (d : MetadataDescriptor) : M Catalog unit := λ c,
  if negb (MetadataDescriptor_isValid d) then (invalidArgument "Catalog: invalid metadata descriptor", c)
  else (Ok tt, mkCatalog (cat_schemas c) (<[md_typeId d := d]> (cat_metadata c))).
Definition findSchema (schemaId : Z) (c : Catalog) : outcome SchemaDescriptor :=
  match cat_schemas c !! schemaId with
  | Some d => Ok d
  | None => invalidArgument "Catalog: schema not found"
  end.
Definition findMetadata (typeId : Z) (c : Catalog) : outcome MetadataDescriptor :=
  match cat_metadata c !! typeId with
  | Some d => Ok d
  | None => invalidArgument "Catalog: metadata not found"
  end.
Definition schemaIds (c : Catalog) : list Z := fst <$> map_to_list (cat_schemas c).
Definition metadataTypeIds (c : Catalog) : list Z := fst <$> map_to_list (cat_metadata c).
Definition schemaCount (c : Catalog) : nat := size (cat_schemas c).
Definition metadataCount (c : Catalog) : nat := size (cat_metadata c).
Definition Catalog_clear (c : Catalog) : Catalog := mkCatalog ∅ ∅.

(** ** Object ids *)

Definition ObjectId_ok (id : ObjectId) : Prop := length (oid_bytes id) = 16%nat ∧ bytes_ok (oid_bytes id).

(** A fact about the integers below [k] is checked on each of them. *)
Lemma below_cases (f : Z → bool) k n : forallb f (seqZ 0 k) = true → 0 <= n < k → f n = true.
Proof.
  intros H Hn. apply (proj1 (forallb_forall _ _) H), list_elem_of_In, elem_of_seqZ. lia.
Qed.

Lemma hex_digit_spec n : 0 <= n < 16 → hexToNybble (hex_digit n) = n ∧ hex_digit n ≠ "-"%char.
Proof.
  intros Hn.
  pose proof (below_cases (λ n, bool_decide (hexToNybble (hex_digit n) = n ∧ hex_digit n ≠ "-"%char)) 16 n
    eq_refl Hn) as H. by apply bool_decide_eq_true in H.
Qed.

Lemma nybbles b : 0 <= b < 256 →
  0 <= Z.land (Z.shiftr b 4) 0x0F < 16 ∧ 0 <= Z.land b 0x0F < 16 ∧
  Z.lor (u8 (Z.shiftl (Z.land (Z.shiftr b 4) 0x0F) 4)) (u8 (Z.land b 0x0F)) = b.
Proof.
  intros Hb.
  pose proof (below_cases (λ b, let h := Z.land (Z.shiftr b 4) 0x0F in let l := Z.land b 0x0F in
    (0 <=? h) && (h <? 16) && (0 <=? l) && (l <? 16) && (Z.lor (u8 (Z.shiftl h 4)) (u8 l) =? b)) 256 b
    eq_refl Hb) as H. cbv beta zeta in H. bools. lia.
Qed.

Definition hi_char (b : Z) : ascii := hex_digit (Z.land (Z.shiftr b 4) 0x0F).
Definition lo_char (b : Z) : ascii := hex_digit (Z.land b 0x0F).

(** Two digits of a byte are collected into that byte, a hyphen into nothing. *)
Lemma collect_byte b cs i k out : 0 <= b < 256 → (k < length (oid_bytes out))%nat →
  collect_hex (hi_char b :: lo_char b :: cs) i (2 * k) out =
  collect_hex cs (2 + i) (2 * S k) (mkObjectId (<[k := b]> (oid_bytes out))).
Proof.
  intros Hb Hk. destruct (nybbles b Hb) as (Hh & Hl & Heq).
  destruct (hex_digit_spec _ Hh) as [Eh Nh], (hex_digit_spec _ Hl) as [El Nl].
  cbn [collect_hex]. unfold hi_char, lo_char. rewrite !bool_decide_eq_false_2, Eh, El by done.
  rewrite !(proj2 (Z.ltb_ge _ 0)) by lia. cbn [oid_bytes].
  assert (Ev : Nat.even (2 * k) = true) by (apply Nat.even_spec; by exists k).
  assert (Od : Nat.even (S (2 * k)) = false) by (by rewrite Nat.even_succ, <-Nat.negb_even, Ev).
  assert (D0 : (2 * k / 2)%nat = k) by (rewrite Nat.mul_comm; by apply Nat.div_mul).
  assert (D1 : (S (2 * k) / 2)%nat = k).
  { replace (S (2 * k)) with (1 + k * 2)%nat by lia. by rewrite Nat.div_add. }
  rewrite Ev, Od, D0, D1. replace (S (S (2 * k))) with (2 * S k)%nat by lia.
  do 2 f_equal. apply list_eq. intros j.
  destruct (decide (j = k)) as [->|Hj].
  - rewrite !list_lookup_alter_eq, list_lookup_insert_eq by done.
    destruct (lookup_lt_is_Some_2 _ _ Hk) as [x ->]. cbn. by rewrite Heq.
  - by rewrite !list_lookup_alter_ne, list_lookup_insert_ne by done.
Qed.

(** The text of an id, digit by digit. *)
Lemma toString_chars id : length (oid_bytes id) = 16%nat →
  let h := λ l : list Z, concat ((λ b, [hi_char b; lo_char b]) <$> l) in
  let bs := oid_bytes id in
  String.list_ascii_of_string (ObjectId_toString id) =
  h (take 4 bs) ++ ["-"%char] ++ h (take 2 (drop 4 bs)) ++ ["-"%char] ++ h (take 2 (drop 6 bs)) ++
  ["-"%char] ++ h (take 2 (drop 8 bs)) ++ ["-"%char] ++ h (drop 10 bs).
Proof.
  destruct id as [bs]. cbn [oid_bytes]. intros Hl.
  do 16 (destruct bs as [|? bs]; [done|]). destruct bs; [|done].
  unfold ObjectId_toString. by rewrite String.list_ascii_of_string_of_list_ascii.
Qed.

Lemma collect_hyphen cs i p out : collect_hex ("-"%char :: cs) i p out = collect_hex cs (S i) p out.
Proof. done. Qed.

(** An object id printed and parsed again is the same id: [toString] writes
    text that [fromString] accepts, and every byte of the target is overwritten
    with the byte printed, whatever the target held. *)
Theorem objectid_roundtrip id out :
  ObjectId_ok id → length (oid_bytes out) = 16%nat →
  ObjectId_fromString (ObjectId_toString id) out = (Ok tt, id).
Proof.
  intros [Hl Hb] Ho. pose proof (toString_chars id Hl) as Hs. unfold ObjectId_fromString.
  rewrite Hs. clear Hs. destruct id as [bs], out as [os]. cbn [oid_bytes] in *.
  do 16 (destruct bs as [|? bs]; [done|]). destruct bs; [|done].
  do 16 (destruct os as [|? os]; [done|]). destruct os; [|done].
  unfold bytes_ok in Hb. rewrite !Forall_cons in Hb. destruct_and!.
  cbn [take drop fmap list_fmap concat app length Nat.eqb negb orb].
  change (char_at 8 _ _) with true. change (char_at 13 _ _) with true.
  change (char_at 18 _ _) with true. change (char_at 23 _ _) with true. cbn [negb orb].
  change 0%nat with (2 * 0)%nat at 2.
  repeat first [rewrite collect_hyphen | rewrite collect_byte; [|done|cbn; lia]]. done.
Qed.

Lemma objectid_roundtrip_witness :
  ObjectId_fromString "01020304-0506-0708-090a-0b0c0d0e0fff" ObjectId_nil =
  (Ok tt, mkObjectId [1; 2; 3; 4; 5; 6; 7; 8; 9; 10; 11; 12; 13; 14; 15; 255]).
Proof.
  apply (objectid_roundtrip (mkObjectId [1; 2; 3; 4; 5; 6; 7; 8; 9; 10; 11; 12; 13; 14; 15; 255]) ObjectId_nil);
    [split; [done|repeat constructor; lia]|done].
Defined.

(** [generate] makes a version 4 id: sixteen bytes, never nil, whose text shows
    the version and the variant where RFC 4122 has them. *)
Lemma generate_version4 r1 r2 :
  let id := ObjectId_generate r1 r2 in
  let text := String.list_ascii_of_string (ObjectId_toString id) in
  ObjectId_ok id ∧ ObjectId_isNil id = false ∧ text !! 14%nat = Some "4"%char ∧
  ∃ c, text !! 19%nat = Some c ∧ c ∈ ["8"%char; "9"%char; "a"%char; "b"%char].
Proof.
  intros id text. subst text.
  pose proof (le_bytes_ok 8 r1) as H1. pose proof (le_bytes_ok 8 r2) as H2.
  assert (Hid : oid_bytes id = alter (λ b, Z.lor (Z.land b 0x0F) 0x40) 6%nat
    (alter (λ b, Z.lor (Z.land b 0x3F) 0x80) 8%nat (le_bytes 8 r1 ++ le_bytes 8 r2))) by done.
  pose proof (length_le_bytes 8 r1) as L1. pose proof (length_le_bytes 8 r2) as L2.
  revert Hid H1 H2 L1 L2. generalize (le_bytes 8 r1) (le_bytes 8 r2). clearbody id. intros as_ bs Hid H1 H2 L1 L2.
  do 8 (destruct as_ as [|? as_]; [done|]). destruct as_; [|done].
  do 8 (destruct bs as [|? bs]; [done|]). destruct bs; [|done].
  cbn [app alter list_alter] in Hid. unfold bytes_ok in *. rewrite !Forall_cons in H1, H2. destruct_and!.
  assert (Hv : ∀ b, 0 <= b < 256 → let v := Z.lor (Z.land b 15) 64 in
    0 < v < 256 ∧ hi_char v = "4"%char).
  { intros b Hb v. pose proof (below_cases (λ b, let v := Z.lor (Z.land b 15) 64 in
      (0 <? v) && (v <? 256) && bool_decide (hi_char v = "4"%char)) 256 b eq_refl Hb) as H.
    cbv beta zeta in H. bools. rewrite bool_decide_eq_true in *. subst v. split; [lia|done]. }
  assert (Hw : ∀ b, 0 <= b < 256 → let v := Z.lor (Z.land b 63) 128 in
    0 <= v < 256 ∧ hi_char v ∈ ["8"%char; "9"%char; "a"%char; "b"%char]).
  { intros b Hb v. pose proof (below_cases (λ b, let v := Z.lor (Z.land b 63) 128 in
      (0 <=? v) && (v <? 256) && bool_decide (hi_char v ∈ ["8"%char; "9"%char; "a"%char; "b"%char]))
      256 b eq_refl Hb) as H.
    cbv beta zeta in H. bools. rewrite bool_decide_eq_true in *. subst v. split; [lia|done]. }
  assert (Hok : ObjectId_ok id).
  { unfold ObjectId_ok, bytes_ok. rewrite Hid. split; [done|].
    pose proof (proj1 (Hv z5 ltac:(done))). pose proof (proj1 (Hw z7 ltac:(done))).
    repeat constructor; lia. }
  rewrite (toString_chars id) by apply Hok. unfold ObjectId_isNil, oid_high. rewrite Hid.
  cbn [take drop fmap list_fmap concat app lookup list_lookup le_value]. split_and!; [done|..].
  - apply andb_false_iff. left. apply Z.eqb_neq. 
    pose proof (proj1 (Hv z5 ltac:(done))). lia.
  - f_equal. by apply Hv.
  - eexists. split; [done|]. by apply Hw.
Qed.

(** ** Versions *)

Lemma encode_decode major minor : in_u 16 major → in_u 16 minor →
  decodeVersion (encodeVersion major minor) = mkVersion major minor 0 ∧ in_u 32 (encodeVersion major minor).
Proof.
  unfold in_u. intros Ha Hi. unfold encodeVersion, decodeVersion, u32. change 0xFFFF with (Z.ones 16).
  rewrite !Z.land_ones, Z.shiftl_mul_pow2, Z.shiftr_div_pow2 by lia.
  rewrite (Z.mod_small minor) by lia. rewrite (wrap_small 32) by (unfold in_u; lia).
  rewrite lor_disjoint by lia. split; [|lia]. f_equal; lia.
Qed.

(** [isUpgrade] is the strict lexicographic order of versions and [isDowngrade]
    its converse: of two versions exactly one is newer, or they are equal. *)
Lemma upgrade_order a b c :
  isDowngrade a b = isUpgrade b a ∧
  (isUpgrade a b = true → isUpgrade b c = true → isUpgrade a c = true) ∧
  (isUpgrade a b = false → isUpgrade b a = false → a = b) ∧
  (isUpgrade a b = true → isUpgrade b a = false ∧ Version_eqb a b = false).
Proof.
  destruct a as [x1 x2 x3], b as [y1 y2 y3], c as [z1 z2 z3].
  unfold isDowngrade, isUpgrade, Version_eqb. cbn [v_major v_minor v_patch].
  rewrite (Z.eqb_sym y1 x1), (Z.eqb_sym y2 x2).
  split_and!; [done|..]; repeat case_test; intros; bools; f_equal; try lia; try done;
    repeat (first [apply andb_false_iff; (left || right)|split]; rewrite ?Z.eqb_neq, ?Z.ltb_ge; try lia).
Qed.

(** ** Page sizes *)

Lemma pow2_test p : 0 < p → Z.land p (p - 1) = 0 ↔ p = 2 ^ Z.log2 p.
Proof.
  intros Hp. destruct (Z.log2_spec p Hp) as [Hlo Hhi]. pose proof (Z.log2_nonneg p) as Hk.
  split.
  - intros H. destruct (decide (p = 2 ^ Z.log2 p)) as [|Hne]; [done|]. exfalso.
    assert (E : Z.log2 (p - 1) = Z.log2 p) by (apply Z.log2_unique; lia).
    assert (T : Z.testbit (Z.land p (p - 1)) (Z.log2 p) = true).
    { rewrite Z.land_spec, Z.bit_log2 by done. rewrite <-E at 1. apply Z.bit_log2. lia. }
    by rewrite H, Z.bits_0 in T.
  - intros E. rewrite E.
    replace (2 ^ Z.log2 p - 1) with (Z.ones (Z.log2 p)) by (rewrite Z.ones_equiv; lia).
    rewrite Z.land_ones by lia. apply Z.mod_same. lia.
Qed.

(** The bit test of the page-size check is the specification it stands for:
    a page size is accepted exactly when it is one of the powers of two from 512
    to 65536. *)
Theorem page_size_power_of_two p : in_u 32 p →
  validatePageSize p = Ok tt ↔ ∃ k, 9 <= k <= 16 ∧ p = 2 ^ k.
Proof.
  unfold in_u, validatePageSize. intros Hp. split.
  - intros H. repeat case_hyp H; try done. bools.
    unfold u32 in *. rewrite wrap_small in Heqb1 by (unfold in_u; lia).
    exists (Z.log2 p). split; [|apply pow2_test; lia].
    split; [apply Z.log2_le_pow2; lia|]. apply Z.lt_succ_r, Z.log2_lt_pow2; lia.
  - intros (k & Hk & ->). pose proof (Z.pow_le_mono_r 2 9 k). pose proof (Z.pow_le_mono_r 2 k 16).
    rewrite !(proj2 (Z.ltb_ge _ _)) by lia. unfold u32. rewrite wrap_small by (unfold in_u; lia).
    rewrite (proj2 (pow2_test (2 ^ k) ltac:(lia))); [done|]. by rewrite Z.log2_pow2 by lia.
Qed.

Lemma page_size_power_of_two_witness :
  validatePageSize 4096 = Ok tt ∧ ¬ ∃ k, 9 <= k <= 16 ∧ 3000 = 2 ^ k.
Proof.
  split; [apply page_size_power_of_two; [by split|exists 12; by split]|].
  rewrite <-page_size_power_of_two by (by split). done.
Defined.

(** ** Flags, by bit *)

Lemma not64_spec x i : 0 <= i < 64 → Z.testbit (not64 x) i = negb (Z.testbit x i).
Proof.
  intros. unfold not64, u64, wrap. rewrite Z.mod_pow2_bits_low by lia. apply Z.lnot_spec. lia.
Qed.

Lemma flag_bit (f k : Z) : 0 <= k → FF_has (Z.shiftl 1 k) f = Z.testbit f k.
Proof.
  intros Hk. unfold FF_has. destruct (Z.testbit f k) eqn:E.
  - apply Z.eqb_eq, Z.bits_inj'. intros i Hi. rewrite Z.land_spec, Z.shiftl_1_l, Z.pow2_bits_eqb by lia.
    destruct (Z.eqb_spec k i) as [->|]; [by rewrite E|apply andb_false_r].
  - apply Z.eqb_neq. intros H. apply (f_equal (λ z, Z.testbit z k)) in H.
    by rewrite Z.land_spec, Z.shiftl_1_l, Z.pow2_bits_eqb, Z.eqb_refl, E in H by lia.
Qed.

(** [validate] accepts exactly the values whose bits are the nine defined flags. *)
Lemma flags_validate f : in_u 64 f → FF_validate f = Ok tt ↔ f < 512.
Proof.
  intros Hf. unfold FF_validate, FF_hasReservedBits. change kReservedMask with (not64 (Z.ones 9)). split.
  - case_test; [done|]. intros _. bools. unfold in_u in Hf. 
    assert (f = f mod 2 ^ 9); [|lia]. rewrite <-Z.land_ones by lia. apply Z.bits_inj'. intros i Hi.
    rewrite Z.land_spec, Z.testbit_ones_nonneg by lia. destruct (Z.ltb_spec i 9); [by rewrite andb_true_r|].
    rewrite andb_false_r. destruct (decide (i < 64)) as [Hi'|].
    + apply (f_equal (λ z, Z.testbit z i)) in Heqb. rewrite Z.land_spec, not64_spec, Z.bits_0 in Heqb by lia.
      rewrite Z.testbit_ones_nonneg in Heqb by lia. rewrite (proj2 (Z.ltb_ge i 9)) in Heqb by lia.
      by rewrite andb_true_r in Heqb.
    + apply (bits_above f 64); lia.
  - intros Hlt. replace (Z.land f (not64 (Z.ones 9))) with 0; [done|]. symmetry. unfold in_u in Hf.
    apply Z.bits_inj'. intros i Hi. rewrite Z.land_spec, Z.bits_0.
    destruct (decide (i < 9)).
    + rewrite not64_spec, Z.testbit_ones_nonneg, (proj2 (Z.ltb_lt i 9)) by lia. apply andb_false_r.
    + by rewrite (bits_above f 9) by lia.
Qed.

(** ** Header and superblock *)

(** What [validateHeader] accepts: the page size is fixed and the second magic
    number, which [MagicNumbers::isValid] knows, never passes. *)
Lemma header_valid_iff h : in_u 32 (dh_minorVersion h) →
  validateHeader h = Ok tt ↔
  dh_magic h = kFormatMagicV1 ∧ dh_majorVersion h = 1 ∧ dh_minorVersion h = 0 ∧ dh_pageSize h = 4096 ∧
  ObjectId_isNil (dh_databaseId h) = false.
Proof.
  intros Hm. unfold in_u in Hm. unfold validateHeader, DatabaseHeader_isValid, validateMagic, MagicNumbers_isValid.
  change kDatabaseMagic with kFormatMagicV1.
  destruct (Z.eqb_spec (dh_magic h) kFormatMagicV1) as [->|]; [|split; [done|naive_solver]].
  change kMajorVersion with 1. change kMinorVersion with 0. change kPageSize with 4096.
  destruct (Z.eqb_spec (dh_majorVersion h) 1) as [->|]; [|split; [done|naive_solver]].
  destruct (Z.eqb_spec (dh_pageSize h) 4096) as [->|]; [|split; [done|naive_solver]].
  cbn -[Z.ltb]. destruct (Z.ltb_spec 0 (dh_minorVersion h)); [split; [done|]; intros; destruct_and!; lia|].
  destruct (ObjectId_isNil _); split; try done; [naive_solver|]. intros _. split_and!; try done. lia.
Qed.

Lemma fresh_formats_valid r1 r2 :
  validateHeader (DatabaseHeader_make r1 r2) = Ok tt ∧
  validateSuperblock (Superblock_make (dh_databaseId (DatabaseHeader_make r1 r2))) = Ok tt.
Proof.
  split; [|done]. apply header_valid_iff; [by split|]. split_and!; try done. apply generate_version4.
Qed.

(** The two version checks of the program agree on the current major version
    only: the catalog's accepts every older one, which the validator refuses. *)
Lemma version_checks_disagree major minor : in_u 32 major → in_u 32 minor →
  supportsFormat major minor = true ∧ validateVersion (mkVersion major minor 0) ≠ Ok tt ↔ major = 0.
Proof.
  unfold in_u, supportsFormat, validateVersion, Versioning_validate. cbn [v_major v_minor].
  change kVersionMajor with 1. change kVersionMinor with 0. change kMajorVersion with 1. change kMinorVersion with 0.
  intros Ha Hi. split.
  - intros [H1 H2]. destruct (Z.ltb_spec 1 major); [done|].
    destruct (Z.eqb_spec major 1) as [->|]; [|lia]. cbn [negb andb] in *.
    by destruct (0 <? minor).
  - intros ->. by split.
Qed.

(** ** The catalog *)

Inductive cat_op : Set :=
  | CatSchema (d : SchemaDescriptor)
  | CatMetadata (d : MetadataDescriptor)
  | CatClear.
Definition cat_step (c : Catalog) (o : cat_op) : Catalog :=
  match o with
  | CatSchema d => (registerSchema d c).2
  | CatMetadata d => (registerMetadata d c).2
  | CatClear => Catalog_clear c
  end.
Definition cat_run : list cat_op → Catalog := foldl cat_step Catalog_empty.

(** The specification: the last valid descriptor registered under an id since the
    catalog was last cleared; [ops] is the history, latest first. *)
Fixpoint latest_schema (id : Z) (ops : list cat_op) : option SchemaDescriptor :=
  match ops with
  | [] | CatClear :: _ => None
  | CatSchema d :: ops =>
      if SchemaDescriptor_isValid d && (sd_schemaId d =? id) then Some d else latest_schema id ops
  | CatMetadata _ :: ops => latest_schema id ops
  end.
Fixpoint latest_metadata (id : Z) (ops : list cat_op) : option MetadataDescriptor :=
  match ops with
  | [] | CatClear :: _ => None
  | CatMetadata d :: ops =>
      if MetadataDescriptor_isValid d && (md_typeId d =? id) then Some d else latest_metadata id ops
  | CatSchema _ :: ops => latest_metadata id ops
  end.

Lemma cat_lookup ops id :
  cat_schemas (cat_run ops) !! id = latest_schema id (reverse ops) ∧
  cat_metadata (cat_run ops) !! id = latest_metadata id (reverse ops).
Proof.
  unfold cat_run. induction ops as [|o ops IH] using rev_ind; [done|].
  rewrite foldl_snoc, reverse_snoc. destruct IH as [IH1 IH2].
  destruct o as [d|d|]; cbn [cat_step latest_schema latest_metadata]; [| |done].
  - unfold registerSchema. destruct (SchemaDescriptor_isValid d); cbn; [|by split].
    split; [|done]. destruct (Z.eqb_spec (sd_schemaId d) id) as [<-|].
    + by rewrite lookup_insert_eq.
    + by rewrite lookup_insert_ne.
  - unfold registerMetadata. destruct (MetadataDescriptor_isValid d); cbn; [|by split].
    split; [done|]. destruct (Z.eqb_spec (md_typeId d) id) as [<-|].
    + by rewrite lookup_insert_eq.
    + by rewrite lookup_insert_ne.
Qed.

(** C26: After any history of registrations and clears, the catalog answers a
    lookup with the last valid descriptor registered under that id since the last
    clear, schemas and metadata independently, and with the "not found" error when
    there is none; and the ids it lists are, once each, those that are found. *)
Theorem catalog_refines_latest ops id :
  let c := cat_run ops in
  findSchema id c = match latest_schema id (reverse ops) with
                    | Some d => Ok d | None => invalidArgument "Catalog: schema not found" end ∧
  findMetadata id c = match latest_metadata id (reverse ops) with
                      | Some d => Ok d | None => invalidArgument "Catalog: metadata not found" end ∧
  (id ∈ schemaIds c ↔ is_Some (latest_schema id (reverse ops))) ∧
  (id ∈ metadataTypeIds c ↔ is_Some (latest_metadata id (reverse ops))) ∧
  NoDup (schemaIds c) ∧ NoDup (metadataTypeIds c) ∧
  length (schemaIds c) = schemaCount c ∧ length (metadataTypeIds c) = metadataCount c.
Proof.
  intros c. destruct (cat_lookup ops id) as [H1 H2]. fold c in H1, H2.
  unfold findSchema, findMetadata, schemaIds, metadataTypeIds, schemaCount, metadataCount.
  rewrite <-H1, <-H2, !length_fmap, !length_map_to_list. split_and!; try done; try apply NoDup_fst_map_to_list.
  all: rewrite list_elem_of_fmap; split.
  all: try (intros ([k d] & -> & Hd); apply elem_of_map_to_list in Hd; by eexists).
  all: intros [d Hd]; exists (id, d); split; [done|]; by apply elem_of_map_to_list.
Qed.
