(* ===== verification/Doubles.v ===== *)
(** Doubles: IEEE binary64 values of the standard library's executable
    specification of floating point ([spec_float] with precision 53 and exponent
    bound 1024). *)
From Stdlib Require Import ZArith SpecFloat.
From S2P Require Import Prelude.

Definition double : Set := spec_float.
Definition d_of_Z (n : Z) : double := binary_normalize 53 1024 n 0 false.
Definition d_mul (a b : double) : double := SFmul 53 1024 a b.
Definition d_add (a b : double) : double := SFadd 53 1024 a b.
Definition d_sub (a b : double) : double := SFsub 53 1024 a b.
Definition d_div (a b : double) : double := SFdiv 53 1024 a b.
Definition d_half : double := d_div (d_of_Z 1) (d_of_Z 2).
(** The conversion to an integer truncates towards zero. *)
Definition d_trunc (d : double) : Z :=
  match d with
  | S754_finite s m e =>
      let v := match e with Z0 => Z.pos m | Zpos p => Z.pos m * 2 ^ Z.pos p
               | Zneg p => Z.pos m / 2 ^ Z.pos p end in
      if s then - v else v
  | _ => 0
  end.
