(* ===== verification/FreeSpace.v ===== *)
(** Extents and the free-space map (src/include/quartz/space/Extent.h,
    src/src/space/Extent.cpp, src/src/space/FreeSpaceMap.cpp).

    The map is the vector of free extents; [FSM_ok] is the invariant that
    [validate] tests (valid, sorted, disjoint, not adjacent) and [pages] the set
    of free pages the vector stands for.  Page numbers are 32-bit and the sums
    of the code wrap. *)
From stdpp Require Import base strings list pretty sorting.
From Stdlib Require Import ZArith Lia.
From S2P Require Import Prelude Config.

Record Extent : Set := mkExtent { e_start : Z; e_length : Z }.

#[global] Instance Extent_eq_dec : EqDecision Extent.
Proof. solve_decision. Defined.

(** [Extent{}]. *)
Definition Extent_default : Extent := mkExtent kInvalidPageId 0.

Definition isValid (e : Extent) : bool := (0 <? e_length e) && negb (e_start e =? kInvalidPageId).
Definition lastPage (e : Extent) : Z := u32 (e_start e + e_length e - 1).
Definition endPage (e : Extent) : Z := u32 (e_start e + e_length e).

Definition containsPage (e : Extent) (page : Z) : bool :=
  (e_start e <=? page) && (page <? endPage e).
Definition containsExtent (e other : Extent) : bool :=
  isValid other && (e_start e <=? e_start other) && (endPage other <=? endPage e).

Definition intersects (e other : Extent) : bool :=
  if negb (isValid e) || negb (isValid other) then false
  else (e_start e <? endPage other) && (e_start other <? endPage e).
Definition adjacentTo (e other : Extent) : bool :=
  if negb (isValid e) || negb (isValid other) then false
  else (endPage e =? e_start other) || (endPage other =? e_start e).
Definition canMerge (e other : Extent) : bool := intersects e other || adjacentTo e other.

Definition Extent_merge (a b : Extent) : option Extent :=
  if negb (isValid a) || negb (isValid b) then None
  else
    let newStart := Z.min (e_start a) (e_start b) in
    let newEnd := Z.max (endPage a) (endPage b) in
    if newEnd <=? newStart then None else Some (mkExtent newStart (u32 (newEnd - newStart))).

Definition Extent_split (e : Extent) (atPage : Z) : option (Extent * Extent) :=
  if negb (isValid e) || (atPage <=? e_start e) || (endPage e <=? atPage) then None
  else Some (mkExtent (e_start e) (u32 (atPage - e_start e)),
             mkExtent atPage (u32 (e_start e + e_length e - atPage))).

(** ** FreeSpaceMap *)

Notation FreeSpaceMap := (list Extent).

Definition FreeSpaceMap_clear (extents : FreeSpaceMap) : FreeSpaceMap := [].
Definition FreeSpaceMap_initialize (start length : Z) : FreeSpaceMap :=
  if 0 <? length then [mkExtent start length] else [].

(** The [while] of [markAllocated] on the extents from [it] on.  [None] is the
    [return] in the middle of the loop.  The branch that stores [shifted] does
    not advance [it]; the loop then ends, since [shifted] starts at the end of
    the range. *)
Fixpoint markAllocated_loop (range : Extent) (changed : bool) (its : list Extent)
    : option bool * list Extent :=
  match its with
  | [] => (Some changed, [])
  | current :: rest =>
      if e_start current <? endPage range then
        if containsExtent range current then markAllocated_loop range true rest
        else if containsExtent current range then
          match Extent_split current (e_start range) with
          | Some (lhs, rightEnd) =>
              let rightLen := u32 (e_length rightEnd - e_length range) in
              let rhs := if 0 <? rightLen then [mkExtent (endPage range) rightLen] else [] in
              (None, if negb (isValid lhs) then rhs ++ rest else lhs :: rhs ++ rest)
          | None => (None, its)
          end
        else if (e_start current <? e_start range) && (e_start range <? endPage current) then
          let '(r, rest') := markAllocated_loop range true rest in
          (r, mkExtent (e_start current) (u32 (e_start range - e_start current)) :: rest')
        else if (e_start range <=? e_start current) && (e_start current <? endPage range) then
          let overlap := u32 (endPage range - e_start current) in
          let remaining := u32 (e_length current - overlap) in
          if 0 <? remaining then (Some true, mkExtent (endPage range) remaining :: rest)
          else markAllocated_loop range true rest
        else
          let '(r, rest') := markAllocated_loop range changed rest in (r, current :: rest')
      else (Some changed, its)
  end.

Definition markAllocated (range : Extent) : M FreeSpaceMap unit := λ extents,
  if negb (isValid range)
  then (invalidArgument "FreeSpaceMap::markAllocated: invalid extent", extents)
  else if bool_decide (extents = [])
  then (invalidArgument "FreeSpaceMap::markAllocated: no free extents available", extents)
  else
    let it := lower_bound (λ e, endPage e <=? e_start range) extents in
    let '(r, its) := markAllocated_loop range false (drop it extents) in
    let extents' := take it extents ++ its in
    match r with
    | None | Some true => (Ok tt, extents')
    | Some false =>
        (invalidArgument
           "FreeSpaceMap::markAllocated: extent range does not overlap any free extent", extents')
    end.

(** The merging [while] of [markFree]: [leftExt] swallows the extents after it
    as long as they touch. *)
Fixpoint mergeRight (leftExt : Extent) (its : list Extent) : list Extent :=
  match its with
  | [] => [leftExt]
  | e :: rest =>
      if canMerge leftExt e then
        match Extent_merge leftExt e with
        | Some m => mergeRight m rest
        | None => leftExt :: its
        end
      else leftExt :: its
  end.

Definition markFree (range : Extent) : M FreeSpaceMap unit := λ extents,
  if negb (isValid range) then (invalidArgument "FreeSpaceMap::markFree: invalid extent", extents)
  else
    let it := lower_bound (λ e, e_start e <? e_start range) extents in
    let insert_here := take it extents ++ mergeRight range (drop it extents) in
    match it with
    | O => (Ok tt, insert_here)
    | S prev =>
        match extents !! prev with
        | Some p =>
            match (if canMerge p range then Extent_merge p range else None) with
            | Some merged => (Ok tt, take prev extents ++ mergeRight merged (drop it extents))
            | None => (Ok tt, insert_here)
            end
        | None => (UB, extents)
        end
    end.

Definition findFreeRange (length : Z) (preferBeginning : bool) (extents : FreeSpaceMap) : Extent :=
  if bool_decide (extents = []) || (length =? 0) then Extent_default
  else if preferBeginning then
    match List.find (λ ext, length <=? e_length ext) extents with
    | Some ext => mkExtent (e_start ext) length
    | None => Extent_default
    end
  else
    match List.find (λ ext, length <=? e_length ext) (rev extents) with
    | Some ext => let offset := e_length ext - length in mkExtent (u32 (e_start ext + offset)) length
    | None => Extent_default
    end.

Definition findExactRange (length : Z) (extents : FreeSpaceMap) : Extent :=
  match List.find (λ ext, e_length ext =? length) extents with
  | Some ext => ext
  | None => Extent_default
  end.

Fixpoint findBest_loop (length : Z) (best : option Extent) (extents : list Extent) : option Extent :=
  match extents with
  | [] => best
  | ext :: rest =>
      findBest_loop length
        (if length <=? e_length ext then
           match best with
           | None => Some ext
           | Some b => if e_length ext <? e_length b then Some ext else best
           end
         else best) rest
  end.
Definition findBestRange (length : Z) (extents : FreeSpaceMap) : Extent :=
  match findBest_loop length None extents with
  | Some best => mkExtent (e_start best) length
  | None => Extent_default
  end.

Definition countFree (extents : FreeSpaceMap) : Z :=
  foldl (λ total ext, u32 (total + e_length ext)) 0 extents.
Definition countFreeExtents (extents : FreeSpaceMap) : Z := u32 (Z.of_nat (length extents)).

Definition FreeSpaceMap_contains (page : Z) (extents : FreeSpaceMap) : bool :=
  let it := lower_bound (λ e, e_start e <? page) extents in
  if (match extents !! it with Some e => e_start e =? page | None => false end) then true
  else match it with
       | O => false
       | S prev => match extents !! prev with Some p => containsPage p page | None => false end
       end.

(** The [for] of [validate], on the extents from index [i - 1] on. *)
Fixpoint validate_loop (i : nat) (prev : Extent) (rest : list Extent) : outcome unit :=
  match rest with
  | [] => Ok tt
  | curr :: rest =>
      if negb (isValid prev)
      then corruption ("FreeSpaceMap: invalid extent at index " +:+ pretty (i - 1)%nat)
      else if negb (isValid curr)
      then corruption ("FreeSpaceMap: invalid extent at index " +:+ pretty i)
      else if e_start curr <=? e_start prev then corruption "FreeSpaceMap: extents not sorted"
      else if intersects prev curr then corruption "FreeSpaceMap: overlapping extents"
      else if adjacentTo prev curr then corruption "FreeSpaceMap: adjacent extents should be merged"
      else validate_loop (S i) curr rest
  end.
Definition FreeSpaceMap_validate (extents : FreeSpaceMap) : outcome unit :=
  match extents with
  | [] => Ok tt
  | e :: rest => validate_loop 1 e rest
  end.

(** ** The invariant and the set of free pages *)

(** A valid extent whose end is still a page number. *)
Definition ext_ok (e : Extent) : Prop :=
  0 <= e_start e ∧ 0 < e_length e ∧ e_start e + e_length e <= kInvalidPageId.

Definition inE (p : Z) (e : Extent) : Prop := e_start e <= p < e_start e + e_length e.
Definition pages (l : list Extent) (p : Z) : Prop := Exists (inE p) l.

(** [a] ends before [b] starts, with at least one page between them. *)
Definition sep (a b : Extent) : Prop := e_start a + e_length a < e_start b.
Definition FSM_ok (l : FreeSpaceMap) : Prop := Forall ext_ok l ∧ StronglySorted sep l.

(** The range shares a page with [e]. *)
Definition overlaps (r e : Extent) : Prop :=
  e_start e < e_start r + e_length r ∧ e_start r < e_start e + e_length e.

#[global] Instance overlaps_dec r e : Decision (overlaps r e).
Proof. unfold overlaps. apply _. Defined.

Lemma ext_ok_endPage e : ext_ok e → endPage e = e_start e + e_length e.
Proof. intros (?&?&Hk). unfold endPage, kInvalidPageId in *. apply u32_small. lia. Qed.

Lemma ext_ok_isValid e : ext_ok e → isValid e = true.
Proof.
  intros (?&?&Hk). unfold isValid, kInvalidPageId in *.
  apply andb_true_iff; split; [apply Z.ltb_lt; lia|]. apply negb_true_iff, Z.eqb_neq. lia.
Qed.

Lemma containsExtent_spec a b : ext_ok a → ext_ok b →
  containsExtent a b = true ↔
  e_start a <= e_start b ∧ e_start b + e_length b <= e_start a + e_length a.
Proof.
  intros. unfold containsExtent. rewrite !ext_ok_endPage, ext_ok_isValid by done.
  rewrite !andb_true_iff, !Z.leb_le. naive_solver.
Qed.

Lemma canMerge_spec a b : ext_ok a → ext_ok b →
  canMerge a b = true ↔
  e_start a <= e_start b + e_length b ∧ e_start b <= e_start a + e_length a.
Proof.
  intros Ha Hb. unfold canMerge, intersects, adjacentTo.
  rewrite !ext_ok_isValid, !ext_ok_endPage by done. cbn [negb orb].
  rewrite orb_true_iff, andb_true_iff, orb_true_iff, !Z.ltb_lt, !Z.eqb_eq.
  unfold ext_ok in *. lia.
Qed.

Lemma merge_spec a b : ext_ok a → ext_ok b →
  ∃ m, Extent_merge a b = Some m ∧ ext_ok m ∧ e_start m = Z.min (e_start a) (e_start b) ∧
    e_start m + e_length m = Z.max (e_start a + e_length a) (e_start b + e_length b).
Proof.
  intros Ha Hb. unfold Extent_merge. rewrite !ext_ok_isValid, !ext_ok_endPage by done. cbn [negb orb].
  unfold ext_ok in *. rewrite (proj2 (Z.leb_gt _ _)) by lia.
  eexists. split; [done|]. cbn [e_start e_length].
  rewrite u32_small by (unfold kInvalidPageId in *; lia). lia.
Qed.

(** Merging two extents that touch is their union. *)
Lemma merge_union a b m p : ext_ok a → ext_ok b → canMerge a b = true →
  Extent_merge a b = Some m → inE p m ↔ inE p a ∨ inE p b.
Proof.
  intros Ha Hb Hc Hm. apply canMerge_spec in Hc; [|done..].
  destruct (merge_spec a b Ha Hb) as (m' & Hm' & ? & ? & ?). simplify_eq. unfold inE, ext_ok in *. lia.
Qed.

Lemma pages_app l k p : pages (l ++ k) p ↔ pages l p ∨ pages k p.
Proof. apply Exists_app. Qed.
Lemma pages_cons e l p : pages (e :: l) p ↔ inE p e ∨ pages l p.
Proof. apply Exists_cons. Qed.
Lemma pages_nil p : pages [] p ↔ False.
Proof. apply Exists_nil. Qed.
Lemma pages_elem l p : pages l p ↔ ∃ e, e ∈ l ∧ inE p e.
Proof. unfold pages. rewrite Exists_exists. naive_solver. Qed.

Lemma FSM_ok_app xs ys :
  FSM_ok (xs ++ ys) ↔ FSM_ok xs ∧ FSM_ok ys ∧ Forall (λ x, Forall (sep x) ys) xs.
Proof. unfold FSM_ok. rewrite Forall_app, StronglySorted_app_iff. naive_solver. Qed.

Lemma FSM_ok_cons x xs : FSM_ok (x :: xs) ↔ ext_ok x ∧ FSM_ok xs ∧ Forall (sep x) xs.
Proof.
  unfold FSM_ok. rewrite Forall_cons. split.
  - intros [[??] Hs]. apply StronglySorted_inv in Hs as [??]. auto.
  - intros (?&[??]&?). split; [auto|]. by constructor.
Qed.

Lemma FSM_ok_nil : FSM_ok [].
Proof. split; constructor. Qed.

(** [mergeRight]: the union of [left] and the extents after it. *)
Lemma mergeRight_spec l ys : ext_ok l → FSM_ok ys → Forall (λ y, e_start l <= e_start y) ys →
  FSM_ok (mergeRight l ys) ∧ Forall (λ y, e_start l <= e_start y) (mergeRight l ys) ∧
  ∀ p, pages (mergeRight l ys) p ↔ inE p l ∨ pages ys p.
Proof.
  revert l. induction ys as [|y ys IH]; intros l Hl Hys Hle; cbn [mergeRight].
  { split; [apply FSM_ok_cons; auto using FSM_ok_nil|]. split; [constructor; auto; lia|].
    intros. by rewrite pages_cons. }
  apply FSM_ok_cons in Hys as (Hy & Hys & Hsep). apply Forall_cons in Hle as [Hle Hles].
  destruct (canMerge l y) eqn:Hc.
  - pose proof (proj1 (canMerge_spec l y Hl Hy) Hc).
    destruct (merge_spec l y Hl Hy) as (m & Hm & Hmok & Hms & Hme). rewrite Hm.
    destruct (IH m) as (H1 & H2 & H3); [done|done| |].
    { eapply Forall_impl; [exact Hles|]. cbn. lia. }
    split; [done|]. split.
    { eapply Forall_impl; [exact H2|]. cbn. lia. }
    intros p. rewrite H3, pages_cons, (merge_union l y m p) by done. tauto.
  - assert (Hn : ¬ (e_start l <= e_start y + e_length y ∧ e_start y <= e_start l + e_length l)).
    { rewrite <-canMerge_spec by done. by rewrite Hc. }
    split; [|split].
    + apply FSM_ok_cons. split; [done|]. split; [by apply FSM_ok_cons|].
      unfold ext_ok in *. constructor; [unfold sep; lia|].
      eapply Forall_impl; [exact Hsep|]. unfold sep. intros; lia.
    + constructor; [lia|]. by constructor.
    + intros. by rewrite !pages_cons.
Qed.

(** The vector cut where [lower_bound] stops, for a test on the starts. *)
Lemma FSM_partition (before : Extent → bool) l : FSM_ok l →
  (∀ x y, ext_ok x → ext_ok y → sep x y → before y = true → before x = true) →
  ∃ xs ys, l = xs ++ ys ∧ lower_bound before l = length xs ∧
    Forall (λ x, before x = true) xs ∧ Forall (λ y, before y = false) ys.
Proof.
  intros [Hok Hs] Hm.
  destruct (sorted_partition (λ x y, ext_ok x ∧ ext_ok y ∧ sep x y) before l) as (xs&ys&->&?&?).
  - clear Hm. induction Hs as [|x l Hs IH Hx]; [constructor|].
    apply Forall_cons in Hok as [Hok Hoks]. constructor; [auto|].
    rewrite Forall_forall in *. auto.
  - naive_solver.
  - exists xs, ys. auto using lower_bound_app.
Qed.

Lemma before_start_mono s x y :
  ext_ok x → ext_ok y → sep x y → (e_start y <? s) = true → (e_start x <? s) = true.
Proof. unfold sep, ext_ok. rewrite !Z.ltb_lt. lia. Qed.

Lemma markFree_spec r l : FSM_ok l → ext_ok r →
  ∃ l', markFree r l = (Ok tt, l') ∧ FSM_ok l' ∧ ∀ p, pages l' p ↔ pages l p ∨ inE p r.
Proof.
  intros Hl Hr. unfold markFree. rewrite ext_ok_isValid by done. cbn [negb].
  destruct (FSM_partition (λ e, e_start e <? e_start r) l Hl) as (xs & ys & -> & -> & Hxs & Hys).
  { apply before_start_mono. }
  rewrite take_app_length, drop_app_length. apply FSM_ok_app in Hl as (Hlx & Hly & Hsep).
  assert (Hys' : Forall (λ y, e_start r <= e_start y) ys).
  { eapply Forall_impl; [exact Hys|]. intros ? ?%Z.ltb_ge. done. }
  destruct (mergeRight_spec r ys Hr Hly Hys') as (M1 & M2 & M3).
  induction xs as [|pr xs _] using rev_ind; cbn [length].
  { eexists. split; [done|]. split; [done|]. intros p. cbn [app]. rewrite M3. tauto. }
  rewrite length_app, Nat.add_1_r. cbv iota beta. rewrite <-!app_assoc.
  rewrite lookup_app_r, Nat.sub_diag by done. cbn [app lookup list_lookup].
  apply FSM_ok_app in Hlx as (Hlx & Hp & Hsp). apply FSM_ok_cons in Hp as (Hp & _ & _).
  apply Forall_app in Hxs as [Hxs Hps]. rewrite Forall_singleton, Z.ltb_lt in Hps.
  apply Forall_app in Hsep as [Hsx Hsep]. rewrite Forall_singleton in Hsep.
  destruct (canMerge pr r) eqn:Hc.
  - pose proof (proj1 (canMerge_spec pr r Hp Hr) Hc).
    destruct (merge_spec pr r Hp Hr) as (m & Hm & Hmok & Hms & Hme). rewrite Hm.
    destruct (mergeRight_spec m ys Hmok Hly) as (N1 & N2 & N3).
    { eapply Forall_impl; [exact Hsep|]. unfold sep, ext_ok in *. intros; lia. }
    eexists. split; [done|]. rewrite take_app_length. split.
    + apply FSM_ok_app. split; [done|]. split; [done|].
      eapply Forall_impl; [exact Hsp|]. intros x Hx. rewrite Forall_singleton in Hx.
      eapply Forall_impl; [exact N2|]. unfold sep in *. intros; lia.
    + intros p. rewrite !pages_app, pages_cons, N3, (merge_union pr r m) by done. tauto.
  - assert (Hn : ¬ (e_start pr <= e_start r + e_length r ∧ e_start r <= e_start pr + e_length pr)).
    { rewrite <-canMerge_spec by done. by rewrite Hc. }
    assert (Hpr : e_start pr + e_length pr < e_start r) by (unfold ext_ok in *; lia).
    eexists. split; [done|]. split.
    + apply FSM_ok_app. split; [done|]. split.
      * apply FSM_ok_cons. split; [done|]. split; [done|].
        eapply Forall_impl; [exact M2|]. unfold sep. intros; lia.
      * eapply Forall_impl; [exact Hsp|]. intros x Hx. rewrite Forall_singleton in Hx.
        constructor; [done|]. eapply Forall_impl; [exact M2|]. unfold sep, ext_ok in *. intros; lia.
    + intros p. cbn [app]. rewrite !pages_app, !pages_cons, M3. tauto.
Qed.

(** ** [markAllocated] *)

(** The range is a proper prefix of [e]: the case [split] refuses. *)
Definition strict_prefix (r e : Extent) : Prop :=
  e_start e = e_start r ∧ e_start r + e_length r < e_start e + e_length e.

Definition starts_above (s : Z) (l : list Extent) : Prop := Forall (λ y, s < e_start y) l.

Lemma pages_above s l p : starts_above s l → pages l p → s < p.
Proof.
  intros H Hp. apply pages_elem in Hp as (e & He & Hp).
  pose proof (proj1 (Forall_forall _ _) H e He). unfold inE in *. cbn in *. lia.
Qed.

Lemma starts_above_weaken s t l : starts_above t l → s <= t → starts_above s l.
Proof. intros H ?. eapply Forall_impl; [exact H|]. cbn. lia. Qed.

Lemma sep_starts x l : Forall (sep x) l ↔ starts_above (e_start x + e_length x) l.
Proof. done. Qed.

(** What the loop establishes for the extents it is run on. *)
Definition removed (r : Extent) (changed : bool) (ys : list Extent)
    (res : option bool * list Extent) : Prop :=
  FSM_ok (res.2) ∧ (∀ p, pages (res.2) p ↔ pages ys p ∧ ¬ inE p r) ∧
  (res.1 = Some false ↔ changed = false ∧ Forall (λ y, ¬ overlaps r y) ys) ∧
  ∀ s, starts_above s ys → starts_above s (res.2).

(** Nothing overlaps: the loop stops at once. *)
Lemma removed_nothing r ch ys : ext_ok r → FSM_ok ys → starts_above (e_start r + e_length r - 1) ys →
  removed r ch ys (Some ch, ys).
Proof.
  intros Hr Hok Ha. split; [done|]. split; [|split; [|done]].
  - intros p. split; [|tauto]. intros Hp. split; [done|].
    pose proof (pages_above _ _ _ Ha Hp). unfold inE. lia.
  - assert (Hno : Forall (λ y, ¬ overlaps r y) ys).
    { eapply Forall_impl; [exact Ha|]. unfold overlaps. cbn. intros; lia. }
    split; [intros [= ->]; done|]. by intros [-> _].
Qed.

(** One extent is replaced by what is left of it, the rest by [ys']. *)
Lemma removed_cons r c res ys ys' ch ch' new :
  ext_ok c → Forall (sep c) ys → overlaps r c →
  FSM_ok new → (∀ p, pages new p ↔ inE p c ∧ ¬ inE p r) →
  Forall (λ e, e_start c <= e_start e ∧ e_start e + e_length e <= e_start c + e_length c) new →
  res ≠ Some false → removed r ch' ys (res, ys') → removed r ch (c :: ys) (res, new ++ ys').
Proof.
  intros Hc Hs Ho Hn Hp Hin Hres (R1 & R2 & R3 & R4). cbn [fst snd] in *.
  split; [|split; [|split]]; cbn [fst snd].
  - apply FSM_ok_app. split; [done|]. split; [done|].
    eapply Forall_impl; [exact Hin|]. intros e He. cbn in He.
    apply (starts_above_weaken _ (e_start c + e_length c)); [|lia]. apply R4, Hs.
  - intros p. rewrite pages_app, pages_cons, Hp, R2. tauto.
  - split; [done|]. intros [_ H]. apply Forall_cons in H as [H _]. done.
  - intros s H. apply Forall_cons in H as [H H'].
    apply Forall_app. split; [|by apply R4].
    eapply Forall_impl; [exact Hin|]. cbn. lia.
Qed.

Lemma ext_ok_sub e s n : ext_ok e → e_start e <= s → 0 < n → s + n <= e_start e + e_length e →
  ext_ok (mkExtent s n).
Proof. unfold ext_ok. cbn. lia. Qed.

(** [current.contains(range)], not as a prefix: the extent is split in two. *)
Lemma markAllocated_split r c ys ch : ext_ok r → ext_ok c → FSM_ok ys → Forall (sep c) ys →
  e_start c < e_start r → e_start r + e_length r <= e_start c + e_length c →
  ∃ new, Extent_split c (e_start r) = Some new ∧
    removed r ch (c :: ys)
      (None, let rl := u32 (e_length new.2 - e_length r) in
             let rhs := if 0 <? rl then [mkExtent (endPage r) rl] else [] in
             if negb (isValid new.1) then rhs ++ ys else new.1 :: rhs ++ ys).
Proof.
  intros Hr Hc Hok Hs H1 H2. unfold Extent_split. rewrite ext_ok_isValid, ext_ok_endPage by done.
  pose proof Hr as (?&?&Hk). pose proof Hc as (?&?&Hk'). unfold kInvalidPageId in Hk, Hk'.
  rewrite (proj2 (Z.leb_gt _ _)), (proj2 (Z.leb_gt _ _)) by lia. cbn [negb orb].
  eexists. split; [done|]. cbn [fst snd e_length].
  rewrite (u32_small (e_start r - e_start c)), (u32_small (e_start c + e_length c - e_start r)) by lia.
  rewrite u32_small by lia. rewrite ext_ok_endPage by done.
  assert (Hl : ext_ok (mkExtent (e_start c) (e_start r - e_start c)))
    by (apply (ext_ok_sub c); auto; lia).
  rewrite (ext_ok_isValid _ Hl). cbn [negb]. rewrite app_comm_cons.
  apply (removed_cons r c None ys ys ch true); auto; try (unfold overlaps; lia).
  - case_match; bools; apply FSM_ok_cons; (split; [done|]); auto using FSM_ok_nil.
    split; [|constructor; [unfold sep; cbn; lia|constructor]].
    apply FSM_ok_cons. split; [|auto using FSM_ok_nil]. apply (ext_ok_sub c); auto; lia.
  - intros p. case_match; bools; rewrite ?pages_cons, ?pages_nil; unfold inE; cbn; lia.
  - case_match; bools; repeat constructor; cbn; lia.
  - assert (starts_above (e_start r + e_length r - 1) ys).
    { eapply starts_above_weaken; [exact Hs|]. lia. }
    destruct (removed_nothing r true ys) as (N1&N2&N3&N4); auto. split; [done|]. split; [done|].
    split; [|done]. split; [done|]. by intros [? _].
Qed.

Lemma removed_whole r c res ys ch : ext_ok c → Forall (sep c) ys → overlaps r c →
  e_start r <= e_start c → e_start c + e_length c <= e_start r + e_length r →
  removed r true ys res → removed r ch (c :: ys) res.
Proof.
  intros Hc Hs Ho H1 H2 Hrem. destruct res as [res ys']. pose proof Hrem as (_&_&R3&_).
  apply (removed_cons r c res ys ys' ch true []); auto using FSM_ok_nil.
  - intros p. rewrite pages_nil. unfold inE. lia.
  - intros ->. cbn in R3. naive_solver.
Qed.

Lemma markAllocated_loop_spec r ch ys : ext_ok r → FSM_ok ys →
  Forall (λ y, e_start r < e_start y + e_length y) ys → Forall (λ y, ¬ strict_prefix r y) ys →
  removed r ch ys (markAllocated_loop r ch ys).
Proof.
  intros Hr. revert ch. induction ys as [|c ys IH]; intros ch Hok Hend Hnp; cbn [markAllocated_loop].
  { apply removed_nothing; [done..|constructor]. }
  pose proof Hok as Hok'. apply FSM_ok_cons in Hok as (Hc & Hok & Hs).
  apply Forall_cons in Hend as [He Hend]. apply Forall_cons in Hnp as [Hnp Hnps].
  pose proof Hr as (?&?&Hk). pose proof Hc as (?&?&Hk'). unfold kInvalidPageId in Hk, Hk'.
  rewrite ?(ext_ok_endPage r), ?(ext_ok_endPage c) by done.
  destruct (Z.ltb_spec (e_start c) (e_start r + e_length r)) as [Hlt|Hge].
  2:{ apply removed_nothing; [done..|]. constructor; [lia|].
      eapply starts_above_weaken; [exact Hs|]. lia. }
  assert (Ho : overlaps r c) by (unfold overlaps; lia).
  destruct (containsExtent r c) eqn:Hin1.
  { apply containsExtent_spec in Hin1 as [??]; [|done..]. apply removed_whole; auto. }
  assert (Hn1 : ¬ (e_start r <= e_start c ∧ e_start c + e_length c <= e_start r + e_length r))
    by (rewrite <-containsExtent_spec by done; by rewrite Hin1).
  destruct (containsExtent c r) eqn:Hin2.
  { apply containsExtent_spec in Hin2 as [??]; [|done..]. unfold strict_prefix in Hnp.
    destruct (markAllocated_split r c ys ch) as ([lhs rhs] & -> & Hrem); [done..|lia|lia|].
    rewrite ext_ok_endPage in Hrem by done. exact Hrem. }
  assert (Hn2 : ¬ (e_start c <= e_start r ∧ e_start r + e_length r <= e_start c + e_length c))
    by (rewrite <-containsExtent_spec by done; by rewrite Hin2).
  destruct (Z.ltb_spec (e_start c) (e_start r)) as [Hst|Hst]; cbn [andb].
  - rewrite (proj2 (Z.ltb_lt _ _)) by lia. rewrite u32_small by lia.
    destruct (markAllocated_loop r true ys) as [res ys'] eqn:Heq.
    assert (Hi : removed r true ys (res, ys')) by (rewrite <-Heq; auto).
    apply (removed_cons r c res ys ys' ch true [_]); auto.
    + apply FSM_ok_cons. split; [|auto using FSM_ok_nil]. apply (ext_ok_sub c); auto; lia.
    + intros p. rewrite pages_cons, pages_nil. unfold inE. cbn. lia.
    + repeat constructor; cbn; lia.
    + intros ->. destruct Hi as (_&_&Hi&_). cbn in Hi. naive_solver.
  - rewrite (proj2 (Z.leb_le _ _)) by lia. cbn [andb].
    rewrite !u32_small by (rewrite ?u32_small; lia). rewrite (proj2 (Z.ltb_lt _ _)) by lia.
    apply (removed_cons r c (Some true) ys ys ch true [_]); auto.
    + apply FSM_ok_cons. split; [|auto using FSM_ok_nil]. apply (ext_ok_sub c); auto; lia.
    + intros p. rewrite pages_cons, pages_nil. unfold inE. cbn. lia.
    + repeat constructor; cbn; lia.
    + apply removed_nothing; auto. eapply starts_above_weaken; [exact Hs|]. lia.
Qed.

(** The vector at the position where [markAllocated] starts its loop. *)
Lemma markAllocated_cut r l : FSM_ok l → ext_ok r →
  ∃ xs ys, l = xs ++ ys ∧ lower_bound (λ e, endPage e <=? e_start r) l = length xs ∧
    FSM_ok xs ∧ FSM_ok ys ∧ Forall (λ x, Forall (sep x) ys) xs ∧
    Forall (λ x, e_start x + e_length x <= e_start r) xs ∧
    Forall (λ y, e_start r < e_start y + e_length y) ys.
Proof.
  intros Hl Hr.
  destruct (FSM_partition (λ e, endPage e <=? e_start r) l Hl) as (xs & ys & -> & Hlb & Hxs & Hys).
  { intros x y Hx Hy Hs. rewrite !ext_ok_endPage, !Z.leb_le by done. unfold sep, ext_ok in *. lia. }
  apply FSM_ok_app in Hl as (Hlx & Hly & Hsep). exists xs, ys. do 5 (split; [done|]).
  destruct Hlx as [Hlx _], Hly as [Hly _]. rewrite !Forall_forall in *. split; intros e He.
  - rewrite <-ext_ok_endPage by auto. by apply Z.leb_le, Hxs.
  - rewrite <-ext_ok_endPage by auto. by apply Z.leb_gt, Hys.
Qed.

Lemma overlaps_page r e : ext_ok r → ext_ok e → overlaps r e ↔ ∃ p, inE p r ∧ inE p e.
Proof.
  unfold overlaps, inE, ext_ok. intros. split; [|intros (p & ?); lia].
  intros. exists (Z.max (e_start r) (e_start e)). lia.
Qed.

(** Outside the prefix case the range is removed from the free pages. *)
Lemma markAllocated_removes r l : FSM_ok l → ext_ok r → Forall (λ e, ¬ strict_prefix r e) l →
  ∃ o l', markAllocated r l = (o, l') ∧ FSM_ok l' ∧ (∀ p, pages l' p ↔ pages l p ∧ ¬ inE p r) ∧
    (o = Ok tt ∨ ∃ e, o = Err e) ∧ (o = Ok tt ↔ Exists (overlaps r) l).
Proof.
  intros Hl Hr Hnp. unfold markAllocated. rewrite ext_ok_isValid by done. cbn [negb].
  case_bool_decide as Hnil.
  { subst. do 2 eexists. split; [done|]. split; [done|]. split; [|split].
    - intros p. rewrite pages_nil. tauto.
    - right. by eexists.
    - rewrite Exists_nil. split; [done|tauto]. }
  destruct (markAllocated_cut r l Hl Hr) as (xs & ys & -> & -> & Hlx & Hly & Hsep & Hxs & Hys).
  rewrite take_app_length, drop_app_length. apply Forall_app in Hnp as [_ Hnp].
  pose proof (markAllocated_loop_spec r false ys Hr Hly Hys Hnp) as (R1&R2&R3&R4).
  destruct (markAllocated_loop r false ys) as [res its]. cbn [fst snd] in *.
  assert (Hx : ∀ p, pages xs p → ¬ inE p r).
  { intros p (e & He & Hp)%pages_elem. rewrite Forall_forall in Hxs. specialize (Hxs e He).
    unfold inE in *. cbn in Hxs. lia. }
  assert (Hov : Exists (overlaps r) (xs ++ ys) ↔ res ≠ Some false).
  { rewrite Exists_app, R3. transitivity (Exists (overlaps r) ys).
    - split; [|tauto]. intros [H|]; [|done]. apply Exists_exists in H as (e & He & Ho).
      rewrite Forall_forall in Hxs. specialize (Hxs e He). unfold overlaps in Ho. cbn in Hxs. lia.
    - rewrite Forall_Exists_neg. split; [tauto|]. intros H. apply dec_stable. tauto. }
  assert (Hok' : FSM_ok (xs ++ its)).
  { apply FSM_ok_app. split; [done|]. split; [done|]. eapply Forall_impl; [exact Hsep|].
    intros x Hsx. by apply R4. }
  assert (Hp : ∀ p, pages (xs ++ its) p ↔ pages (xs ++ ys) p ∧ ¬ inE p r).
  { intros p. rewrite !pages_app, R2. specialize (Hx p). tauto. }
  destruct res as [[]|]; do 2 eexists; (do 3 (split; [done|])); rewrite Hov;
    (split; [eauto|split; [done|intros Hne; first [done|by destruct Hne]]]).
Qed.

(** In the prefix case nothing changes and the call reports success. *)
Lemma markAllocated_prefix r l e : FSM_ok l → ext_ok r → e ∈ l → strict_prefix r e →
  markAllocated r l = (Ok tt, l).
Proof.
  intros Hl Hr He [Hst Hlt]. unfold markAllocated. rewrite ext_ok_isValid by done. cbn [negb].
  rewrite bool_decide_eq_false_2 by (intros ->; by apply elem_of_nil in He).
  destruct (markAllocated_cut r l Hl Hr) as (xs & ys & -> & -> & Hlx & Hly & Hsep & Hxs & Hys).
  rewrite take_app_length, drop_app_length. pose proof Hr as (?&?&Hk). unfold kInvalidPageId in Hk.
  destruct ys as [|c ys]; apply elem_of_app in He as [He|He].
  1,3: rewrite Forall_forall in Hxs; specialize (Hxs e He); cbn in Hxs; lia.
  1: by apply elem_of_nil in He.
  apply FSM_ok_cons in Hly as (Hc & Hok & Hs). apply Forall_cons in Hys as [Hec _].
  assert (e = c) as ->.
  { apply elem_of_cons in He as [?|He]; [done|]. rewrite Forall_forall in Hs.
    specialize (Hs e He). unfold sep in Hs. lia. }
  cbn [markAllocated_loop]. rewrite ext_ok_endPage by done. rewrite (proj2 (Z.ltb_lt _ _)) by lia.
  destruct (containsExtent r c) eqn:H1; [apply containsExtent_spec in H1; [lia|done..]|].
  rewrite (proj2 (containsExtent_spec c r Hc Hr)) by lia.
  unfold Extent_split. rewrite ext_ok_isValid by done.
  rewrite (proj2 (Z.leb_le _ _)) by lia. done.
Qed.

Lemma FreeSpaceMap_contains_spec l p : FSM_ok l → FreeSpaceMap_contains p l = true ↔ pages l p.
Proof.
  intros Hl. unfold FreeSpaceMap_contains.
  destruct (FSM_partition (λ e, e_start e <? p) l Hl) as (xs & ys & -> & -> & Hxs & Hys).
  { apply before_start_mono. }
  apply FSM_ok_app in Hl as (Hlx & Hly & Hsep). rewrite pages_app.
  assert (Hy : pages ys p ↔ match (xs ++ ys) !! length xs with Some e => e_start e = p | None => False end).
  { rewrite lookup_app_r, Nat.sub_diag by done. destruct ys as [|y ys]; cbn; [apply pages_nil|].
    apply FSM_ok_cons in Hly as (Hy & _ & Hs). apply Forall_cons in Hys as [Hle%Z.ltb_ge _].
    rewrite pages_cons. unfold inE, ext_ok in *. split; [|lia].
    intros [|Hp]; [lia|]. pose proof (pages_above _ _ _ Hs Hp). lia. }
  assert (Hx : pages xs p ↔ (match length xs with
       | O => false
       | S prev => match (xs ++ ys) !! prev with Some e => containsPage e p | None => false end
       end) = true).
  { clear Hy Hly Hys Hsep. induction xs as [|x xs _] using rev_ind; [by rewrite pages_nil|].
    rewrite length_app, Nat.add_1_r, <-app_assoc. cbv iota beta.
    rewrite lookup_app_r, Nat.sub_diag by done. cbn [app lookup list_lookup].
    apply FSM_ok_app in Hlx as (_ & Hx & Hsx). apply FSM_ok_cons in Hx as (Hx & _ & _).
    apply Forall_app in Hxs as [_ Hpx]. rewrite Forall_singleton, Z.ltb_lt in Hpx.
    unfold containsPage. rewrite ext_ok_endPage, andb_true_iff, Z.leb_le, Z.ltb_lt by done.
    rewrite pages_app, pages_cons, pages_nil. unfold inE. split; [|tauto].
    intros [(e & He & Hp)%pages_elem|[|[]]]; [|done]. rewrite Forall_forall in Hsx.
    specialize (Hsx e He). rewrite Forall_singleton in Hsx. unfold sep, inE in *. lia. }
  rewrite Hx, Hy. destruct ((xs ++ ys) !! length xs) as [e|]; cbn [andb].
  - destruct (Z.eqb_spec (e_start e) p); tauto.
  - tauto.
Qed.

(** ** Properties *)

Definition in_range (r : Extent) (p : Z) : bool :=
  (e_start r <=? p) && (p <? e_start r + e_length r).

Lemma in_range_spec r p : in_range r p = true ↔ inE p r.
Proof. unfold in_range, inE. by rewrite andb_true_iff, Z.leb_le, Z.ltb_lt. Qed.

Lemma bool_ext (a b : bool) : (a = true ↔ b = true) → a = b.
Proof. destruct a, b; naive_solver. Qed.

(** C16: [markFree] is set union: on a well-formed map and a valid range it
    succeeds, keeps the map sorted, disjoint and maximally merged, and
    afterwards exactly the pages that were free or lie in the range are free,
    overlap with free extents included. *)
Theorem markFree_adds_range r l : FSM_ok l → ext_ok r →
  ∃ l', markFree r l = (Ok tt, l') ∧ FSM_ok l' ∧
    ∀ p, FreeSpaceMap_contains p l' = FreeSpaceMap_contains p l || in_range r p.
Proof.
  intros Hl Hr. destruct (markFree_spec r l Hl Hr) as (l' & H1 & H2 & H3). exists l'.
  split; [done|]. split; [done|]. intros p. apply bool_ext.
  rewrite orb_true_iff, !FreeSpaceMap_contains_spec, in_range_spec by done. apply H3.
Qed.

Lemma FSM_ok_example : FSM_ok [mkExtent 8 2; mkExtent 12 4; mkExtent 20 1].
Proof.
  split; repeat constructor; unfold sep, kInvalidPageId; cbn; lia.
Qed.

Lemma markFree_adds_range_witness :
  ∃ l', markFree (mkExtent 10 3) [mkExtent 8 2; mkExtent 12 4; mkExtent 20 1] = (Ok tt, l') ∧ FSM_ok l'.
Proof.
  destruct (markFree_adds_range (mkExtent 10 3) [mkExtent 8 2; mkExtent 12 4; mkExtent 20 1])
    as (l' & H1 & H2 & _).
  - exact FSM_ok_example.
  - unfold ext_ok, kInvalidPageId. cbn. lia.
  - exists l'. split; [exact H1|exact H2].
Defined.

(** C32: [markAllocated] on every branch.  If the range is a proper prefix of a
    free extent the call succeeds and changes nothing, so the pages stay free.
    Otherwise the invariant is kept, exactly the pages of the range stop being
    free, and the call succeeds if and only if some page of the range was
    free. *)
Theorem markAllocated_exact r l : FSM_ok l → ext_ok r →
  (∀ e, e ∈ l → e_start e = e_start r → e_length r < e_length e → markAllocated r l = (Ok tt, l)) ∧
  ((∀ e, e ∈ l → e_start e = e_start r → e_length e <= e_length r) →
   ∃ o l', markAllocated r l = (o, l') ∧ FSM_ok l' ∧
     (∀ p, FreeSpaceMap_contains p l' = FreeSpaceMap_contains p l && negb (in_range r p)) ∧
     (o = Ok tt ↔ ∃ p, FreeSpaceMap_contains p l = true ∧ in_range r p = true)).
Proof.
  intros Hl Hr. split.
  - intros e He Hs Hlt. apply (markAllocated_prefix r l e); auto. split; lia.
  - intros Hnp. destruct (markAllocated_removes r l Hl Hr) as (o & l' & H1 & H2 & H3 & _ & H5).
    { apply Forall_forall. intros e He [? ?]. specialize (Hnp e He). lia. }
    exists o, l'. split; [done|]. split; [done|]. split.
    + intros p. apply bool_ext.
      rewrite andb_true_iff, negb_true_iff, <-not_true_iff_false, !FreeSpaceMap_contains_spec,
        in_range_spec by done. apply H3.
    + rewrite H5, Exists_exists. setoid_rewrite (FreeSpaceMap_contains_spec l); [|done].
      setoid_rewrite in_range_spec. setoid_rewrite pages_elem. destruct Hl as [Hl _].
      rewrite Forall_forall in Hl. split.
      * intros (e & He & Ho). apply overlaps_page in Ho as (p & ? & ?); eauto.
      * intros (p & (e & He & ?) & ?). exists e. split; [done|]. apply overlaps_page; eauto.
Qed.

Lemma markAllocated_exact_witness :
  markAllocated (mkExtent 12 2) [mkExtent 8 2; mkExtent 12 4; mkExtent 20 1] =
    (Ok tt, [mkExtent 8 2; mkExtent 12 4; mkExtent 20 1]) ∧
  ∃ o l', markAllocated (mkExtent 13 2) [mkExtent 8 2; mkExtent 12 4; mkExtent 20 1] = (o, l') ∧
          FSM_ok l' ∧ FreeSpaceMap_contains 13 l' = false.
Proof.
  split.
  - apply (proj1 (markAllocated_exact (mkExtent 12 2) _ FSM_ok_example ltac:(by vm_compute))
      (mkExtent 12 4)); [|done..]. right. left.
  - destruct (proj2 (markAllocated_exact (mkExtent 13 2) _ FSM_ok_example ltac:(by vm_compute)))
      as (o & l' & H1 & H2 & H3 & _).
    + intros e He. repeat (apply elem_of_cons in He as [->|He]; [cbn; lia|]).
      by apply elem_of_nil in He.
    + exists o, l'. split; [exact H1|]. split; [exact H2|]. rewrite H3. reflexivity.
Defined.

(** An extent as the code builds it: 32-bit fields whose sum does not wrap. *)
Definition ext_repr (e : Extent) : Prop :=
  0 <= e_start e ∧ 0 <= e_length e ∧ e_start e + e_length e <= kInvalidPageId.

Lemma isValid_spec e : ext_repr e → isValid e = true ↔ ext_ok e.
Proof.
  intros He. split; [|apply ext_ok_isValid]. unfold isValid. rewrite andb_true_iff, Z.ltb_lt.
  unfold ext_repr, ext_ok in *. naive_solver.
Qed.

Lemma sep_canMerge a b : ext_ok a → ext_ok b → e_start a < e_start b → canMerge a b = false ↔ sep a b.
Proof.
  intros Ha Hb Hlt. rewrite <-not_true_iff_false, canMerge_spec by done. unfold sep, ext_ok in *. lia.
Qed.

Lemma validate_loop_spec i prev rest : Forall ext_repr (prev :: rest) →
  validate_loop i prev rest = Ok tt ↔ rest = [] ∨ FSM_ok (prev :: rest).
Proof.
  revert i prev. induction rest as [|curr rest IH]; intros i prev Hr; cbn [validate_loop]; [naive_solver|].
  apply Forall_cons in Hr as [Hp Hr]. pose proof Hr as [Hc _]%Forall_cons.
  split.
  - intros H. right. repeat (case_hyp H; [done|]). bools.
    assert (Hpo : ext_ok prev) by (by apply isValid_spec).
    assert (Hco : ext_ok curr) by (by apply isValid_spec).
    assert (Hs : sep prev curr).
    { apply sep_canMerge; [done..|]. unfold canMerge. by rewrite Heqb2, Heqb3. }
    assert (Hok : FSM_ok (curr :: rest)).
    { apply IH in H as [->|]; [|done..]. apply FSM_ok_cons. auto using FSM_ok_nil. }
    apply FSM_ok_cons. split; [done|]. split; [done|]. constructor; [done|].
    apply FSM_ok_cons in Hok as (_ & _ & Hs'). eapply Forall_impl; [exact Hs'|].
    unfold sep, ext_ok in *. intros; lia.
  - intros [?|Hok]; [done|]. apply FSM_ok_cons in Hok as (Hpo & Hok & Hs).
    apply Forall_cons in Hs as [Hs _]. pose proof Hok as (Hco & _)%FSM_ok_cons.
    assert (Hlt : e_start prev < e_start curr) by (unfold sep, ext_ok in *; lia).
    pose proof (proj2 (sep_canMerge prev curr Hpo Hco Hlt) Hs) as [H1 H2]%orb_false_iff.
    rewrite !ext_ok_isValid, H1, H2, (proj2 (Z.leb_gt _ _)) by done. cbn. apply IH; auto.
Qed.

(** [validate] decides the invariant: on a map of at least two extents whose
    fields are 32-bit page numbers it succeeds exactly when all extents are
    valid, sorted, disjoint and not adjacent.  (Its loop starts at the second
    extent, so a map of one extent is accepted unread.) *)
Theorem fsm_validate_decides l : Forall ext_repr l →
  ((2 <= length l)%nat → FreeSpaceMap_validate l = Ok tt ↔ FSM_ok l) ∧
  ((length l <= 1)%nat → FreeSpaceMap_validate l = Ok tt).
Proof.
  intros Hr. destruct l as [|e [|e' rest]]; cbn [length]; (split; [intros|intros; try done; lia]); try lia.
  unfold FreeSpaceMap_validate. rewrite validate_loop_spec by done. naive_solver.
Qed.

Lemma fsm_validate_decides_witness :
  FreeSpaceMap_validate [mkExtent 8 2; mkExtent 12 4] = Ok tt ↔ FSM_ok [mkExtent 8 2; mkExtent 12 4].
Proof.
  apply (proj1 (fsm_validate_decides [mkExtent 8 2; mkExtent 12 4] ltac:(repeat constructor; by vm_compute))).
  cbn. lia.
Defined.
