(* ===== verification/PageAlloc.v ===== *)
(** The page allocator (src/src/storage/PageAllocator.cpp) and the interface
    its clients are verified against.

    The free list is the vector of the code, whose back is the end of the list.
    [PageSpace] states what a supplier of pages promises to the B-tree. *)
From stdpp Require Import base list sets gmap.
From Stdlib Require Import ZArith Lia.
From S2P Require Import Prelude Config.

Record AllocatorStats : Set := mkAllocatorStats {
  totalAllocated : Z; totalFreed : Z; peakAllocated : Z; currentAllocated : Z;
  freeListSize : Z; st_nextPageId : Z }.

Definition AllocatorStats_default : AllocatorStats :=
  mkAllocatorStats 0 0 0 0 0 kReservedPageCount.

Record PageAllocator : Set := mkPageAllocator {
  freeList : list Z; nextPageId : Z; pa_stats : AllocatorStats }.

Definition PageAllocator_make : PageAllocator :=
  mkPageAllocator [] kReservedPageCount AllocatorStats_default.

(** The statistics lines of [allocate], run with the new free list. *)
Definition count_allocated (freeList : list Z) (s : AllocatorStats) : AllocatorStats :=
  let cur := u32 (currentAllocated s + 1) in
  mkAllocatorStats (u32 (totalAllocated s + 1)) (totalFreed s)
    (if peakAllocated s <? cur then cur else peakAllocated s) cur
    (u32 (Z.of_nat (length freeList))) (st_nextPageId s).

Definition PageAllocator_allocate (a : PageAllocator) : Z * PageAllocator :=
  match last (freeList a) with
  | Some id =>
      let fl := take (length (freeList a) - 1) (freeList a) in
      (id, mkPageAllocator fl (nextPageId a) (count_allocated fl (pa_stats a)))
  | None =>
      if kMaxPageId <? nextPageId a then (kInvalidPageId, a)
      else (nextPageId a,
            mkPageAllocator (freeList a) (u32 (nextPageId a + 1))
              (count_allocated (freeList a) (pa_stats a)))
  end.

Definition PageAllocator_free (id : Z) (a : PageAllocator) : bool * PageAllocator :=
  if (id =? kInvalidPageId) || (id <? kReservedPageCount) then (false, a)
  else if nextPageId a <=? id then (false, a)
  else if bool_decide (id ∈ freeList a) then (false, a)
  else
    let fl := freeList a ++ [id] in
    let s := pa_stats a in
    (true, mkPageAllocator fl (nextPageId a)
       (mkAllocatorStats (totalAllocated s) (u32 (totalFreed s + 1)) (peakAllocated s)
          (u32 (currentAllocated s - 1)) (u32 (Z.of_nat (length fl))) (st_nextPageId s))).

Definition PageAllocator_reset (_ : PageAllocator) : PageAllocator :=
  mkPageAllocator [] kReservedPageCount AllocatorStats_default.

Definition isAllocated (id : Z) (a : PageAllocator) : bool :=
  if id =? kInvalidPageId then false
  else if nextPageId a <=? id then false
  else if id <? kReservedPageCount then true
  else negb (bool_decide (id ∈ freeList a)).

(** ** The interface *)

(** A supplier of page numbers: an allocated page is never handed out again
    before it is freed, exactly the allocated pages can be freed, and the
    supply fails only when every page of the file is in use. *)
Class PageSpace (S : Type) := {
  ps_allocatePage : S → Z * S;
  ps_freePage : Z → S → bool * S;
  ps_ok : S → Prop;
  ps_used : S → Z → Prop;
  ps_used_range s id : ps_ok s → ps_used s id → kFirstDataPageId <= id <= kMaxPageId;
  ps_allocate_spec s : ps_ok s →
    let '(id, s') := ps_allocatePage s in
    ps_ok s' ∧
    ((id = kInvalidPageId ∧ (∀ x, kFirstDataPageId <= x <= kMaxPageId → ps_used s x) ∧
      (∀ x, ps_used s' x ↔ ps_used s x)) ∨
     (kFirstDataPageId <= id <= kMaxPageId ∧ ¬ ps_used s id ∧
      (∀ x, ps_used s' x ↔ ps_used s x ∨ x = id)));
  ps_free_spec s id : ps_ok s →
    let '(b, s') := ps_freePage id s in
    ps_ok s' ∧ (b = true ↔ ps_used s id) ∧ (∀ x, ps_used s' x ↔ ps_used s x ∧ x ≠ id)
}.

(** ** The invariant *)

Definition PA_ok (a : PageAllocator) : Prop :=
  kReservedPageCount <= nextPageId a <= kMaxPageId + 1 ∧
  NoDup (freeList a) ∧ Forall (λ id, kReservedPageCount <= id < nextPageId a) (freeList a).

(** The pages in use, the reserved ones apart. *)
Definition PA_used (a : PageAllocator) (id : Z) : Prop :=
  kReservedPageCount <= id < nextPageId a ∧ id ∉ freeList a.

Ltac consts := unfold kReservedPageCount, kFirstDataPageId, kReservedPages, kMaxPageId,
  kMaxPageCount, kInvalidPageId in *.

Lemma isAllocated_spec a id : PA_ok a → kReservedPageCount <= id →
  isAllocated id a = true ↔ PA_used a id.
Proof.
  intros (Hn & _ & _) Hid. unfold isAllocated, PA_used. consts.
  repeat case_match; bools; rewrite ?negb_true_iff, ?bool_decide_eq_false; intuition lia.
Qed.

Lemma PA_ok_make : PA_ok PageAllocator_make.
Proof. repeat split; cbn; consts; try lia; constructor. Qed.

Lemma allocate_spec a : PA_ok a →
  let '(id, a') := PageAllocator_allocate a in
  PA_ok a' ∧
  ((id = kInvalidPageId ∧ a' = a ∧ ∀ x, kReservedPageCount <= x <= kMaxPageId → PA_used a x) ∨
   (kReservedPageCount <= id <= kMaxPageId ∧ ¬ PA_used a id ∧
    ∀ x, PA_used a' x ↔ PA_used a x ∨ x = id)).
Proof.
  intros Ha. pose proof Ha as (Hn & Hnd & Hr). unfold PageAllocator_allocate.
  destruct (last (freeList a)) as [id|] eqn:Hl.
  - apply last_Some in Hl as [fl Hl]. rewrite Hl in *.
    rewrite length_app. cbn [length]. replace (length fl + 1 - 1)%nat with (length fl) by lia.
    rewrite take_app_length. apply Forall_app in Hr as [Hr Hi]. rewrite Forall_singleton in Hi.
    apply NoDup_app in Hnd as (Hnd & Hni & _).
    assert (id ∉ fl) by (intros H; by apply (Hni id H), list_elem_of_singleton).
    split; [done|]. right. split; [consts; lia|]. unfold PA_used. rewrite Hl. cbn.
    split; [set_solver|]. intros x. destruct (decide (x = id)) as [->|]; set_solver by lia.
  - apply last_None in Hl. destruct (Z.ltb_spec kMaxPageId (nextPageId a)).
    + split; [done|]. left. split; [done|]. split; [done|]. intros x Hx. unfold PA_used.
      rewrite Hl. split; [lia|]. by apply not_elem_of_nil.
    + rewrite u32_small by (consts; lia). rewrite Hl. unfold PA_ok, PA_used. cbn. rewrite Hl.
      split; [split; [lia|]; split; [constructor|by constructor]|].
      right. split; [lia|]. split; [intros [? _]; lia|]. intros x.
      pose proof (not_elem_of_nil x). split.
      * intros [? ?]. destruct (decide (x = nextPageId a)); [by right|left; split; [lia|done]].
      * intros [[? ?]| ->]; (split; [lia|done]).
Qed.

Lemma free_spec a id : PA_ok a →
  let '(b, a') := PageAllocator_free id a in
  PA_ok a' ∧ (b = true ↔ PA_used a id) ∧ ∀ x, PA_used a' x ↔ PA_used a x ∧ x ≠ id.
Proof.
  intros Ha. pose proof Ha as (Hn & Hnd & Hr). unfold PageAllocator_free.
  assert (Hno : ¬ PA_used a id → PA_ok a ∧ (false = true ↔ PA_used a id) ∧
     ∀ x, PA_used a x ↔ PA_used a x ∧ x ≠ id).
  { intros H. split; [done|]. split; [done|]. intros x. split; [|tauto].
    intros Hx. split; [done|]. by intros ->. }
  destruct (_ || _) eqn:H1; [apply Hno; unfold PA_used; bools; consts; lia|].
  destruct (Z.leb_spec (nextPageId a) id); [apply Hno; unfold PA_used; lia|].
  case_bool_decide; [apply Hno; unfold PA_used; tauto|]. bools.
  assert (Hu : PA_used a id) by (unfold PA_used; split; [lia|done]).
  unfold PA_ok, PA_used. cbn. split; [|split].
  - split; [done|]. split.
    + apply NoDup_app. split; [done|]. split; [set_solver|apply NoDup_singleton].
    + apply Forall_app. split; [done|]. constructor; [lia|constructor].
  - split; [intros _; apply Hu|done].
  - intros x. rewrite elem_of_app, list_elem_of_singleton. tauto.
Qed.

(** ** Histories *)

Inductive PA_op : Set := OpAllocate | OpFree (id : Z) | OpReset.

Definition PA_step (a : PageAllocator) (op : PA_op) : PageAllocator :=
  match op with
  | OpAllocate => (PageAllocator_allocate a).2
  | OpFree id => (PageAllocator_free id a).2
  | OpReset => PageAllocator_reset a
  end.

(** The counters agree with the pages in use. *)
Definition PA_counted (a : PageAllocator) : Prop :=
  let s := pa_stats a in
  currentAllocated s = nextPageId a - kReservedPageCount - Z.of_nat (length (freeList a)) ∧
  freeListSize s = Z.of_nat (length (freeList a)) ∧
  currentAllocated s <= peakAllocated s <= kMaxPageCount ∧
  u32 (totalAllocated s - totalFreed s) = currentAllocated s.

(** A duplicate-free free list is no longer than the page numbers in use. *)
Lemma freeList_length a : PA_ok a → Z.of_nat (length (freeList a)) <= nextPageId a - kReservedPageCount.
Proof.
  intros (Hn & Hnd & Hr).
  assert (Hsub : freeList a ⊆+ seqZ kReservedPageCount (nextPageId a - kReservedPageCount)).
  { apply NoDup_submseteq; [done|]. intros x Hx. rewrite Forall_forall in Hr.
    specialize (Hr x Hx). apply elem_of_seqZ. cbn in Hr. lia. }
  apply submseteq_length in Hsub. rewrite length_seqZ in Hsub. lia.
Qed.

Lemma u32_succ_diff a b c : u32 (a - b) = c → 0 <= c < 2 ^ 32 - 1 → u32 (u32 (a + 1) - b) = c + 1.
Proof. unfold u32, wrap. change (2 ^ 32) with 4294967296. lia. Qed.
Lemma u32_diff_succ a b c : u32 (a - b) = c → 0 < c < 2 ^ 32 → u32 (a - u32 (b + 1)) = c - 1.
Proof. unfold u32, wrap. change (2 ^ 32) with 4294967296. lia. Qed.

Lemma PA_counted_allocate a : PA_ok a → PA_counted a → PA_counted (PageAllocator_allocate a).2.
Proof.
  intros Ha (C1 & C2 & C3 & C4). pose proof (freeList_length a Ha) as Hl. pose proof Ha as (Hn & _).
  unfold PageAllocator_allocate, PA_counted, count_allocated.
  destruct (last (freeList a)) as [id|] eqn:Hla.
  - apply last_Some in Hla as [fl Hla]. rewrite Hla in *. rewrite !length_app in *. cbn [length] in *.
    replace (length fl + 1 - 1)%nat with (length fl) by lia. rewrite take_app_length.
    cbn [snd nextPageId freeList pa_stats currentAllocated freeListSize peakAllocated totalAllocated totalFreed].
    rewrite !u32_small by (consts; lia). rewrite u32_succ_diff with (c := currentAllocated (pa_stats a))
      by (try done; consts; lia). destruct (Z.ltb_spec (peakAllocated (pa_stats a)) (currentAllocated (pa_stats a) + 1)); consts; lia.
  - apply last_None in Hla. rewrite Hla in *. destruct (Z.ltb_spec kMaxPageId (nextPageId a)).
    { cbn [snd]. rewrite Hla. auto. }
    cbn [snd nextPageId freeList pa_stats currentAllocated freeListSize peakAllocated totalAllocated totalFreed length].
    rewrite !u32_small by (consts; cbn in *; lia). rewrite u32_succ_diff with (c := currentAllocated (pa_stats a))
      by (try done; consts; cbn in *; lia). cbn [length] in *.
    destruct (Z.ltb_spec (peakAllocated (pa_stats a)) (currentAllocated (pa_stats a) + 1)); consts; lia.
Qed.

Lemma PA_counted_free a id : PA_ok a → PA_counted a → PA_counted (PageAllocator_free id a).2.
Proof.
  intros Ha HC. pose proof (free_spec a id Ha) as Hf.
  revert Hf. unfold PageAllocator_free. destruct (_ || _); [done|].
  destruct (_ <=? _); [done|]. case_bool_decide; [done|].
  intros (Ha' & _). destruct HC as (C1 & C2 & C3 & C4).
  pose proof (freeList_length _ Ha') as Hl. pose proof Ha as (Hn & _).
  cbn [freeList nextPageId] in Hl. rewrite length_app in Hl. cbn [length] in Hl.
  unfold PA_counted. rewrite length_app.
  cbn [snd nextPageId freeList pa_stats currentAllocated freeListSize peakAllocated totalAllocated totalFreed length].
  rewrite (u32_small (currentAllocated _ - 1)), (u32_small (Z.of_nat _)) by (consts; lia).
  rewrite u32_diff_succ with (c := currentAllocated (pa_stats a)) by (try done; consts; lia). 
  rewrite length_app. cbn [length]. lia.
Qed.

(** C12: The page allocator implements a set of pages in use, read through
    [isAllocated].  [allocate] returns a page that was not in use and marks
    exactly it, or the invalid id when every page of the file is in use; [free]
    succeeds exactly on an unreserved page in use and releases exactly it. *)
Theorem page_allocator_refines_set a : PA_ok a →
  (let '(id, a') := PageAllocator_allocate a in
   (id = kInvalidPageId ∧ a' = a ∧
      ∀ x, kReservedPageCount <= x <= kMaxPageId → isAllocated x a = true) ∨
   (kReservedPageCount <= id <= kMaxPageId ∧ isAllocated id a = false ∧ PA_ok a' ∧
      ∀ x, kReservedPageCount <= x → isAllocated x a' = isAllocated x a || (x =? id))) ∧
  (∀ id, let '(b, a') := PageAllocator_free id a in
   b = (kReservedPageCount <=? id) && isAllocated id a ∧ PA_ok a' ∧
   ∀ x, kReservedPageCount <= x → isAllocated x a' = isAllocated x a && negb (x =? id)).
Proof.
  intros Ha. split.
  - pose proof (allocate_spec a Ha) as H. destruct (PageAllocator_allocate a) as [id a'].
    destruct H as (Ha' & [(?&?&H)|(?&H1&H2)]); [left|right].
    + split; [done|]. split; [done|]. intros x Hx. apply isAllocated_spec; [done|lia|auto].
    + split; [done|]. split; [apply not_true_iff_false; by rewrite isAllocated_spec by (done || lia)|].
      split; [done|]. intros x Hx. apply Bool.eq_iff_eq_true.
      by rewrite orb_true_iff, Z.eqb_eq, !isAllocated_spec.
  - intros id. pose proof (free_spec a id Ha) as H. destruct (PageAllocator_free id a) as [b a'].
    destruct H as (Ha' & H1 & H2). split; [|split; [done|]].
    + apply Bool.eq_iff_eq_true. rewrite H1, andb_true_iff, Z.leb_le. split.
      * intros Hu. assert (kReservedPageCount <= id) by apply Hu. by rewrite isAllocated_spec.
      * intros [? Hu]. by apply isAllocated_spec in Hu.
    + intros x Hx. apply Bool.eq_iff_eq_true.
      by rewrite andb_true_iff, negb_true_iff, Z.eqb_neq, !isAllocated_spec.
Qed.

Lemma page_allocator_refines_set_witness :
  let '(id, a') := PageAllocator_allocate PageAllocator_make in
  (id = kInvalidPageId ∧ a' = PageAllocator_make ∧
     ∀ x, kReservedPageCount <= x <= kMaxPageId → isAllocated x PageAllocator_make = true) ∨
  (kReservedPageCount <= id <= kMaxPageId ∧ isAllocated id PageAllocator_make = false ∧ PA_ok a' ∧
     ∀ x, kReservedPageCount <= x → isAllocated x a' = isAllocated x PageAllocator_make || (x =? id)).
Proof. exact (proj1 (page_allocator_refines_set PageAllocator_make PA_ok_make)). Defined.

(** Every history of [allocate], [free] (of any page number) and [reset]
    keeps the allocator well formed (page numbers in range, no page twice in the
    free list) and its statistics exact: the current count is the number of
    pages in use, the peak bounds it, and allocations minus frees is the current
    count modulo 2^32. *)
Theorem page_allocator_history ops :
  PA_ok (foldl PA_step PageAllocator_make ops) ∧ PA_counted (foldl PA_step PageAllocator_make ops).
Proof.
  induction ops as [|op ops [IH1 IH2]] using rev_ind.
  { split; [apply PA_ok_make|]. unfold PA_counted. cbn. consts. unfold u32, wrap. cbn. lia. }
  rewrite foldl_app. cbn [foldl]. set (a := foldl _ _ ops) in *. destruct op as [|id|]; cbn [PA_step].
  - split; [|by apply PA_counted_allocate]. pose proof (allocate_spec a IH1).
    by destruct (PageAllocator_allocate a) as [? ?], H.
  - split; [|by apply PA_counted_free]. pose proof (free_spec a id IH1).
    by destruct (PageAllocator_free id a) as [? ?], H.
  - split; [apply PA_ok_make|]. unfold PA_counted. cbn. consts. unfold u32, wrap. cbn. lia.
Qed.
