(* ===== verification/SpaceMgr.v ===== *)
(** Allocation policies, the extent allocator, space statistics and the space
    manager (src/src/space/AllocationPolicy.cpp, ExtentAllocator.cpp,
    SpaceStatistics.cpp, FragmentationAnalyzer.cpp, SpaceManager.cpp). *)
From stdpp Require Import base strings list sets gmap.
From Stdlib Require Import ZArith Lia SpecFloat.
From S2P Require Import Prelude Config Doubles FreeSpace PageAlloc.

(** ** Policies *)
Record AllocationHints : Set := mkHints {
  preferContiguous : bool; preferBeginning : bool; preferEnd : bool;
  minExtentLength : Z; exactFit : bool }.
Definition AllocationHints_default : AllocationHints := mkHints false false false 1 false.

(** The policy object an [ExtentAllocator] owns; only the sequential one has
    state. *)
Inductive AllocationPolicy : Set := FirstFitPolicy | BestFitPolicy | SequentialPolicy (cursor : Z).

Definition FirstFitPolicy_allocate (fsm : FreeSpaceMap) (length : Z) (hints : AllocationHints) : Extent :=
  if exactFit hints then findExactRange length fsm
  else if preferContiguous hints || (1 <? length) then findFreeRange length (negb (preferEnd hints)) fsm
  else findFreeRange length true fsm.

Definition BestFitPolicy_allocate (fsm : FreeSpaceMap) (length : Z) (hints : AllocationHints) : Extent :=
  if exactFit hints then findExactRange length fsm
  else if preferContiguous hints || (1 <? length) then
    let best := findBestRange length fsm in
    if isValid best then best else findFreeRange length true fsm
  else findFreeRange length true fsm.

(** [scan] over a part of the extents. *)
Definition scan (length : Z) (l : list Extent) : option Extent :=
  List.find (λ e, length <=? e_length e) l.

Definition SequentialPolicy_allocate (cursor : Z) (fsm : FreeSpaceMap) (length : Z)
    (hints : AllocationHints) : Extent * Z :=
  if bool_decide (fsm = []) then (Extent_default, cursor)
  else
    let lb := lower_bound (λ e, e_start e <? cursor) fsm in
    let it := if decide (lb = List.length fsm) then 0%nat else lb in
    let found e := (mkExtent (e_start e) length, e_start e) in
    match fsm !! it with
    | Some e =>
        if length <=? e_length e then found e
        else
          match scan length (drop it fsm) with
          | Some e => found e
          | None =>
              match scan length (take it fsm) with
              | Some e => found e
              | None => (Extent_default, cursor)
              end
          end
    | None => (Extent_default, cursor)
    end.

Definition AllocationPolicy_allocate (p : AllocationPolicy) (fsm : FreeSpaceMap) (length : Z)
    (hints : AllocationHints) : Extent * AllocationPolicy :=
  match p with
  | FirstFitPolicy => (FirstFitPolicy_allocate fsm length hints, p)
  | BestFitPolicy => (BestFitPolicy_allocate fsm length hints, p)
  | SequentialPolicy cursor =>
      let '(e, cursor) := SequentialPolicy_allocate cursor fsm length hints in (e, SequentialPolicy cursor)
  end.

(** ** ExtentAllocator *)
Record ExtentAllocator : Set := mkExtentAllocator { fsm_ : FreeSpaceMap; policy_ : AllocationPolicy }.

Definition ExtentAllocator_allocate (length : Z) (hints : AllocationHints) (ea : ExtentAllocator)
    : Extent * ExtentAllocator :=
  if length =? 0 then (Extent_default, ea)
  else
    let '(extent, policy) := AllocationPolicy_allocate (policy_ ea) (fsm_ ea) length hints in
    if isValid extent then
      let '(st, fsm) := markAllocated extent (fsm_ ea) in
      (if is_ok st then extent else Extent_default, mkExtentAllocator fsm policy)
    else (extent, mkExtentAllocator (fsm_ ea) policy).

Definition ExtentAllocator_release (extent : Extent) : M ExtentAllocator unit := λ ea,
  if negb (isValid extent)
  then (invalidArgument "ExtentAllocator::release: invalid extent", ea)
  else let '(st, fsm) := markFree extent (fsm_ ea) in (st, mkExtentAllocator fsm (policy_ ea)).

Definition ExtentAllocator_clear (ea : ExtentAllocator) : ExtentAllocator :=
  mkExtentAllocator (FreeSpaceMap_clear (fsm_ ea)) (policy_ ea).
(** The old policy object, its cursor included, is destroyed. *)
Definition ExtentAllocator_setPolicy (policy : AllocationPolicy) (ea : ExtentAllocator) : ExtentAllocator :=
  mkExtentAllocator (fsm_ ea) policy.

(** ** Statistics *)
Record SpaceStats : Set := mkSpaceStats {
  allocationsRequested : Z; allocationsSucceeded : Z; allocationsFailed : Z;
  freesRequested : Z; freesSucceeded : Z; freesFailed : Z;
  currentAllocatedPages : Z; currentFreePages : Z; extentCount : Z; fragmentationPercent : double }.
Definition SpaceStats_default : SpaceStats := mkSpaceStats 0 0 0 0 0 0 0 0 0 (d_of_Z 0).

Definition recordAllocation (success : bool) (s : SpaceStats) : SpaceStats :=
  mkSpaceStats (u64 (allocationsRequested s + 1))
    (if success then u64 (allocationsSucceeded s + 1) else allocationsSucceeded s)
    (if success then allocationsFailed s else u64 (allocationsFailed s + 1))
    (freesRequested s) (freesSucceeded s) (freesFailed s)
    (if success then u32 (currentAllocatedPages s + 1) else currentAllocatedPages s)
    (currentFreePages s) (extentCount s) (fragmentationPercent s).

Definition recordFree (success : bool) (s : SpaceStats) : SpaceStats :=
  mkSpaceStats (allocationsRequested s) (allocationsSucceeded s) (allocationsFailed s)
    (u64 (freesRequested s + 1))
    (if success then u64 (freesSucceeded s + 1) else freesSucceeded s)
    (if success then freesFailed s else u64 (freesFailed s + 1))
    (if success then
       if 0 <? currentAllocatedPages s then currentAllocatedPages s - 1 else currentAllocatedPages s
     else currentAllocatedPages s)
    (currentFreePages s) (extentCount s) (fragmentationPercent s).

(** [SpaceStatisticsCollector::reset]; its [recordAllocation] and [recordFree]
    are the ones of the statistics it wraps. *)
Definition SpaceStatisticsCollector_reset (s : SpaceStats) : SpaceStats := SpaceStats_default.

(** [FragmentationAnalyzer::largestFreeExtent]; the loop of [update] is the
    same with another start value. *)
Definition largest_from (start : Z) (fsm : FreeSpaceMap) : Z :=
  foldl (λ largest ext, if largest <? e_length ext then e_length ext else largest) start fsm.
Definition largestFreeExtent (fsm : FreeSpaceMap) : Z := largest_from 0 fsm.

Definition fragmentation_of (largest free : Z) : double :=
  d_mul (d_of_Z 100) (d_sub (d_of_Z 1) (d_div (d_of_Z largest) (d_of_Z free))).

Definition SpaceStats_update (fsm : FreeSpaceMap) (totalPages : Z) (s : SpaceStats) : SpaceStats :=
  let free := countFree fsm in
  mkSpaceStats (allocationsRequested s) (allocationsSucceeded s) (allocationsFailed s)
    (freesRequested s) (freesSucceeded s) (freesFailed s)
    (u32 (totalPages - free)) free (countFreeExtents fsm)
    (if 0 <? free then
       fragmentation_of (largest_from (match fsm with [] => 0 | e :: _ => e_length e end) fsm) free
     else d_of_Z 0).

(** ** FragmentationAnalyzer *)
Record FragmentationReport : Set := mkFragmentationReport {
  fr_fragmentationPercent : double; fr_largestFreeExtent : Z; fr_smallestFreeExtent : Z;
  fr_averageFreeExtentSize : double; fr_extentCount : Z; fr_totalFreePages : Z;
  fr_allocationDensity : double; fr_maxContiguousAllocation : Z; fr_recommendation : string }.

Definition calculateFragmentation (fsm : FreeSpaceMap) : double :=
  if countFree fsm =? 0 then d_of_Z 0
  else if countFreeExtents fsm <=? 1 then d_of_Z 0
  else fragmentation_of (largestFreeExtent fsm) (countFree fsm).
Definition averageFreeExtentSize (fsm : FreeSpaceMap) : double :=
  if countFreeExtents fsm =? 0 then d_of_Z 0
  else d_div (d_of_Z (countFree fsm)) (d_of_Z (countFreeExtents fsm)).
Definition allocationDensity (fsm : FreeSpaceMap) (totalPages : Z) : double :=
  if totalPages =? 0 then d_of_Z 0
  else d_div (d_of_Z (u32 (totalPages - countFree fsm))) (d_of_Z totalPages).
Definition smallestFreeExtent (fsm : FreeSpaceMap) : Z :=
  match fsm with
  | [] => 0
  | e :: _ => foldl (λ smallest ext, if e_length ext <? smallest then e_length ext else smallest)
                (e_length e) fsm
  end.

Definition FragmentationAnalyzer_analyze (fsm : FreeSpaceMap) (totalPages : Z) : FragmentationReport :=
  let frag := calculateFragmentation fsm in
  mkFragmentationReport frag (largestFreeExtent fsm) (smallestFreeExtent fsm)
    (averageFreeExtentSize fsm) (countFreeExtents fsm) (countFree fsm)
    (allocationDensity fsm totalPages) (largestFreeExtent fsm)
    (if SFltb (d_of_Z 50) frag then "High fragmentation: consider defragmentation"
     else if SFltb (d_of_Z 25) frag then "Moderate fragmentation: monitor growth"
     else "Low fragmentation: space is well-organized").

(** ** SpaceManager *)
Record SpaceManager : Set := mkSpaceManager {
  pageAllocator_ : PageAllocator; extentAllocator_ : ExtentAllocator; stats_ : SpaceStats }.

Definition initialFreeSpace : FreeSpaceMap :=
  let totalPages := u32 (kMaxPageId - kFirstDataPageId + 1) in
  if 0 <? totalPages then FreeSpaceMap_initialize kFirstDataPageId totalPages else [].

Definition SpaceManager_make (p : AllocationPolicy) : SpaceManager :=
  mkSpaceManager PageAllocator_make (mkExtentAllocator initialFreeSpace p) SpaceStats_default.

(** [extentAllocator_.freeSpaceMap()] is replaced. *)
Definition with_fsm (fsm : FreeSpaceMap) (ea : ExtentAllocator) : ExtentAllocator :=
  mkExtentAllocator fsm (policy_ ea).

Definition allocatePage (sm : SpaceManager) : Z * SpaceManager :=
  let '(id, pa) := PageAllocator_allocate (pageAllocator_ sm) in
  if negb (id =? kInvalidPageId) then
    let '(st, fsm) := markAllocated (mkExtent id 1) (fsm_ (extentAllocator_ sm)) in
    let ea := with_fsm fsm (extentAllocator_ sm) in
    if negb (is_ok st) then
      (kInvalidPageId,
       mkSpaceManager (PageAllocator_free id pa).2 ea (recordAllocation false (stats_ sm)))
    else (id, mkSpaceManager pa ea (recordAllocation true (stats_ sm)))
  else (id, mkSpaceManager pa (extentAllocator_ sm) (recordAllocation false (stats_ sm))).

Definition freePage (id : Z) (sm : SpaceManager) : bool * SpaceManager :=
  let '(b, pa) := PageAllocator_free id (pageAllocator_ sm) in
  if negb b then (false, mkSpaceManager pa (extentAllocator_ sm) (recordFree false (stats_ sm)))
  else
    let '(st, fsm) := markFree (mkExtent id 1) (fsm_ (extentAllocator_ sm)) in
    (is_ok st,
     mkSpaceManager pa (with_fsm fsm (extentAllocator_ sm)) (recordFree (is_ok st) (stats_ sm))).

Definition allocateExtent (length : Z) (hints : AllocationHints) (sm : SpaceManager)
    : Extent * SpaceManager :=
  let '(extent, ea) := ExtentAllocator_allocate length hints (extentAllocator_ sm) in
  let st := recordAllocation (isValid extent) (stats_ sm) in
  (extent, mkSpaceManager (pageAllocator_ sm) ea
     (if isValid extent then SpaceStats_update (fsm_ ea) (kMaxPageId + 1) st else st)).

Definition freeExtent (extent : Extent) : M SpaceManager unit := λ sm,
  let '(st, ea) := ExtentAllocator_release extent (extentAllocator_ sm) in
  let s := recordFree (is_ok st) (stats_ sm) in
  (st, mkSpaceManager (pageAllocator_ sm) ea
     (if is_ok st then SpaceStats_update (fsm_ ea) (kMaxPageId + 1) s else s)).

Definition reserveRange (start count : Z) : M SpaceManager unit := λ sm,
  if start <? kFirstDataPageId then (invalidArgument "Cannot reserve reserved page range", sm)
  else
    let '(st, fsm) := markAllocated (mkExtent start count) (fsm_ (extentAllocator_ sm)) in
    (st, mkSpaceManager (pageAllocator_ sm) (with_fsm fsm (extentAllocator_ sm))
       (if is_ok st then SpaceStats_update fsm (kMaxPageId + 1) (stats_ sm) else stats_ sm)).

Definition allocatedPageCount (sm : SpaceManager) : Z :=
  u32 (kMaxPageId - kFirstDataPageId + 1 - countFree (fsm_ (extentAllocator_ sm))).
Definition freePageCount (sm : SpaceManager) : Z := countFree (fsm_ (extentAllocator_ sm)).

Definition SpaceManager_reset (sm : SpaceManager) : SpaceManager :=
  mkSpaceManager (PageAllocator_reset (pageAllocator_ sm))
    (with_fsm initialFreeSpace (ExtentAllocator_clear (extentAllocator_ sm))) SpaceStats_default.

(** ** Policies find free extents *)

Definition inside (e ext : Extent) : Prop :=
  e_start ext <= e_start e ∧ e_start e + e_length e <= e_start ext + e_length ext.

(** [e] is what a policy may return for [len] pages of [l]: nothing, when no
    extent passes [ok], or [len] pages of one that does. *)
Definition served (ok : Extent → bool) (l : FreeSpaceMap) (len : Z) (e : Extent) : Prop :=
  (e = Extent_default ∧ existsb ok l = false) ∨
  (ext_ok e ∧ e_length e = len ∧ ∃ ext, ext ∈ l ∧ ok ext = true ∧ inside e ext).

Lemma find_spec {A} (f : A → bool) l :
  match List.find f l with
  | Some x => x ∈ l ∧ f x = true
  | None => existsb f l = false
  end.
Proof.
  induction l as [|x l IH]; cbn; [done|]. destruct (f x) eqn:Hf.
  - split; [left|done].
  - destruct (List.find f l); [|done]. split; [right; apply IH|apply IH].
Qed.

Lemma existsb_reverse {A} (f : A → bool) l : existsb f (rev l) = existsb f l.
Proof.
  induction l as [|x l IH]; [done|]. cbn. rewrite existsb_app, IH. cbn.
  by rewrite orb_false_r, orb_comm.
Qed.

Section policies.
Context (l : FreeSpaceMap) (len : Z) (Hl : FSM_ok l) (Hlen : 0 < len).

Lemma FSM_member e : e ∈ l → ext_ok e.
Proof. intros He. destruct Hl as [H _]. rewrite Forall_forall in H. auto. Qed.

Lemma served_at ext e : ext ∈ l → len <= e_length ext → e_length e = len → inside e ext →
  served (λ x, len <=? e_length x) l len e.
Proof.
  intros He Hle Hel Hin. right. pose proof (FSM_member ext He). unfold inside, ext_ok in *.
  split; [lia|]. split; [done|]. exists ext. rewrite Z.leb_le. auto.
Qed.

Lemma findFreeRange_served b : served (λ x, len <=? e_length x) l len (findFreeRange len b l).
Proof.
  unfold findFreeRange. rewrite (proj2 (Z.eqb_neq len 0)), orb_false_r by lia.
  case_bool_decide as Hn; [left; by rewrite Hn|]. destruct b.
  - pose proof (find_spec (λ x, len <=? e_length x) l) as Hf.
    destruct (List.find _ l) as [ext|]; [|by left]. destruct Hf as [He Hf]. apply Z.leb_le in Hf.
    apply (served_at ext); cbn; auto. unfold inside. cbn. lia.
  - pose proof (find_spec (λ x, len <=? e_length x) (rev l)) as Hf. rewrite existsb_reverse in Hf.
    destruct (List.find _ (rev l)) as [ext|]; [|by left]. destruct Hf as [He Hf]. apply Z.leb_le in Hf.
    rewrite list_elem_of_In, <-in_rev, <-list_elem_of_In in He.
    pose proof (FSM_member ext He) as (?&?&Hk). unfold kInvalidPageId in Hk.
    rewrite u32_small by lia. apply (served_at ext); cbn; auto. unfold inside. cbn. lia.
Qed.

Lemma findExactRange_served : served (λ x, e_length x =? len) l len (findExactRange len l).
Proof.
  unfold findExactRange. pose proof (find_spec (λ x, e_length x =? len) l) as Hf.
  destruct (List.find _ l) as [ext|]; [|by left]. destruct Hf as [He Hf]. right.
  pose proof Hf as Hf'. apply Z.eqb_eq in Hf'. split; [by apply FSM_member|].
  split; [done|]. exists ext. unfold inside. auto with lia.
Qed.

(** The best fit is an adequate extent of least length. *)
Lemma findBest_loop_spec best k : Forall (λ b, b ∈ l ∧ len <= e_length b) (option_list best) →
  (∀ e, e ∈ k → e ∈ l) →
  match findBest_loop len best k with
  | Some b => b ∈ l ∧ len <= e_length b ∧
      (∀ e, e ∈ k ∨ Some e = best → len <= e_length e → e_length b <= e_length e)
  | None => best = None ∧ existsb (λ x, len <=? e_length x) k = false
  end.
Proof.
  revert best. induction k as [|ext k IH]; intros best Hb Hk; cbn [findBest_loop].
  { destruct best as [b|]; [|done]. cbn in Hb. rewrite Forall_singleton in Hb.
    split; [tauto|]. split; [tauto|]. intros e [He|[= ->]] _; [by apply elem_of_nil in He|lia]. }
  cbn [existsb]. destruct (Z.leb_spec len (e_length ext)) as [Hle|Hgt]; cbn [orb].
  - set (best' := match best with None => _ | Some b => _ end).
    assert (Hb' : Forall (λ b, b ∈ l ∧ len <= e_length b) (option_list best')).
    { assert (ext ∈ l) by (apply Hk; left). unfold best'.
      destruct best as [b|]; [case_match|]; cbn in *; try done; by repeat constructor. }
    specialize (IH best' Hb' ltac:(intros; apply Hk; by right)).
    destruct (findBest_loop len best' k) as [b|].
    + destruct IH as (H1 & H2 & H3). split; [done|]. split; [done|]. intros e He Hle'.
      assert (Hext : e_length b <= e_length ext ∧ (∀ b0, best = Some b0 → e_length b <= e_length b0)).
      { unfold best' in H3. destruct best as [b0|].
        - cbn in Hb. rewrite Forall_singleton in Hb.
          destruct (Z.ltb_spec (e_length ext) (e_length b0)).
          + assert (e_length b <= e_length ext) by (apply H3; auto). split; [done|]. intros ? [= <-]. lia.
          + assert (e_length b <= e_length b0) by (apply H3; [auto|tauto]). split; [lia|]. intros ? [= <-]. lia.
        - split; [apply H3; auto|done]. }
      destruct He as [[->|He]%elem_of_cons|He]; [tauto| |symmetry in He; by apply Hext in He].
      apply H3; auto.
    + destruct IH as [IH _]. unfold best' in IH. destruct best; [by case_match|done].
  - specialize (IH best Hb ltac:(intros; apply Hk; by right)).
    destruct (findBest_loop len best k) as [b|]; [|done].
    destruct IH as (H1 & H2 & H3). split; [done|]. split; [done|].
    intros e [[->|He]%elem_of_cons|He] Hle'; [lia|auto|auto].
Qed.

Lemma findBestRange_served : served (λ x, len <=? e_length x) l len (findBestRange len l).
Proof.
  unfold findBestRange. pose proof (findBest_loop_spec None l (Forall_nil_2 _) (λ e He, He)) as Hb.
  destruct (findBest_loop len None l) as [b|]; [|left; tauto].
  destruct Hb as (He & Hle & _). apply (served_at b); cbn; auto. unfold inside. cbn. lia.
Qed.

Lemma served_isValid ok e : served ok l len e → isValid e = existsb ok l.
Proof.
  intros [[-> H]|(H1 & H2 & ext & He & Hok & _)]; [by rewrite H|].
  rewrite ext_ok_isValid by done. symmetry. apply existsb_exists. exists ext.
  by rewrite <-list_elem_of_In.
Qed.

Lemma SequentialPolicy_served cursor hints :
  served (λ x, len <=? e_length x) l len (SequentialPolicy_allocate cursor l len hints).1.
Proof.
  unfold SequentialPolicy_allocate, scan. case_bool_decide as Hn; [left; by rewrite Hn|].
  set (it := if decide _ then _ else _).
  assert (Hfound : ∀ e, e ∈ l → (len <=? e_length e) = true →
    served (λ x, len <=? e_length x) l len (mkExtent (e_start e) len)).
  { intros e He Hle%Z.leb_le. apply (served_at e); cbn; auto. unfold inside. cbn. lia. }
  destruct (l !! it) as [e|] eqn:He.
  - apply list_elem_of_lookup_2 in He. destruct (len <=? e_length e) eqn:Hle; [by apply Hfound|].
    pose proof (find_spec (λ x, len <=? e_length x) (drop it l)) as H1.
    destruct (List.find _ (drop it l)) as [e1|].
    { destruct H1 as [H1 ?]. apply Hfound; [|done]. rewrite <-(take_drop it l). apply elem_of_app. by right. }
    pose proof (find_spec (λ x, len <=? e_length x) (take it l)) as H2.
    destruct (List.find _ (take it l)) as [e2|].
    { destruct H2 as [H2 ?]. apply Hfound; [|done]. rewrite <-(take_drop it l). apply elem_of_app. by left. }
    left. split; [done|]. rewrite <-(take_drop it l), existsb_app. by rewrite H1, H2.
  - exfalso. apply lookup_ge_None in He. unfold it in He. destruct l as [|x l']; [done|].
    destruct (decide _) as [|Hne]; [cbn in He; lia|]. apply Hne.
    destruct (FSM_partition (λ e, e_start e <? cursor) (x :: l') Hl) as (xs & ys & Hxy & Hlb & _).
    { apply before_start_mono. }
    rewrite Hlb in *. rewrite Hxy, length_app in *. lia.
Qed.

(** The extents a policy considers for a request. *)
Definition adequate (p : AllocationPolicy) (hints : AllocationHints) (ext : Extent) : bool :=
  match p with
  | SequentialPolicy _ => len <=? e_length ext
  | _ => if exactFit hints then e_length ext =? len else len <=? e_length ext
  end.

Lemma AllocationPolicy_served p hints :
  served (adequate p hints) l len (AllocationPolicy_allocate p l len hints).1.
Proof.
  destruct p as [| |cursor]; cbn [AllocationPolicy_allocate fst].
  - unfold FirstFitPolicy_allocate, adequate.
    destruct (exactFit hints); [apply findExactRange_served|].
    case_match; apply findFreeRange_served.
  - unfold BestFitPolicy_allocate, adequate.
    destruct (exactFit hints); [apply findExactRange_served|].
    case_match; [|apply findFreeRange_served]. case_match; [apply findBestRange_served|apply findFreeRange_served].
  - pose proof (SequentialPolicy_served cursor hints) as H. unfold adequate.
    destruct (SequentialPolicy_allocate cursor l len hints). exact H.
Qed.
End policies.

(** C33: Every allocation policy is sound and complete on a well-formed map: a
    request for [len] pages yields a valid extent exactly when some free extent
    is adequate (long enough, or of the exact length when the hints ask for it
    and the policy honours them), and the extent returned has the requested
    length and consists of free pages only. *)
Theorem policy_sound_and_complete p l len hints : FSM_ok l → 0 < len →
  let e := (AllocationPolicy_allocate p l len hints).1 in
  isValid e = existsb (adequate len p hints) l ∧
  (isValid e = true → e_length e = len ∧
     ∀ page, in_range e page = true → FreeSpaceMap_contains page l = true).
Proof.
  intros Hl Hlen e. pose proof (AllocationPolicy_served l len Hl Hlen p hints) as Hs. fold e in Hs.
  split; [by eapply served_isValid|]. intros Hv.
  destruct Hs as [[He _]|(Hok & Hlen' & ext & Hext & _ & Hin)]; [by rewrite He in Hv|].
  split; [done|]. intros page Hp. apply in_range_spec in Hp. apply FreeSpaceMap_contains_spec; [done|].
  apply pages_elem. exists ext. split; [done|]. unfold inE, inside in *. lia.
Qed.

Lemma policy_sound_and_complete_witness :
  isValid (AllocationPolicy_allocate (SequentialPolicy 13)
     [mkExtent 8 2; mkExtent 12 4; mkExtent 20 1] 2 AllocationHints_default).1 = true.
Proof.
  rewrite (proj1 (policy_sound_and_complete (SequentialPolicy 13) _ 2 AllocationHints_default
             FSM_ok_example ltac:(lia))). reflexivity.
Defined.

(** ** The space manager supplies pages *)

(** Every page the page allocator may still hand out is free in the map. *)
Definition SM_ok (sm : SpaceManager) : Prop :=
  PA_ok (pageAllocator_ sm) ∧ FSM_ok (fsm_ (extentAllocator_ sm)) ∧
  ∀ p, kFirstDataPageId <= p <= kMaxPageId → ¬ PA_used (pageAllocator_ sm) p →
    pages (fsm_ (extentAllocator_ sm)) p.

Lemma SM_ok_make pol : SM_ok (SpaceManager_make pol).
Proof.
  assert (Hi : initialFreeSpace = [mkExtent 8 1048568]) by reflexivity.
  split; [apply PA_ok_make|]. cbn [extentAllocator_ SpaceManager_make fsm_]. rewrite Hi. split.
  - apply FSM_ok_cons. split; [by vm_compute|]. auto using FSM_ok_nil.
  - intros p Hp _. apply pages_cons. left. unfold inE. cbn. consts. lia.
Qed.

Lemma ext_ok_page id : kFirstDataPageId <= id <= kMaxPageId → ext_ok (mkExtent id 1).
Proof. unfold ext_ok. cbn. consts. lia. Qed.

(** Marking a free page never fails, and frees no other page. *)
Lemma markAllocated_page id l : FSM_ok l → kFirstDataPageId <= id <= kMaxPageId → pages l id →
  ∃ l', markAllocated (mkExtent id 1) l = (Ok tt, l') ∧ FSM_ok l' ∧
    ∀ p, p ≠ id → pages l p → pages l' p.
Proof.
  intros Hl Hid Hp. pose proof (ext_ok_page id Hid) as Hr.
  destruct (decide (Exists (strict_prefix (mkExtent id 1)) l)) as [Hpre|Hnp].
  - apply Exists_exists in Hpre as (e & He & Hpre). exists l.
    split; [by apply (markAllocated_prefix _ _ e)|]. auto.
  - destruct (markAllocated_removes (mkExtent id 1) l Hl Hr) as (o & l' & H1 & H2 & H3 & _ & H5).
    { by apply Forall_Exists_neg. }
    assert (o = Ok tt) as ->.
    { apply H5, Exists_exists. apply pages_elem in Hp as (e & He & Hp). exists e. split; [done|].
      unfold overlaps, inE in *. cbn. lia. }
    exists l'. split; [done|]. split; [done|]. intros p Hne Hpp. apply H3. split; [done|].
    unfold inE. cbn. lia.
Qed.

Lemma allocatePage_spec sm : SM_ok sm →
  let '(id, sm') := allocatePage sm in
  SM_ok sm' ∧
  ((id = kInvalidPageId ∧ (∀ x, kFirstDataPageId <= x <= kMaxPageId → PA_used (pageAllocator_ sm) x) ∧
    pageAllocator_ sm' = pageAllocator_ sm) ∨
   (kFirstDataPageId <= id <= kMaxPageId ∧ ¬ PA_used (pageAllocator_ sm) id ∧
    ∀ x, PA_used (pageAllocator_ sm') x ↔ PA_used (pageAllocator_ sm) x ∨ x = id)).
Proof.
  intros (Hpa & Hfsm & Hfree). unfold allocatePage. pose proof (allocate_spec _ Hpa) as Ha.
  destruct (PageAllocator_allocate (pageAllocator_ sm)) as [id pa].
  destruct Ha as (Hpa' & [(-> & -> & Hall)|(Hid & Hnu & Hu)]).
  - rewrite Z.eqb_refl. cbn. split; [split; [done|split; done]|]. left. auto.
  - rewrite (proj2 (Z.eqb_neq _ _)) by (consts; lia). cbn [negb].
    destruct (markAllocated_page id _ Hfsm Hid (Hfree id Hid Hnu)) as (l' & -> & Hl' & Hp').
    cbn. split; [|by right]. split; [done|]. split; [done|]. cbn. intros p Hp Hnup.
    apply Hp'; [intros ->; apply Hnup, Hu; by right|]. apply Hfree; [done|]. rewrite Hu in Hnup. tauto.
Qed.

Lemma freePage_spec sm id : SM_ok sm →
  let '(b, sm') := freePage id sm in
  SM_ok sm' ∧ (b = true ↔ PA_used (pageAllocator_ sm) id) ∧
  ∀ x, PA_used (pageAllocator_ sm') x ↔ PA_used (pageAllocator_ sm) x ∧ x ≠ id.
Proof.
  intros (Hpa & Hfsm & Hfree). unfold freePage. pose proof (free_spec _ id Hpa) as Ha.
  destruct (PageAllocator_free id (pageAllocator_ sm)) as [b pa]. destruct Ha as (Hpa' & Hb & Hu).
  destruct b; cbn [negb].
  - destruct (proj1 Hb eq_refl) as [Hid _]. pose proof Hpa as (Hn & _).
    destruct (markFree_spec (mkExtent id 1) _ Hfsm) as (l' & -> & Hl' & Hp').
    { apply ext_ok_page. consts. lia. }
    cbn. split; [|done]. split; [done|]. split; [done|]. cbn. intros p Hp Hnu. apply Hp'.
    destruct (decide (p = id)) as [->|Hne]; [right; unfold inE; cbn; lia|]. left.
    apply Hfree; [done|]. rewrite Hu in Hnu. tauto.
  - cbn. split; [|done]. split; [done|]. split; [done|]. cbn. intros p Hp Hnu. apply Hfree; [done|].
    intros Hup. apply Hnu, Hu. split; [done|]. intros ->. by apply Hb in Hup.
Qed.

#[global] Program Instance SpaceManager_PageSpace : PageSpace SpaceManager := {
  ps_allocatePage := allocatePage;
  ps_freePage := freePage;
  ps_ok := SM_ok;
  ps_used sm := PA_used (pageAllocator_ sm)
}.
Next Obligation. intros sm id (Hpa & _) [Hid _]. pose proof Hpa as (Hn & _). consts. lia. Qed.
Next Obligation.
  intros sm Hok. pose proof (allocatePage_spec sm Hok) as H. destruct (allocatePage sm) as [id sm'].
  destruct H as (? & [(?&?&->)|?]); auto.
Qed.
Next Obligation. intros sm id Hok. apply (freePage_spec sm id Hok). Qed.

Inductive SM_op : Set := SAllocatePage | SFreePage (id : Z).
Definition SM_step (sm : SpaceManager) (op : SM_op) : SpaceManager :=
  match op with
  | SAllocatePage => (allocatePage sm).2
  | SFreePage id => (freePage id sm).2
  end.

Lemma SM_ok_history pol ops : SM_ok (foldl SM_step (SpaceManager_make pol) ops).
Proof.
  induction ops as [|op ops IH] using rev_ind; [apply SM_ok_make|].
  rewrite foldl_app. cbn [foldl]. destruct op as [|id]; cbn [SM_step].
  - pose proof (allocatePage_spec _ IH). by destruct (allocatePage _), H.
  - pose proof (freePage_spec _ id IH). by destruct (freePage _ _), H.
Qed.

(** C29: Pages are never shared.  After any history of [allocatePage] and
    [freePage] on a fresh manager, the next [allocatePage] returns a page that
    is not in use and from then on is, no other page changing its state; it
    fails only when every unreserved page is in use.  In particular the second
    check against the free-space map never refuses a page the allocator
    chose. *)
Theorem space_pages_exclusive pol ops :
  let sm := foldl SM_step (SpaceManager_make pol) ops in
  let '(id, sm') := allocatePage sm in
  (id = kInvalidPageId ∧
     ∀ x, kFirstDataPageId <= x <= kMaxPageId → isAllocated x (pageAllocator_ sm) = true) ∨
  (kFirstDataPageId <= id <= kMaxPageId ∧ isAllocated id (pageAllocator_ sm) = false ∧
     ∀ x, kFirstDataPageId <= x →
       isAllocated x (pageAllocator_ sm') = isAllocated x (pageAllocator_ sm) || (x =? id)).
Proof.
  pose proof (SM_ok_history pol ops) as Hok. cbv zeta. set (sm := foldl _ _ _) in *.
  pose proof (allocatePage_spec sm Hok) as H. destruct (allocatePage sm) as [id sm'].
  destruct Hok as (Hpa & _). destruct H as ((Hpa' & _) & [(?&H&_)|(?&H1&H2)]); [left|right].
  - split; [done|]. intros x Hx. apply isAllocated_spec; [done|apply Hx|auto].
  - split; [done|]. split; [apply not_true_iff_false; rewrite isAllocated_spec; [done|done|tauto]|].
    intros x Hx. apply Bool.eq_iff_eq_true. by rewrite orb_true_iff, Z.eqb_eq, !isAllocated_spec.
Qed.

(** Extents are handed out twice.  With the default policy and hints, when
    the first adequate free extent is longer than the request, [allocateExtent]
    returns its beginning but leaves it free ([markAllocated] does not handle a
    prefix), so the same call repeated returns the same extent again. *)
Theorem extent_allocated_twice len sm ext :
  policy_ (extentAllocator_ sm) = FirstFitPolicy → FSM_ok (fsm_ (extentAllocator_ sm)) → 0 < len →
  List.find (λ e, len <=? e_length e) (fsm_ (extentAllocator_ sm)) = Some ext → len < e_length ext →
  let '(e1, sm1) := allocateExtent len AllocationHints_default sm in
  let '(e2, sm2) := allocateExtent len AllocationHints_default sm1 in
  e1 = mkExtent (e_start ext) len ∧ e2 = e1 ∧ isValid e1 = true.
Proof.
  intros Hpol Hok Hlen Hfind Hlt. destruct sm as [pa [fsm pol] st]. cbn in Hpol, Hok, Hfind. subst pol.
  assert (Hext : ext ∈ fsm) by (pose proof (find_spec (λ e, len <=? e_length e) fsm) as H;
    rewrite Hfind in H; apply H).
  assert (He : ext_ok (mkExtent (e_start ext) len)).
  { pose proof (FSM_member fsm Hok ext Hext). unfold ext_ok in *. cbn. lia. }
  assert (Hnil : bool_decide (fsm = []) = false) by (apply bool_decide_eq_false_2; intros ->; done).
  assert (Halloc : ExtentAllocator_allocate len AllocationHints_default (mkExtentAllocator fsm FirstFitPolicy)
     = (mkExtent (e_start ext) len, mkExtentAllocator fsm FirstFitPolicy)).
  { unfold ExtentAllocator_allocate. rewrite (proj2 (Z.eqb_neq len 0)) by lia.
    cbn [policy_ AllocationPolicy_allocate fsm_].
    replace (FirstFitPolicy_allocate fsm len AllocationHints_default) with (mkExtent (e_start ext) len).
    - rewrite ext_ok_isValid by done. rewrite (markAllocated_prefix _ _ ext); [done..|].
      split; cbn; lia.
    - unfold FirstFitPolicy_allocate, findFreeRange. cbn [exactFit preferContiguous preferEnd AllocationHints_default negb].
      rewrite Hnil, (proj2 (Z.eqb_neq len 0)), Hfind by lia. by destruct (_ || _). }
  unfold allocateExtent. cbn [extentAllocator_]. rewrite Halloc. cbv iota beta zeta.
  cbn [extentAllocator_]. rewrite Halloc. split; [done|]. split; [done|]. by apply ext_ok_isValid.
Qed.

Lemma extent_allocated_twice_witness :
  let sm := SpaceManager_make FirstFitPolicy in
  let '(e1, sm1) := allocateExtent 4 AllocationHints_default sm in
  let '(e2, sm2) := allocateExtent 4 AllocationHints_default sm1 in
  e1 = mkExtent 8 4 ∧ e2 = e1 ∧ isValid e1 = true.
Proof.
  apply (extent_allocated_twice 4 (SpaceManager_make FirstFitPolicy) (mkExtent 8 1048568)).
  - reflexivity.
  - exact (proj1 (proj2 (SM_ok_make FirstFitPolicy))).
  - lia.
  - reflexivity.
  - cbn. lia.
Defined.

(** The page the allocator would hand out next is not free in the map. *)
Definition blocked (sm : SpaceManager) : Prop :=
  PA_ok (pageAllocator_ sm) ∧ FSM_ok (fsm_ (extentAllocator_ sm)) ∧
  let id := (PageAllocator_allocate (pageAllocator_ sm)).1 in
  id ≠ kInvalidPageId ∧ ¬ pages (fsm_ (extentAllocator_ sm)) id.

Lemma blocked_step sm : blocked sm → (allocatePage sm).1 = kInvalidPageId ∧ blocked (allocatePage sm).2.
Proof.
  intros (Hpa & Hfsm & Hne & Hnp). unfold allocatePage. pose proof (allocate_spec _ Hpa) as Ha.
  destruct (PageAllocator_allocate (pageAllocator_ sm)) as [id pa] eqn:Hal. cbn [fst] in *.
  destruct Ha as (Hpa' & [(? & _)|(Hid & Hnu & Hu)]); [done|].
  rewrite (proj2 (Z.eqb_neq _ _)) by done. cbn [negb].
  destruct (markAllocated_removes (mkExtent id 1) _ Hfsm (ext_ok_page id Hid))
    as (o & l' & -> & Hl' & Hp' & Ho & Hok).
  { apply Forall_forall. intros e He [H1 H2]. cbn in *. apply Hnp, pages_elem. exists e.
    split; [done|]. unfold inE. lia. }
  destruct Ho as [->|[err ->]].
  { exfalso. apply Hnp. destruct (proj1 (Exists_exists _ _) (proj1 Hok eq_refl)) as (e & He & Ho).
    apply pages_elem. exists e. split; [done|]. unfold overlaps, inE in *. cbn in Ho. lia. }
  cbn [is_ok negb fst snd]. split; [done|]. pose proof (free_spec pa id Hpa') as Hf.
  assert (Hfl : last (freeList (PageAllocator_free id pa).2) = Some id).
  { unfold PageAllocator_free in *. destruct (proj2 (Hu id) (or_intror eq_refl)) as [Hr Hnf].
    rewrite (proj2 (Z.eqb_neq _ _)), (proj2 (Z.ltb_ge _ _)), (proj2 (Z.leb_gt _ _)) by (consts; lia).
    rewrite bool_decide_eq_false_2 by done. cbn. apply last_snoc. }
  destruct (PageAllocator_free id pa) as [b pa'']. destruct Hf as (Hf & _). cbn in *.
  split; [done|]. split; [done|]. cbn. unfold PageAllocator_allocate. rewrite Hfl. cbn.
  split; [consts; lia|]. rewrite Hp'. tauto.
Qed.

(** Page allocation can be blocked for good.  If the page the allocator
    would hand out next is not free in the map (it was reserved by
    [reserveRange] or lies in an allocated extent), [allocatePage] fails, puts
    the same page back to be tried first, and therefore every later call fails
    as well, however many other pages are free. *)
Theorem allocatePage_blocked_forever sm n : blocked sm →
  (allocatePage (Nat.iter n (λ s, (allocatePage s).2) sm)).1 = kInvalidPageId.
Proof.
  intros Hb. assert (Hi : blocked (Nat.iter n (λ s, (allocatePage s).2) sm)).
  { induction n as [|n IH]; [done|]. by apply blocked_step. }
  by apply blocked_step.
Qed.

(** Page 9 is reserved, page 8 is allocated; the allocator then chooses 9. *)
Definition blocked_example : SpaceManager :=
  (allocatePage (reserveRange 9 1 (SpaceManager_make FirstFitPolicy)).2).2.

Lemma allocatePage_blocked_forever_witness :
  (allocatePage (Nat.iter 1000 (λ s, (allocatePage s).2) blocked_example)).1 = kInvalidPageId.
Proof.
  assert (Hf : FSM_ok (fsm_ (extentAllocator_ blocked_example))).
  { apply FSM_ok_cons. split; [by vm_compute|]. split; [apply FSM_ok_nil|constructor]. }
  apply allocatePage_blocked_forever. split; [|split; [exact Hf|split]].
  - vm_compute. repeat split; try done; constructor.
  - done.
  - intros H. apply FreeSpaceMap_contains_spec in H; [|exact Hf]. vm_compute in H. done.
Defined.
