(* ===== verification/DbFile.v ===== *)
(** The database file (src/src/storage/DatabaseFile.cpp): a [std::fstream] over
    one file, with the size the object believes it has.

    The file system is a map from paths to bytes and a set of paths it refuses
    to open; a stream has one position for reading and writing, as
    [std::basic_filebuf] has, and the two error bits the code looks at.  Reads
    and writes of an open file do not fail for reasons of the device, and what a
    stream has written is visible to it at once; nothing is said about what a
    crash would leave on disk.  [readPage] and [writePage] are in Pages.v. *)
From stdpp Require Import base strings list gmap sets.
From Stdlib Require Import ZArith Lia.
From S2P Require Import Prelude Buffers.

(** ** The file system and [std::fstream] *)

(** [fs_what] is the text of the [filesystem_error] the system raises. *)
Record FileSystem : Type := mkFileSystem {
  fs_files : gmap string (list Z); fs_denied : gset string; fs_what : string }.

(** [s_file] is the path of the open file; [s_fail] is [fail()], [s_eof] is
    [eof()]. *)
Record fstream : Type := mkStream {
  s_file : option string; s_pos : Z; s_fail : bool; s_eof : bool }.
Definition fstream_closed : fstream := mkStream None 0 false false.
Definition stream_good (s : fstream) : bool := negb (s_fail s) && negb (s_eof s).

(** [seekg] forgets the end of the file, but does not move a stream that has
    failed; a negative offset fails it.  [seekp] moves the same position. *)
Definition stream_seekg (off : Z) (s : fstream) : fstream :=
  if s_fail s then mkStream (s_file s) (s_pos s) true false
  else if off <? 0 then mkStream (s_file s) (s_pos s) true false
  else mkStream (s_file s) off false false.
Definition stream_seekp (off : Z) (s : fstream) : fstream :=
  if s_fail s then s
  else if off <? 0 then mkStream (s_file s) (s_pos s) true (s_eof s)
  else mkStream (s_file s) off false (s_eof s).

(** The bytes of a file after [bs] was written at [pos]; a gap reads as zeros. *)
Definition file_write (pos : Z) (bs c : list Z) : list Z :=
  if zlen bs =? 0 then c
  else ztake pos c ++ zeros (Z.to_nat (pos - zlen c)) ++ bs ++ zdrop (pos + zlen bs) c.
Definition file_resize (n : Z) (c : list Z) : list Z :=
  ztake n c ++ zeros (Z.to_nat (n - zlen c)).

(** ** DatabaseFile *)
Record DatabaseFile : Type := mkDatabaseFile {
  df_fs : FileSystem; df_path : string; df_stream : fstream; df_size : Z }.
Definition DatabaseFile_make (fs : FileSystem) : DatabaseFile :=
  mkDatabaseFile fs EmptyString fstream_closed 0.

Definition df_isOpen (d : DatabaseFile) : bool := bool_decide (is_Some (s_file (df_stream d))).
Definition df_fileSize (d : DatabaseFile) : Z := df_size d.
(** The bytes of the file the stream has open. *)
Definition df_bytes (d : DatabaseFile) : list Z :=
  match s_file (df_stream d) with
  | Some p => default [] (fs_files (df_fs d) !! p)
  | None => []
  end.

Definition set_stream (s : fstream) (d : DatabaseFile) : DatabaseFile :=
  mkDatabaseFile (df_fs d) (df_path d) s (df_size d).
Definition set_dfsize (n : Z) (d : DatabaseFile) : DatabaseFile :=
  mkDatabaseFile (df_fs d) (df_path d) (df_stream d) n.
Definition set_bytes (p : string) (c : list Z) (d : DatabaseFile) : DatabaseFile :=
  mkDatabaseFile (mkFileSystem (<[p := c]> (fs_files (df_fs d))) (fs_denied (df_fs d)) (fs_what (df_fs d)))
    (df_path d) (df_stream d) (df_size d).

(** [stream_.open(path, binary | in | out)]: a success clears the error bits, a
    failure sets one. *)
Definition stream_open (path : string) (d : DatabaseFile) : DatabaseFile :=
  set_stream
    (if bool_decide (path ∈ fs_denied (df_fs d)) then mkStream None (s_pos (df_stream d)) true (s_eof (df_stream d))
     else match fs_files (df_fs d) !! path with
          | Some _ => mkStream (Some path) 0 false false
          | None => mkStream None (s_pos (df_stream d)) true (s_eof (df_stream d))
          end) d.
(** The same with [trunc], which creates the file. *)
Definition stream_create (path : string) (d : DatabaseFile) : DatabaseFile :=
  if bool_decide (path ∈ fs_denied (df_fs d))
  then set_stream (mkStream None (s_pos (df_stream d)) true (s_eof (df_stream d))) d
  else set_stream (mkStream (Some path) 0 false false) (set_bytes path [] d).
Definition stream_close (d : DatabaseFile) : DatabaseFile :=
  set_stream (mkStream None (s_pos (df_stream d)) (s_fail (df_stream d)) (s_eof (df_stream d))) d.

Definition DatabaseFile_open (path : string) (create : bool) : M DatabaseFile unit := λ d,
  if df_isOpen d then (ioError ("File already open: " +:+ df_path d), d)
  else
    let d := mkDatabaseFile (df_fs d) path (df_stream d) (df_size d) in
    let fileExists := bool_decide (is_Some (fs_files (df_fs d) !! path)) in
    if create && negb fileExists then
      let d := stream_create path d in
      if df_isOpen d then (Ok tt, set_dfsize 0 d)
      else (ioError ("Failed to create file: " +:+ path), d)
    else
      let d := stream_open path d in
      if df_isOpen d then (Ok tt, set_dfsize (zlen (df_bytes d)) d)
      else (ioError ("Failed to open file: " +:+ path), d).

Definition DatabaseFile_close : M DatabaseFile unit := λ d,
  if df_isOpen d then
    let d := stream_close d in
    (Ok tt, mkDatabaseFile (df_fs d) EmptyString (df_stream d) 0)
  else (Ok tt, d).

(** The constructor ignores the status of [open]; the destructor closes. *)
Definition DatabaseFile_construct (path : string) (create : bool) (fs : FileSystem) : DatabaseFile :=
  (DatabaseFile_open path create (DatabaseFile_make fs)).2.
Definition DatabaseFile_destroy (d : DatabaseFile) : FileSystem :=
  df_fs (if df_isOpen d then (DatabaseFile_close d).2 else d).

Definition DatabaseFile_flush : M DatabaseFile unit := λ d,
  if negb (df_isOpen d) then (ioError "File not open", d)
  else if s_fail (df_stream d) then (ioError "Failed to flush file", d)
  else (Ok tt, d).
Definition DatabaseFile_sync : M DatabaseFile unit := DatabaseFile_flush.

(** The position is converted to the signed [streamoff]. *)
Definition DatabaseFile_seek (position : Z) : M DatabaseFile unit := λ d,
  if negb (df_isOpen d) then (ioError "File not open", d)
  else
    let s := stream_seekp (sgn 64 position) (stream_seekg (sgn 64 position) (df_stream d)) in
    (if s_fail s then ioError "Failed to seek in file" else Ok tt, set_stream s d).

(** [readBytes(buffer, count)]: the bytes stored at the start of [buffer], fewer
    than [count] when the file ends; the end of the file is not an error. *)
Definition DatabaseFile_readBytes (count : Z) : M DatabaseFile (list Z) := λ d,
  if negb (df_isOpen d) then (ioError "File not open", d)
  else
    let s := df_stream d in
    if stream_good s then
      let got := ztake count (zdrop (s_pos s) (df_bytes d)) in
      let short := zlen got <? count in
      (Ok got, set_stream (mkStream (s_file s) (s_pos s + zlen got) short short) d)
    else
      let d := set_stream (mkStream (s_file s) (s_pos s) true (s_eof s)) d in
      if negb (s_eof s) then (ioError "Failed to read from file", d) else (Ok [], d).

Definition DatabaseFile_writeBytes (bs : list Z) : M DatabaseFile unit := λ d,
  match s_file (df_stream d) with
  | None => (ioError "File not open", d)
  | Some p =>
      let s := df_stream d in
      if stream_good s then
        let pos := s_pos s + zlen bs in
        let d := set_bytes p (file_write (s_pos s) bs (df_bytes d)) d in
        let d := set_stream (mkStream (Some p) pos false false) d in
        (Ok tt, if df_size d <? pos then set_dfsize pos d else d)
      else (ioError "Failed to write to file", set_stream (mkStream (Some p) (s_pos s) true (s_eof s)) d)
  end.

Definition DatabaseFile_resize (newSize : Z) : M DatabaseFile unit := λ d,
  if negb (df_isOpen d) then (ioError "File not open", d)
  else
    let d := stream_close d in
    match fs_files (df_fs d) !! df_path d with
    | Some c =>
        if bool_decide (df_path d ∈ fs_denied (df_fs d))
        then (ioError ("Failed to resize file: " +:+ fs_what (df_fs d)), stream_open (df_path d) d)
        else
          let d := set_dfsize newSize (set_bytes (df_path d) (file_resize newSize c) d) in
          let d := stream_open (df_path d) d in
          if df_isOpen d then (Ok tt, d) else (ioError "Failed to reopen file after resize", d)
    | None => (ioError ("Failed to resize file: " +:+ fs_what (df_fs d)), stream_open (df_path d) d)
    end.

(** ** An open file *)

(** [opened d p c]: the stream is in working order over the file [p], which
    holds [c], and the size the object keeps is the size of the file. *)
Record opened (d : DatabaseFile) (p : string) (c : list Z) : Prop := {
  op_file : s_file (df_stream d) = Some p;
  op_path : df_path d = p;
  op_good : stream_good (df_stream d) = true;
  op_bytes : fs_files (df_fs d) !! p = Some c;
  op_allowed : p ∉ fs_denied (df_fs d);
  op_size : df_size d = zlen c
}.

Lemma opened_bytes d p c : opened d p c → df_bytes d = c ∧ df_isOpen d = true.
Proof.
  intros H. unfold df_bytes, df_isOpen. rewrite (op_file _ _ _ H), (op_bytes _ _ _ H).
  split; [done|]. apply bool_decide_eq_true. eauto.
Qed.

Lemma zlen_file_write pos bs c : 0 <= pos → 0 < zlen bs →
  zlen (file_write pos bs c) = Z.max (zlen c) (pos + zlen bs).
Proof.
  intros Hp Hb. unfold file_write. destruct (Z.eqb_spec (zlen bs) 0); [lia|].
  unfold zlen, ztake, zdrop, zeros in *.
  rewrite !length_app, length_take, length_replicate, length_drop. lia.
Qed.

Lemma file_write_end bs c : file_write (zlen c) bs c = c ++ bs.
Proof.
  unfold file_write. destruct (Z.eqb_spec (zlen bs) 0) as [E|E].
  { destruct bs; [by rewrite app_nil_r|]. unfold zlen in E. cbn in E. lia. }
  rewrite Z.sub_diag. cbn [Z.to_nat zeros replicate app]. unfold ztake, zdrop.
  rewrite take_ge by (unfold zlen; lia). rewrite (drop_ge c) by (unfold zlen; lia).
  by rewrite app_nil_r.
Qed.

Lemma sgn64_small x : 0 <= x < 2 ^ 63 → sgn 64 x = x.
Proof. intros. unfold sgn. rewrite (proj2 (Z.ltb_lt _ _)); [done|]. lia. Qed.

Lemma good_flags s : stream_good s = true → s_fail s = false ∧ s_eof s = false.
Proof. unfold stream_good. destruct (s_fail s), (s_eof s); done. Qed.

Lemma seek_opened d p c pos : opened d p c → 0 <= pos < 2 ^ 63 →
  ∃ d', DatabaseFile_seek pos d = (Ok tt, d') ∧ opened d' p c ∧ s_pos (df_stream d') = pos ∧
    df_fs d' = df_fs d.
Proof.
  intros H Hp. destruct (opened_bytes d p c H) as [_ Ho]. destruct (good_flags _ (op_good _ _ _ H)) as [Hf He].
  unfold DatabaseFile_seek. rewrite Ho, sgn64_small by done. cbn [negb].
  unfold stream_seekp, stream_seekg. rewrite Hf. rewrite (proj2 (Z.ltb_ge pos 0)) by lia. cbn.
  eexists. split; [done|]. split; [|done]. destruct H. by split.
Qed.

(** Reading inside the file is exact and leaves the stream in order. *)
Lemma read_opened d p pre bs post : opened d p (pre ++ bs ++ post) → s_pos (df_stream d) = zlen pre →
  ∃ d', DatabaseFile_readBytes (zlen bs) d = (Ok bs, d') ∧ opened d' p (pre ++ bs ++ post) ∧
    s_pos (df_stream d') = zlen pre + zlen bs ∧ df_fs d' = df_fs d.
Proof.
  intros H Hp. destruct (opened_bytes d p _ H) as [Hb Ho].
  unfold DatabaseFile_readBytes. rewrite Ho, (op_good _ _ _ H), Hb, Hp. cbn [negb].
  assert (Hg : ztake (zlen bs) (zdrop (zlen pre) (pre ++ bs ++ post)) = bs).
  { unfold ztake, zdrop, zlen. rewrite !Nat2Z.id, drop_app_length, take_app_length. done. }
  rewrite Hg, Z.ltb_irrefl. eexists. split; [done|]. split; [|done]. destruct H. by split.
Qed.

(** A read that meets the end of the file reports success and fails the stream. *)
Lemma read_short d p c n : opened d p c → s_pos (df_stream d) + n > zlen c → 0 <= s_pos (df_stream d) → 0 < n →
  ∃ d', DatabaseFile_readBytes n d = (Ok (zdrop (s_pos (df_stream d)) c), d') ∧
    df_isOpen d' = true ∧ s_fail (df_stream d') = true ∧ s_eof (df_stream d') = true ∧
    df_bytes d' = c ∧ df_fs d' = df_fs d ∧ df_size d' = df_size d.
Proof.
  intros H Hn Hp Hn0. destruct (opened_bytes d p _ H) as [Hb Ho].
  unfold DatabaseFile_readBytes. rewrite Ho, (op_good _ _ _ H), Hb. cbn [negb].
  assert (Hg : ztake n (zdrop (s_pos (df_stream d)) c) = zdrop (s_pos (df_stream d)) c).
  { unfold ztake, zdrop, zlen in *. apply take_ge. rewrite length_drop. lia. }
  rewrite Hg.
  assert (Hs : (zlen (zdrop (s_pos (df_stream d)) c) <? n) = true).
  { apply Z.ltb_lt. unfold zdrop, zlen in *. rewrite length_drop. lia. }
  rewrite Hs. eexists. split; [done|]. cbn. rewrite (op_file _ _ _ H).
  repeat split. unfold df_bytes. cbn. by rewrite (op_bytes _ _ _ H).
Qed.

(** Nothing works on a stream that has failed. *)
Lemma failed_stream d : df_isOpen d = true → s_fail (df_stream d) = true →
  (∀ pos, ∃ d', DatabaseFile_seek pos d = (ioError "Failed to seek in file", d') ∧ df_isOpen d' = true ∧
     s_fail (df_stream d') = true ∧ df_bytes d' = df_bytes d) ∧
  DatabaseFile_flush d = (ioError "Failed to flush file", d).
Proof.
  intros Ho Hf. unfold DatabaseFile_seek, DatabaseFile_flush. rewrite Ho, Hf. cbn [negb]. split; [|done].
  intros pos. unfold stream_seekg. rewrite Hf. unfold stream_seekp. cbn [s_fail].
  eexists. split; [done|]. by cbn.
Qed.

Lemma write_opened d p c bs : opened d p c → 0 <= s_pos (df_stream d) <= zlen c →
  ∃ d', DatabaseFile_writeBytes bs d = (Ok tt, d') ∧ opened d' p (file_write (s_pos (df_stream d)) bs c) ∧
    s_pos (df_stream d') = s_pos (df_stream d) + zlen bs.
Proof.
  intros H Hp. destruct (opened_bytes d p _ H) as [Hb Ho]. pose proof (zlen_nonneg bs).
  unfold DatabaseFile_writeBytes. rewrite (op_file _ _ _ H), (op_good _ _ _ H), Hb.
  cbn [df_size set_stream set_bytes].
  assert (Hl : zlen (file_write (s_pos (df_stream d)) bs c) = Z.max (zlen c) (s_pos (df_stream d) + zlen bs)).
  { destruct (decide (zlen bs = 0)) as [E|E]; [|apply zlen_file_write; lia].
    unfold file_write. rewrite E. cbn. lia. }
  rewrite (op_size _ _ _ H). destruct H as [H1 H2 H3 H4 H5 H6].
  destruct (Z.ltb_spec (zlen c) (s_pos (df_stream d) + zlen bs)); eexists; (split; [done|]); split; try done;
    split; cbn; try done; try apply lookup_insert_eq; rewrite ?H6; lia.
Qed.
