(* ===== verification/Instruments.v ===== *)
(** The instrumentation (src/src/instrumentation, include/quartz/instrumentation)
    and the small utilities with state: counters, memory figures, timers, the
    profiler that names them, the logger and the version string.

    Counters are atomic: a call of [increment] is one indivisible step, so a run of
    several threads is some interleaving of their calls.  The steady clock is a
    sequence of readings in nanoseconds.  Formatting a double with [operator<<] and
    formatting the local time are parameters. *)
From stdpp Require Import base strings list gmap pretty sorting.
From Stdlib Require Import ZArith Lia SpecFloat.
From S2P Require Import Prelude Config Doubles.

(** ** Counters *)
Definition Counter_increment (delta value : Z) : Z := u64 (value + delta).
Definition Counter_reset (value : Z) : Z := 0.

(** Any two interleavings of the same increments leave the same value, the sum
    modulo the width. *)
Lemma counter_sum ds v : foldl (flip Counter_increment) (u64 v) ds = u64 (v + foldr Z.add 0 ds).
Proof.
  revert v. induction ds as [|d ds IH]; intros v; cbn [foldl foldr]; [by rewrite Z.add_0_r|].
  change (flip Counter_increment (u64 v) d) with (u64 (u64 v + d)). replace (u64 (u64 v + d)) with (u64 (v + d)).
  - rewrite IH. f_equal. lia.
  - unfold u64, wrap. by rewrite Zplus_mod_idemp_l.
Qed.
Lemma counter_interleaving ds ds' v : ds ≡ₚ ds' →
  foldl (flip Counter_increment) (u64 v) ds = foldl (flip Counter_increment) (u64 v) ds'.
Proof.
  intros Hp. rewrite !counter_sum. f_equal. f_equal.
  induction Hp; cbn; lia.
Qed.

(** ** Memory figures *)
Record MemoryStats : Set := mkMemoryStats {
  ms_heapAllocatedBytes : Z; ms_peakHeapBytes : Z; ms_allocationCount : Z; ms_deallocationCount : Z }.
Definition MemoryStats_default : MemoryStats := mkMemoryStats 0 0 0 0.
Definition MemoryStats_recordAllocation (bytes : Z) (s : MemoryStats) : MemoryStats :=
  let heap := u64 (ms_heapAllocatedBytes s + bytes) in
  mkMemoryStats heap (Z.max (ms_peakHeapBytes s) heap) (u64 (ms_allocationCount s + 1)) (ms_deallocationCount s).
Definition MemoryStats_recordDeallocation (bytes : Z) (s : MemoryStats) : MemoryStats :=
  mkMemoryStats (if bytes <=? ms_heapAllocatedBytes s then ms_heapAllocatedBytes s - bytes else 0)
    (ms_peakHeapBytes s) (ms_allocationCount s) (u64 (ms_deallocationCount s + 1)).
Definition MemoryStats_reset (s : MemoryStats) : MemoryStats := MemoryStats_default.

Inductive MemOp : Set := MemAlloc (bytes : Z) | MemFree (bytes : Z).
Definition mem_step (s : MemoryStats) (op : MemOp) : MemoryStats :=
  match op with
  | MemAlloc bytes => MemoryStats_recordAllocation bytes s
  | MemFree bytes => MemoryStats_recordDeallocation bytes s
  end.
Definition mem_ok (s : MemoryStats) : Prop := 0 <= ms_heapAllocatedBytes s <= ms_peakHeapBytes s ∧ ms_peakHeapBytes s < 2 ^ 64.
(** After any calls the peak bounds the current figure, and both fit their type. *)
Lemma memory_peak_bounds ops : Forall (λ op, match op with MemAlloc b | MemFree b => 0 <= b end) ops →
  mem_ok (foldl mem_step MemoryStats_default ops).
Proof.
  assert (H0 : mem_ok MemoryStats_default) by (split; by vm_compute). revert H0. generalize MemoryStats_default.
  induction ops as [|op ops IH]; intros s Hs Hops; [done|]. apply Forall_cons in Hops as [Hop Hops]. cbn [foldl].
  apply IH; [|done]. destruct Hs as [H1 H2]. destruct op as [b|b]; unfold mem_ok; cbn.
  - pose proof (Z.mod_pos_bound (ms_heapAllocatedBytes s + b) (2 ^ 64) ltac:(done)). unfold u64, wrap. lia.
  - destruct (Z.leb_spec b (ms_heapAllocatedBytes s)); lia.
Qed.

(** ** Timers *)
Record Timer : Set := mkTimer { tm_start : Z; tm_stop : Z; tm_running : bool }.
Definition Timer_make (now : Z) : Timer := mkTimer now now false.
Definition Timer_reset (now : Z) (t : Timer) : Timer := mkTimer now now false.
Definition Timer_start (now : Z) (t : Timer) : Timer := mkTimer now (tm_stop t) true.
Definition Timer_stop (now : Z) (t : Timer) : Timer := mkTimer (tm_start t) now false.
(** The cast to whole microseconds truncates towards zero. *)
Definition elapsed_us (now : Z) (t : Timer) : Z :=
  Z.quot ((if tm_running t then now else tm_stop t) - tm_start t) 1000.
Definition elapsedMicroseconds (now : Z) (t : Timer) : double := d_of_Z (elapsed_us now t).
Definition elapsedMilliseconds (now : Z) (t : Timer) : double := d_div (elapsedMicroseconds now t) (d_of_Z 1000).

(** A stopped timer shows the whole microseconds between its last start and its
    last stop whenever it is read; stopping twice extends the measurement. *)
Lemma timer_measures t a b now : a <= b → elapsed_us now (Timer_stop b (Timer_start a t)) = (b - a) / 1000.
Proof. intros. cbn. apply Z.quot_div_nonneg; lia. Qed.
Lemma timer_stop_again t a b c now : a <= b <= c →
  elapsed_us now (Timer_stop c (Timer_stop b (Timer_start a t))) = (c - a) / 1000.
Proof. intros. cbn. apply Z.quot_div_nonneg; lia. Qed.

(** ** The profiler *)
Record Profiler : Set := mkProfiler { pf_timers : gmap string Timer; pf_counters : gmap string Z }.
Definition Profiler_default : Profiler := mkProfiler ∅ ∅.
(** [operator[]] creates a missing entry; the callers work on the reference, here
    [f]. *)
Definition Profiler_timer (now : Z) (name : string) (f : Timer → Timer) (p : Profiler) : Profiler :=
  mkProfiler (<[name := f (default (Timer_make now) (pf_timers p !! name))]> (pf_timers p)) (pf_counters p).
Definition Profiler_counter (name : string) (f : Z → Z) (p : Profiler) : Profiler :=
  mkProfiler (pf_timers p) (<[name := f (default 0 (pf_counters p !! name))]> (pf_counters p)).
Definition Profiler_reset (p : Profiler) : Profiler := Profiler_default.

Definition Timer_toString (show : double → string) (now : Z) (t : Timer) : string :=
  show (elapsedMilliseconds now t) +:+ " ms".
Definition newline : string := String (Ascii.ascii_of_nat 10) EmptyString.
(** [ord] is the iteration order of the hash maps, [now] the reading of the clock
    when each timer is printed. *)
Definition Profiler_summary (show : double → string) (ord : list string → list string) (now : string → Z) (p : Profiler) : string :=
  let timers := omap (λ n, t ← pf_timers p !! n; Some (n +:+ ": " +:+ Timer_toString show (now n) t +:+ newline))
                  (ord (elements (dom (pf_timers p)))) in
  let counters := omap (λ n, v ← pf_counters p !! n; Some (n +:+ ": " +:+ pretty v +:+ newline))
                    (ord (elements (dom (pf_counters p)))) in
  foldr String.append EmptyString (timers ++ counters).

(** A counter of the profiler and the others do not interfere. *)
Lemma profiler_counter_lookup name name' f p :
  default 0 (pf_counters (Profiler_counter name f p) !! name') =
  (if decide (name = name') then f else id) (default 0 (pf_counters p !! name')).
Proof. cbn. case_decide; subst; by simplify_map_eq. Qed.

(** ** The logger *)
Inductive LogLevel : Set := LevelDebug | LevelInfo | LevelWarning | LevelError.
Definition LogLevel_value (l : LogLevel) : Z :=
  match l with LevelDebug => 0 | LevelInfo => 1 | LevelWarning => 2 | LevelError => 3 end.
(** No level outside the enumeration is ever made. *)
Definition levelToString (l : LogLevel) : string :=
  match l with LevelDebug => "DEBUG" | LevelInfo => "INFO" | LevelWarning => "WARN" | LevelError => "ERROR" end.
(** The stream is the text written to it. *)
Record Logger : Set := mkLogger { lg_level : LogLevel; lg_stream : string }.
Definition Logger_make (stream : string) : Logger := mkLogger LevelInfo stream.
Definition Logger_setLevel (l : LogLevel) (g : Logger) : Logger := mkLogger l (lg_stream g).
Definition Logger_setStream (stream : string) (g : Logger) : Logger := mkLogger (lg_level g) stream.
Definition Logger_log (timestamp : string) (l : LogLevel) (message : string) (g : Logger) : Logger :=
  if LogLevel_value l <? LogLevel_value (lg_level g) then g
  else mkLogger (lg_level g)
         (lg_stream g +:+ "[" +:+ timestamp +:+ "] [" +:+ levelToString l +:+ "] " +:+ message +:+ newline).
Definition Logger_debug (timestamp : string) := Logger_log timestamp LevelDebug.
Definition Logger_info (timestamp : string) := Logger_log timestamp LevelInfo.
Definition Logger_warning (timestamp : string) := Logger_log timestamp LevelWarning.
Definition Logger_error (timestamp : string) := Logger_log timestamp LevelError.

(** Errors are never suppressed. *)
Lemma logger_error_written ts msg g : lg_stream (Logger_error ts msg g) =
  lg_stream g +:+ "[" +:+ ts +:+ "] [ERROR] " +:+ msg +:+ newline.
Proof. unfold Logger_error, Logger_log. by destruct (lg_level g). Qed.

(** ** The version *)
Definition Version_Major : Z := 1.
Definition Version_Minor : Z := 0.
Definition Version_Patch : Z := 0.
Definition Version_string : string :=
  pretty Version_Major +:+ "." +:+ pretty Version_Minor +:+ "." +:+ pretty Version_Patch.
(** [__DATE__], [__TIME__] and [__cplusplus] are the compiler's. *)
Definition Version_buildInfo (date time : string) (cplusplus : Z) : string :=
  "QuartzDB " +:+ Version_string +:+ " " +:+ date +:+ " " +:+ time +:+ " (C++ " +:+ pretty cplusplus +:+ ")".
Example version_text : Version_string = "1.0.0". Proof. reflexivity. Qed.
