(* ===== verification/LoggerThreads.v ===== *)
(** The logger under threads (src/src/common/Logger.cpp): every member function
    holds the mutex from its first statement to its return.

    The steps of a thread are acquiring the mutex, reading and writing the members,
    one insertion into the stream ([operator<<]) at a time, and releasing the
    mutex; threads take turns in any order.  The theorem is that, for all that, the
    calls happen one after the other as Instruments.v describes them: the texts of
    the streams are whole lines, and the calls of each thread keep their order. *)
From stdpp Require Import base strings list gmap.
From Stdlib Require Import ZArith Lia.
From S2P Require Import Prelude Instruments.

(** ** Calls and the shared object *)

(** A stream is named by a number; [level] reads the level and changes nothing. *)
Inductive LogCall : Set :=
| LC_setLevel (l : LogLevel) | LC_level | LC_setStream (s : nat) | LC_log (l : LogLevel) (message : string).

Record SharedLogger : Type := mkShared { sl_level : LogLevel; sl_stream : nat; sl_texts : gmap nat string }.

(** What a call does when no other thread interferes; [ts] is the time it prints. *)
Definition atomic_call (ts : string) (c : LogCall) (g : SharedLogger) : SharedLogger :=
  match c with
  | LC_setLevel l => mkShared (lg_level (Logger_setLevel l (mkLogger (sl_level g) EmptyString))) (sl_stream g) (sl_texts g)
  | LC_level => g
  | LC_setStream s => mkShared (sl_level g) s (sl_texts g)
  | LC_log l message =>
      mkShared (sl_level g) (sl_stream g)
        (alter (λ text, lg_stream (Logger_log ts l message (mkLogger (sl_level g) text))) (sl_stream g) (sl_texts g))
  end.

(** The operands of the insertions of [log], in order. *)
Definition pieces (ts : string) (l : LogLevel) (message : string) : list string :=
  ["["; ts; "] "; "["; levelToString l; "] "; message; newline].
Definition insert_text (s : nat) (piece : string) (g : SharedLogger) : SharedLogger :=
  mkShared (sl_level g) (sl_stream g) (alter (λ text, text +:+ piece) s (sl_texts g)).

(** ** Threads *)

(** Where a thread is: outside, in a call it has just entered, between two
    insertions with the rest of the line to come, or about to return. *)
Inductive Phase : Set :=
| Outside | Entered (c : LogCall) | Writing (ts : string) (l : LogLevel) (message : string) (s : nat) (rest : list string)
| Leaving (ts : string) (c : LogCall).
Record Thread : Set := mkThread { th_phase : Phase; th_calls : list LogCall }.
Record System : Type := mkSystem {
  sy_logger : SharedLogger; sy_mutex : option nat; sy_threads : gmap nat Thread }.
Definition set_thread (i : nat) (th : Thread) (g : SharedLogger) (m : option nat) (w : System) : System :=
  mkSystem g m (<[i := th]> (sy_threads w)).

(** The body of a call, one step at a time: the object and the phase after it.
    [ts] is what the clock shows, should the step read it. *)
Definition body_step (ts : string) (ph : Phase) (g : SharedLogger) : option (SharedLogger * Phase) :=
  match ph with
  | Outside | Leaving _ _ => None
  | Entered (LC_setLevel l) => Some (mkShared l (sl_stream g) (sl_texts g), Leaving ts (LC_setLevel l))
  | Entered LC_level => Some (g, Leaving ts LC_level)
  | Entered (LC_setStream s) => Some (mkShared (sl_level g) s (sl_texts g), Leaving ts (LC_setStream s))
  | Entered (LC_log l message) =>
      if LogLevel_value l <? LogLevel_value (sl_level g) then Some (g, Leaving ts (LC_log l message))
      else Some (g, Writing ts l message (sl_stream g) (pieces ts l message))
  | Writing ts l message s (piece :: rest) => Some (insert_text s piece g, Writing ts l message s rest)
  | Writing ts l message s [] => Some (g, Leaving ts (LC_log l message))
  end.

(** A call that returns is an event: the thread, the time it printed, the call. *)
Definition event : Type := nat * string * LogCall.
Inductive sys_step : System → list event → System → Prop :=
| step_acquire w i c cs : sy_mutex w = None → sy_threads w !! i = Some (mkThread Outside (c :: cs)) →
    sys_step w [] (set_thread i (mkThread (Entered c) cs) (sy_logger w) (Some i) w)
| step_body w i ts ph cs g ph' : sy_threads w !! i = Some (mkThread ph cs) → body_step ts ph (sy_logger w) = Some (g, ph') →
    sys_step w [] (set_thread i (mkThread ph' cs) g (sy_mutex w) w)
| step_release w i ts c cs : sy_threads w !! i = Some (mkThread (Leaving ts c) cs) →
    sys_step w [(i, ts, c)] (set_thread i (mkThread Outside cs) (sy_logger w) None w).
Inductive sys_run : System → list event → System → Prop :=
| run_refl w : sys_run w [] w
| run_step w tr w1 ev w2 : sys_run w tr w1 → sys_step w1 ev w2 → sys_run w (tr ++ ev) w2.

Definition started (w : System) : Prop :=
  sy_mutex w = None ∧ ∀ i th, sy_threads w !! i = Some th → th_phase th = Outside.

(** ** The calls one after the other *)
Definition replayed (tr : list event) (g : SharedLogger) : SharedLogger := foldl (λ g '(_, ts, c), atomic_call ts c g) g tr.
Definition calls_of (i : nat) (tr : list event) : list LogCall := (λ e : event, e.2) <$> filter (λ e : event, e.1.1 = i) tr.
Definition current (ph : Phase) : list LogCall :=
  match ph with
  | Outside => [] | Entered c => [c] | Writing _ l message _ _ => [LC_log l message] | Leaving _ c => [c]
  end.

(** The line so far. *)
Definition written_so_far (s : nat) (done : list string) (g : SharedLogger) : SharedLogger :=
  insert_text s (foldr String.append EmptyString done) g.
(** The object as the holder of the mutex has made it, from [g]. *)
Definition in_progress (ph : Phase) (g g' : SharedLogger) : Prop :=
  match ph with
  | Outside => False
  | Entered _ => g' = g
  | Writing ts l message s rest =>
      s = sl_stream g ∧ (LogLevel_value l <? LogLevel_value (sl_level g)) = false ∧
      ∃ done, done ++ rest = pieces ts l message ∧ g' = written_so_far s done g
  | Leaving ts c => g' = atomic_call ts c g
  end.
Record threads_inv (w0 : System) (tr : list event) (w : System) : Prop := {
  ti_calls i : (λ th, calls_of i tr ++ current (th_phase th) ++ th_calls th) <$> sy_threads w !! i =
    th_calls <$> sy_threads w0 !! i;
  ti_outside i th : sy_threads w !! i = Some th → sy_mutex w ≠ Some i → th_phase th = Outside;
  ti_free : sy_mutex w = None → sy_logger w = replayed tr (sy_logger w0);
  ti_held i : sy_mutex w = Some i → ∃ th, sy_threads w !! i = Some th ∧
    in_progress (th_phase th) (replayed tr (sy_logger w0)) (sy_logger w) }.

(** ** The invariant *)
Lemma append_nil_r (s : string) : s +:+ EmptyString = s.
Proof. induction s as [|c s IH]; [done|]. exact (f_equal (String c) IH). Qed.
Lemma append_assoc (a b c : string) : (a +:+ b) +:+ c = a +:+ (b +:+ c).
Proof. induction a as [|x a IH]; [done|]. exact (f_equal (String x) IH). Qed.
Lemma concat_snoc l p : foldr String.append EmptyString (l ++ [p]) = foldr String.append EmptyString l +:+ p.
Proof.
  induction l as [|x l IH]; cbn [foldr app]; [by rewrite append_nil_r|]. by rewrite IH, append_assoc.
Qed.

Lemma insert_text_twice s p q g : insert_text s q (insert_text s p g) = insert_text s (p +:+ q) g.
Proof.
  unfold insert_text. cbn [sl_level sl_stream sl_texts]. f_equal. apply map_eq. intros k.
  destruct (decide (s = k)) as [<- | Hne]; [|by rewrite !lookup_alter_ne].
  rewrite !lookup_alter_eq. destruct (sl_texts g !! s); [|done]. cbn [fmap option_fmap option_map]. by rewrite append_assoc.
Qed.
Lemma nothing_written s g : written_so_far s [] g = g.
Proof.
  destruct g as [l st texts]. unfold written_so_far, insert_text. cbn. f_equal. apply map_eq. intros k.
  destruct (decide (s = k)) as [<- | Hne]; [|by rewrite lookup_alter_ne].
  rewrite lookup_alter_eq. destruct (texts !! s); [|done]. cbn. by rewrite append_nil_r.
Qed.
Lemma more_written s done p g : insert_text s p (written_so_far s done g) = written_so_far s (done ++ [p]) g.
Proof. unfold written_so_far. by rewrite insert_text_twice, concat_snoc. Qed.
(** The whole line is what the call writes at once. *)
Lemma all_written ts l message g : (LogLevel_value l <? LogLevel_value (sl_level g)) = false →
  written_so_far (sl_stream g) (pieces ts l message) g = atomic_call ts (LC_log l message) g.
Proof.
  intros Hl. unfold written_so_far, insert_text, atomic_call. f_equal. apply alter_ext. intros text _.
  unfold Logger_log. cbn [lg_level]. rewrite Hl. done.
Qed.
Lemma nothing_logged ts l message g : (LogLevel_value l <? LogLevel_value (sl_level g)) = true →
  atomic_call ts (LC_log l message) g = g.
Proof.
  intros Hl. destruct g as [lv s texts]. unfold atomic_call. cbn [sl_level sl_stream sl_texts] in *. f_equal. apply map_eq. intros k.
  destruct (decide (s = k)) as [<- | Hne]; [|by rewrite lookup_alter_ne].
  rewrite lookup_alter_eq. destruct (texts !! s); [|done]. unfold Logger_log. cbn [fmap option_fmap option_map lg_level]. by rewrite Hl.
Qed.

Lemma body_progress ts ph g g' g2 ph' : in_progress ph g g' → body_step ts ph g' = Some (g2, ph') →
  in_progress ph' g g2 ∧ current ph' = current ph.
Proof.
  destruct ph as [|c|ts' l message s [|piece rest]|ts' c]; try done.
  - intros ->. destruct c as [l| |s|l message]; cbn [body_step]; try by intros [= <- <-].
    destruct (_ <? _) eqn:Hl; intros [= <- <-].
    + split; [|done]. cbn [in_progress]. by rewrite nothing_logged.
    + split; [|done]. split_and!; [done..|]. exists []. split; [done|]. by rewrite nothing_written.
  - intros (-> & Hl & done & Hd & ->) [= <- <-]. split; [|done]. cbn [in_progress]. rewrite app_nil_r in Hd. subst done.
    by apply all_written.
  - intros (-> & Hl & done & Hd & ->) [= <- <-]. split; [|done]. split_and!; [done..|]. exists (done ++ [piece]).
    rewrite <-app_assoc. split; [done|]. by rewrite more_written.
Qed.

Lemma calls_of_app i tr tr' : calls_of i (tr ++ tr') = calls_of i tr ++ calls_of i tr'.
Proof. unfold calls_of. by rewrite filter_app, fmap_app. Qed.
Lemma calls_of_one j i ts c : calls_of j [(i, ts, c)] = if decide (i = j) then [c] else [].
Proof. unfold calls_of. rewrite filter_cons, filter_nil. cbn [fst snd]. by case_decide. Qed.
Lemma replayed_app tr tr' g : replayed (tr ++ tr') g = replayed tr' (replayed tr g).
Proof. apply foldl_app. Qed.

Lemma started_inv w0 : started w0 → threads_inv w0 [] w0.
Proof.
  intros [Hm Ho]. split; cbn.
  - intros i. destruct (sy_threads w0 !! i) as [th|] eqn:E; [|done]. cbn. by rewrite (Ho i th E).
  - intros i th E _. by eapply Ho.
  - done.
  - intros i. by rewrite Hm.
Qed.

(** One thread takes a step under the mutex; the others stay where they are. *)
Lemma step_inv w0 tr w ev w' : threads_inv w0 tr w → sys_step w ev w' → threads_inv w0 (tr ++ ev) w'.
Proof.
  intros [Hc Ho Hf Hh] Hst. destruct Hst as [w i c cs Hm E|w i ts ph cs g ph' E Hb|w i ts c cs E].
  - rewrite app_nil_r. split; cbn.
    + intros j. rewrite <-Hc. destruct (decide (i = j)) as [<- | Hne]; [|by rewrite lookup_insert_ne].
      by rewrite lookup_insert_eq, E.
    + intros j th Ej Hj. rewrite lookup_insert_ne in Ej by congruence. apply (Ho j th Ej). congruence.
    + done.
    + intros j [= <-]. rewrite lookup_insert_eq. eexists. split; [done|]. by apply Hf.
  - assert (Hi : sy_mutex w = Some i).
    { destruct (decide (sy_mutex w = Some i)) as [|Hn]; [done|]. specialize (Ho i _ E Hn). cbn in Ho. by subst ph. }
    destruct (Hh i Hi) as (th & E' & Hp). rewrite E in E'. injection E' as <-. cbn [th_phase] in Hp.
    destruct (body_progress ts ph _ _ g ph' Hp Hb) as [Hp' Hcur].
    rewrite app_nil_r. split; cbn; rewrite ?Hi.
    + intros j. rewrite <-Hc. destruct (decide (i = j)) as [<- | Hne]; [|by rewrite lookup_insert_ne].
      rewrite lookup_insert_eq, E. cbn. by rewrite Hcur.
    + intros j th Ej Hj. rewrite lookup_insert_ne in Ej by congruence. apply (Ho j th Ej). congruence.
    + done.
    + intros j [= <-]. rewrite lookup_insert_eq. by eexists.
  - assert (Hi : sy_mutex w = Some i).
    { destruct (decide (sy_mutex w = Some i)) as [|Hn]; [done|]. by specialize (Ho i _ E Hn). }
    destruct (Hh i Hi) as (th & E' & Hp). rewrite E in E'. injection E' as <-. cbn [th_phase in_progress] in Hp.
    split; cbn.
    + intros j. rewrite <-Hc. pose proof (calls_of_app j tr [(i, ts, c)]) as Ha. rewrite calls_of_one in Ha.
      destruct (decide (i = j)) as [<- | Hne].
      * rewrite lookup_insert_eq, E. cbn [fmap option_fmap option_map th_phase th_calls current app]. by rewrite Ha, <-app_assoc.
      * rewrite lookup_insert_ne by done. rewrite app_nil_r in Ha. by rewrite Ha.
    + intros j th Ej _. destruct (decide (i = j)) as [<- | Hne]; [rewrite lookup_insert_eq in Ej; by injection Ej as <-|].
      rewrite lookup_insert_ne in Ej by done. apply (Ho j th Ej). congruence.
    + intros _. by rewrite replayed_app.
    + done.
Qed.
Lemma run_inv w0 tr w : started w0 → sys_run w0 tr w → threads_inv w0 tr w.
Proof. intros H0. induction 1 as [w|w tr w1 ev w2 _ IH Hst]; [by apply started_inv|]. eapply step_inv; eauto. Qed.

(** The texts while a call is under way. *)
Lemma progress_texts ph g g' : in_progress ph g g' → ∀ s, ∃ part,
  sl_texts g' !! s = (λ text, text +:+ part) <$> sl_texts g !! s ∧ (s = sl_stream g ∨ part = EmptyString).
Proof.
  assert (Hid : ∀ s, sl_texts g !! s = (λ text, text +:+ EmptyString) <$> sl_texts g !! s).
  { intros s. destruct (sl_texts g !! s); [|done]. cbn. by rewrite append_nil_r. }
  assert (Hline : ∀ d, ∀ s, ∃ part, sl_texts (written_so_far (sl_stream g) d g) !! s = (λ text, text +:+ part) <$> sl_texts g !! s ∧
    (s = sl_stream g ∨ part = EmptyString)).
  { intros d s. unfold written_so_far, insert_text. cbn [sl_texts]. destruct (decide (s = sl_stream g)) as [-> | Hne].
    - exists (foldr String.append EmptyString d). rewrite lookup_alter_eq. split; [done|by left].
    - exists EmptyString. rewrite lookup_alter_ne by done. split; [done|by right]. }
  destruct ph as [|c|ts l message s rest|ts c]; try done.
  - intros -> s. exists EmptyString. split; [done|by right].
  - intros (-> & _ & done & _ & ->). apply Hline.
  - intros ->. destruct c as [l| |s|l message]; try (intros s'; exists EmptyString; split; [apply Hid|by right]).
    destruct (LogLevel_value l <? LogLevel_value (sl_level g)) eqn:Hl.
    + rewrite nothing_logged by done. intros s. exists EmptyString. split; [done|by right].
    + rewrite <-all_written by done. apply Hline.
Qed.

(** C24: The mutex makes the logger's calls atomic.  Threads that log, set the level
    and set the stream are run one step at a time, in any order.  Whenever the
    mutex is free the logger is what the calls that have returned make of it, one
    after the other, in an order that keeps every thread's own; while a thread
    holds it, the texts differ from that by part of one line at the end of the
    current stream and nothing else.  And as long as a thread has a call to make
    or to finish, some thread can take a step. *)
Theorem logger_calls_atomic w0 tr w : started w0 → sys_run w0 tr w →
  (∀ i, (λ th, calls_of i tr ++ current (th_phase th) ++ th_calls th) <$> sy_threads w !! i = th_calls <$> sy_threads w0 !! i) ∧
  (sy_mutex w = None → sy_logger w = replayed tr (sy_logger w0)) ∧
  (∀ s, ∃ part, sl_texts (sy_logger w) !! s = (λ text, text +:+ part) <$> sl_texts (replayed tr (sy_logger w0)) !! s ∧
     (s = sl_stream (replayed tr (sy_logger w0)) ∨ part = EmptyString)) ∧
  ((∃ i th, sy_threads w !! i = Some th ∧ current (th_phase th) ++ th_calls th ≠ []) → ∃ ev w', sys_step w ev w').
Proof.
  intros H0 Hrun. destruct (run_inv w0 tr w H0 Hrun) as [Hc Ho Hf Hh]. split_and!; [done..| |].
  - destruct (sy_mutex w) as [i|] eqn:Hm.
    + destruct (Hh i eq_refl) as (th & _ & Hp). exact (progress_texts _ _ _ Hp).
    + intros s. exists EmptyString. rewrite Hf by done. split; [|by right].
      destruct (sl_texts _ !! s); [|done]. cbn. by rewrite append_nil_r.
  - intros (i & th & E & Hne). destruct (sy_mutex w) as [j|] eqn:Hm.
    + destruct (Hh j eq_refl) as ([ph cs] & Ej & Hp). cbn [th_phase] in Hp.
      destruct ph as [|c|ts l message s rest|ts c]; [done| | |by eexists _, _; eapply step_release].
      * assert (∃ x, body_step EmptyString (Entered c) (sy_logger w) = Some x) as ([g ph'] & Eb).
        { destruct c; cbn; try case_match; eauto. }
        eexists _, _. by eapply step_body.
      * assert (∃ x, body_step EmptyString (Writing ts l message s rest) (sy_logger w) = Some x) as ([g ph'] & Eb).
        { destruct rest; cbn; eauto. }
        eexists _, _. by eapply step_body.
    + destruct th as [ph cs]. specialize (Ho i _ E ltac:(done)). cbn in Ho, Hne. subst ph. destruct cs as [|c cs]; [done|].
      eexists _, _. by eapply step_acquire.
Qed.

(** Witness: a thread has written the first character of its line, with another
    waiting to raise the level; the run can go on. *)
Definition demo_system : System :=
  mkSystem (mkShared LevelInfo 0 {[0%nat := EmptyString]}) None
    {[0%nat := mkThread Outside [LC_log LevelInfo "ready"]; 1%nat := mkThread Outside [LC_setLevel LevelError]]}.
Definition demo_at (ph : Phase) (text : string) : System :=
  set_thread 0 (mkThread ph []) (mkShared LevelInfo 0 {[0%nat := text]}) (Some 0%nat) demo_system.
Definition demo_line (rest : list string) : Phase := Writing "12:00" LevelInfo "ready" 0 rest.
Lemma demo_body ph ph' text text' : sys_run demo_system [] (demo_at ph text) →
  body_step "12:00" ph (mkShared LevelInfo 0 {[0%nat := text]}) = Some (mkShared LevelInfo 0 {[0%nat := text']}, ph') →
  sys_run demo_system [] (demo_at ph' text').
Proof.
  intros Hr Hb. apply (run_step _ [] (demo_at ph text) []); [done|].
  exact (step_body (demo_at ph text) 0 "12:00" ph [] _ _ eq_refl Hb).
Qed.
Definition demo_later : System := demo_at (demo_line (tail (pieces "12:00" LevelInfo "ready"))) "[".
Lemma demo_run : sys_run demo_system [] demo_later.
Proof.
  eapply (demo_body (demo_line (pieces "12:00" LevelInfo "ready")) _ EmptyString); [|reflexivity].
  eapply (demo_body (Entered (LC_log LevelInfo "ready")) _ EmptyString); [|reflexivity].
  apply (run_step _ [] demo_system []); [apply run_refl|].
  exact (step_acquire demo_system 0 (LC_log LevelInfo "ready") [] eq_refl eq_refl).
Qed.
Lemma logger_calls_atomic_witness : ∃ w, sys_run demo_system [] w ∧ sl_texts (sy_logger w) !! 0%nat = Some "["%string ∧
  ∃ ev w', sys_step w ev w'.
Proof.
  eexists. split; [exact demo_run|]. split; [reflexivity|].
  eapply (logger_calls_atomic demo_system []); [|exact demo_run|].
  - split; [reflexivity|]. intros i th. unfold demo_system. cbn [sy_threads].
    rewrite lookup_insert_Some, lookup_singleton_Some. by intros [[_ <-]|[_ [_ <-]]].
  - exists 1%nat, (mkThread Outside [LC_setLevel LevelError]). split; [reflexivity|discriminate].
Defined.
