(* ===== verification/Pages.v ===== *)
(** Pages (src/src/storage/Page.cpp, storage/PageHeader.h, src/src/pages,
    pages/PageLayouts.h, pages/PageTypes.h) and the page operations of the
    database file (DatabaseFile::readPage and writePage).

    A page has a header member and a buffer of 4096 bytes whose first 64 bytes are
    a second copy of the header; the code keeps the two in step only where it says
    so.  The layouts are packed structures over the payload, so a field is its
    offset and width; the class of a [BasePage] is a constructor of [PageClass].
    A page type is its byte, because a header that was read keeps any byte.
    Objects that were moved from ([data_ == nullptr]) are in Ownership.v. *)
From stdpp Require Import base strings list gmap sets pretty.
From Stdlib Require Import ZArith Lia SpecFloat.
From S2P Require Import Prelude Config Formats Doubles Buffers DbFile Instruments.

(** ** PageHeader *)
Definition kMagicNumber : Z := 0x51444231.
Definition kFileFormatVersion : Z := 1.

(** [ph_reserved2] is the bytes of the seven reserved words. *)
Record PageHeader : Set := mkPageHeader {
  ph_magic : Z; ph_version : Z; ph_pageId : Z; ph_pageType : Z; ph_flags : Z;
  ph_payloadSize : Z; ph_reserved1 : Z; ph_timestamp : Z; ph_checksum : Z;
  ph_generation : Z; ph_reserved2 : list Z; ph_reservedPad : Z }.

Definition PageHeader_make (id type : Z) : PageHeader :=
  mkPageHeader kMagicNumber kFileFormatVersion id type 0 (u16 kPagePayloadSize) 0 0 0 0 (zeros 28) 0.
Definition PageHeader_isValid (h : PageHeader) : bool :=
  (ph_magic h =? kMagicNumber) && negb (ph_pageType h =? PageType_value PT_Invalid).

(** The packed image of the structure, and the structure over 64 bytes. *)
Definition PageHeader_bytes (h : PageHeader) : list Z :=
  le_bytes 4 (ph_magic h) ++ le_bytes 4 (ph_version h) ++ le_bytes 4 (ph_pageId h) ++
  le_bytes 1 (ph_pageType h) ++ le_bytes 1 (ph_flags h) ++ le_bytes 2 (ph_payloadSize h) ++
  le_bytes 2 (ph_reserved1 h) ++ le_bytes 4 (ph_timestamp h) ++ le_bytes 4 (ph_checksum h) ++
  le_bytes 8 (ph_generation h) ++ ph_reserved2 h ++ le_bytes 2 (ph_reservedPad h).
(** A field of [n] bytes at [off] of an image. *)
Definition field (off n : nat) (bs : list Z) : Z := le_value (take n (drop off bs)).
Definition PageHeader_of (bs : list Z) : PageHeader :=
  mkPageHeader (field 0 4 bs) (field 4 4 bs) (field 8 4 bs) (field 12 1 bs) (field 13 1 bs)
    (field 14 2 bs) (field 16 2 bs) (field 18 4 bs) (field 22 4 bs) (field 26 8 bs)
    (take 28 (drop 34 bs)) (field 62 2 bs).

(** ** Page *)
Record Page : Set := mkPage {
  pg_header : PageHeader; pg_data : list Z; pg_dirty : bool; pg_pinCount : Z }.

Definition page_buffer (h : PageHeader) : list Z :=
  splice 0 (PageHeader_bytes h) (zeros (Z.to_nat kPageSize)).
Definition Page_make (id type : Z) : Page :=
  let h := PageHeader_make id type in mkPage h (page_buffer h) false 0.
Definition Page_default : Page := Page_make kInvalidPageId (PageType_value PT_Invalid).
Definition Page_reset (id type : Z) (p : Page) : Page :=
  let h := PageHeader_make id type in mkPage h (page_buffer h) false 0.
Definition Page_zeroFill (p : Page) : Page :=
  mkPage (pg_header p) (zeros (Z.to_nat kPageSize)) (pg_dirty p) (pg_pinCount p).

Definition Page_id (p : Page) : Z := ph_pageId (pg_header p).
Definition Page_type (p : Page) : Z := ph_pageType (pg_header p).
Definition Page_payload (p : Page) : list Z := zdrop kPageHeaderSize (pg_data p).
Definition Page_isValid (p : Page) : bool := PageHeader_isValid (pg_header p).
Definition set_header (f : PageHeader → PageHeader) (p : Page) : Page :=
  mkPage (f (pg_header p)) (pg_data p) (pg_dirty p) (pg_pinCount p).
Definition set_pgdata (d : list Z) (p : Page) : Page :=
  mkPage (pg_header p) d (pg_dirty p) (pg_pinCount p).
Definition Page_setGeneration (gen : Z) : Page → Page := set_header (λ h,
  mkPageHeader (ph_magic h) (ph_version h) (ph_pageId h) (ph_pageType h) (ph_flags h) (ph_payloadSize h)
    (ph_reserved1 h) (ph_timestamp h) (ph_checksum h) gen (ph_reserved2 h) (ph_reservedPad h)).
Definition Page_setPayloadSize (size : Z) : Page → Page := set_header (λ h,
  mkPageHeader (ph_magic h) (ph_version h) (ph_pageId h) (ph_pageType h) (ph_flags h) size
    (ph_reserved1 h) (ph_timestamp h) (ph_checksum h) (ph_generation h) (ph_reserved2 h) (ph_reservedPad h)).
Definition Page_setDirty (d : bool) (p : Page) : Page :=
  mkPage (pg_header p) (pg_data p) d (pg_pinCount p).
Definition Page_unpin (p : Page) : Page :=
  mkPage (pg_header p) (pg_data p) (pg_dirty p)
    (if 0 <? pg_pinCount p then pg_pinCount p - 1 else pg_pinCount p).
(** The counter is an [int]. *)
Definition Page_pin (p : Page) : outcome Page :=
  if pg_pinCount p =? 2 ^ 31 - 1 then UB
  else Ok (mkPage (pg_header p) (pg_data p) (pg_dirty p) (pg_pinCount p + 1)).

(** Fields of the payload; an access outside the buffer is undefined. *)
Definition payload_get (off n : nat) (p : Page) : Z := field (64 + off) n (pg_data p).
Definition payload_put (off : nat) (bs : list Z) (p : Page) : Page :=
  set_pgdata (splice (64 + off) bs (pg_data p)) p.
Definition payload_set (off n : nat) (v : Z) : Page → Page := payload_put off (le_bytes n v).

(** ** PageTypes *)
Inductive PageLayoutType : Set :=
  PL_Invalid | PL_Header | PL_Metadata | PL_FreeList | PL_Data | PL_Index | PL_Overflow.
Definition PageLayoutType_value (t : PageLayoutType) : Z :=
  match t with
  | PL_Invalid => 0 | PL_Header => 1 | PL_Metadata => 2 | PL_FreeList => 3 | PL_Data => 4
  | PL_Index => 5 | PL_Overflow => 6
  end.
#[global] Instance PageLayoutType_eq_dec : EqDecision PageLayoutType.
Proof. solve_decision. Defined.
Definition isValidLayoutType (t : PageLayoutType) : bool :=
  (PageLayoutType_value PL_Header <=? PageLayoutType_value t) &&
  (PageLayoutType_value t <=? PageLayoutType_value PL_Overflow).

Definition toPageLayoutType (type : Z) : PageLayoutType :=
  if type =? PageType_value PT_Header then PL_Header
  else if type =? PageType_value PT_Metadata then PL_Metadata
  else if type =? PageType_value PT_FreeList then PL_FreeList
  else if type =? PageType_value PT_Data then PL_Data
  else if type =? PageType_value PT_Index then PL_Index
  else if type =? PageType_value PT_Overflow then PL_Overflow
  else PL_Invalid.
Definition toStoragePageType (t : PageLayoutType) : Z :=
  PageType_value
    match t with
    | PL_Header => PT_Header | PL_Metadata => PT_Metadata | PL_FreeList => PT_FreeList
    | PL_Data => PT_Data | PL_Index => PT_Index | PL_Overflow => PT_Overflow
    | PL_Invalid => PT_Invalid
    end.

(** ** BasePage and its classes *)
Inductive PageClass : Set :=
  C_HeaderPage | C_MetadataPage | C_FreeListPage | C_DataPage | C_IndexPage | C_OverflowPage.
Record BasePage : Set := mkBasePage { bp_class : PageClass; bp_page : Page }.
Definition on_page (f : Page → Page) (b : BasePage) : BasePage := mkBasePage (bp_class b) (f (bp_page b)).

Definition layoutType (b : BasePage) : PageLayoutType := toPageLayoutType (Page_type (bp_page b)).
Definition BasePage_id (b : BasePage) : Z := Page_id (bp_page b).
Definition BasePage_isValid (b : BasePage) : bool := Page_isValid (bp_page b).

Definition BasePage_serialize (b : BasePage) : M BinaryWriter unit :=
  BinaryWriter_writeBytes (pg_data (bp_page b)).
(** A short read stores nothing; a full one replaces the buffer and then the
    header member. *)
Definition BasePage_deserialize (b : BasePage) : M BinaryReader BasePage :=
  bs ← BinaryReader_readBytes kPageSize;
  mret (mkBasePage (bp_class b) (mkPage (PageHeader_of (take 64 bs)) bs
    (pg_dirty (bp_page b)) (pg_pinCount (bp_page b)))).
Definition base_reset (newId : Z) (p : Page) : Page :=
  Page_reset newId (PageLayoutType_value (toPageLayoutType (Page_type p))) p.
Definition BasePage_reset (newId : Z) : BasePage → BasePage := on_page (base_reset newId).
Definition BasePage_clear : BasePage → BasePage := on_page Page_zeroFill.

(** The default constructors. *)
Definition HeaderPage_make : BasePage := mkBasePage C_HeaderPage (Page_make kHeaderPageId (PageType_value PT_Header)).
Definition MetadataPage_make : BasePage := mkBasePage C_MetadataPage (Page_make 0 (PageType_value PT_Metadata)).
Definition FreeListPage_make : BasePage := mkBasePage C_FreeListPage (Page_make 0 (PageType_value PT_FreeList)).
Definition DataPage_make : BasePage := mkBasePage C_DataPage (Page_make 0 (PageType_value PT_Data)).
Definition IndexPage_make : BasePage := mkBasePage C_IndexPage (Page_make 0 (PageType_value PT_Index)).
Definition OverflowPage_make : BasePage := mkBasePage C_OverflowPage (Page_make 0 (PageType_value PT_Overflow)).
Definition class_default (c : PageClass) : BasePage :=
  match c with
  | C_HeaderPage => HeaderPage_make | C_MetadataPage => MetadataPage_make | C_FreeListPage => FreeListPage_make
  | C_DataPage => DataPage_make | C_IndexPage => IndexPage_make | C_OverflowPage => OverflowPage_make
  end.
(** The page type each class constructs itself with. *)
Definition class_type (c : PageClass) : Z := Page_type (bp_page (class_default c)).

(** [clone]: a new page of the class's type over a copy of the buffer. *)
Definition clone_as (type : Z) (p : Page) : Page := set_pgdata (pg_data p) (Page_make (Page_id p) type).
Definition HeaderPage_clone : Page → Page := clone_as (PageType_value PT_Header).
Definition MetadataPage_clone : Page → Page := clone_as (PageType_value PT_Metadata).
Definition FreeListPage_clone : Page → Page := clone_as (PageType_value PT_FreeList).
Definition DataPage_clone : Page → Page := clone_as (PageType_value PT_Data).
Definition IndexPage_clone : Page → Page := clone_as (PageType_value PT_Index).
Definition OverflowPage_clone : Page → Page := clone_as (PageType_value PT_Overflow).
Definition BasePage_clone (b : BasePage) : BasePage :=
  on_page match bp_class b with
    | C_HeaderPage => HeaderPage_clone | C_MetadataPage => MetadataPage_clone | C_FreeListPage => FreeListPage_clone
    | C_DataPage => DataPage_clone | C_IndexPage => IndexPage_clone | C_OverflowPage => OverflowPage_clone
    end b.

(** [*mutableLayout() = Layout{}]. *)
Definition clear_layout : Page → Page := payload_put 0 (zeros (Z.to_nat kPagePayloadSize)).

(** ** HeaderPage *)
Definition DatabaseHeader_bytes (h : DatabaseHeader) : list Z :=
  le_bytes 4 (dh_magic h) ++ le_bytes 4 (dh_majorVersion h) ++ le_bytes 4 (dh_minorVersion h) ++
  le_bytes 4 (dh_pageSize h) ++ oid_bytes (dh_databaseId h) ++ le_bytes 8 (dh_creationTimestamp h) ++
  le_bytes 8 (dh_modificationTimestamp h) ++ le_bytes 8 (dh_featureFlags h) ++
  le_bytes 4 (dh_superblockPageId h) ++ le_bytes 4 (dh_headerChecksum h) ++
  concat (le_bytes 8 <$> dh_reserved h).
Definition DatabaseHeader_of (bs : list Z) : DatabaseHeader :=
  mkDatabaseHeader (field 0 4 bs) (field 4 4 bs) (field 8 4 bs) (field 12 4 bs)
    (mkObjectId (take 16 (drop 16 bs))) (field 32 8 bs) (field 40 8 bs) (field 48 8 bs)
    (field 56 4 bs) (field 60 4 bs) ((λ i, field (64 + 8 * i) 8 bs) <$> seq 0 8).

Definition HeaderPage_databaseHeader (p : Page) : DatabaseHeader := DatabaseHeader_of (drop 64 (pg_data p)).
Definition HeaderPage_superblockPageId : Page → Z := payload_get 128 4.
Definition HeaderPage_setSuperblockPageId (id : Z) : Page → Page := payload_set 128 4 id.
Definition HeaderPage_flags : Page → Z := payload_get 132 8.
Definition HeaderPage_setFlags (f : Z) : Page → Page := payload_set 132 8 f.
Definition HeaderPage_formatVersion : Page → Z := payload_get 140 4.
Definition HeaderPage_setFormatVersion (v : Z) : Page → Page := payload_set 140 4 v.
Definition HeaderPage_initFromFormat (h : DatabaseHeader) (p : Page) : Page :=
  let p := payload_put 0 (DatabaseHeader_bytes h) p in
  let p := HeaderPage_setSuperblockPageId 1 p in
  let p := HeaderPage_setFlags 0 p in
  HeaderPage_setFormatVersion (encodeVersion kMajorVersion kMinorVersion) p.
Definition HeaderPageLayout_isValid (p : Page) : bool :=
  DatabaseHeader_isValid (HeaderPage_databaseHeader p) && (0 <? HeaderPage_formatVersion p).
Definition HeaderPage_validate (p : Page) : outcome unit :=
  if negb (HeaderPageLayout_isValid p) then corruption "HeaderPage: invalid layout" else Ok tt.
Definition HeaderPage_create (majorVersion minorVersion featureFlags : Z) : BasePage :=
  let p := bp_page (class_default C_HeaderPage) in
  let p := payload_set 0 4 kDatabaseMagic p in
  let p := payload_set 4 4 majorVersion p in
  let p := payload_set 8 4 minorVersion p in
  let p := payload_set 12 4 (u32 kPageSize) p in
  let p := HeaderPage_setSuperblockPageId 1 p in
  let p := HeaderPage_setFlags featureFlags p in
  mkBasePage C_HeaderPage (HeaderPage_setFormatVersion (encodeVersion majorVersion minorVersion) p).

(** ** FreeListPage: [freePages] has 1000 elements whatever [capacity] says *)
Definition kFreeListSlots : Z := 1000.
Definition FreeListPage_freeCount : Page → Z := payload_get 0 4.
Definition FreeListPage_capacity : Page → Z := payload_get 4 4.
Definition FreeListPage_isFull (p : Page) : bool := FreeListPage_capacity p <=? FreeListPage_freeCount p.
Definition FreeListPage_isEmpty (p : Page) : bool := FreeListPage_freeCount p =? 0.
Definition slot_offset (index : Z) : nat := (32 + 4 * Z.to_nat index)%nat.
Definition FreeListPage_freePage (index : Z) (p : Page) : outcome Z :=
  if FreeListPage_freeCount p <=? index then Ok kInvalidPageId
  else if kFreeListSlots <=? index then UB
  else Ok (payload_get (slot_offset index) 4 p).
Definition FreeListPage_setFreePage (index pageId : Z) : M Page unit := λ p,
  if FreeListPage_capacity p <=? index
  then (invalidArgument "FreeListPage: index out of range", p)
  else if kFreeListSlots <=? index then (UB, p)
  else (Ok tt, payload_set (slot_offset index) 4 pageId p).
Definition FreeListPage_addFreePage (pageId : Z) : M Page unit := λ p,
  let count := FreeListPage_freeCount p in
  if FreeListPage_capacity p <=? count
  then (invalidArgument "FreeListPage: free list is full", p)
  else if kFreeListSlots <=? count then (UB, p)
  else (Ok tt, payload_set 0 4 (u32 (count + 1)) (payload_set (slot_offset count) 4 pageId p)).
Definition FreeListPage_clearFreePages : Page → Page := payload_set 0 4 0.
Definition FreeListPageLayout_isValid (p : Page) : bool :=
  (0 <? FreeListPage_capacity p) && (FreeListPage_freeCount p <=? FreeListPage_capacity p).
Definition FreeListPage_validate (p : Page) : outcome unit :=
  if negb (FreeListPageLayout_isValid p) then corruption "FreeListPage: invalid layout" else Ok tt.

(** ** DataPage *)
Definition kDataSize : Z := 4008.
Definition DataPage_freeSpaceOffset : Page → Z := payload_get 0 2.
Definition DataPage_setFreeSpaceOffset (offset : Z) : Page → Page := payload_set 0 2 offset.
Definition DataPage_slotCount : Page → Z := payload_get 2 2.
Definition DataPage_setSlotCount (count : Z) : Page → Page := payload_set 2 2 count.
Definition DataPage_availableSpace (p : Page) : Z := u64 (kDataSize - DataPage_freeSpaceOffset p).
Definition DataPage_validate (p : Page) : outcome unit :=
  if negb (DataPage_freeSpaceOffset p <=? kDataSize) then corruption "DataPage: invalid layout" else Ok tt.

(** ** MetadataPage *)
Definition MetadataPage_entryCount : Page → Z := payload_get 0 4.
Definition MetadataPage_setEntryCount (count : Z) : Page → Page := payload_set 0 4 count.
Definition MetadataPage_version : Page → Z := payload_get 4 4.
Definition MetadataPage_setVersion (v : Z) : Page → Page := payload_set 4 4 v.
Definition MetadataPage_validate (p : Page) : outcome unit :=
  if negb (0 <? MetadataPage_version p) then corruption "MetadataPage: invalid layout" else Ok tt.

(** ** OverflowPage *)
Definition OverflowPage_nextPageId : Page → Z := payload_get 0 4.
Definition OverflowPage_setNextPageId (id : Z) : Page → Page := payload_set 0 4 id.
Definition OverflowPage_hasNextPage (p : Page) : bool := negb (OverflowPage_nextPageId p =? kInvalidPageId).
Definition OverflowPage_payloadSize : Page → Z := payload_get 4 4.
Definition OverflowPage_setPayloadSize (size : Z) : Page → Page := payload_set 4 4 size.
Definition OverflowPage_remainingCapacity (p : Page) : Z := u64 (kDataSize - OverflowPage_payloadSize p).
Definition OverflowPage_validate (p : Page) : outcome unit :=
  if negb (OverflowPage_payloadSize p <=? kDataSize) then corruption "OverflowPage: invalid layout" else Ok tt.

(** ** IndexPage, over its bytes *)
Definition IndexBytes_nodeType : Page → Z := payload_get 0 4.
Definition IndexBytes_setNodeType (type : Z) : Page → Page := payload_set 0 4 type.
Definition IndexBytes_keyCount : Page → Z := payload_get 4 4.
Definition IndexBytes_setKeyCount (count : Z) : Page → Page := payload_set 4 4 count.
Definition IndexBytes_capacity : Page → Z := payload_get 8 4.
Definition IndexBytes_setCapacity (cap : Z) : Page → Page := payload_set 8 4 cap.
Definition IndexBytes_flags : Page → Z := payload_get 12 4.
Definition IndexBytes_setFlags (f : Z) : Page → Page := payload_set 12 4 f.
Definition IndexBytes_validate (p : Page) : outcome unit :=
  if negb ((0 <? IndexBytes_capacity p) && (IndexBytes_keyCount p <=? IndexBytes_capacity p))
  then corruption "IndexPage: invalid layout" else Ok tt.

(** ** The virtual functions *)
Definition page_validate (b : BasePage) : outcome unit :=
  match bp_class b with
  | C_HeaderPage => HeaderPage_validate (bp_page b)
  | C_MetadataPage => MetadataPage_validate (bp_page b)
  | C_FreeListPage => FreeListPage_validate (bp_page b)
  | C_DataPage => DataPage_validate (bp_page b)
  | C_IndexPage => IndexBytes_validate (bp_page b)
  | C_OverflowPage => OverflowPage_validate (bp_page b)
  end.
Definition HeaderPage_reset (newId : Z) (p : Page) : Page := clear_layout (base_reset newId p).
Definition MetadataPage_reset (newId : Z) (p : Page) : Page := clear_layout (base_reset newId p).
Definition FreeListPage_reset (newId : Z) (p : Page) : Page :=
  payload_set 4 4 1000 (clear_layout (base_reset newId p)).
Definition DataPage_reset (newId : Z) (p : Page) : Page := clear_layout (base_reset newId p).
Definition IndexBytes_reset (newId : Z) (p : Page) : Page := clear_layout (base_reset newId p).
Definition OverflowPage_reset (newId : Z) (p : Page) : Page :=
  OverflowPage_setNextPageId kInvalidPageId (clear_layout (base_reset newId p)).
Definition page_reset (newId : Z) (b : BasePage) : BasePage :=
  on_page match bp_class b with
    | C_HeaderPage => HeaderPage_reset newId | C_MetadataPage => MetadataPage_reset newId
    | C_FreeListPage => FreeListPage_reset newId | C_DataPage => DataPage_reset newId
    | C_IndexPage => IndexBytes_reset newId | C_OverflowPage => OverflowPage_reset newId
    end b.

(** [create(pageId)] of the five classes that have it. *)
Definition MetadataPage_create (pageId : Z) : BasePage := page_reset pageId MetadataPage_make.
Definition FreeListPage_create (pageId : Z) : BasePage := page_reset pageId FreeListPage_make.
Definition DataPage_create (pageId : Z) : BasePage := page_reset pageId DataPage_make.
Definition IndexBytes_create (pageId : Z) : BasePage := page_reset pageId IndexPage_make.
Definition OverflowPage_create (pageId : Z) : BasePage := page_reset pageId OverflowPage_make.
Definition page_create (c : PageClass) (pageId : Z) : BasePage := page_reset pageId (class_default c).

(** ** PageFactory *)
Definition layout_class (t : PageLayoutType) : option PageClass :=
  match t with
  | PL_Header => Some C_HeaderPage
  | PL_FreeList => Some C_FreeListPage
  | PL_Data => Some C_DataPage
  | PL_Index => Some C_IndexPage
  | PL_Overflow => Some C_OverflowPage
  | PL_Metadata => Some C_MetadataPage
  | PL_Invalid => None
  end.
Definition PageFactory_createPage (page : Page) : option BasePage :=
  c ← layout_class (toPageLayoutType (Page_type page)); Some (mkBasePage c page).
Definition PageFactory_createTyped (type : PageLayoutType) (id : Z) : option BasePage :=
  c ← layout_class type; Some (mkBasePage c (Page_make id (class_type c))).
(** A failed read gives no page; the reader has moved if the read succeeded. *)
Definition PageFactory_deserialize (type : PageLayoutType) : M BinaryReader (option BasePage) := λ r,
  match PageFactory_createTyped type kInvalidPageId with
  | None => (Ok None, r)
  | Some b =>
      match BasePage_deserialize b r with
      | (Ok b, r) => (Ok (Some b), r)
      | (Err _, r) => (Ok None, r)
      | (Throw w, r) => (Throw w, r)
      | (UB, r) => (UB, r)
      | (Fuel, r) => (Fuel, r)
      end
  end.
Definition isSupportedType (t : PageLayoutType) : bool :=
  (PageLayoutType_value PL_Header <=? PageLayoutType_value t) &&
  (PageLayoutType_value t <=? PageLayoutType_value PL_Overflow).

(** ** PageValidator *)
Definition validateLayoutType (t : PageLayoutType) : outcome unit :=
  if negb (isValidLayoutType t)
  then invalidArgument "PageValidator: unsupported page layout type" else Ok tt.
Definition validatePage (b : BasePage) : outcome unit :=
  validateLayoutType (layoutType b);;
  if negb (BasePage_isValid b) then corruption "Page: invalid page header" else page_validate b.

(** The loop over an array of [k] reserved words at [off]. *)
Definition reserved_zero (off k : nat) (p : Page) : bool :=
  forallb (λ i, payload_get (off + 8 * i) 8 p =? 0) (seq 0 k).
Definition reserved_HeaderPage (p : Page) : outcome unit :=
  if reserved_zero 144 486 p then Ok tt else corruption "HeaderPage: reserved field non-zero".
Definition reserved_FreeListPage (p : Page) : outcome unit :=
  if reserved_zero 8 3 p then Ok tt else corruption "FreeListPage: reserved field non-zero".
Definition reserved_DataPage (p : Page) : outcome unit :=
  if negb (payload_get 4 4 p =? 0) then corruption "DataPage: reserved1 field non-zero"
  else if reserved_zero 8 2 p then Ok tt else corruption "DataPage: reserved2 field non-zero".
Definition reserved_OverflowPage (p : Page) : outcome unit :=
  if reserved_zero 8 2 p then Ok tt else corruption "OverflowPage: reserved field non-zero".
Definition reserved_IndexPage (p : Page) : outcome unit :=
  if reserved_zero 16 3 p then Ok tt else corruption "IndexPage: reserved field non-zero".
Definition reserved_MetadataPage (p : Page) : outcome unit :=
  if reserved_zero 8 3 p then Ok tt else corruption "MetadataPage: reserved field non-zero".

(** ** PageStatistics *)
Record PageStats : Set := mkPageStats {
  ps_totalSize : Z; ps_headerOverhead : Z; ps_payloadSize : Z; ps_reservedBytes : Z;
  ps_usedBytes : Z; ps_utilizationPercent : double; ps_freeBytes : Z }.

Definition percent_of (used total : Z) : double :=
  d_mul (d_div (d_of_Z used) (d_of_Z total)) (d_of_Z 100).
Definition payload_figure (p : Page) : Z := ph_payloadSize (pg_header p).
(** [computeBase], with the remaining figures. *)
Definition computeBase (reserved used : Z) (utilization : double) (free : Z) (p : Page) : PageStats :=
  mkPageStats kPageSize 64 (payload_figure p) reserved used utilization free.
Definition page_stats (p : Page) (reserved used free : Z) : PageStats :=
  computeBase reserved used (percent_of used (payload_figure p)) free p.

(** [compute] of [BasePage] and of the six classes. *)
Definition stats_BasePage (p : Page) : PageStats := computeBase 0 0 (d_of_Z 0) (payload_figure p) p.
Definition stats_HeaderPage (p : Page) : PageStats := page_stats p 3888 (128 + 4 + 8 + 4) 3888.
Definition stats_FreeListPage (p : Page) : PageStats :=
  let count := FreeListPage_freeCount p in
  page_stats p 24 (4 + 4 + count * 4) (u32 (FreeListPage_capacity p - count) * 4).
Definition stats_DataPage (p : Page) : PageStats := page_stats p (4 + 16) (2 + 2) (DataPage_availableSpace p).
Definition stats_OverflowPage (p : Page) : PageStats :=
  page_stats p 16 (4 + 4 + OverflowPage_payloadSize p) (OverflowPage_remainingCapacity p).
Definition stats_IndexPage (p : Page) : PageStats :=
  page_stats p 24 (4 + 4 + 4 + 4) (u64 (payload_figure p - 16 - 24)).
Definition stats_MetadataPage (p : Page) : PageStats :=
  page_stats p 24 (4 + 4) (u64 (payload_figure p - 8 - 24)).

(** [show] prints a double. *)
Definition PageStatistics_toString (show : double → string) (st : PageStats) : string :=
  let line (label : string) (v : Z) := label +:+ pretty v +:+ " bytes" +:+ newline in
  "Page Statistics:" +:+ newline +:+ line "  Total:       " (ps_totalSize st) +:+
  line "  Header:      " (ps_headerOverhead st) +:+ line "  Payload:     " (ps_payloadSize st) +:+
  line "  Reserved:    " (ps_reservedBytes st) +:+ line "  Used:        " (ps_usedBytes st) +:+
  line "  Free:        " (ps_freeBytes st) +:+
  "  Utilization: " +:+ show (ps_utilizationPercent st) +:+ "%" +:+ newline.

(** ** DatabaseFile: whole pages *)

(** A field of the local header [readPage] reads into: bytes that the read did
    not fill are indeterminate. *)
Definition local_field (off n : nat) (got : list Z) : outcome Z :=
  if zlen got <? Z.of_nat (off + n) then UB else Ok (field off n got).
(** [header.isValid()] on it. *)
Definition local_isValid (got : list Z) : outcome bool :=
  magic ← local_field 0 4 got;
  if magic =? kMagicNumber then
    type ← local_field 12 1 got; Ok (negb (type =? PageType_value PT_Invalid))
  else Ok false.

Definition via_file {A} (m : M DatabaseFile A) : M (DatabaseFile * Page) A :=
  zoom fst (λ d s, (d, s.2)) m.
Definition with_page (f : Page → Page) : M (DatabaseFile * Page) unit := modify (λ s, (s.1, f s.2)).

Definition DatabaseFile_readPage : M (DatabaseFile * Page) unit :=
  id ← gets (λ s, Page_id s.2);
  if id =? kInvalidPageId then lift (invalidArgument "Cannot read page with invalid ID")
  else
    via_file (DatabaseFile_seek (u64 (id * kPageSize)));;
    got ← via_file (DatabaseFile_readBytes kPageHeaderSize);
    valid ← lift (local_isValid got);
    if negb valid then lift (corruption ("Invalid page header at page " +:+ pretty id))
    else
      type ← lift (local_field 12 1 got);
      with_page (λ _, Page_make id type);;
      gen ← lift (local_field 26 8 got);
      with_page (Page_setGeneration gen);;
      bs ← via_file (DatabaseFile_readBytes kPagePayloadSize);
      with_page (payload_put 0 bs);;
      with_page (Page_setDirty false).

Definition DatabaseFile_writePage (p : Page) : M DatabaseFile unit :=
  if Page_id p =? kInvalidPageId then lift (invalidArgument "Cannot write page with invalid ID")
  else
    DatabaseFile_seek (u64 (Page_id p * kPageSize));;
    DatabaseFile_writeBytes (PageHeader_bytes (pg_header p));;
    DatabaseFile_writeBytes (Page_payload p).
