(* ===== verification/PageFacts.v ===== *)
(** What the page operations do: fields of packed images, the typed pages, the
    free-list page as a bounded list, the types pages end up with, and pages in
    the database file. *)
From stdpp Require Import base strings list gmap sets.
From Stdlib Require Import ZArith Lia.
From S2P Require Import Prelude Config Formats Doubles Buffers DbFile Pages.

(** ** Fields of an image *)

Lemma slice_ext (l l' : list Z) i n :
  (∀ j, (j < n)%nat → l !! (i + j)%nat = l' !! (i + j)%nat) → take n (drop i l) = take n (drop i l').
Proof.
  intros H. apply list_eq. intros j. destruct (decide (j < n)%nat).
  - rewrite !lookup_take_lt, !lookup_drop by done. auto.
  - by rewrite !lookup_take_ge by lia.
Qed.

Lemma lookup_splice_ne i bs m j : (i + length bs <= length m)%nat →
  (j < i ∨ i + length bs <= j)%nat → splice i bs m !! j = m !! j.
Proof.
  intros Hl [Hj|Hj]; unfold splice.
  - rewrite lookup_app_l by (rewrite length_take; lia). by apply lookup_take_lt.
  - rewrite lookup_app_r, length_take, Nat.min_l by (rewrite ?length_take; lia).
    rewrite lookup_app_r by lia. rewrite lookup_drop. f_equal. lia.
Qed.

Lemma field_splice_eq off n v m : (off + n <= length m)%nat → 0 <= v < 256 ^ Z.of_nat n →
  field off n (splice off (le_bytes n v) m) = v.
Proof.
  intros Hl Hv. unfold field. rewrite <-(length_le_bytes n v) at 1.
  rewrite splice_read by (rewrite length_le_bytes; lia). by apply le_value_small.
Qed.

Lemma field_splice_ne off n off' bs m : (off' + length bs <= length m)%nat →
  (off + n <= off' ∨ off' + length bs <= off)%nat → field off n (splice off' bs m) = field off n m.
Proof.
  intros Hl Hd. unfold field. f_equal. apply slice_ext. intros j Hj. apply lookup_splice_ne; lia.
Qed.

Lemma splice_ok i bs m : bytes_ok bs → bytes_ok m → bytes_ok (splice i bs m).
Proof.
  intros. unfold splice. apply Forall_app; split; [by apply Forall_take|].
  apply Forall_app; split; [done|by apply Forall_drop].
Qed.
Lemma zeros_ok n : bytes_ok (zeros n).
Proof. apply Forall_replicate. lia. Qed.
Lemma field_range off n bs : bytes_ok bs → 0 <= field off n bs < 256 ^ Z.of_nat n.
Proof.
  intros H. unfold field. pose proof (le_value_range (take n (drop off bs))) as Hr.
  destruct Hr as [? Hr]; [by apply Forall_take, Forall_drop|]. split; [done|].
  eapply Z.lt_le_trans; [exact Hr|]. apply Z.pow_le_mono_r; [lia|]. rewrite length_take. lia.
Qed.
Lemma field_app_l off n bs bs' : (off + n <= length bs)%nat → field off n (bs ++ bs') = field off n bs.
Proof.
  intros. unfold field. f_equal. rewrite drop_app_le by lia. apply take_app_le. rewrite length_drop. lia.
Qed.
#[export] Hint Resolve splice_ok zeros_ok : quartz.

(** ** Page headers *)

Record PageHeader_ok (h : PageHeader) : Prop := {
  ok_magic : in_u 32 (ph_magic h); ok_version : in_u 32 (ph_version h);
  ok_pageId : in_u 32 (ph_pageId h); ok_pageType : in_u 8 (ph_pageType h);
  ok_flags : in_u 8 (ph_flags h); ok_payloadSize : in_u 16 (ph_payloadSize h);
  ok_reserved1 : in_u 16 (ph_reserved1 h); ok_timestamp : in_u 32 (ph_timestamp h);
  ok_checksum : in_u 32 (ph_checksum h); ok_generation : in_u 64 (ph_generation h);
  ok_reserved2 : length (ph_reserved2 h) = 28%nat; ok_bytes2 : bytes_ok (ph_reserved2 h);
  ok_pad : in_u 16 (ph_reservedPad h) }.

Lemma length_header_bytes h : PageHeader_ok h → length (PageHeader_bytes h) = 64%nat.
Proof. intros H. unfold PageHeader_bytes. rewrite !length_app, !length_le_bytes, (ok_reserved2 _ H). done. Qed.

Lemma header_bytes_ok h : PageHeader_ok h → bytes_ok (PageHeader_bytes h).
Proof.
  intros H. unfold PageHeader_bytes, bytes_ok. rewrite !Forall_app.
  split_and!; try apply le_bytes_ok. apply H.
Qed.

(** A field behind fields of known width. *)
Lemma field_skip off n k v bs : (k <= off)%nat → field off n (le_bytes k v ++ bs) = field (off - k) n bs.
Proof.
  intros. unfold field. rewrite drop_app_ge, length_le_bytes by (rewrite length_le_bytes; lia). done.
Qed.
Lemma field_here n v bs : 0 <= v < 256 ^ Z.of_nat n → field 0 n (le_bytes n v ++ bs) = v.
Proof.
  intros Hv. unfold field. rewrite drop_0. rewrite <-(length_le_bytes n v) at 1. rewrite take_app_length.
  by apply le_value_small.
Qed.
Ltac fields :=
  repeat first [rewrite field_skip by lia; cbn [Nat.sub] | rewrite field_here by assumption].

Lemma header_of_bytes h bs : PageHeader_ok h → PageHeader_of (PageHeader_bytes h ++ bs) = h.
Proof.
  intros [? ? ? ? ? ? ? ? ? ? Hlen ? ?]. destruct h. cbn -[PageHeader_of PageHeader_bytes] in *. unfold PageHeader_of, PageHeader_bytes. cbn -[le_bytes field take drop app]. unfold in_u in *.
  rewrite <-!app_assoc. f_equal; fields; try done.
  - rewrite drop_app_ge, !length_le_bytes by (rewrite length_le_bytes; lia). cbn [Nat.sub].
    do 9 (rewrite drop_app_ge, !length_le_bytes by (rewrite length_le_bytes; lia); cbn [Nat.sub]).
    rewrite drop_0. by apply take_app_length'.
  - unfold field. rewrite drop_app_ge by lia. rewrite Hlen. cbn [Nat.sub]. by apply field_here.
Qed.

Lemma header_of_ok bs : length bs = 64%nat → bytes_ok bs → PageHeader_ok (PageHeader_of bs).
Proof.
  intros Hl Hb.
  assert (F : ∀ off n w, w = 8 * Z.of_nat n → in_u w (field off n bs)).
  { intros off n w ->. unfold in_u. rewrite Z.pow_mul_r by lia. by apply field_range. }
  split; try (by apply F).
  - cbn [PageHeader_of ph_reserved2]. rewrite length_take, length_drop. lia.
  - by apply Forall_take, Forall_drop.
Qed.

Lemma header_make_ok id type : in_u 32 id → in_u 8 type → PageHeader_ok (PageHeader_make id type).
Proof. intros. split; first [apply zeros_ok | done | by vm_compute]. Qed.

(** ** Pages *)

(** The well-typed pages: a header whose fields fit and a buffer of one page. *)
Record Page_ok (p : Page) : Prop := {
  ok_header : PageHeader_ok (pg_header p);
  ok_length : length (pg_data p) = 4096%nat;
  ok_data : bytes_ok (pg_data p) }.

Lemma page_buffer_spec h : PageHeader_ok h →
  page_buffer h = PageHeader_bytes h ++ zeros (Z.to_nat kPagePayloadSize).
Proof.
  intros H. unfold page_buffer, splice. rewrite (length_header_bytes _ H). cbn [take app Nat.add].
  unfold zeros. by rewrite drop_replicate.
Qed.

Lemma page_make_ok id type : in_u 32 id → in_u 8 type → Page_ok (Page_make id type).
Proof.
  intros Hi Ht. pose proof (header_make_ok id type Hi Ht) as H. split; [done|..].
  - cbn [Page_make pg_data]. rewrite page_buffer_spec, length_app, length_header_bytes by done.
    unfold zeros. by rewrite length_replicate.
  - apply splice_ok; [by apply header_bytes_ok|apply zeros_ok].
Qed.

Lemma payload_put_ok off bs p : Page_ok p → bytes_ok bs → (off + length bs <= 4032)%nat →
  Page_ok (payload_put off bs p).
Proof.
  intros [H1 H2 H3] Hb Hl. split; [done|..]; cbn [payload_put set_pgdata pg_data].
  - rewrite length_splice; [done|]. rewrite H2. lia.
  - by apply splice_ok.
Qed.
Lemma payload_set_ok off n v p : Page_ok p → (off + n <= 4032)%nat → Page_ok (payload_set off n v p).
Proof. intros. apply payload_put_ok; [done|apply le_bytes_ok|by rewrite length_le_bytes]. Qed.

Lemma get_set_eq off n v p : Page_ok p → (off + n <= 4032)%nat → 0 <= v < 256 ^ Z.of_nat n →
  payload_get off n (payload_set off n v p) = v.
Proof. intros H Hl Hv. apply field_splice_eq; [rewrite (ok_length _ H); lia|done]. Qed.
Lemma get_set_ne off n off' n' v p : Page_ok p → (off' + n' <= 4032)%nat →
  (off + n <= off' ∨ off' + n' <= off)%nat →
  payload_get off n (payload_set off' n' v p) = payload_get off n p.
Proof.
  intros H Hl Hd. apply field_splice_ne; rewrite length_le_bytes; [rewrite (ok_length _ H)|]; lia.
Qed.
Lemma payload_get_range off n p : Page_ok p → 0 <= payload_get off n p < 256 ^ Z.of_nat n.
Proof. intros H. apply field_range, H. Qed.
#[export] Hint Resolve payload_set_ok page_make_ok : quartz.

(** ** Every operation keeps pages well typed *)

Record DatabaseHeader_ok (h : DatabaseHeader) : Prop := {
  dok_id : ObjectId_ok (dh_databaseId h);
  dok_reserved : length (dh_reserved h) = 8%nat }.

Lemma database_header_bytes h : DatabaseHeader_ok h →
  length (DatabaseHeader_bytes h) = 128%nat ∧ bytes_ok (DatabaseHeader_bytes h).
Proof.
  intros [[Hl Hb] Hr]. unfold DatabaseHeader_bytes, bytes_ok. rewrite !length_app, !Forall_app, !length_le_bytes, Hl.
  destruct (dh_reserved h) as [|? r]; [done|]. do 7 (destruct r as [|? r]; [done|]). destruct r; [|done].
  split; [done|]. split_and!; try apply le_bytes_ok; [done|].
  cbn [fmap list_fmap concat]. rewrite !Forall_app. split_and!; try apply le_bytes_ok. constructor.
Qed.

(** The setters of each class. *)
Inductive class_setter : PageClass → (Page → Page) → Prop :=
  | set_format h : DatabaseHeader_ok h → class_setter C_HeaderPage (HeaderPage_initFromFormat h)
  | set_superblock v : class_setter C_HeaderPage (HeaderPage_setSuperblockPageId v)
  | set_hflags v : class_setter C_HeaderPage (HeaderPage_setFlags v)
  | set_hversion v : class_setter C_HeaderPage (HeaderPage_setFormatVersion v)
  | set_nofree : class_setter C_FreeListPage FreeListPage_clearFreePages
  | set_offset v : class_setter C_DataPage (DataPage_setFreeSpaceOffset v)
  | set_slots v : class_setter C_DataPage (DataPage_setSlotCount v)
  | set_entries v : class_setter C_MetadataPage (MetadataPage_setEntryCount v)
  | set_mversion v : class_setter C_MetadataPage (MetadataPage_setVersion v)
  | set_next v : class_setter C_OverflowPage (OverflowPage_setNextPageId v)
  | set_osize v : class_setter C_OverflowPage (OverflowPage_setPayloadSize v)
  | set_nodeType v : class_setter C_IndexPage (IndexBytes_setNodeType v)
  | set_keyCount v : class_setter C_IndexPage (IndexBytes_setKeyCount v)
  | set_capacity v : class_setter C_IndexPage (IndexBytes_setCapacity v)
  | set_iflags v : class_setter C_IndexPage (IndexBytes_setFlags v)
  | set_generation c v : in_u 64 v → class_setter c (Page_setGeneration v)
  | set_psize c v : in_u 16 v → class_setter c (Page_setPayloadSize v)
  | set_dirty c d : class_setter c (Page_setDirty d)
  | set_unpin c : class_setter c Page_unpin.

(** What a page of a class keeps: its type is the one the class constructs
    itself with or the one its [reset] writes, and a free list claims no more
    pages than its capacity and no more capacity than its array. *)
Definition class_inv (b : BasePage) : Prop :=
  (Page_type (bp_page b) = class_type (bp_class b) ∨
   Page_type (bp_page b) = PageLayoutType_value (toPageLayoutType (class_type (bp_class b)))) ∧
  (bp_class b = C_FreeListPage →
   FreeListPage_freeCount (bp_page b) <= FreeListPage_capacity (bp_page b) <= kFreeListSlots).

(** One call on a page; what is deserialized is a page of the class. *)
Inductive page_step : BasePage → BasePage → Prop :=
  | do_set c f p : class_setter c f → page_step (mkBasePage c p) (mkBasePage c (f p))
  | do_slot i id p p' : 0 <= i → FreeListPage_setFreePage i id p = (Ok tt, p') →
      page_step (mkBasePage C_FreeListPage p) (mkBasePage C_FreeListPage p')
  | do_add id p p' : FreeListPage_addFreePage id p = (Ok tt, p') →
      page_step (mkBasePage C_FreeListPage p) (mkBasePage C_FreeListPage p')
  | do_pin c p p' : Page_pin p = Ok p' → page_step (mkBasePage c p) (mkBasePage c p')
  | do_reset id b : in_u 32 id → page_step b (page_reset id b)
  | do_clear b : page_step b (BasePage_clear b)
  | do_clone b : page_step b (BasePage_clone b)
  | do_read b b' r r' : Reader_ok r → bytes_ok (r_view r) → BasePage_deserialize b r = (Ok b', r') →
      class_inv b' → page_step b b'.

(** A page from the constructors and the factory, and after any calls. *)
Definition page_fresh (b : BasePage) : Prop :=
  (∃ c, b = class_default c) ∨ (∃ t id, in_u 32 id ∧ PageFactory_createTyped t id = Some b) ∨
  (∃ a i f, b = HeaderPage_create a i f).
Inductive page_reach : BasePage → Prop :=
  | reach_fresh b : page_fresh b → page_reach b
  | reach_step b b' : page_reach b → page_step b b' → page_reach b'.

Lemma class_type_u8 c : in_u 8 (class_type c).
Proof. by destruct c. Qed.
Lemma layout_type_u8 t : in_u 8 (PageLayoutType_value t).
Proof. by destruct t. Qed.
#[export] Hint Resolve class_type_u8 layout_type_u8 : quartz.

Lemma class_setter_ok c f p : class_setter c f → Page_ok p → Page_ok (f p).
Proof.
  intros Hf Hp. destruct Hf; try (apply payload_set_ok; [done|lia]).
  - destruct (database_header_bytes h H) as [Hl Hb].
    unfold HeaderPage_initFromFormat, HeaderPage_setFormatVersion, HeaderPage_setFlags, HeaderPage_setSuperblockPageId.
    do 3 (apply payload_set_ok; [|lia]). apply payload_put_ok; [done|done|]. rewrite Hl. lia.
  - destruct Hp as [[] ? ?]. by split; [split|..].
  - destruct Hp as [[] ? ?]. by split; [split|..].
  - destruct Hp. by split.
  - destruct Hp. by split.
Qed.

Lemma slot_offset_fits i : 0 <= i < 1000 → (slot_offset i + 4 <= 4032)%nat.
Proof. unfold slot_offset. lia. Qed.

Lemma setFreePage_spec i id p p' : FreeListPage_setFreePage i id p = (Ok tt, p') →
  i < FreeListPage_capacity p ∧ i < 1000 ∧ p' = payload_set (slot_offset i) 4 id p.
Proof. unfold FreeListPage_setFreePage, kFreeListSlots. intros H. repeat case_hyp H; simplify_eq. by bools. Qed.

Lemma addFreePage_spec id p p' : FreeListPage_addFreePage id p = (Ok tt, p') →
  let c := FreeListPage_freeCount p in
  c < FreeListPage_capacity p ∧ c < 1000 ∧
  p' = payload_set 0 4 (u32 (c + 1)) (payload_set (slot_offset c) 4 id p).
Proof. unfold FreeListPage_addFreePage, kFreeListSlots. intros H. repeat case_hyp H; simplify_eq. by bools. Qed.

(** Every [reset] clears the layout; two of the classes then set a field. *)
Lemma page_reset_eq id b : page_reset id b =
  on_page match bp_class b with
    | C_FreeListPage => payload_set 4 4 1000
    | C_OverflowPage => OverflowPage_setNextPageId kInvalidPageId
    | _ => λ p, p
    end (on_page clear_layout (BasePage_reset id b)).
Proof. destruct b as [[] p]; reflexivity. Qed.
Lemma BasePage_clone_eq b : BasePage_clone b = on_page (clone_as (class_type (bp_class b))) b.
Proof. destruct b as [[] p]; reflexivity. Qed.

Lemma page_reset_ok id b : in_u 32 id → Page_ok (bp_page (page_reset id b)).
Proof.
  intros Hid. rewrite page_reset_eq. unfold BasePage_reset, base_reset, on_page. fold (layoutType b).
  assert (H : Page_ok (clear_layout (Page_reset id (PageLayoutType_value (layoutType b)) (bp_page b)))).
  { apply payload_put_ok; [apply page_make_ok; auto with quartz|apply zeros_ok|].
    unfold zeros. rewrite length_replicate. done. }
  cbn [bp_class bp_page]. revert H.
  generalize (clear_layout (Page_reset id (PageLayoutType_value (layoutType b)) (bp_page b))).
  intros p H. destruct (bp_class b); cbn [bp_page]; try done; by apply payload_set_ok; [|lia].
Qed.

(** Deserializing replaces the whole page. *)
Lemma deserialize_ok b b' r r' : Reader_ok r → bytes_ok (r_view r) →
  BasePage_deserialize b r = (Ok b', r') → Page_ok (bp_page b') ∧ bp_class b' = bp_class b ∧
  pg_header (bp_page b') = PageHeader_of (take 64 (pg_data (bp_page b'))).
Proof.
  intros Hr Hb H. unfold BasePage_deserialize, mbind, M_bind in H.
  rewrite readBytes_spec in H by (done || (split; vm_compute; done)).
  destruct (Z.leb_spec (r_offset r + kPageSize) (zlen (r_view r))) as [Hl|]; [|done].
  unfold mret, M_ret in H. simplify_eq. cbn [bp_page bp_class pg_data pg_header].
  change kPageSize with 4096 in *. unfold ztake, zdrop, zlen in *. destruct Hr as [Hr _].
  assert (Hlen : length (take (Z.to_nat 4096) (drop (Z.to_nat (r_offset r)) (r_view r))) = 4096%nat).
  { rewrite length_take, length_drop. unfold zlen in Hr. lia. }
  assert (Hok : bytes_ok (take (Z.to_nat 4096) (drop (Z.to_nat (r_offset r)) (r_view r)))).
  { by apply Forall_take, Forall_drop. }
  split; [|by split]. split; cbn [pg_data pg_header]; try done.
  apply header_of_ok; [rewrite length_take; lia|by apply Forall_take].
Qed.

Lemma page_step_ok b b' : page_step b b' → Page_ok (bp_page b) → Page_ok (bp_page b').
Proof.
  intros Hs H. pose proof (ok_header _ H) as Hh. destruct Hs; cbn [bp_page] in *.
  - by eapply class_setter_ok.
  - apply setFreePage_spec in H1 as (_ & ? & ->). apply payload_set_ok; [done|]. apply slot_offset_fits. lia.
  - apply addFreePage_spec in H0 as (_ & ? & ->). pose proof (payload_get_range 0 4 p H).
    apply payload_set_ok; [|lia]. apply payload_set_ok; [done|]. apply slot_offset_fits.
    unfold FreeListPage_freeCount in *. lia.
  - unfold Page_pin in H0. case_hyp H0; simplify_eq. destruct H. by split.
  - by apply page_reset_ok.
  - split; [done|..]; cbn [BasePage_clear on_page Page_zeroFill bp_page pg_data]; [|apply zeros_ok].
    unfold zeros. by rewrite length_replicate.
  - rewrite BasePage_clone_eq. destruct (page_make_ok (BasePage_id b) (class_type (bp_class b))) as [? _ _]; [apply Hh|auto with quartz|].
    split; [done|apply H..].
  - by eapply deserialize_ok.
Qed.

Lemma page_fresh_ok b : page_fresh b → Page_ok (bp_page b).
Proof.
  intros [[c ->]|[(t & id & Hid & H)|(a & i & f & ->)]].
  - destruct c; by apply page_make_ok.
  - destruct t; cbn in H; simplify_eq; apply page_make_ok; done.
  - unfold HeaderPage_create, HeaderPage_setFormatVersion, HeaderPage_setFlags, HeaderPage_setSuperblockPageId.
    cbn [bp_page]. do 7 (apply payload_set_ok; [|lia]). by apply page_make_ok.
Qed.

(** ** The type a page is reset to *)

Lemma page_reset_type id b : Page_type (bp_page (page_reset id b)) = PageLayoutType_value (layoutType b).
Proof. rewrite page_reset_eq. unfold BasePage_reset, base_reset, on_page. cbn [bp_class bp_page]. by destruct (bp_class b). Qed.

(** [BasePage::reset] casts the layout type to the storage type although the
    two enumerations number index and overflow pages the other way round.  So
    [IndexPage::create] makes a page whose type is overflow and
    [OverflowPage::create] one whose type is index, the factory rebuilds each as
    the other class, and a second reset restores the type; every other class keeps
    its type through any reset. *)
Theorem reset_swaps_index_and_overflow id id' :
  let index := page_create C_IndexPage id in
  let overflow := page_create C_OverflowPage id in
  Page_type (bp_page index) = PageType_value PT_Overflow ∧
  Page_type (bp_page overflow) = PageType_value PT_Index ∧
  PageFactory_createPage (bp_page index) = Some (mkBasePage C_OverflowPage (bp_page index)) ∧
  PageFactory_createPage (bp_page overflow) = Some (mkBasePage C_IndexPage (bp_page overflow)) ∧
  Page_type (bp_page (page_reset id' index)) = PageType_value PT_Index ∧
  Page_type (bp_page (page_reset id' overflow)) = PageType_value PT_Overflow ∧
  ∀ b, bp_class b ≠ C_IndexPage → bp_class b ≠ C_OverflowPage →
    Page_type (bp_page b) = class_type (bp_class b) →
    Page_type (bp_page (page_reset id b)) = class_type (bp_class b).
Proof.
  intros index overflow.
  assert (Hi : Page_type (bp_page index) = PageType_value PT_Overflow) by apply page_reset_type.
  assert (Ho : Page_type (bp_page overflow) = PageType_value PT_Index) by apply page_reset_type.
  unfold PageFactory_createPage. rewrite !page_reset_type. unfold layoutType. rewrite Hi, Ho.
  split_and!; try done. intros b Hc1 Hc2 Ht. rewrite page_reset_type. unfold layoutType. rewrite Ht.
  by destruct (bp_class b).
Qed.

(** ** The free-list page as a bounded list *)

Definition fl_list (p : Page) : list Z :=
  (λ i, payload_get (slot_offset i) 4 p) <$> seqZ 0 (FreeListPage_freeCount p).
Record fl_ok (p : Page) : Prop := {
  fl_page : Page_ok p;
  fl_capacity : FreeListPage_capacity p = 1000;
  fl_count : FreeListPage_freeCount p <= 1000 }.

Inductive fl_op : Set := FAdd (pageId : Z) | FSet (index pageId : Z) | FClear.
Definition fl_op_ok (o : fl_op) : Prop :=
  match o with FAdd id => in_u 32 id | FSet i id => 0 <= i ∧ in_u 32 id | FClear => True end.
Definition fl_impl (o : fl_op) : M Page unit :=
  match o with
  | FAdd id => FreeListPage_addFreePage id
  | FSet i id => FreeListPage_setFreePage i id
  | FClear => modify FreeListPage_clearFreePages
  end.
(** The specification: a list of at most 1000 pages. *)
Definition fl_spec (o : fl_op) : M (list Z) unit := λ l,
  match o with
  | FAdd id => if 1000 <=? zlen l then (invalidArgument "FreeListPage: free list is full", l) else (Ok tt, l ++ [id])
  | FSet i id =>
      if 1000 <=? i then (invalidArgument "FreeListPage: index out of range", l)
      else (Ok tt, <[Z.to_nat i := id]> l)
  | FClear => (Ok tt, [])
  end.
(** The answers of a sequence of calls and the state they leave. *)
Fixpoint fl_run {S} (step : fl_op → M S unit) (ops : list fl_op) (s : S) : list (outcome unit) * S :=
  match ops with
  | [] => ([], s)
  | o :: ops => let '(a, s) := step o s in let '(r, s) := fl_run step ops s in (a :: r, s)
  end.

Lemma zlen_fl_list p : fl_ok p → zlen (fl_list p) = FreeListPage_freeCount p.
Proof.
  intros H. pose proof (payload_get_range 0 4 p (fl_page _ H)). unfold fl_list, zlen.
  rewrite length_fmap, length_seqZ. unfold FreeListPage_freeCount in *. lia.
Qed.

Lemma fl_list_lookup p i : fl_ok p →
  fl_list p !! i = if Z.of_nat i <? FreeListPage_freeCount p
                   then Some (payload_get (slot_offset (Z.of_nat i)) 4 p) else None.
Proof.
  intros H. unfold fl_list. rewrite list_lookup_fmap. destruct (Z.ltb_spec (Z.of_nat i) (FreeListPage_freeCount p)).
  - by rewrite lookup_seqZ_lt by lia.
  - by rewrite lookup_seqZ_ge by lia.
Qed.

Lemma slot_apart i j : 0 <= i → 0 <= j → i ≠ j →
  (slot_offset i + 4 <= slot_offset j ∨ slot_offset j + 4 <= slot_offset i)%nat.
Proof. unfold slot_offset. lia. Qed.

(** Storing in a slot below the capacity. *)
Lemma set_slot p i id : fl_ok p → 0 <= i < 1000 → in_u 32 id →
  let p' := payload_set (slot_offset i) 4 id p in
  fl_ok p' ∧ FreeListPage_freeCount p' = FreeListPage_freeCount p ∧
  fl_list p' = <[Z.to_nat i := id]> (fl_list p) ∧ payload_get (slot_offset i) 4 p' = id.
Proof.
  intros H Hi Hid p'. pose proof (slot_offset_fits i Hi).
  assert (Hp : Page_ok p') by (apply payload_set_ok; [apply H|lia]).
  assert (Hc : FreeListPage_freeCount p' = FreeListPage_freeCount p).
  { apply get_set_ne; [apply H|lia|unfold slot_offset; lia]. }
  assert (Hok : fl_ok p').
  { split; [done| |rewrite Hc; apply H]. rewrite <-(fl_capacity _ H).
    apply get_set_ne; [apply H|lia|unfold slot_offset; lia]. }
  assert (Hg : payload_get (slot_offset i) 4 p' = id) by (apply get_set_eq; [apply H|lia|done]).
  split_and!; [done..| |done]. apply list_eq. intros j. rewrite fl_list_lookup by done. rewrite Hc.
  destruct (decide (j = Z.to_nat i)) as [->|Hj].
  - rewrite Z2Nat.id, Hg by lia. destruct (Z.ltb_spec i (FreeListPage_freeCount p)).
    + rewrite list_lookup_insert_eq; [done|]. pose proof (zlen_fl_list p H). unfold zlen in *. lia.
    + rewrite list_insert_ge by (pose proof (zlen_fl_list p H); unfold zlen in *; lia).
      rewrite fl_list_lookup, Z2Nat.id, (proj2 (Z.ltb_ge _ _)) by (done || lia). done.
  - rewrite list_lookup_insert_ne, fl_list_lookup by done. destruct (Z.ltb_spec (Z.of_nat j) (FreeListPage_freeCount p)) as [Hlt|]; [|done].
    f_equal. apply get_set_ne; [apply H|lia|]. apply slot_apart; lia.
Qed.

Lemma set_count p c : fl_ok p → 0 <= c <= 1000 → fl_ok (payload_set 0 4 c p) ∧
  FreeListPage_freeCount (payload_set 0 4 c p) = c ∧
  fl_list (payload_set 0 4 c p) = (λ i, payload_get (slot_offset i) 4 p) <$> seqZ 0 c.
Proof.
  intros H Hc.
  assert (E : FreeListPage_freeCount (payload_set 0 4 c p) = c) by (apply get_set_eq; [apply H|lia|lia]).
  assert (Hp : Page_ok (payload_set 0 4 c p)) by (apply payload_set_ok; [apply H|lia]).
  split_and!; [split; [done|..]|done|].
  - rewrite <-(fl_capacity _ H). apply get_set_ne; [apply H|lia|lia].
  - rewrite E. lia.
  - unfold fl_list. rewrite E. apply list_fmap_ext. intros j i Hi. apply lookup_seqZ in Hi.
    apply get_set_ne; [apply H|lia|unfold slot_offset; lia].
Qed.

Lemma fl_step o p : fl_ok p → fl_op_ok o →
  (fl_impl o p).1 = (fl_spec o (fl_list p)).1 ∧ fl_ok (fl_impl o p).2 ∧
  fl_list (fl_impl o p).2 = (fl_spec o (fl_list p)).2.
Proof.
  intros H Ho. pose proof (payload_get_range 0 4 p (fl_page _ H)) as Hr. change (payload_get 0 4 p) with (FreeListPage_freeCount p) in Hr.
  destruct o as [id|i id|]; cbn [fl_impl fl_spec fl_op_ok] in *.
  - unfold FreeListPage_addFreePage. rewrite (fl_capacity _ H), (zlen_fl_list p H).
    destruct (Z.leb_spec 1000 (FreeListPage_freeCount p)); [done|].
    unfold kFreeListSlots. rewrite (proj2 (Z.leb_gt _ _)) by done. cbn [fst snd].
    destruct (set_slot p (FreeListPage_freeCount p) id H ltac:(lia) Ho) as (H1 & H2 & H3 & H4).
    rewrite u32_small by lia. destruct (set_count _ (FreeListPage_freeCount p + 1) H1 ltac:(lia)) as (H5 & _ & H6).
    split_and!; [done..|]. rewrite H6. rewrite seqZ_app by lia.
    replace (seqZ (0 + FreeListPage_freeCount p) 1) with [FreeListPage_freeCount p] by (unfold seqZ; cbn; f_equal; lia).
    rewrite fmap_app. cbn [fmap list_fmap]. rewrite H4. f_equal.
    trans (fl_list (payload_set (slot_offset (FreeListPage_freeCount p)) 4 id p)); [unfold fl_list; by rewrite H2|].
    rewrite H3. apply list_insert_ge. pose proof (zlen_fl_list p H). unfold zlen in *. lia.
  - unfold FreeListPage_setFreePage. rewrite (fl_capacity _ H). unfold kFreeListSlots.
    destruct (Z.leb_spec 1000 i); [done|]. destruct Ho as [Hi Hid]. cbn [fst snd].
    destruct (set_slot p i id H ltac:(lia) Hid) as (H1 & H2 & H3 & H4). done.
  - cbn [modify fst snd]. destruct (set_count p 0 H ltac:(lia)) as (H5 & _ & H6). done.
Qed.

Lemma field_zeros off n k : field off n (zeros k) = 0.
Proof.
  unfold field, zeros. rewrite drop_replicate, take_replicate. apply le_value_zeros.
Qed.

(** The payload of a new page and of a reset one is zeros. *)
Lemma fresh_field off n id type : in_u 32 id → in_u 8 type → payload_get off n (Page_make id type) = 0.
Proof.
  intros Hi Ht. pose proof (header_make_ok id type Hi Ht) as H. unfold payload_get. cbn [Page_make pg_data].
  rewrite page_buffer_spec by done. unfold field. rewrite drop_app_ge by (rewrite length_header_bytes by done; lia).
  apply field_zeros.
Qed.

Lemma cleared_field off n p : Page_ok p → (off + n <= 4032)%nat → payload_get off n (clear_layout p) = 0.
Proof.
  intros H Hl. unfold payload_get, field. cbn [clear_layout payload_put set_pgdata pg_data].
  rewrite (slice_ext _ (zeros 64 ++ zeros (Z.to_nat kPagePayloadSize))).
  - unfold zeros. rewrite <-replicate_add. apply field_zeros.
  - intros j Hj. unfold splice. rewrite (lookup_app_r (take _ _)), (lookup_app_r (zeros 64)); unfold zeros;
      rewrite ?length_take, ?length_replicate, ?(ok_length _ H); try lia.
    replace ((64 + 0) `min` 4096)%nat with 64%nat by lia. apply lookup_app_l. rewrite length_replicate.
    change (Z.to_nat kPagePayloadSize) with 4032%nat. lia.
Qed.

(** ** What pages of the classes keep *)

Lemma setter_keeps c f p : class_setter c f → Page_type (f p) = Page_type p ∧ Page_id (f p) = Page_id p.
Proof. by destruct 1. Qed.

Lemma freelist_fields p p' : (∀ off, (off = 0 ∨ off = 4)%nat → payload_get off 4 p' = payload_get off 4 p) →
  FreeListPage_freeCount p' = FreeListPage_freeCount p ∧ FreeListPage_capacity p' = FreeListPage_capacity p.
Proof. intros H. unfold FreeListPage_freeCount, FreeListPage_capacity. by rewrite !H by auto. Qed.

Lemma setter_freelist f p : class_setter C_FreeListPage f → Page_ok p →
  FreeListPage_freeCount (f p) <= FreeListPage_freeCount p ∧ FreeListPage_capacity (f p) = FreeListPage_capacity p.
Proof.
  intros Hf Hp. pose proof (payload_get_range 0 4 p Hp) as Hr. inversion Hf; subst; try done.
  unfold FreeListPage_clearFreePages, FreeListPage_freeCount, FreeListPage_capacity.
  rewrite get_set_eq, get_set_ne by (done || lia). lia.
Qed.

Lemma reset_freelist id b : in_u 32 id → bp_class b = C_FreeListPage →
  FreeListPage_freeCount (bp_page (page_reset id b)) = 0 ∧ FreeListPage_capacity (bp_page (page_reset id b)) = 1000.
Proof.
  intros Hid Hc. rewrite page_reset_eq, Hc. unfold BasePage_reset, base_reset, on_page. cbn [bp_page]. fold (layoutType b).
  assert (H : Page_ok (Page_reset id (PageLayoutType_value (layoutType b)) (bp_page b)))
    by (apply page_make_ok; auto with quartz).
  assert (H' : Page_ok (clear_layout (Page_reset id (PageLayoutType_value (layoutType b)) (bp_page b)))).
  { apply payload_put_ok; [done|apply zeros_ok|]. unfold zeros. rewrite length_replicate. done. }
  unfold FreeListPage_freeCount, FreeListPage_capacity. rewrite get_set_ne, get_set_eq by (done || lia).
  split; [|done]. apply cleared_field; [done|lia].
Qed.

Lemma reset_type_back c ty : ty = class_type c ∨ ty = PageLayoutType_value (toPageLayoutType (class_type c)) →
  PageLayoutType_value (toPageLayoutType ty) = class_type c ∨
  PageLayoutType_value (toPageLayoutType ty) = PageLayoutType_value (toPageLayoutType (class_type c)).
Proof. intros [-> | ->]; destruct c; auto. Qed.

Lemma page_fresh_inv b : page_fresh b → class_inv b.
Proof.
  intros [[c ->]|[(t & id & Hid & H)|(a & i & f & ->)]].
  - split; [left; by destruct c|]. intros Hc. destruct c; try done.
  - unfold PageFactory_createTyped in H. destruct (layout_class t) as [c|]; [|done]. cbn in H. simplify_eq.
    split; [by left|]. intros _. unfold FreeListPage_freeCount, FreeListPage_capacity. cbn [bp_page bp_class].
    rewrite !fresh_field by auto with quartz. done.
  - split; [by left|done].
Qed.

Lemma page_step_inv b b' : page_step b b' → Page_ok (bp_page b) → class_inv b → class_inv b'.
Proof.
  intros Hs Hp [Ht Hf]. destruct Hs as [c f p Hset|i id p p' Hi Hset|id p p' Hadd|c p p' Hpin|id b Hid|b|b|b b' r r' _ _ _ Hb];
    unfold class_inv; cbn [bp_class bp_page] in *.
  - rewrite (proj1 (setter_keeps c f p Hset)). split; [done|]. intros ->.
    destruct (setter_freelist f p Hset Hp). specialize (Hf eq_refl). lia.
  - apply setFreePage_spec in Hset as (_ & Hlt & ->). split; [done|]. intros _. pose proof (slot_offset_fits i ltac:(lia)).
    destruct (freelist_fields p (payload_set (slot_offset i) 4 id p)) as [-> ->]; [|by apply Hf].
    intros off Hoff. apply get_set_ne; [done|done|]. unfold slot_offset. lia.
  - apply addFreePage_spec in Hadd as (Hc & Hlt & ->). split; [done|]. intros _. specialize (Hf eq_refl).
    assert (H0 : 0 <= FreeListPage_freeCount p) by (unfold FreeListPage_freeCount; pose proof (payload_get_range 0 4 p Hp); lia).
    pose proof (slot_offset_fits (FreeListPage_freeCount p) ltac:(lia)) as Hfit.
    assert (Hp1 : Page_ok (payload_set (slot_offset (FreeListPage_freeCount p)) 4 id p)) by (by apply payload_set_ok).
    unfold FreeListPage_freeCount at 1, FreeListPage_capacity at 1 2. rewrite u32_small by (unfold kFreeListSlots in Hf; lia).
    rewrite get_set_eq, get_set_ne by (done || unfold kFreeListSlots in Hf; lia).
    rewrite get_set_ne by (done || unfold slot_offset; lia). fold (FreeListPage_capacity p). lia.
  - unfold Page_pin in Hpin. case_hyp Hpin; simplify_eq. done.
  - change (bp_class (page_reset id b)) with (bp_class b). rewrite page_reset_type. split; [by apply reset_type_back|].
    intros Hc. destruct (reset_freelist id b Hid Hc) as [-> ->]. done.
  - split; [done|]. intros _. unfold FreeListPage_freeCount, FreeListPage_capacity, payload_get.
    cbn [BasePage_clear on_page bp_page Page_zeroFill pg_data]. by rewrite !field_zeros.
  - rewrite BasePage_clone_eq. cbn [on_page bp_class bp_page clone_as]. split; [by left|done].
  - done.
Qed.

Lemma page_reach_inv b : page_reach b → Page_ok (bp_page b) ∧ class_inv b.
Proof.
  induction 1 as [b Hb|b b' _ [Hp Hi] Hs]; [split; [by apply page_fresh_ok|by apply page_fresh_inv]|].
  split; [by eapply page_step_ok|by eapply page_step_inv].
Qed.



(** The condition on what is read is needed: a page of zeros with the capacity
    2000 and the count 1000 makes [addFreePage] write behind the array. *)
Example freelist_read_overrun :
  match BasePage_deserialize FreeListPage_make
      (BinaryReader_make (zeros 64 ++ le_bytes 4 1000 ++ le_bytes 4 2000 ++ zeros 4024)) with
  | (Ok b, _) => (FreeListPage_addFreePage 7 (bp_page b)).1 = UB
  | _ => False
  end.
Proof. vm_compute. reflexivity. Qed.

Lemma reset_page_ok id b : in_u 32 id → Page_ok (Page_reset id (PageLayoutType_value (layoutType b)) (bp_page b)).
Proof. intros. apply page_make_ok; auto with quartz. Qed.

Lemma freelist_created id : in_u 32 id → fl_ok (bp_page (page_create C_FreeListPage id)) ∧
  fl_list (bp_page (page_create C_FreeListPage id)) = [].
Proof.
  intros Hid. pose proof (page_reset_ok id (class_default C_FreeListPage) Hid) as Hp.
  assert (Hq : Page_ok (clear_layout (Page_reset id (PageLayoutType_value (layoutType (class_default C_FreeListPage)))
    (bp_page (class_default C_FreeListPage))))).
  { apply payload_put_ok; [by apply reset_page_ok|apply zeros_ok|]. unfold zeros. by rewrite length_replicate. }
  assert (Hc : FreeListPage_freeCount (bp_page (page_create C_FreeListPage id)) = 0).
  { trans (payload_get 0 4 (payload_set 4 4 1000 (clear_layout (Page_reset id
      (PageLayoutType_value (layoutType (class_default C_FreeListPage))) (bp_page (class_default C_FreeListPage))))));
      [done|]. rewrite get_set_ne by (done || lia). apply cleared_field; [by apply reset_page_ok|lia]. }
  split; [split; [done|by apply get_set_eq; [|lia..]|rewrite Hc; lia]|]. unfold fl_list. by rewrite Hc.
Qed.

Lemma page_create_plain c id : c ≠ C_FreeListPage → c ≠ C_OverflowPage →
  page_create c id = mkBasePage c (clear_layout (Page_reset id
    (PageLayoutType_value (layoutType (class_default c))) (bp_page (class_default c)))).
Proof. by destruct c. Qed.

(** What the validator says of pages just made.  Out of the factory only data and
    overflow pages are valid, and the overflow page claims page 0 as its next; the
    free list has no room.  [create] mends free-list and overflow pages; metadata
    and index pages still have to be filled in. *)
Lemma fresh_page_status id : in_u 32 id →
  (∀ t b, PageFactory_createTyped t id = Some b →
     is_ok (page_validate b) = match t with PL_Data | PL_Overflow => true | _ => false end) ∧
  OverflowPage_hasNextPage (Page_make id (PageType_value PT_Overflow)) = true ∧
  OverflowPage_nextPageId (Page_make id (PageType_value PT_Overflow)) = 0 ∧
  FreeListPage_isFull (Page_make id (PageType_value PT_FreeList)) = true ∧
  OverflowPage_hasNextPage (bp_page (page_create C_OverflowPage id)) = false ∧
  page_validate (page_create C_FreeListPage id) = Ok tt ∧ page_validate (page_create C_DataPage id) = Ok tt ∧
  is_ok (page_validate (page_create C_MetadataPage id)) = false ∧
  is_ok (page_validate (page_create C_IndexPage id)) = false.
Proof.
  intros Hid.
  assert (F : ∀ off n t, in_u 8 t → payload_get off n (Page_make id t) = 0) by (intros; by apply fresh_field).
  assert (C : ∀ off n c, (off + n <= 4032)%nat → payload_get off n
    (clear_layout (Page_reset id (PageLayoutType_value (layoutType (class_default c))) (bp_page (class_default c)))) = 0).
  { intros. apply cleared_field; [by apply reset_page_ok|done]. }
  split_and!.
  - intros t b Hb. destruct t; cbn in Hb; simplify_eq;
      unfold page_validate; cbn [bp_class bp_page];
      unfold HeaderPage_validate, HeaderPageLayout_isValid, HeaderPage_formatVersion, MetadataPage_validate, MetadataPage_version,
        FreeListPage_validate, FreeListPageLayout_isValid, FreeListPage_capacity, DataPage_validate,
        DataPage_freeSpaceOffset, IndexBytes_validate, IndexBytes_capacity, OverflowPage_validate,
        OverflowPage_payloadSize; by rewrite !F, ?andb_false_r by done.
  - unfold OverflowPage_hasNextPage, OverflowPage_nextPageId. by rewrite F.
  - by apply F.
  - unfold FreeListPage_isFull, FreeListPage_capacity, FreeListPage_freeCount. by rewrite !F.
  - unfold OverflowPage_hasNextPage, OverflowPage_nextPageId.
    replace (payload_get 0 4 (bp_page (page_create C_OverflowPage id))) with kInvalidPageId; [done|].
    symmetry. apply get_set_eq; [|lia|by vm_compute].
    apply payload_put_ok; [by apply reset_page_ok|apply zeros_ok|]. unfold zeros. by rewrite length_replicate.
  - destruct (freelist_created id Hid) as [H _]. unfold page_validate, FreeListPage_validate, FreeListPageLayout_isValid.
    change (bp_class (page_create C_FreeListPage id)) with C_FreeListPage. cbv iota.
    rewrite (fl_capacity _ H), (proj2 (Z.leb_le _ _)) by apply H. done.
  - pose proof (C 0%nat 2%nat C_DataPage ltac:(lia)) as H. rewrite page_create_plain by done.
    unfold page_validate. cbn [bp_class bp_page]. unfold DataPage_validate, DataPage_freeSpaceOffset. by rewrite H.
  - pose proof (C 4%nat 4%nat C_MetadataPage ltac:(lia)) as H. rewrite page_create_plain by done.
    unfold page_validate. cbn [bp_class bp_page]. unfold MetadataPage_validate, MetadataPage_version. by rewrite H.
  - pose proof (C 8%nat 4%nat C_IndexPage ltac:(lia)) as H. rewrite page_create_plain by done.
    unfold page_validate. cbn [bp_class bp_page]. unfold IndexBytes_validate, IndexBytes_capacity. by rewrite H.
Qed.

(** C18: A page made by [FreeListPage::create] is a list of at most 1000 page ids:
    after any sequence of [addFreePage], [setFreePage] and [clearFreePages] every
    call has answered as the list does (adding appends and is refused at 1000,
    setting replaces an element and is refused from 1000 on), [freePage] reads the
    list and answers the invalid id past its end, [isEmpty] and [isFull] are those
    of the list, and the page is valid.  None of the calls is undefined. *)
Theorem freelist_refines_bounded_list id ops : in_u 32 id → Forall fl_op_ok ops →
  let '(answers, p) := fl_run fl_impl ops (bp_page (page_create C_FreeListPage id)) in
  let '(answers', l) := fl_run fl_spec ops [] in
  answers = answers' ∧
  (∀ i, 0 <= i → FreeListPage_freePage i p = Ok (default kInvalidPageId (l !! Z.to_nat i))) ∧
  FreeListPage_freeCount p = zlen l ∧ FreeListPage_isEmpty p = (zlen l =? 0) ∧
  FreeListPage_isFull p = (1000 <=? zlen l) ∧ FreeListPage_validate p = Ok tt.
Proof.
  intros Hid Hops. destruct (freelist_created id Hid) as [H He].
  revert H He. generalize (bp_page (page_create C_FreeListPage id)). intros p H <-. revert p H.
  induction Hops as [|o ops Ho _ IH]; intros p H.
  - cbn [fl_run]. pose proof (zlen_fl_list p H) as Hl. pose proof (fl_count _ H). split_and!; [done|..|done| | |].
    + intros i Hi. unfold FreeListPage_freePage. rewrite fl_list_lookup, Z2Nat.id by done.
      destruct (Z.leb_spec (FreeListPage_freeCount p) i), (Z.ltb_spec i (FreeListPage_freeCount p)); try lia; [done|].
      unfold kFreeListSlots. by rewrite (proj2 (Z.leb_gt _ _)) by lia.
    + unfold FreeListPage_isEmpty. by rewrite Hl.
    + unfold FreeListPage_isFull. by rewrite (fl_capacity _ H), Hl.
    + unfold FreeListPage_validate, FreeListPageLayout_isValid. rewrite (fl_capacity _ H).
      by rewrite (proj2 (Z.leb_le _ _)) by done.
  - cbn [fl_run]. destruct (fl_step o p H Ho) as (H1 & H2 & H3).
    destruct (fl_impl o p) as [a p'], (fl_spec o (fl_list p)) as [a' l']. cbn [fst snd] in *. subst.
    specialize (IH p' H2). destruct (fl_run fl_impl ops p') as [r q], (fl_run fl_spec ops (fl_list p')) as [r' l].
    destruct IH as (-> & IH). by split.
Qed.

Lemma freelist_refines_bounded_list_witness :
  let '(answers, p) := fl_run fl_impl [FAdd 9; FAdd 10; FSet 0 11; FSet 1000 1] (bp_page (page_create C_FreeListPage 2)) in
  let '(answers', l) := fl_run fl_spec [FAdd 9; FAdd 10; FSet 0 11; FSet 1000 1] [] in
  answers = answers' ∧
  (∀ i, 0 <= i → FreeListPage_freePage i p = Ok (default kInvalidPageId (l !! Z.to_nat i))) ∧
  FreeListPage_freeCount p = zlen l ∧ FreeListPage_isEmpty p = (zlen l =? 0) ∧
  FreeListPage_isFull p = (1000 <=? zlen l) ∧ FreeListPage_validate p = Ok tt.
Proof.
  apply (freelist_refines_bounded_list 2 [FAdd 9; FAdd 10; FSet 0 11; FSet 1000 1]); [by split|].
  repeat constructor; lia.
Defined.

(** ** Pages in the database file *)

Lemma file_write_inside pos bs c : 0 <= pos <= zlen c → bs ≠ [] →
  file_write pos bs c = ztake pos c ++ bs ++ zdrop (pos + zlen bs) c.
Proof.
  intros Hp Hb. unfold file_write. destruct (Z.eqb_spec (zlen bs) 0) as [E|_].
  { destruct bs; [done|]. unfold zlen in E. cbn in E. lia. }
  replace (Z.to_nat (pos - zlen c)) with 0%nat by lia. done.
Qed.

Lemma zlen_ztake {A} n (l : list A) : 0 <= n <= zlen l → zlen (ztake n l) = n.
Proof. intros. unfold zlen, ztake in *. rewrite length_take. lia. Qed.

(** Two writes, one behind the other. *)
Lemma file_write_app pos a b c : 0 <= pos <= zlen c → a ≠ [] → b ≠ [] →
  file_write (pos + zlen a) b (file_write pos a c) = file_write pos (a ++ b) c.
Proof.
  intros Hp Ha Hb. pose proof (zlen_nonneg a). pose proof (zlen_nonneg b).
  rewrite (file_write_inside pos a), (file_write_inside pos (a ++ b)) by (done || by destruct a).
  rewrite file_write_inside; [|rewrite !zlen_app, zlen_ztake by lia; pose proof (zlen_nonneg (zdrop (pos + zlen a) c)); lia|done].
  rewrite !zlen_app. unfold ztake, zdrop, zlen in *.
  rewrite (app_assoc (take _ c) a), take_app_length', drop_app_ge;
    rewrite ?length_app, ?length_take; [|lia..].
  rewrite drop_drop, <-!app_assoc. do 4 f_equal. lia.
Qed.

(** The image of a page on disk. *)
Definition page_image (p : Page) : list Z := PageHeader_bytes (pg_header p) ++ Page_payload p.
Definition page_pos (p : Page) : Z := Page_id p * kPageSize.

Lemma page_parts p : Page_ok p → Page_id p ≠ kInvalidPageId →
  zlen (PageHeader_bytes (pg_header p)) = 64 ∧ zlen (Page_payload p) = 4032 ∧
  u64 (page_pos p) = page_pos p ∧ 0 <= page_pos p < 2 ^ 45.
Proof.
  intros [H1 H2 H3] Hid. pose proof (ok_pageId _ H1) as Hi. unfold in_u in Hi. unfold zlen, page_pos, Page_id in *.
  rewrite length_header_bytes by done. unfold Page_payload, zdrop. rewrite length_drop, H2.
  change kPageSize with 4096. rewrite u64_small by lia. split_and!; (done || lia).
Qed.

Lemma writePage_opened d path c p : opened d path c → Page_ok p → Page_id p ≠ kInvalidPageId →
  page_pos p <= zlen c →
  ∃ d', DatabaseFile_writePage p d = (Ok tt, d') ∧ opened d' path (file_write (page_pos p) (page_image p) c).
Proof.
  intros Hd Hp Hid Hpos. destruct (page_parts p Hp Hid) as (L1 & L2 & Hu & Hr).
  unfold DatabaseFile_writePage. rewrite (proj2 (Z.eqb_neq _ _)) by done. fold (page_pos p). rewrite Hu.
  destruct (seek_opened d path c (page_pos p) Hd ltac:(lia)) as (d1 & E1 & O1 & P1 & _).
  destruct (write_opened d1 path c (PageHeader_bytes (pg_header p)) O1 ltac:(lia)) as (d2 & E2 & O2 & P2).
  rewrite P1 in *.
  assert (Hl : zlen (file_write (page_pos p) (PageHeader_bytes (pg_header p)) c) = Z.max (zlen c) (page_pos p + 64)).
  { rewrite zlen_file_write by lia. lia. }
  destruct (write_opened d2 _ _ (Page_payload p) O2 ltac:(rewrite Hl; lia)) as (d3 & E3 & O3 & _).
  exists d3. unfold mbind, M_bind. rewrite E1, E2, E3. split; [done|].
  rewrite P2, file_write_app in O3 by (lia || (intros E; rewrite E in *; done)). done.
Qed.

Definition page_loaded (id type gen : Z) (payload : list Z) : Page :=
  Page_setDirty false (payload_put 0 payload (Page_setGeneration gen (Page_make id type))).

Lemma local_field_full off n bs : zlen bs = 64 → (off + n <= 64)%nat → local_field off n bs = Ok (field off n bs).
Proof. intros Hl Hn. unfold local_field. by rewrite (proj2 (Z.ltb_ge _ _)) by lia. Qed.

Lemma readPage_opened d path pre h payload post q : opened d path (pre ++ PageHeader_bytes h ++ payload ++ post) →
  PageHeader_ok h → PageHeader_isValid h = true → zlen payload = 4032 → Page_ok q → Page_id q ≠ kInvalidPageId →
  zlen pre = page_pos q →
  ∃ d', DatabaseFile_readPage (d, q) =
      (Ok tt, (d', page_loaded (Page_id q) (ph_pageType h) (ph_generation h) payload)) ∧
    opened d' path (pre ++ PageHeader_bytes h ++ payload ++ post).
Proof.
  intros Hd Hh Hv Hl Hq Hid Hpre. destruct (page_parts q Hq Hid) as (_ & _ & Hu & Hr).
  assert (L1 : zlen (PageHeader_bytes h) = 64) by (unfold zlen; by rewrite length_header_bytes).
  pose proof (header_of_bytes h [] Hh) as Hof. rewrite app_nil_r in Hof.
  unfold DatabaseFile_readPage, mbind, M_bind, gets. cbn [snd fst]. rewrite (proj2 (Z.eqb_neq _ _)) by done.
  fold (page_pos q). rewrite Hu. unfold via_file, zoom. cbn [fst snd].
  destruct (seek_opened d path _ (page_pos q) Hd ltac:(lia)) as (d1 & -> & O1 & P1 & _). cbn [fst snd].
  destruct (read_opened d1 path pre _ _ O1 ltac:(lia)) as (d2 & E2 & O2 & P2 & _).
  change kPageHeaderSize with 64. rewrite <-L1, E2. unfold lift, local_isValid.
  rewrite !local_field_full by (done || lia).
  change (field 0 4 ?b) with (ph_magic (PageHeader_of b)). change (field 12 1 ?b) with (ph_pageType (PageHeader_of b)).
  change (field 26 8 ?b) with (ph_generation (PageHeader_of b)). rewrite Hof.
  unfold PageHeader_isValid in Hv. apply andb_true_iff in Hv as [Hm Ht]. cbn [mbind outcome_bind]. rewrite Hm, Ht.
  cbn [negb with_page modify fst snd].
  destruct (read_opened d2 path (pre ++ PageHeader_bytes h) payload post) as (d3 & E3 & O3 & _ & _).
  { by rewrite <-app_assoc. } { rewrite zlen_app. lia. }
  change kPagePayloadSize with 4032. rewrite <-Hl, E3. cbn [fst snd].
  exists d3. split; [done|]. by rewrite <-app_assoc in O3.
Qed.

(** The bytes of page [k] of a file. *)
Definition page_slice (k : Z) (c : list Z) : list Z := ztake kPageSize (zdrop (k * kPageSize) c).

Lemma slice_outside k pos bs c : 0 <= k → 0 <= pos <= zlen c → bs ≠ [] →
  k * kPageSize + kPageSize <= pos ∨ pos + zlen bs <= k * kPageSize →
  page_slice k (file_write pos bs c) = page_slice k c.
Proof.
  intros Hk Hp Hb Hd. rewrite file_write_inside by done. unfold page_slice. change kPageSize with 4096 in *.
  unfold ztake, zdrop, zlen in *. apply slice_ext. intros j Hj. destruct Hd.
  - rewrite lookup_app_l by (rewrite length_take; lia). apply lookup_take_lt. lia.
  - rewrite lookup_app_r by (rewrite length_take; lia). rewrite length_take, Nat.min_l by lia.
    rewrite lookup_app_r by lia. rewrite lookup_drop. f_equal. lia.
Qed.

(** C17: A page written to an open database file is read back: [writePage] of a
    valid page followed by [readPage] under its id succeeds and returns a clean
    page with the same id, type, generation and payload (the other header fields
    are those of a new page), and every other page of the file keeps its bytes.
    The file must reach the place of the page, as it does in page order. *)
Theorem page_file_roundtrip d path c p q :
  opened d path c → Page_ok p → Page_isValid p = true → Page_id p ≠ kInvalidPageId →
  Page_ok q → Page_id q = Page_id p → page_pos p <= zlen c →
  ∃ d1 d2 q',
    DatabaseFile_writePage p d = (Ok tt, d1) ∧
    DatabaseFile_readPage (d1, q) = (Ok tt, (d2, q')) ∧
    Page_id q' = Page_id p ∧ Page_type q' = Page_type p ∧
    ph_generation (pg_header q') = ph_generation (pg_header p) ∧
    Page_payload q' = Page_payload p ∧ pg_dirty q' = false ∧
    (∀ k, 0 <= k → k ≠ Page_id p → page_slice k (df_bytes d2) = page_slice k c).
Proof.
  intros Hd Hp Hv Hid Hq Hqid Hpos. destruct (page_parts p Hp Hid) as (L1 & L2 & Hu & Hr).
  destruct (writePage_opened d path c p Hd Hp Hid Hpos) as (d1 & E1 & O1).
  assert (Hne : page_image p ≠ []).
  { intros E. apply (f_equal zlen) in E. unfold page_image in E. rewrite zlen_app, L1, L2 in E. done. }
  assert (Hf : file_write (page_pos p) (page_image p) c =
    ztake (page_pos p) c ++ PageHeader_bytes (pg_header p) ++ Page_payload p ++
    zdrop (page_pos p + zlen (page_image p)) c).
  { rewrite file_write_inside by (done || lia). unfold page_image. by rewrite <-!app_assoc. }
  pose proof O1 as O1'. rewrite Hf in O1'.
  destruct (readPage_opened d1 path _ _ _ _ q O1') as (d2 & E2 & O2); try done.
  { apply Hp. } { by rewrite Hqid. } 
  { replace (page_pos q) with (page_pos p) by (unfold page_pos; by rewrite Hqid). apply zlen_ztake. lia. }
  exists d1, d2, (page_loaded (Page_id q) (Page_type p) (ph_generation (pg_header p)) (Page_payload p)).
  split_and!; [done..| | |].
  - unfold Page_payload at 1. cbn [page_loaded Page_setDirty payload_put set_pgdata pg_data].
    unfold zdrop, zlen in *. change (Z.to_nat kPageHeaderSize) with (64 + 0)%nat.
    assert (Hl : length (Page_payload p) = 4032%nat) by lia.
    assert (Hm : length (pg_data (Page_setGeneration (ph_generation (pg_header p)) (Page_make (Page_id q) (Page_type p)))) = 4096%nat).
    { apply (page_make_ok (Page_id q) (Page_type p)); [rewrite Hqid|]; apply Hp. }
    revert Hm. generalize (pg_data (Page_setGeneration (ph_generation (pg_header p)) (Page_make (Page_id q) (Page_type p)))).
    intros m Hm. rewrite <-(splice_read (64 + 0) (Page_payload p) m) at 2 by lia.
    rewrite Hl. symmetry. apply take_ge. rewrite length_drop, length_splice by lia. lia.
  - done.
  - intros k Hk Hne'. rewrite (proj1 (opened_bytes _ _ _ O2)), <-Hf. unfold page_pos in *.
    apply slice_outside; [done|lia|done|]. unfold page_image. rewrite zlen_app, L1, L2.
    change kPageSize with 4096 in *. lia.
Qed.

Definition demo_file : DatabaseFile :=
  mkDatabaseFile (mkFileSystem {["db" := []]} ∅ EmptyString) "db" (mkStream (Some "db") 0 false false) 0.

Lemma page_file_roundtrip_witness :
  ∃ d1 d2 q',
    DatabaseFile_writePage (Page_setGeneration 7 (Page_make 0 (PageType_value PT_Data))) demo_file = (Ok tt, d1) ∧
    DatabaseFile_readPage (d1, Page_make 0 (PageType_value PT_Header)) = (Ok tt, (d2, q')) ∧
    Page_type q' = PageType_value PT_Data ∧ ph_generation (pg_header q') = 7.
Proof.
  destruct (page_file_roundtrip demo_file "db" [] (Page_setGeneration 7 (Page_make 0 (PageType_value PT_Data)))
    (Page_make 0 (PageType_value PT_Header))) as (d1 & d2 & q' & H1 & H2 & _ & H3 & H4 & _).
  - by split.
  - apply (class_setter_ok C_DataPage (Page_setGeneration 7)); [by constructor|by apply page_make_ok].
  - done.
  - done.
  - by apply page_make_ok.
  - done.
  - done.
  - by exists d1, d2, q'.
Defined.

(** Reading a page that starts at or past the end of the file: the header is read
    into an uninitialised structure and nothing reports the short read, so the
    validity test looks at indeterminate bytes. *)
Lemma readPage_past_end d path c q : opened d path c → Page_ok q → Page_id q ≠ kInvalidPageId →
  zlen c <= page_pos q → ∃ s, DatabaseFile_readPage (d, q) = (UB, s).
Proof.
  intros Hd Hq Hid Hpos. destruct (page_parts q Hq Hid) as (_ & _ & Hu & Hr).
  unfold DatabaseFile_readPage, mbind, M_bind, gets. cbn [snd fst]. rewrite (proj2 (Z.eqb_neq _ _)) by done.
  fold (page_pos q). rewrite Hu. unfold via_file, zoom. cbn [fst snd].
  destruct (seek_opened d path _ (page_pos q) Hd ltac:(lia)) as (d1 & -> & O1 & P1 & _). cbn [fst snd].
  destruct (read_short d1 path c kPageHeaderSize O1) as (d2 & -> & _); [rewrite P1; change kPageHeaderSize with 64; lia|rewrite P1; lia|done|].
  rewrite P1. assert (E : zdrop (page_pos q) c = []) by (unfold zdrop; apply drop_ge; unfold zlen in *; lia).
  rewrite E. by eexists.
Qed.
