(* ===== verification/Ownership.v ===== *)
(** The life of page objects (src/src/storage/Page.cpp, Page.h): a [Page] holds a
    pointer to a buffer from [new[]], constructors allocate it, moves hand it on
    and the destructor gives it back.

    The rest of the development uses a page as a value with its bytes inside
    ([Pages.Page]).  Here the pointers are explicit: the heap is a map from
    addresses to live buffers, an object has an optional address and the flag
    [ownsBuffer_], and a [delete[]] of an address that is not live, or a copy
    through a null pointer, is undefined behaviour ([None]).  The theorem says
    that the objects behave as the values do, that nothing is deleted twice or
    used after it was deleted, and that no buffer is lost. *)
From stdpp Require Import base strings list gmap sets.
From Stdlib Require Import ZArith Lia.
From S2P Require Import Prelude Buffers Config Pages PageFacts.

(** ** The heap, the objects and the operations of the class *)
Record PageObject : Set := mkPageObject {
  po_header : PageHeader; po_data : option nat; po_dirty : bool; po_pinCount : Z; po_ownsBuffer : bool }.

(** Objects are named by where the program keeps them; [w_fresh] is an address
    [new[]] has not given yet. *)
Record World : Type := mkWorld {
  w_heap : gmap nat (list Z); w_objects : gmap nat PageObject; w_fresh : nat }.
Definition World_empty : World := mkWorld ∅ ∅ 0.

Definition set_object (x : nat) (o : PageObject) (w : World) : World :=
  mkWorld (w_heap w) (<[x := o]> (w_objects w)) (w_fresh w).

(** [new std::uint8_t[kPageSize]()]. *)
Definition new_buffer (w : World) : nat * World :=
  (w_fresh w, mkWorld (<[w_fresh w := zeros (Z.to_nat kPageSize)]> (w_heap w)) (w_objects w) (S (w_fresh w))).
(** [delete[] data]: nothing for a null pointer. *)
Definition delete_buffer (data : option nat) (w : World) : option World :=
  match data with
  | None => Some w
  | Some a => if decide (is_Some (w_heap w !! a)) then Some (mkWorld (delete a (w_heap w)) (w_objects w) (w_fresh w)) else None
  end.
(** [memcpy] and [memset] from the start of the buffer. *)
Definition store (data : option nat) (bs : list Z) (w : World) : option World :=
  a ← data; b ← w_heap w !! a; Some (mkWorld (<[a := splice 0 bs b]> (w_heap w)) (w_objects w) (w_fresh w)).

Definition moved_from : PageObject :=
  mkPageObject (PageHeader_make kInvalidPageId (PageType_value PT_Invalid)) None false 0 false.

Definition Page_construct (x : nat) (id type : Z) (w : World) : option World :=
  let h := PageHeader_make id type in
  let '(a, w) := new_buffer w in
  set_object x (mkPageObject h (Some a) false 0 true) <$> store (Some a) (PageHeader_bytes h) w.
Definition Page_destruct (x : nat) (w : World) : option World :=
  o ← w_objects w !! x;
  w ← (if po_ownsBuffer o then delete_buffer (po_data o) w else Some w);
  Some (mkWorld (w_heap w) (delete x (w_objects w)) (w_fresh w)).
(** [Page x(std::move(y))]. *)
Definition Page_move (x y : nat) (w : World) : option World :=
  other ← w_objects w !! y;
  Some (set_object y moved_from (set_object x other w)).
(** [x = std::move(y)]. *)
Definition Page_moveAssign (x y : nat) (w : World) : option World :=
  this ← w_objects w !! x; other ← w_objects w !! y;
  if decide (x = y) then Some w
  else
    w ← (if po_ownsBuffer this then delete_buffer (po_data this) w else Some w);
    Some (set_object y moved_from (set_object x other w)).
Definition PageObject_reset (x : nat) (id type : Z) (w : World) : option World :=
  o ← w_objects w !! x;
  let h := PageHeader_make id type in
  w ← (if po_ownsBuffer o then store (po_data o) (zeros (Z.to_nat kPageSize)) w else Some w);
  w ← store (po_data o) (PageHeader_bytes h) w;
  Some (set_object x (mkPageObject h (po_data o) false 0 (po_ownsBuffer o)) w).
Definition PageObject_zeroFill (x : nat) (w : World) : option World :=
  o ← w_objects w !! x;
  if po_data o then store (po_data o) (zeros (Z.to_nat kPageSize)) w else Some w.

(** ** Programs over page objects *)
Inductive object_op : Set :=
| OpConstruct (x : nat) (id type : Z) | OpDestruct (x : nat) | OpMove (x y : nat) | OpMoveAssign (x y : nat)
| OpReset (x : nat) (id type : Z) | OpZeroFill (x : nat).

Definition object_step (op : object_op) (w : World) : option World :=
  match op with
  | OpConstruct x id type => Page_construct x id type w
  | OpDestruct x => Page_destruct x w
  | OpMove x y => Page_move x y w
  | OpMoveAssign x y => Page_moveAssign x y w
  | OpReset x id type => PageObject_reset x id type w
  | OpZeroFill x => PageObject_zeroFill x w
  end.
Definition page_run (ops : list object_op) (w : World) : option World := foldl (λ ow op, ow ≫= object_step op) (Some w) ops.

(** ** The objects as values: a page, or nothing once it has been moved from *)
Notation store_of := (gmap nat (option Page)).

(** What the language lets a program do: construct an object where there is none,
    and use one that lives, moved from or not. *)
Definition op_legal (op : object_op) (s : store_of) : bool :=
  match op with
  | OpConstruct x _ _ => bool_decide (s !! x = None)
  | OpDestruct x | OpZeroFill x | OpReset x _ _ => bool_decide (is_Some (s !! x))
  | OpMove x y => bool_decide (s !! x = None) && bool_decide (is_Some (s !! y))
  | OpMoveAssign x y => bool_decide (is_Some (s !! x)) && bool_decide (is_Some (s !! y))
  end.
(** The call resets a page that has been moved from. *)
Definition resets_husk (op : object_op) (s : store_of) : bool :=
  match op with OpReset x _ _ => match s !! x with Some None => true | _ => false end | _ => false end.
Definition value_step (op : object_op) (s : store_of) : store_of :=
  match op with
  | OpConstruct x id type => <[x := Some (Page_make id type)]> s
  | OpDestruct x => delete x s
  | OpMove x y | OpMoveAssign x y =>
      if decide (x = y) then s else <[y := None]> (<[x := mjoin (s !! y)]> s)
  | OpReset x id type => alter (fmap (Page_reset id type)) x s
  | OpZeroFill x => alter (fmap Page_zeroFill) x s
  end.
Definition value_run (ops : list object_op) (s : store_of) : store_of := foldl (λ s op, value_step op s) s ops.
Fixpoint legal_run (ops : list object_op) (s : store_of) : bool :=
  match ops with
  | [] => true
  | op :: ops => op_legal op s && legal_run ops (value_step op s)
  end.
Fixpoint husk_run (ops : list object_op) (s : store_of) : bool :=
  match ops with
  | [] => false
  | op :: ops => resets_husk op s || husk_run ops (value_step op s)
  end.

(** The value an object stands for. *)
Definition object_value (w : World) (x : nat) : option (option Page) :=
  o ← w_objects w !! x;
  Some (a ← po_data o; b ← w_heap w !! a; Some (mkPage (po_header o) b (po_dirty o) (po_pinCount o))).
(** Address [a] is the buffer of object [x]. *)
Definition owns (w : World) (x a : nat) : Prop := ∃ o, w_objects w !! x = Some o ∧ po_data o = Some a.

(** ** The simulation *)
Inductive object_rel (heap : gmap nat (list Z)) : option PageObject → option (option Page) → Prop :=
| rel_none : object_rel heap None None
| rel_moved : object_rel heap (Some moved_from) (Some None)
| rel_page p a : heap !! a = Some (pg_data p) → length (pg_data p) = Z.to_nat kPageSize →
    object_rel heap (Some (mkPageObject (pg_header p) (Some a) (pg_dirty p) (pg_pinCount p) true)) (Some (Some p)).

Record holds_values (w : World) (s : store_of) : Prop := {
  hv_objects : ∀ x, object_rel (w_heap w) (w_objects w !! x) (s !! x);
  hv_owned : ∀ a, is_Some (w_heap w !! a) → ∃ x, owns w x a;
  hv_once : ∀ x y a, owns w x a → owns w y a → x = y;
  hv_fresh : ∀ a, is_Some (w_heap w !! a) → (a < w_fresh w)%nat }.

Lemma rel_value w x v : object_rel (w_heap w) (w_objects w !! x) v → object_value w x = v.
Proof.
  unfold object_value. inversion 1 as [E|E|p a Hb _ E]; [done..|]. cbn. rewrite Hb. by destruct p.
Qed.
(** An object keeps its value when its buffer is not touched. *)
Lemma rel_frame h h' o v : (∀ a, (po_data <$> o) = Some (Some a) → h' !! a = h !! a) → object_rel h o v → object_rel h' o v.
Proof.
  intros Hf. destruct 1; [constructor..|]. constructor; [|done]. by rewrite (Hf a eq_refl).
Qed.
Lemma owns_live w s x a : holds_values w s → owns w x a → is_Some (w_heap w !! a).
Proof.
  intros Hv (o & E & Ed). pose proof (hv_objects w s Hv x) as Hx. rewrite E in Hx.
  inversion Hx; subst; cbn in Ed; simplify_eq; eauto.
Qed.
Lemma rel_live h o v : object_rel h o v → is_Some v → is_Some o.
Proof. destruct 1; naive_solver. Qed.
Lemma empty_holds : holds_values World_empty ∅.
Proof.
  split; cbn.
  - intros x. rewrite !lookup_empty. constructor.
  - intros a. rewrite lookup_empty. by intros [].
  - intros x y a (o & E & _). cbn in E. by rewrite lookup_empty in E.
  - intros a. rewrite lookup_empty. by intros [].
Qed.

(** The buffer of one object is given back, and the object forgotten. *)
Lemma release_holds w s x o : holds_values w s → w_objects w !! x = Some o → ∃ w',
  (if po_ownsBuffer o then delete_buffer (po_data o) w else Some w) = Some w' ∧
  w_objects w' = w_objects w ∧ holds_values (mkWorld (w_heap w') (delete x (w_objects w)) (w_fresh w')) (delete x s).
Proof.
  intros Hv E. pose proof (hv_objects w s Hv x) as Hx. rewrite E in Hx.
  assert (∀ y a, owns (mkWorld (w_heap w) (delete x (w_objects w)) (w_fresh w)) y a → y ≠ x ∧ owns w y a) as Ho.
  { intros y a (o' & E' & Ed). cbn in E'. apply lookup_delete_Some in E' as [Hne E']. split; [done|by exists o']. }
  inversion Hx as [|Eo Es|p a Hb Hl Eo Es]; subst o.
  - exists w. split_and!; [done..|]. split; cbn.
    + intros y. destruct (decide (y = x)) as [-> | Hne]; [rewrite !lookup_delete_eq; constructor|].
      rewrite !lookup_delete_ne by done. apply Hv.
    + intros a Ha. destruct (hv_owned w s Hv a Ha) as (y & o & Ey & Ed). exists y, o. split; [|done]. cbn.
      rewrite lookup_delete_ne; [done|]. intros ->. rewrite E in Ey. by simplify_eq.
    + intros y z a Hy Hz. eapply (hv_once w s Hv); by apply Ho.
    + apply Hv.
  - cbn. rewrite decide_True by eauto. eexists. split_and!; [done..|]. split; cbn.
    + intros y. destruct (decide (y = x)) as [-> | Hne]; [rewrite !lookup_delete_eq; constructor|].
      rewrite !lookup_delete_ne by done. eapply rel_frame; [|apply Hv].
      intros a' Ha'. apply lookup_delete_ne. intros ->. destruct (w_objects w !! y) as [oy|] eqn:Ey; [|done]. cbn in Ha'.
      apply Hne. eapply (hv_once w s Hv y x a'); [exists oy; naive_solver|eexists; split; [exact E|done]].
    + intros a' Ha'. apply lookup_delete_is_Some in Ha' as [Hne Ha'].
      destruct (hv_owned w s Hv a' Ha') as (y & o & Ey & Ed). exists y, o. split; [|done]. cbn.
      rewrite lookup_delete_ne; [done|]. intros ->. rewrite E in Ey. injection Ey as <-. injection Ed as <-. done.
    + intros y z a' Hy Hz. eapply (hv_once w s Hv); by apply Ho.
    + intros a' Ha'. apply lookup_delete_is_Some in Ha' as [_ Ha']. by apply Hv.
Qed.
(** The buffer of one object passes to a new one. *)
Lemma transfer_holds w s x y other : holds_values w s → w_objects w !! x = None → w_objects w !! y = Some other → x ≠ y →
  holds_values (set_object y moved_from (set_object x other w)) (<[y := None]> (<[x := mjoin (s !! y)]> s)).
Proof.
  intros Hv Ex Ey Hxy.
  assert (∀ z a, owns (set_object y moved_from (set_object x other w)) z a →
    z ≠ y ∧ owns w (if decide (z = x) then y else z) a) as Ho.
  { intros z a (o & E & Ed). cbn in E. destruct (decide (z = y)) as [-> | Hzy].
    - rewrite lookup_insert_eq in E. injection E as <-. done.
    - split; [done|]. rewrite lookup_insert_ne in E by done. case_decide as Hzx; subst.
      + rewrite lookup_insert_eq in E. injection E as <-. by exists other.
      + rewrite lookup_insert_ne in E by done. by exists o. }
  split; cbn.
  - intros z. destruct (decide (z = y)) as [-> | Hzy]; [rewrite !lookup_insert_eq; constructor|].
    rewrite !(lookup_insert_ne _ y) by done.
    destruct (decide (z = x)) as [-> | Hzx]; [|rewrite !lookup_insert_ne by done; apply Hv].
    rewrite !lookup_insert_eq. pose proof (hv_objects w s Hv y) as Hy. rewrite Ey in Hy.
    by destruct (s !! y) as [v|]; [|inversion Hy].
  - intros a Ha. destruct (hv_owned w s Hv a Ha) as (z & o & Ez & Ed).
    exists (if decide (z = y) then x else z), o. split; [|done]. cbn. case_decide as Hzy; subst.
    + rewrite lookup_insert_ne, lookup_insert_eq by done. congruence.
    + rewrite !lookup_insert_ne by congruence. done.
  - intros z z' a [Hz Oz]%Ho [Hz' Oz']%Ho. pose proof (hv_once w s Hv _ _ _ Oz Oz') as E.
    destruct (decide (z = x)), (decide (z' = x)); congruence.
  - apply Hv.
Qed.
(** The object and its buffer are written. *)
Lemma write_holds w s x o a p : holds_values w s → w_objects w !! x = Some o → po_data o = Some a →
  length (pg_data p) = Z.to_nat kPageSize →
  holds_values (mkWorld (<[a := pg_data p]> (w_heap w))
    (<[x := mkPageObject (pg_header p) (Some a) (pg_dirty p) (pg_pinCount p) true]> (w_objects w)) (w_fresh w))
    (<[x := Some p]> s).
Proof.
  intros Hv Ex Ed Hl. assert (Hx : owns w x a) by by exists o. pose proof (owns_live w s x a Hv Hx) as Ha.
  assert (∀ z a', owns (mkWorld (<[a := pg_data p]> (w_heap w))
    (<[x := mkPageObject (pg_header p) (Some a) (pg_dirty p) (pg_pinCount p) true]> (w_objects w)) (w_fresh w)) z a' → owns w z a') as Ho.
  { intros z a' (o' & E & Ed'). cbn in E. destruct (decide (z = x)) as [-> | Hne].
    - rewrite lookup_insert_eq in E. injection E as <-. cbn in Ed'. congruence.
    - rewrite lookup_insert_ne in E by done. by exists o'. }
  split; cbn.
  - intros z. destruct (decide (z = x)) as [-> | Hne]; [rewrite !lookup_insert_eq; constructor; [by rewrite lookup_insert_eq|done]|].
    rewrite !lookup_insert_ne by done. eapply rel_frame; [|apply Hv].
    intros a' Ha'. apply lookup_insert_ne. intros <-. destruct (w_objects w !! z) as [oz|] eqn:Ez; [|done]. cbn in Ha'.
    apply Hne. eapply (hv_once w s Hv z x a); [exists oz; naive_solver|done].
  - intros a' Ha'. destruct (hv_owned w s Hv a') as (z & o' & Ez & Ed').
    { destruct (decide (a' = a)) as [-> | Hne]; [done|]. by rewrite lookup_insert_ne in Ha'. }
    destruct (decide (z = x)) as [-> | Hne]; [eexists x, _; cbn; rewrite lookup_insert_eq; split; [done|cbn; congruence]|].
    exists z, o'. cbn. by rewrite lookup_insert_ne.
  - intros z z' a' Hz%Ho Hz'%Ho. by eapply (hv_once w s Hv).
  - intros a' Ha'. apply Hv. destruct (decide (a' = a)) as [-> | Hne]; [done|]. by rewrite lookup_insert_ne in Ha'.
Qed.
(** A new object with a buffer nobody had. *)
Lemma create_holds w s x p : holds_values w s → w_objects w !! x = None → length (pg_data p) = Z.to_nat kPageSize →
  holds_values (mkWorld (<[w_fresh w := pg_data p]> (w_heap w))
    (<[x := mkPageObject (pg_header p) (Some (w_fresh w)) (pg_dirty p) (pg_pinCount p) true]> (w_objects w)) (S (w_fresh w)))
    (<[x := Some p]> s).
Proof.
  intros Hv Ex Hl.
  assert (Hnew : ∀ z a, owns w z a → a ≠ w_fresh w).
  { intros z a Hz ->. pose proof (hv_fresh w s Hv _ (owns_live w s z _ Hv Hz)). lia. }
  split; cbn.
  - intros z. destruct (decide (z = x)) as [-> | Hne]; [rewrite !lookup_insert_eq; constructor; [by rewrite lookup_insert_eq|done]|].
    rewrite !lookup_insert_ne by done. eapply rel_frame; [|apply Hv].
    intros a Ha. apply lookup_insert_ne. destruct (w_objects w !! z) as [oz|] eqn:Ez; [|done]. cbn in Ha.
    apply not_eq_sym, (Hnew z). exists oz. naive_solver.
  - intros a Ha. destruct (decide (a = w_fresh w)) as [-> | Hne].
    { eexists x, _. cbn. by rewrite lookup_insert_eq. }
    rewrite lookup_insert_ne in Ha by done. destruct (hv_owned w s Hv a Ha) as (z & o & Ez & Ed).
    exists z, o. cbn. rewrite lookup_insert_ne; [done|]. congruence.
  - assert (∀ z a o, <[x := mkPageObject (pg_header p) (Some (w_fresh w)) (pg_dirty p) (pg_pinCount p) true]> (w_objects w) !! z = Some o →
      po_data o = Some a → (z = x ∧ a = w_fresh w) ∨ owns w z a) as Ho.
    { intros z a o E Ed. destruct (decide (z = x)) as [-> | Hne].
      - rewrite lookup_insert_eq in E. injection E as <-. cbn in Ed. left. split; congruence.
      - rewrite lookup_insert_ne in E by done. right. by exists o. }
    intros z z' a (o & E & Ed) (o' & E' & Ed'). cbn in *.
    destruct (Ho z a o E Ed) as [[-> ->]|Oz], (Ho z' _ o' E' Ed') as [[-> ?]|Oz']; try done.
    + exfalso. by eapply Hnew.
    + exfalso. by eapply Hnew.
    + by eapply (hv_once w s Hv).
  - intros a Ha. destruct (decide (a = w_fresh w)) as [-> | Hne]; [lia|]. rewrite lookup_insert_ne in Ha by done.
    pose proof (hv_fresh w s Hv a Ha). lia.
Qed.

(** ** Every legal step *)
Lemma splice_all bs (l : list Z) : length bs = length l → splice 0 bs l = bs.
Proof. unfold splice. intros E. rewrite take_0, E. cbn. by rewrite drop_all, app_nil_r. Qed.
Lemma length_make_bytes id type : length (PageHeader_bytes (PageHeader_make id type)) = 64%nat.
Proof. done. Qed.
Lemma length_make_buffer id type : length (page_buffer (PageHeader_make id type)) = Z.to_nat kPageSize.
Proof. unfold page_buffer. unfold zeros. rewrite length_splice; rewrite ?length_make_bytes, !length_replicate; [done|vm_compute; lia]. Qed.

Lemma live_object w s x : holds_values w s → is_Some (s !! x) → ∃ o, w_objects w !! x = Some o.
Proof. intros Hv Hx. exact (rel_live _ _ _ (hv_objects w s Hv x) Hx). Qed.
Lemma no_object w s x : holds_values w s → s !! x = None → w_objects w !! x = None.
Proof. intros Hv Hx. pose proof (hv_objects w s Hv x) as H. rewrite Hx in H. by inversion H. Qed.
Lemma page_object w s x p : holds_values w s → s !! x = Some (Some p) → ∃ a,
  w_objects w !! x = Some (mkPageObject (pg_header p) (Some a) (pg_dirty p) (pg_pinCount p) true) ∧
  w_heap w !! a = Some (pg_data p) ∧ length (pg_data p) = Z.to_nat kPageSize.
Proof. intros Hv Hx. pose proof (hv_objects w s Hv x) as H. rewrite Hx in H. inversion H; eauto. Qed.

Lemma step_construct w s x id type : holds_values w s → s !! x = None → ∃ w',
  Page_construct x id type w = Some w' ∧ holds_values w' (<[x := Some (Page_make id type)]> s).
Proof.
  intros Hv Hx. eexists. split.
  - unfold Page_construct, new_buffer, store. cbn. rewrite lookup_insert_eq. cbn. rewrite insert_insert_eq. done.
  - exact (create_holds w s x (Page_make id type) Hv (no_object w s x Hv Hx) (length_make_buffer id type)).
Qed.
Lemma step_destruct w s x : holds_values w s → is_Some (s !! x) → ∃ w',
  Page_destruct x w = Some w' ∧ holds_values w' (delete x s).
Proof.
  intros Hv Hx. destruct (live_object w s x Hv Hx) as (o & E). destruct (release_holds w s x o Hv E) as (w' & Er & Eo & H).
  unfold Page_destruct. rewrite E. cbn. rewrite Er. cbn. rewrite Eo. eauto.
Qed.
Lemma step_move w s x y : holds_values w s → s !! x = None → is_Some (s !! y) → ∃ w',
  Page_move x y w = Some w' ∧ holds_values w' (value_step (OpMove x y) s).
Proof.
  intros Hv Hx Hy. destruct (live_object w s y Hv Hy) as (o & E). unfold Page_move. rewrite E. cbn.
  eexists. split; [done|]. rewrite decide_False by (intros ->; rewrite Hx in Hy; by destruct Hy).
  apply transfer_holds; [done|by eapply no_object|done|]. intros ->. rewrite Hx in Hy. by destruct Hy.
Qed.
Lemma step_moveAssign w s x y : holds_values w s → is_Some (s !! x) → is_Some (s !! y) → ∃ w',
  Page_moveAssign x y w = Some w' ∧ holds_values w' (value_step (OpMoveAssign x y) s).
Proof.
  intros Hv Hx Hy. destruct (live_object w s x Hv Hx) as (this & Ex). destruct (live_object w s y Hv Hy) as (other & Ey).
  unfold Page_moveAssign. rewrite Ex. cbn. rewrite Ey. cbn. case_decide as Hxy; [eauto|].
  destruct (release_holds w s x this Hv Ex) as (w' & Er & Eo & H). rewrite Er. cbn. eexists. split; [done|].
  pose proof (transfer_holds _ _ x y other H (lookup_delete_eq _ _)) as T. cbn in T.
  rewrite !lookup_delete_ne in T by done. specialize (T Ey Hxy). unfold set_object in *. cbn in *.
  rewrite Eo. by rewrite !insert_delete_eq in T.
Qed.
Lemma step_reset w s x id type : holds_values w s → is_Some (mjoin (s !! x)) → ∃ w',
  PageObject_reset x id type w = Some w' ∧ holds_values w' (alter (fmap (Page_reset id type)) x s).
Proof.
  intros Hv Hx. destruct (s !! x) as [[p|]|] eqn:Es; [|by destruct Hx..].
  destruct (page_object w s x p Hv Es) as (a & Eo & Eh & Hl). eexists. split.
  - unfold PageObject_reset, store. rewrite Eo. cbn. rewrite Eh. cbn. rewrite lookup_insert_eq. cbn.
    rewrite insert_insert_eq, (splice_all (zeros _)) by (unfold zeros; by rewrite length_replicate). done.
  - pose proof (write_holds w s x _ a (Page_reset id type p) Hv Eo eq_refl (length_make_buffer id type)) as T.
    unfold set_object. cbn in *. replace (alter (fmap (Page_reset id type)) x s) with (<[x := Some (Page_reset id type p)]> s); [exact T|].
    apply map_eq. intros z. destruct (decide (z = x)) as [-> | Hne].
    + by rewrite lookup_insert_eq, lookup_alter_eq, Es.
    + by rewrite lookup_insert_ne, lookup_alter_ne.
Qed.
Lemma step_zeroFill w s x : holds_values w s → is_Some (s !! x) → ∃ w',
  PageObject_zeroFill x w = Some w' ∧ holds_values w' (alter (fmap Page_zeroFill) x s).
Proof.
  intros Hv Hx. destruct (s !! x) as [[p|]|] eqn:Es; [| |by destruct Hx].
  - destruct (page_object w s x p Hv Es) as (a & Eo & Eh & Hl). eexists. split.
    + unfold PageObject_zeroFill, store. rewrite Eo. cbn. rewrite Eh. cbn.
      rewrite (splice_all (zeros _)) by (unfold zeros; by rewrite length_replicate). done.
    + pose proof (write_holds w s x _ a (Page_zeroFill p) Hv Eo eq_refl (length_replicate _ _)) as T. cbn in T.
      rewrite (insert_id (w_objects w)) in T by done.
      replace (alter (fmap Page_zeroFill) x s) with (<[x := Some (Page_zeroFill p)]> s); [exact T|].
      apply map_eq. intros z. destruct (decide (z = x)) as [-> | Hne].
      * by rewrite lookup_insert_eq, lookup_alter_eq, Es.
      * by rewrite lookup_insert_ne, lookup_alter_ne.
  - pose proof (hv_objects w s Hv x) as H. rewrite Es in H. inversion H as [|Eo|]. exists w. split.
    + unfold PageObject_zeroFill. by rewrite <-Eo.
    + replace (alter (fmap Page_zeroFill) x s) with s; [done|]. apply map_eq. intros z.
      destruct (decide (z = x)) as [-> | Hne]; [by rewrite lookup_alter_eq, Es|by rewrite lookup_alter_ne].
Qed.

Lemma step_holds op w s : holds_values w s → op_legal op s = true → resets_husk op s = false → ∃ w',
  object_step op w = Some w' ∧ holds_values w' (value_step op s).
Proof.
  intros Hv Hl Hk. destruct op as [x id type|x|x y|x y|x id type|x]; cbn [op_legal object_step value_step resets_husk] in *;
    rewrite ?andb_true_iff, ?bool_decide_eq_true in Hl.
  - by apply step_construct.
  - by apply step_destruct.
  - destruct Hl. by apply step_move.
  - destruct Hl. by apply step_moveAssign.
  - apply step_reset; [done|]. destruct Hl as [[p|] Hx]; rewrite Hx in *; [by exists p|done].
  - by apply step_zeroFill.
Qed.

(** [reset] of a page that was moved from writes through its null pointer. *)
Lemma husk_fails op w s : holds_values w s → resets_husk op s = true → object_step op w = None.
Proof.
  intros Hv Hk. destruct op as [| | | |x id type|]; try done. cbn [resets_husk object_step] in *.
  pose proof (hv_objects w s Hv x) as H. destruct (s !! x) as [[p|]|]; try done. inversion H as [|Eo|].
  unfold PageObject_reset. by rewrite <-Eo.
Qed.
Lemma page_run_None ops : foldl (λ ow op, ow ≫= object_step op) None ops = None.
Proof. by induction ops. Qed.

Lemma run_holds ops : ∀ w s, holds_values w s → legal_run ops s = true →
  if husk_run ops s then page_run ops w = None
  else ∃ w', page_run ops w = Some w' ∧ holds_values w' (value_run ops s).
Proof.
  induction ops as [|op ops IH]; intros w s Hv; [cbn; eauto|]. cbn [legal_run husk_run]. rewrite andb_true_iff. intros [H1 H2].
  unfold page_run in *. cbn [foldl]. cbn [mbind option_bind]. destruct (resets_husk op s) eqn:Hk; cbn [orb].
  - rewrite (husk_fails op w s Hv Hk). apply page_run_None.
  - destruct (step_holds op w s Hv H1 Hk) as (w1 & E1 & Hv1). rewrite E1. exact (IH w1 _ Hv1 H2).
Qed.

(** C19: Page objects own their buffers.  Take any sequence of constructions,
    moves, move-assignments (of a page to itself too), resets, fills and
    destructions that the language allows: objects are constructed where there is
    none and used while they live.  It meets undefined behaviour (a [delete[]] of
    a buffer that is not live, a write through a null pointer) exactly when it
    resets a page it has moved from.  Otherwise every object stands for the page
    the sequence of values gives it, every buffer still allocated belongs to
    exactly one object, and once all objects are destroyed none is left. *)
Theorem page_objects_own_buffers ops : legal_run ops ∅ = true →
  if husk_run ops ∅ then page_run ops World_empty = None
  else ∃ w,
    page_run ops World_empty = Some w ∧
    (∀ x, object_value w x = value_run ops ∅ !! x) ∧
    (∀ a, is_Some (w_heap w !! a) → ∃ x, owns w x a ∧ ∀ y, owns w y a → y = x) ∧
    (∀ x a, owns w x a → is_Some (w_heap w !! a)) ∧
    (value_run ops ∅ = ∅ → w_heap w = ∅).
Proof.
  intros Hl. pose proof (run_holds ops World_empty ∅ empty_holds Hl) as Hrun. destruct (husk_run ops ∅); [done|].
  destruct Hrun as (w & E & Hv). exists w. split_and!; [done|..].
  - intros x. apply rel_value, Hv.
  - intros a Ha. destruct (hv_owned w _ Hv a Ha) as (x & Hx). exists x. split; [done|]. intros y Hy. by eapply (hv_once w _ Hv).
  - intros x a. by eapply owns_live.
  - intros En. apply map_empty. intros a. destruct (w_heap w !! a) as [b|] eqn:Ea; [exfalso|done].
    destruct (hv_owned w _ Hv a ltac:(eauto)) as (x & o & Ex & _). rewrite En in Hv.
    by rewrite (no_object w ∅ x Hv (lookup_empty _)) in Ex.
Qed.

(** Witness: two pages, one moved out and assigned over the other, then to
    itself, and both objects destroyed: no buffer is left. *)
Lemma page_objects_own_buffers_witness :
  let ops := [OpConstruct 0 5 4; OpConstruct 1 6 4; OpMove 2 0; OpMoveAssign 1 2; OpMoveAssign 1 1;
              OpZeroFill 0; OpReset 1 9 3; OpDestruct 0; OpDestruct 1; OpDestruct 2] in
  (∃ w, page_run ops World_empty = Some w ∧ w_heap w = ∅) ∧
  page_run [OpConstruct 0 5 4; OpMove 1 0; OpReset 0 7 4] World_empty = None.
Proof.
  intros ops. split.
  - pose proof (page_objects_own_buffers ops eq_refl) as H. change (husk_run ops ∅) with false in H. cbv iota in H.
    destruct H as (w & E & _ & _ & _ & Hn). exists w. split; [exact E|]. apply Hn. reflexivity.
  - exact (page_objects_own_buffers [OpConstruct 0 5 4; OpMove 1 0; OpReset 0 7 4] eq_refl).
Defined.

(** [zeroFill] looks at the pointer before it writes, [reset] does not. *)
Example reset_of_moved_page :
  page_run [OpConstruct 0 5 4; OpMove 1 0; OpReset 0 7 4] World_empty = None ∧
  is_Some (page_run [OpConstruct 0 5 4; OpMove 1 0; OpZeroFill 0] World_empty).
Proof. split; [reflexivity|]. vm_compute. eauto. Qed.
