(* ===== verification/Keys.v ===== *)
(** Keys and key search (src/src/btree/Key.cpp, src/include/quartz/btree/Key.h,
    KeyComparator.h, BTreeTypes.h).

    A key is its tag with the payload of the union member the tag selects.  The
    comparison is shown to be a total order whose equality is equality of keys,
    and the binary searches to find the boundary of a sorted vector. *)
From stdpp Require Import base strings list pretty decidable sorting sets gmap.
From Stdlib Require Import ZArith Lia.
From S2P Require Import Prelude Config Buffers.

Definition kNodeBodyMagic : Z := 0x45525442.
Definition kMaxBinaryKeySize : Z := 256.

(** [KT_Other] is a byte cast to the enumeration that is none of its values. *)
Inductive KeyType : Set := KT_UInt32 | KT_UInt64 | KT_Binary | KT_Other (b : Z).
Definition KeyType_value (t : KeyType) : Z :=
  match t with KT_UInt32 => 1 | KT_UInt64 => 2 | KT_Binary => 3 | KT_Other b => b end.
Definition KeyType_cast (b : Z) : KeyType :=
  if b =? 1 then KT_UInt32 else if b =? 2 then KT_UInt64 else if b =? 3 then KT_Binary else KT_Other b.

Inductive NodeType : Set := Leaf | Internal.
Definition NodeType_value (t : NodeType) : Z := match t with Leaf => 1 | Internal => 2 end.

#[global] Instance KeyType_eq_dec : EqDecision KeyType.
Proof. solve_decision. Defined.
#[global] Instance NodeType_eq_dec : EqDecision NodeType.
Proof. solve_decision. Defined.

Record BTreeNodeConfig : Set := mkNodeConfig {
  keyType : KeyType; binaryKeySize : Z; allowDuplicates : bool; level : Z }.
Definition BTreeNodeConfig_default : BTreeNodeConfig := mkNodeConfig KT_UInt32 0 false 0.

Definition minKeyCount (capacity : Z) (isRoot : bool) : Z := if isRoot then 0 else capacity / 2.
Definition isUnderfull (keyCount capacity : Z) (isRoot : bool) : bool :=
  negb isRoot && (keyCount <? minKeyCount capacity false).

Inductive Key : Set := KeyUInt32 (v : Z) | KeyUInt64 (v : Z) | KeyBinary (bytes : list Z).

#[global] Instance Key_eq_dec : EqDecision Key.
Proof. solve_decision. Defined.

Definition Key_type (k : Key) : KeyType :=
  match k with KeyUInt32 _ => KT_UInt32 | KeyUInt64 _ => KT_UInt64 | KeyBinary _ => KT_Binary end.
Definition binarySize (k : Key) : Z := match k with KeyBinary bs => zlen bs | _ => 0 end.

Definition Key_default : Key := KeyUInt32 0.

(** [fromBinary(data, size)]: no test against the 256-byte storage, which
    [memcpy] overruns for a longer key; with a null pointer nothing is copied and
    the storage stays zeroed, but the key claims [size] bytes all the same (and
    whoever reads more than 256 of them leaves the storage). *)
Definition fromBinary (data : option (list Z)) (size : Z) : outcome Key :=
  match data with
  | Some bytes =>
      if kMaxBinaryKeySize <? size then UB else Ok (KeyBinary (ztake size bytes))
  | None => Ok (KeyBinary (zeros (Z.to_nat size)))
  end.
(** [fromBinary(vector)]: the size is cast to 16 bits. *)
Definition fromBinary_vector (data : list Z) : outcome Key := fromBinary (Some data) (u16 (zlen data)).

(** The loop over the common prefix, then the sizes. *)
Fixpoint binary_compare (xs ys : list Z) : Z :=
  match xs, ys with
  | x :: xs, y :: ys => if x <? y then -1 else if y <? x then 1 else binary_compare xs ys
  | [], _ :: _ => -1
  | _ :: _, [] => 1
  | [], [] => 0
  end.

Definition Key_compare (a b : Key) : Z :=
  if bool_decide (Key_type a ≠ Key_type b) then
    if KeyType_value (Key_type a) <? KeyType_value (Key_type b) then -1 else 1
  else
    match a, b with
    | KeyUInt32 x, KeyUInt32 y | KeyUInt64 x, KeyUInt64 y =>
        if x <? y then -1 else if y <? x then 1 else 0
    | KeyBinary xs, KeyBinary ys => binary_compare xs ys
    | _, _ => 0
    end.

Definition Key_eqb (a b : Key) : bool := Key_compare a b =? 0.
Definition Key_ltb (a b : Key) : bool := Key_compare a b <? 0.
Definition Key_leb (a b : Key) : bool := Key_compare a b <=? 0.
Definition Key_gtb (a b : Key) : bool := 0 <? Key_compare a b.
Definition Key_geb (a b : Key) : bool := 0 <=? Key_compare a b.

Definition serializedSize (k : Key) : Z :=
  match k with
  | KeyUInt32 _ => 1 + 4
  | KeyUInt64 _ => 1 + 8
  | KeyBinary bs => 1 + 2 + zlen bs
  end.

Definition Key_serialize (k : Key) : M BinaryWriter unit :=
  _ ← BinaryWriter_write 1 (KeyType_value (Key_type k));
  match k with
  | KeyUInt32 v => BinaryWriter_write 4 v
  | KeyUInt64 v => BinaryWriter_write 8 v
  | KeyBinary bs =>
      _ ← BinaryWriter_write 2 (zlen bs);
      if 0 <? zlen bs then BinaryWriter_writeBytes bs else mret tt
  end.

Definition Key_deserialize (binaryKeySize : Z) : M BinaryReader Key :=
  typeByte ← BinaryReader_read 1;
  if typeByte =? 1 then v ← BinaryReader_read 4; mret (KeyUInt32 v)
  else if typeByte =? 2 then v ← BinaryReader_read 8; mret (KeyUInt64 v)
  else if typeByte =? 3 then
    size ← BinaryReader_read 2;
    if (0 <? binaryKeySize) && negb (size =? binaryKeySize)
    then lift (corruption "Key: binary key size mismatch")
    else if kMaxBinaryKeySize <? size
    then lift (corruption "Key: binary key exceeds maximum size")
    else if 0 <? size then bs ← BinaryReader_readBytes size; mret (KeyBinary bs)
    else mret (KeyBinary [])
  else lift (corruption "Key: unknown key type").

(** [h ^= x + 0x9e3779b9 + (h << 6) + (h >> 2)] on 64 bits. *)
Definition hash_step (h x : Z) : Z :=
  Z.lxor h (u64 (x + 0x9e3779b9 + u64 (Z.shiftl h 6) + Z.shiftr h 2)).
Definition Key_hash (k : Key) : Z :=
  let h := KeyType_value (Key_type k) in
  match k with
  | KeyUInt32 v | KeyUInt64 v => hash_step h v
  | KeyBinary bs => foldl hash_step h bs
  end.

Fixpoint join_bytes (bs : list Z) : string :=
  match bs with
  | [] => ""
  | [b] => pretty b
  | b :: bs => (pretty b +:+ "," +:+ join_bytes bs)%string
  end.
Definition Key_toString (k : Key) : string :=
  match k with
  | KeyUInt32 v => ("Key(u32:" +:+ pretty v +:+ ")")%string
  | KeyUInt64 v => ("Key(u64:" +:+ pretty v +:+ ")")%string
  | KeyBinary bs => ("Key(bin:" +:+ pretty (zlen bs) +:+ ":[" +:+ join_bytes bs +:+ "])")%string
  end.

(** ** KeyComparator *)

(** The [while (lo < hi)] of both searches; [right] is the test that moves
    [lo].  Every round shrinks [hi - lo], so the size of the vector is enough
    fuel. *)
Fixpoint bound_loop (fuel : nat) (right : Key → bool) (keys : list Key) (lo hi : nat) : nat :=
  match fuel with
  | O => lo
  | S fuel =>
      if (lo <? hi)%nat then
        let mid := (lo + (hi - lo) / 2)%nat in
        match keys !! mid with
        | Some k => if right k then bound_loop fuel right keys (S mid) hi
                    else bound_loop fuel right keys lo mid
        | None => lo
        end
      else lo
  end.

Definition lowerBound (keys : list Key) (key : Key) : nat :=
  bound_loop (length keys) (λ k, Key_ltb k key) keys 0 (length keys).
Definition upperBound (keys : list Key) (key : Key) : nat :=
  bound_loop (length keys) (λ k, Key_leb k key) keys 0 (length keys).
Definition KeyComparator_find (keys : list Key) (key : Key) : nat :=
  let pos := lowerBound keys key in
  match keys !! pos with
  | Some k => if Key_eqb k key then pos else length keys
  | None => length keys
  end.

(** ** The order *)

(** A key as the sequence of numbers the comparison goes through. *)
Definition key_code (k : Key) : list Z :=
  match k with
  | KeyUInt32 v => [1; v]
  | KeyUInt64 v => [2; v]
  | KeyBinary bs => 3 :: bs
  end.

Lemma Key_compare_code a b : Key_compare a b = binary_compare (key_code a) (key_code b).
Proof. destruct a, b; cbn; try done. Qed.

Lemma key_code_inj a b : key_code a = key_code b → a = b.
Proof. destruct a, b; cbn; intros; simplify_eq; done. Qed.

Lemma binary_compare_refl xs : binary_compare xs xs = 0.
Proof. induction xs as [|x xs IH]; [done|]. cbn. by rewrite Z.ltb_irrefl. Qed.

Lemma binary_compare_eq xs ys : binary_compare xs ys = 0 ↔ xs = ys.
Proof.
  split; [|intros ->; apply binary_compare_refl].
  revert ys. induction xs as [|x xs IH]; intros [|y ys]; cbn; try done.
  destruct (Z.ltb_spec x y), (Z.ltb_spec y x); try done. intros ?%IH. f_equal; [lia|done].
Qed.

Lemma binary_compare_antisym xs ys : binary_compare ys xs = - binary_compare xs ys.
Proof.
  revert ys. induction xs as [|x xs IH]; intros [|y ys]; cbn; try done.
  destruct (Z.ltb_spec x y), (Z.ltb_spec y x); auto; lia.
Qed.

Lemma binary_compare_trans xs ys zs :
  binary_compare xs ys <= 0 → binary_compare ys zs <= 0 → binary_compare xs zs <= 0.
Proof.
  revert ys zs. induction xs as [|x xs IH]; intros [|y ys] [|z zs]; cbn; try lia.
  destruct (Z.ltb_spec x y), (Z.ltb_spec y x), (Z.ltb_spec y z), (Z.ltb_spec z y),
    (Z.ltb_spec x z), (Z.ltb_spec z x); try lia. apply IH.
Qed.

Definition key_lt (a b : Key) : Prop := Key_compare a b < 0.
Definition key_le (a b : Key) : Prop := Key_compare a b <= 0.

#[global] Instance key_lt_dec a b : Decision (key_lt a b).
Proof. unfold key_lt. apply _. Defined.
#[global] Instance key_le_dec a b : Decision (key_le a b).
Proof. unfold key_le. apply _. Defined.

Lemma Key_compare_eq a b : Key_compare a b = 0 ↔ a = b.
Proof.
  rewrite Key_compare_code, binary_compare_eq. split; [apply key_code_inj|by intros ->].
Qed.
Lemma Key_compare_antisym a b : Key_compare b a = - Key_compare a b.
Proof. rewrite !Key_compare_code. apply binary_compare_antisym. Qed.
Lemma key_le_trans a b c : key_le a b → key_le b c → key_le a c.
Proof. unfold key_le. rewrite !Key_compare_code. apply binary_compare_trans. Qed.
Lemma key_le_refl a : key_le a a.
Proof. unfold key_le. by rewrite (proj2 (Key_compare_eq a a)). Qed.
Lemma key_le_lteq a b : key_le a b ↔ key_lt a b ∨ a = b.
Proof. unfold key_le, key_lt. rewrite <-Key_compare_eq. lia. Qed.
Lemma key_nle_lt a b : ¬ key_le a b ↔ key_lt b a.
Proof. unfold key_le, key_lt. rewrite (Key_compare_antisym a b). lia. Qed.
Lemma key_nlt_le a b : ¬ key_lt a b ↔ key_le b a.
Proof. unfold key_le, key_lt. rewrite (Key_compare_antisym a b). lia. Qed.
Lemma key_lt_irrefl a : ¬ key_lt a a.
Proof. unfold key_lt. by rewrite (proj2 (Key_compare_eq a a)). Qed.
Lemma key_lt_le a b : key_lt a b → key_le a b.
Proof. unfold key_le, key_lt. lia. Qed.
Lemma key_lt_le_trans a b c : key_lt a b → key_le b c → key_lt a c.
Proof.
  intros H1 H2. apply key_nle_lt. intros H3. apply key_nle_lt in H1. apply H1.
  by apply key_le_trans with c.
Qed.
Lemma key_le_lt_trans a b c : key_le a b → key_lt b c → key_lt a c.
Proof.
  intros H1 H2. apply key_nle_lt. intros H3. apply key_nle_lt in H2. apply H2.
  by apply key_le_trans with a.
Qed.
Lemma key_lt_trans a b c : key_lt a b → key_lt b c → key_lt a c.
Proof. intros. eapply key_lt_le_trans; [done|]. by apply key_lt_le. Qed.

Lemma Key_ltb_spec a b : Key_ltb a b = true ↔ key_lt a b.
Proof. unfold Key_ltb. apply Z.ltb_lt. Qed.
Lemma Key_leb_spec a b : Key_leb a b = true ↔ key_le a b.
Proof. unfold Key_leb. apply Z.leb_le. Qed.
Lemma Key_eqb_spec a b : Key_eqb a b = true ↔ a = b.
Proof. unfold Key_eqb. by rewrite Z.eqb_eq, Key_compare_eq. Qed.
Lemma Key_ltb_false a b : Key_ltb a b = false ↔ key_le b a.
Proof. by rewrite <-key_nlt_le, <-Key_ltb_spec, not_true_iff_false. Qed.
Lemma Key_leb_false a b : Key_leb a b = false ↔ key_lt b a.
Proof. by rewrite <-key_nle_lt, <-Key_leb_spec, not_true_iff_false. Qed.

(** ** Searching *)

Lemma bound_loop_spec right fuel keys xs ys lo hi :
  keys = xs ++ ys → Forall (λ k, right k = true) xs → Forall (λ k, right k = false) ys →
  (lo <= length xs <= hi)%nat → (hi <= length keys)%nat → (hi - lo <= fuel)%nat →
  bound_loop fuel right keys lo hi = length xs.
Proof.
  intros -> Hxs Hys. revert lo hi. induction fuel as [|fuel IH]; intros lo hi Hr Hl Hf.
  { cbn. lia. }
  cbn [bound_loop]. destruct (Nat.ltb_spec lo hi); [|lia].
  assert ((hi - lo) / 2 < hi - lo)%nat by (apply Nat.div_lt; lia).
  set (mid := (lo + (hi - lo) / 2)%nat) in *.
  destruct (decide (mid < length xs)%nat) as [Hlt|Hge].
  - rewrite lookup_app_l by done. destruct (lookup_lt_is_Some_2 xs mid Hlt) as [x Hx].
    rewrite Hx, (proj1 (Forall_lookup _ _) Hxs _ _ Hx). apply IH; lia.
  - rewrite lookup_app_r by lia.
    destruct (lookup_lt_is_Some_2 ys (mid - length xs)) as [y Hy].
    { rewrite length_app in Hl. lia. }
    rewrite Hy, (proj1 (Forall_lookup _ _) Hys _ _ Hy). apply IH; lia.
Qed.

Lemma bound_loop_le right fuel keys lo hi :
  (lo <= hi)%nat → (bound_loop fuel right keys lo hi <= hi)%nat.
Proof.
  revert lo hi. induction fuel as [|fuel IH]; intros lo hi Hle; cbn [bound_loop]; [done|].
  destruct (Nat.ltb_spec lo hi); [|done].
  assert ((hi - lo) / 2 < hi - lo)%nat by (apply Nat.div_lt; lia).
  case_match; [|done]. case_match; [apply IH; lia|].
  etransitivity; [apply IH; lia|lia].
Qed.

Lemma lowerBound_le keys key : (lowerBound keys key <= length keys)%nat.
Proof. apply bound_loop_le. lia. Qed.
Lemma upperBound_le keys key : (upperBound keys key <= length keys)%nat.
Proof. apply bound_loop_le. lia. Qed.

Notation sorted_le := (StronglySorted key_le).
Notation sorted_lt := (StronglySorted key_lt).

Lemma sorted_lt_le keys : sorted_lt keys → sorted_le keys.
Proof.
  induction 1 as [|k keys _ IH Hk]; constructor; [done|].
  eapply Forall_impl; [exact Hk|]. intros. by apply key_lt_le.
Qed.

(** The two searches cut a sorted vector at the key. *)
Lemma lowerBound_cut keys key : sorted_le keys →
  ∃ xs ys, keys = xs ++ ys ∧ lowerBound keys key = length xs ∧
    Forall (λ k, key_lt k key) xs ∧ Forall (λ k, key_le key k) ys.
Proof.
  intros Hs. destruct (sorted_partition key_le (λ k, Key_ltb k key) keys Hs) as (xs & ys & -> & Hx & Hy).
  { intros x y Hxy. rewrite !Key_ltb_spec. by apply key_le_lt_trans. }
  exists xs, ys. split; [done|]. split; [|split].
  - apply bound_loop_spec with ys; rewrite ?length_app; auto; lia.
  - eapply Forall_impl; [exact Hx|]. intros k. by rewrite Key_ltb_spec.
  - eapply Forall_impl; [exact Hy|]. intros k. by rewrite Key_ltb_false.
Qed.

Lemma upperBound_cut keys key : sorted_le keys →
  ∃ xs ys, keys = xs ++ ys ∧ upperBound keys key = length xs ∧
    Forall (λ k, key_le k key) xs ∧ Forall (λ k, key_lt key k) ys.
Proof.
  intros Hs. destruct (sorted_partition key_le (λ k, Key_leb k key) keys Hs) as (xs & ys & -> & Hx & Hy).
  { intros x y Hxy. rewrite !Key_leb_spec. by apply key_le_trans. }
  exists xs, ys. split; [done|]. split; [|split].
  - apply bound_loop_spec with ys; rewrite ?length_app; auto; lia.
  - eapply Forall_impl; [exact Hx|]. intros k. by rewrite Key_leb_spec.
  - eapply Forall_impl; [exact Hy|]. intros k. by rewrite Key_leb_false.
Qed.

(** [find] returns the first occurrence, or the size when there is none. *)
Lemma KeyComparator_find_spec keys key : sorted_le keys →
  let pos := KeyComparator_find keys key in
  (key ∈ keys → keys !! pos = Some key ∧ ∀ i, keys !! i = Some key → (pos <= i)%nat) ∧
  (key ∉ keys → pos = length keys).
Proof.
  intros Hs. unfold KeyComparator_find. destruct (lowerBound_cut keys key Hs) as (xs & ys & -> & -> & Hx & Hy).
  assert (Hnx : key ∉ xs).
  { intros Hin. rewrite Forall_forall in Hx. by apply (key_lt_irrefl key), Hx. }
  cbv zeta. rewrite (lookup_app_r xs ys (length xs)), Nat.sub_diag by done.
  destruct ys as [|y ys]; cbn [lookup list_lookup].
  { rewrite app_nil_r. split; [intros Hin; by destruct (Hnx Hin)|done]. }
  rewrite elem_of_app. destruct (Key_eqb y key) eqn:He; cbn.
  - apply Key_eqb_spec in He as ->. split; [|set_solver]. intros _.
    rewrite lookup_app_r, Nat.sub_diag by done. split; [done|]. intros i Hi.
    destruct (decide (i < length xs)%nat); [|lia]. rewrite lookup_app_l in Hi by done.
    by apply list_elem_of_lookup_2 in Hi.
  - split; [|done]. intros [?|Hin]; [done|]. exfalso.
    apply elem_of_cons in Hin as [<-|Hin]; [rewrite (proj2 (Key_eqb_spec key key)) in He; done|].
    apply Forall_cons in Hy as [Hy _]. apply StronglySorted_app_iff in Hs as (_ & Hs & _).
    apply StronglySorted_inv in Hs as [_ Hs]. rewrite Forall_forall in Hs. specialize (Hs key Hin).
    assert (y = key) as ->.
    { apply Key_compare_eq. unfold key_le in *. rewrite (Key_compare_antisym y key) in Hy. lia. }
    by rewrite (proj2 (Key_eqb_spec key key)) in He.
Qed.

(** ** The wire format *)

Definition key_wire (k : Key) : list Z :=
  le_bytes 1 (KeyType_value (Key_type k)) ++
  match k with
  | KeyUInt32 v => le_bytes 4 v
  | KeyUInt64 v => le_bytes 8 v
  | KeyBinary bs => le_bytes 2 (zlen bs) ++ bs
  end.

(** Keys as the constructors build them from in-range data. *)
Definition Key_ok (k : Key) : Prop :=
  match k with
  | KeyUInt32 v => in_u 32 v
  | KeyUInt64 v => in_u 64 v
  | KeyBinary bs => zlen bs <= kMaxBinaryKeySize ∧ bytes_ok bs
  end.

Lemma zlen_key_wire k : zlen (key_wire k) = serializedSize k.
Proof.
  unfold key_wire. rewrite zlen_app. destruct k; unfold zlen; rewrite ?length_app, ?length_le_bytes;
    cbn [serializedSize]; unfold zlen; lia.
Qed.

Lemma Key_serialize_emits k : emits (Key_serialize k) (key_wire k).
Proof.
  unfold Key_serialize, key_wire. apply emits_bind; [auto with quartz|].
  destruct k as [v|v|bs]; [auto with quartz..|]. apply emits_bind; [auto with quartz|].
  destruct (Z.ltb_spec 0 (zlen bs)); [auto with quartz|].
  assert (bs = []) as -> by (destruct bs; [done|unfold zlen in *; cbn in *; lia]). apply emits_nil.
Qed.

Lemma Key_deserialize_parses bks k : Key_ok k →
  (∀ bs, k = KeyBinary bs → 0 < bks → zlen bs = bks) → parses (Key_deserialize bks) (key_wire k) k.
Proof.
  intros Hk Hb. unfold Key_deserialize, key_wire. apply parses_bind with (KeyType_value (Key_type k)).
  { apply parses_read. destruct k; cbn; lia. }
  destruct k as [v|v|bs]; cbn [KeyType_value Key_type Z.eqb Pos.eqb].
  - rewrite <-(app_nil_r (le_bytes 4 v)). apply parses_bind with v; [apply parses_read; exact Hk|apply parses_ret].
  - rewrite <-(app_nil_r (le_bytes 8 v)). apply parses_bind with v; [apply parses_read; exact Hk|apply parses_ret].
  - destruct Hk as [Hl _]. unfold kMaxBinaryKeySize in *. pose proof (zlen_nonneg bs).
    apply parses_bind with (zlen bs); [apply parses_read; cbn; lia|].
    replace ((0 <? bks) && negb (zlen bs =? bks)) with false.
    2:{ destruct (Z.ltb_spec 0 bks); [|done]. rewrite (Hb bs eq_refl) by done. by rewrite Z.eqb_refl. }
    rewrite (proj2 (Z.ltb_ge _ _)) by lia. destruct (Z.ltb_spec 0 (zlen bs)).
    + rewrite <-(app_nil_r bs) at 2. apply parses_bind with bs; [apply parses_readBytes|apply parses_ret].
    + assert (bs = []) as -> by (destruct bs; [done|unfold zlen in *; cbn in *; lia]). apply parses_ret.
Qed.

(** ** Properties *)

(** [Key::compare] is a total order over keys of all three types, and its
    zero is equality of type and payload: reflexive and antisymmetric as a
    three-way comparison, transitive, and only ever -1, 0 or 1. *)
Theorem key_compare_total_order a b c :
  (Key_compare a b = 0 ↔ a = b) ∧ Key_compare b a = - Key_compare a b ∧
  (Key_leb a b = true → Key_leb b c = true → Key_leb a c = true) ∧
  (Key_ltb a b = true → Key_leb b c = true → Key_ltb a c = true) ∧
  (Key_compare a b = -1 ∨ Key_compare a b = 0 ∨ Key_compare a b = 1).
Proof.
  split; [apply Key_compare_eq|]. split; [apply Key_compare_antisym|].
  rewrite !Key_leb_spec, !Key_ltb_spec. split; [apply key_le_trans|]. split; [apply key_lt_le_trans|].
  rewrite Key_compare_code. generalize (key_code a) (key_code b). clear.
  intros xs. induction xs as [|x xs IH]; intros [|y ys]; cbn; auto.
  destruct (x <? y), (y <? x); auto.
Qed.

Lemma key_compare_total_order_witness :
  Key_leb (KeyUInt32 7) (KeyBinary [0; 255]) = true ∧
  Key_leb (KeyUInt32 7) (KeyBinary [1]) = true.
Proof.
  split; [reflexivity|].
  apply (key_compare_total_order (KeyUInt32 7) (KeyBinary [0; 255]) (KeyBinary [1])); reflexivity.
Defined.

Lemma filter_cut {A} (P : A → Prop) `{∀ x, Decision (P x)} (xs ys : list A) :
  Forall P xs → Forall (λ y, ¬ P y) ys → filter P (xs ++ ys) = xs.
Proof.
  intros Hx Hy. induction Hx as [|x xs Hx _ IH]; cbn [app].
  - induction Hy as [|y ys Hy _ IH]; [done|]. by rewrite filter_cons_False.
  - rewrite filter_cons_True by done. by rewrite IH.
Qed.

(** C30: The binary searches are correct on every sorted vector, duplicates
    included: [lowerBound] is the number of keys below the key, [upperBound] the
    number of keys not above it, and [find] the position of the first occurrence
    or the size of the vector when the key is absent. *)
Theorem key_search_correct keys key : StronglySorted key_le keys →
  lowerBound keys key = length (filter (λ k, key_lt k key) keys) ∧
  upperBound keys key = length (filter (λ k, key_le k key) keys) ∧
  (key ∈ keys → keys !! KeyComparator_find keys key = Some key ∧
     ∀ i, keys !! i = Some key → (KeyComparator_find keys key <= i)%nat) ∧
  (key ∉ keys → KeyComparator_find keys key = length keys).
Proof.
  intros Hs. split; [|split; [|by apply KeyComparator_find_spec]].
  - destruct (lowerBound_cut keys key Hs) as (xs & ys & -> & -> & Hx & Hy).
    rewrite filter_cut; [done|exact Hx|].
    eapply Forall_impl; [exact Hy|]. intros k Hk. by apply key_nlt_le.
  - destruct (upperBound_cut keys key Hs) as (xs & ys & -> & -> & Hx & Hy).
    rewrite filter_cut; [done|exact Hx|].
    eapply Forall_impl; [exact Hy|]. intros k Hk. by apply key_nle_lt.
Qed.

Lemma key_search_correct_witness :
  lowerBound [KeyUInt32 1; KeyUInt32 4; KeyUInt32 4; KeyUInt32 9] (KeyUInt32 4) = 1%nat ∧
  upperBound [KeyUInt32 1; KeyUInt32 4; KeyUInt32 4; KeyUInt32 9] (KeyUInt32 4) = 3%nat.
Proof.
  assert (Hs : StronglySorted key_le [KeyUInt32 1; KeyUInt32 4; KeyUInt32 4; KeyUInt32 9])
    by (repeat constructor; vm_compute; discriminate).
  destruct (key_search_correct _ (KeyUInt32 4) Hs) as (-> & -> & _). split; vm_compute; reflexivity.
Defined.

(** Keys round-trip through storage that is already there: serializing a
    key inside a buffer writes exactly [serializedSize] bytes, changes nothing
    else, and deserializing from that position returns the key and stops behind
    it. *)
Theorem key_roundtrip_in_place k bks w pre old post : Key_ok k →
  (∀ bs, k = KeyBinary bs → 0 < bks → zlen bs = bks) →
  Writer_ok w → buf_bytes (w_buffer w) = pre ++ old ++ post → w_offset w = zlen pre →
  zlen old = serializedSize k →
  ∃ w' bs, Key_serialize k w = (Ok tt, w') ∧ zlen bs = serializedSize k ∧
    buf_bytes (w_buffer w') = pre ++ bs ++ post ∧ w_offset w' = zlen (pre ++ bs) ∧
    Key_deserialize bks (reading pre (bs ++ post)) = (Ok k, reading (pre ++ bs) post).
Proof.
  intros Hk Hb Hw Hbuf Hoff Hold. pose proof (zlen_key_wire k) as Hz.
  destruct (in_place_roundtrip _ _ _ _ w pre old post (Key_serialize_emits k) (Key_deserialize_parses bks k Hk Hb))
    as (w' & H1 & H2 & H3 & H4); [done..|unfold zlen in *; lia|].
  exists w', (key_wire k). auto.
Qed.

Lemma key_roundtrip_in_place_witness :
  ∃ w' bs, Key_serialize (KeyBinary [7; 8]) (mkWriter (mkBuffer (zeros 9) 64) 2) = (Ok tt, w') ∧
    Key_deserialize 2 (reading [0; 0] (bs ++ [0; 0])) = (Ok (KeyBinary [7; 8]), reading ([0; 0] ++ bs) [0; 0]).
Proof.
  destruct (key_roundtrip_in_place (KeyBinary [7; 8]) 2 (mkWriter (mkBuffer (zeros 9) 64) 2)
              [0; 0] [0; 0; 0; 0; 0] [0; 0]) as (w' & bs & H1 & _ & _ & _ & H2).
  - split; [by vm_compute|]. repeat constructor; lia.
  - intros bs [= <-] _. reflexivity.
  - repeat split; by vm_compute.
  - reflexivity.
  - reflexivity.
  - reflexivity.
  - exists w', bs. split; [exact H1|exact H2].
Defined.

(** A key serialized at the end of a buffer cannot be read back: whatever
    the key, the appended bytes are zeros (see [BinaryWriter::writeBytes]) and
    [deserialize] answers with an unknown key type. *)
Theorem key_append_unreadable k bks cap : zlen (key_wire k) <= 2 ^ 62 → 0 <= cap <= 2 ^ 63 →
  ∃ w', Key_serialize k (BinaryWriter_make (mkBuffer [] cap)) = (Ok tt, w') ∧
    (Key_deserialize bks (BinaryReader_make (buf_bytes (w_buffer w')))).1 =
      corruption "Key: unknown key type".
Proof.
  intros Hl Hc. destruct (emits_end _ _ (mkBuffer [] cap) (Key_serialize_emits k)) as (w' & H1 & _ & _ & H2).
  { unfold Buffer_size. cbn [buf_bytes]. change (zlen []) with 0. lia. }
  { done. }
  exists w'. split; [done|]. rewrite H2. cbn [buf_bytes app].
  destruct (zeros (length (key_wire k))) as [|z zs] eqn:Hz.
  { exfalso. unfold key_wire, zeros in Hz. rewrite length_app, length_le_bytes in Hz. done. }
  assert (z = 0 ∧ zs = zeros (length zs)) as [-> Hzs].
  { unfold zeros in *. destruct (length (key_wire k)); [done|]. cbn in Hz. injection Hz as <- <-.
    by rewrite length_replicate. }
  unfold Key_deserialize, mbind at 1, M_bind at 1.
  assert (Hr : BinaryReader_read 1 (BinaryReader_make (0 :: zs)) = (Ok 0, reading ([] ++ [0]) zs)).
  { apply (parses_read 1 0 ltac:(cbn; lia) [] zs).
    assert (zlen (0 :: zs) = zlen (key_wire k)).
    { rewrite <-Hz. unfold zlen, zeros. by rewrite length_replicate. }
    change ([] ++ le_bytes 1 0 ++ zs) with (0 :: zs). lia. }
  by rewrite Hr.
Qed.

Lemma key_append_unreadable_witness :
  ∃ w', Key_serialize (KeyUInt32 42) (BinaryWriter_make (mkBuffer [] 64)) = (Ok tt, w') ∧
    (Key_deserialize 0 (BinaryReader_make (buf_bytes (w_buffer w')))).1 =
      corruption "Key: unknown key type".
Proof. apply key_append_unreadable; [by vm_compute|lia]. Defined.

(** A vector of 65540 bytes becomes a key of four: the size is cut to 16 bits. *)
Example fromBinary_truncates :
  fromBinary_vector (replicate (Z.to_nat 65540) 7) = Ok (KeyBinary [7; 7; 7; 7]).
Proof. vm_compute. reflexivity. Qed.
