(* ===== verification/Nodes.v ===== *)
(** B-tree nodes on index pages (src/include/quartz/format/PageReference.h,
    src/src/pages/IndexPage.cpp, src/src/btree/BTreeNode.cpp, LeafNode.cpp,
    InternalNode.cpp, NodeValidator.cpp, SplitMergePlanner.cpp).

    A node is its index page (the layout fields and the 3992-byte data area),
    its configuration and parent, and the decoded vectors.  [sync*] and [load*]
    move between the vectors and the data area through the serialization
    layer. *)
From stdpp Require Import base strings list decidable sorting gmap.
From Stdlib Require Import ZArith Lia.
From S2P Require Import Prelude Config Doubles Buffers Pages Keys.

(** ** PageReference *)
Record PageReference : Set := mkPageReference {
  pr_pageId : Z; pr_generation : Z; pr_pageType : Z; pr_flags : Z; pr_reserved1 : Z; pr_checksum : Z }.

#[global] Instance PageReference_eq_dec : EqDecision PageReference.
Proof. solve_decision. Defined.

Definition PageReference_kSize : Z := 20.
Definition PageReference_isValid (r : PageReference) : bool := negb (pr_pageId r =? kInvalidPageId).
Definition PageReference_eqb (a b : PageReference) : bool :=
  (pr_pageId a =? pr_pageId b) && (pr_generation a =? pr_generation b) &&
  (pr_pageType a =? pr_pageType b) && (pr_flags a =? pr_flags b).
Definition PageReference_make (id gen type : Z) : PageReference := mkPageReference id gen type 0 0 0.
Definition PageReference_invalid : PageReference := mkPageReference kInvalidPageId 0 0 0 0 0.

(** The packed memory image, and its reading. *)
Definition ref_wire (r : PageReference) : list Z :=
  le_bytes 4 (pr_pageId r) ++ le_bytes 8 (pr_generation r) ++ le_bytes 1 (pr_pageType r) ++
  le_bytes 1 (pr_flags r) ++ le_bytes 2 (pr_reserved1 r) ++ le_bytes 4 (pr_checksum r).
Definition ref_of_bytes (bs : list Z) : PageReference :=
  mkPageReference (le_value (take 4 bs)) (le_value (take 8 (drop 4 bs)))
    (le_value (take 1 (drop 12 bs))) (le_value (take 1 (drop 13 bs)))
    (le_value (take 2 (drop 14 bs))) (le_value (take 4 (drop 16 bs))).
Definition write_ref (r : PageReference) : M BinaryWriter unit := BinaryWriter_writeBytes (ref_wire r).
Definition read_ref : M BinaryReader PageReference :=
  bs ← BinaryReader_readBytes PageReference_kSize; mret (ref_of_bytes bs).

(** ** IndexPage

    The header member of an index page and the header at the start of its buffer
    are the same in every page of the tree, so the record has one.  [create] goes
    through [BasePage::reset], which gives the page the number of the layout type. *)
Record IndexPage : Set := mkIndexPage {
  ip_header : PageHeader; ip_nodeType : Z; ip_keyCount : Z; ip_capacity : Z; ip_flags : Z;
  ip_reserved : list Z; ip_data : list Z }.

Definition ip_id (p : IndexPage) : Z := ph_pageId (ip_header p).

Definition kIndexDataSize : Z := 3992.
Definition IndexPage_create (pageId : Z) : IndexPage :=
  mkIndexPage (PageHeader_make pageId (PageLayoutType_value PL_Index)) 0 0 0 0 [0; 0; 0] (zeros (Z.to_nat kIndexDataSize)).
Definition IndexPage_validate (p : IndexPage) : outcome unit :=
  if negb ((0 <? ip_capacity p) && (ip_keyCount p <=? ip_capacity p))
  then corruption "IndexPage: invalid layout" else Ok tt.

Definition setKeyCount (c : Z) (p : IndexPage) : IndexPage :=
  mkIndexPage (ip_header p) (ip_nodeType p) c (ip_capacity p) (ip_flags p) (ip_reserved p) (ip_data p).
Definition set_data (d : list Z) (p : IndexPage) : IndexPage :=
  mkIndexPage (ip_header p) (ip_nodeType p) (ip_keyCount p) (ip_capacity p) (ip_flags p) (ip_reserved p) d.
Definition set_reserved0 (v : Z) (p : IndexPage) : IndexPage :=
  mkIndexPage (ip_header p) (ip_nodeType p) (ip_keyCount p) (ip_capacity p) (ip_flags p)
    (<[0%nat := v]> (ip_reserved p)) (ip_data p).

(** ** BTreeNode *)
Record BTreeNode : Set := mkBTreeNode {
  page_ : IndexPage; config_ : BTreeNodeConfig; parent_ : PageReference }.

Definition kBodyHeaderSize : Z := 4 + PageReference_kSize + 4 + 1 + 1 + 2.
Definition maxBodyBytes : Z := kIndexDataSize.
Definition entryAreaSize : Z := kIndexDataSize - kBodyHeaderSize.

Definition keyWireSize (c : BTreeNodeConfig) : Z :=
  match keyType c with
  | KT_UInt32 => 1 + 4
  | KT_UInt64 => 1 + 8
  | KT_Binary => 1 + 2 + binaryKeySize c
  | KT_Other _ => 0
  end.
Definition entrySize (c : BTreeNodeConfig) (type : NodeType) : Z :=
  match type with
  | Leaf => keyWireSize c + PageReference_kSize
  | Internal => keyWireSize c + PageReference_kSize
  end.
Definition computeCapacity (c : BTreeNodeConfig) (type : NodeType) : Z :=
  let entry := entrySize c type in
  if entry =? 0 then 0
  else
    let available := if kBodyHeaderSize <? maxBodyBytes then maxBodyBytes - kBodyHeaderSize else 0 in
    match type with
    | Internal =>
        if available <=? PageReference_kSize then 0
        else u32 ((available - PageReference_kSize) / entry)
    | Leaf => u32 (available / entry)
    end.

Definition keyCount (n : BTreeNode) : Z := ip_keyCount (page_ n).
Definition capacity (n : BTreeNode) : Z := ip_capacity (page_ n).
Definition node_flags (n : BTreeNode) : Z := ip_flags (page_ n).
Definition node_level (n : BTreeNode) : Z := level (config_ n).
(** [hasFlag(flags(), NodeFlags::AllowDuplicates)]. *)
Definition allows_duplicates (n : BTreeNode) : bool := Z.land (node_flags n) 1 =? 1.

Definition set_page (p : IndexPage) (n : BTreeNode) : BTreeNode := mkBTreeNode p (config_ n) (parent_ n).
Definition setParent (r : PageReference) (n : BTreeNode) : BTreeNode :=
  mkBTreeNode (page_ n) (config_ n) r.
Definition with_level (l : Z) (c : BTreeNodeConfig) : BTreeNodeConfig :=
  mkNodeConfig (keyType c) (binaryKeySize c) (allowDuplicates c) l.
Definition setLevel (l : Z) (n : BTreeNode) : BTreeNode :=
  mkBTreeNode (set_reserved0 l (page_ n)) (with_level l (config_ n)) (parent_ n).

Definition freeSlots (n : BTreeNode) : Z :=
  if keyCount n <? capacity n then capacity n - keyCount n else 0.

(** The writes of [syncHeader]. *)
Definition header_writes (n : BTreeNode) : M BinaryWriter unit :=
  _ ← BinaryWriter_write 4 kNodeBodyMagic;
  _ ← write_ref (parent_ n);
  _ ← BinaryWriter_write 4 (level (config_ n));
  _ ← BinaryWriter_write 1 (KeyType_value (keyType (config_ n)));
  _ ← BinaryWriter_write 1 (if allowDuplicates (config_ n) then 1 else 0);
  BinaryWriter_write 2 (binaryKeySize (config_ n)).

Definition syncHeader : M BTreeNode unit :=
  n ← get;
  '(_, w) ← local (BinaryWriter_make Buffer_empty) (header_writes n);
  if kIndexDataSize <? w_offset w
  then lift (corruption "BTreeNode: body header exceeds data area")
  else modify (λ n,
    set_page (set_reserved0 (level (config_ n))
      (set_data (splice 0 (ztake (w_offset w) (buf_bytes (w_buffer w))) (ip_data (page_ n)))
         (page_ n))) n).

(** [loadHeader]: fields read before a failing read keep their new value. *)
Definition loadHeader : M BTreeNode unit := λ n,
  let rd {A} (m : M BinaryReader A) (r : BinaryReader) (n : BTreeNode)
         (k : A → BinaryReader → outcome unit * BTreeNode) : outcome unit * BTreeNode :=
    match m r with
    | (Ok a, r) => k a r
    | (Err e, _) => (Err e, n)
    | (Throw w, _) => (Throw w, n)
    | (UB, _) => (UB, n)
    | (Fuel, _) => (Fuel, n)
    end in
  rd (BinaryReader_read 4) (BinaryReader_make (ip_data (page_ n))) n (λ magic r,
  if negb (magic =? kNodeBodyMagic) && negb (magic =? 0)
  then (corruption "BTreeNode: invalid body magic", n)
  else if magic =? 0 then
    (Ok tt, mkBTreeNode (page_ n)
       (with_level (u32 (nth 0 (ip_reserved (page_ n)) 0)) (config_ n)) PageReference_invalid)
  else
    rd read_ref r n (λ parent r, let n := setParent parent n in
    rd (BinaryReader_read 4) r n (λ lvl r,
      let n := mkBTreeNode (page_ n) (with_level lvl (config_ n)) (parent_ n) in
    rd (BinaryReader_read 1) r n (λ kt r,
      let c := config_ n in
      let n := mkBTreeNode (page_ n)
        (mkNodeConfig (KeyType_cast kt) (binaryKeySize c) (allowDuplicates c) (level c)) (parent_ n) in
    rd (BinaryReader_read 1) r n (λ dup r,
      let c := config_ n in
      let n := mkBTreeNode (page_ n)
        (mkNodeConfig (keyType c) (binaryKeySize c) (negb (dup =? 0)) (level c)) (parent_ n) in
    rd (BinaryReader_read 2) r n (λ bks r,
      let c := config_ n in
      (Ok tt, mkBTreeNode (page_ n)
        (mkNodeConfig (keyType c) bks (allowDuplicates c) (level c)) (parent_ n)))))))).

Definition initializeHeader (type : NodeType) (config : BTreeNodeConfig) : M BTreeNode unit :=
  _ ← modify (λ n,
    mkBTreeNode
      (mkIndexPage (ip_header (page_ n)) (NodeType_value type) 0 (computeCapacity config type)
         (if allowDuplicates config then 1 else 0) [level config; 0; 0]
         (zeros (Z.to_nat kIndexDataSize)))
      config PageReference_invalid);
  ignore syncHeader.

Definition BTreeNode_validate (n : BTreeNode) : outcome unit := IndexPage_validate (page_ n).

(** [BTreeNode(page)]. *)
Definition BTreeNode_make (p : IndexPage) : BTreeNode :=
  (loadHeader (mkBTreeNode p BTreeNodeConfig_default PageReference_invalid)).2.

(** The loops that write and read (key, reference) entries. *)
Fixpoint writeEntries (keys : list Key) (refs : list PageReference) : M BinaryWriter unit :=
  match keys, refs with
  | [], _ => mret tt
  | k :: keys, r :: refs => _ ← Key_serialize k; _ ← write_ref r; writeEntries keys refs
  | k :: _, [] => _ ← Key_serialize k; lift UB
  end.

(** Entries pushed before a failing read stay in the vectors. *)
Fixpoint readEntries (n : nat) (bks : Z) (keys : list Key) (refs : list PageReference)
    (r : BinaryReader) : outcome unit * (list Key * list PageReference) :=
  match n with
  | O => (Ok tt, (keys, refs))
  | S n =>
      match (k ← Key_deserialize bks; ref ← read_ref; mret (k, ref)) r with
      | (Ok (k, ref), r) => readEntries n bks (keys ++ [k]) (refs ++ [ref]) r
      | (Err e, _) => (Err e, (keys, refs))
      | (Throw w, _) => (Throw w, (keys, refs))
      | (UB, _) => (UB, (keys, refs))
      | (Fuel, _) => (Fuel, (keys, refs))
      end
  end.

(** [memset] of the entry area, then [memcpy] of what was written. *)
Definition store_entries (bytes : list Z) (p : IndexPage) : IndexPage :=
  set_data (ztake kBodyHeaderSize (ip_data p) ++
            splice 0 bytes (zeros (Z.to_nat entryAreaSize))) p.

(** The test of both [validate]s on neighbouring keys. *)
Fixpoint sorted_check (dup : bool) (prev : Key) (keys : list Key) : bool :=
  match keys with
  | [] => true
  | k :: keys => (Key_ltb prev k || (dup && Key_eqb prev k)) && sorted_check dup k keys
  end.
Definition keys_sorted_check (dup : bool) (keys : list Key) : bool :=
  match keys with [] => true | k :: keys => sorted_check dup k keys end.

(** ** LeafNode *)
Record LeafNode : Set := mkLeafNode {
  lf_node : BTreeNode; lf_keys : list Key; lf_refs : list PageReference }.

Definition on_leaf_node {A} (m : M BTreeNode A) : M LeafNode A :=
  zoom lf_node (λ n l, mkLeafNode n (lf_keys l) (lf_refs l)) m.
Definition set_leaf_entries (keys : list Key) (refs : list PageReference) : M LeafNode unit :=
  modify (λ l, mkLeafNode
    (set_page (setKeyCount (u32 (Z.of_nat (length keys))) (page_ (lf_node l))) (lf_node l)) keys refs).

Definition LeafNode_syncEntries : M LeafNode unit :=
  _ ← on_leaf_node syncHeader;
  l ← get;
  '(_, w) ← local (BinaryWriter_make Buffer_empty) (writeEntries (lf_keys l) (lf_refs l));
  if entryAreaSize <? w_offset w
  then lift (corruption "LeafNode: entry data exceeds page capacity")
  else
    on_leaf_node (modify (λ n,
      set_page (setKeyCount (u32 (Z.of_nat (length (lf_keys l))))
        (store_entries (ztake (w_offset w) (buf_bytes (w_buffer w))) (page_ n))) n)).

Definition LeafNode_loadEntries : M LeafNode unit :=
  _ ← modify (λ l, mkLeafNode (lf_node l) [] []);
  _ ← on_leaf_node loadHeader;
  (λ l, let '(o, (keys, refs)) :=
          readEntries (Z.to_nat (keyCount (lf_node l))) (binaryKeySize (config_ (lf_node l))) [] []
            (BinaryReader_make (zdrop kBodyHeaderSize (ip_data (page_ (lf_node l))))) in
        (o, mkLeafNode (lf_node l) keys refs)) : M LeafNode unit.

(** [fromPage]: the status of the load is discarded. *)
Definition LeafNode_fromPage (p : IndexPage) : LeafNode :=
  (LeafNode_loadEntries (mkLeafNode (BTreeNode_make p) [] [])).2.
Definition LeafNode_create (pageId : Z) (config : BTreeNodeConfig) : LeafNode :=
  let l := LeafNode_fromPage (IndexPage_create pageId) in
  (on_leaf_node (initializeHeader Leaf config) l).2.

Definition LeafNode_find (key : Key) (l : LeafNode) : nat := KeyComparator_find (lf_keys l) key.
Definition LeafNode_lowerBound (key : Key) (l : LeafNode) : nat := lowerBound (lf_keys l) key.
Definition LeafNode_upperBound (key : Key) (l : LeafNode) : nat := upperBound (lf_keys l) key.
Definition LeafNode_keyAt (i : nat) (l : LeafNode) : outcome Key := at_ (lf_keys l) i.
Definition LeafNode_referenceAt (i : nat) (l : LeafNode) : outcome PageReference := at_ (lf_refs l) i.
Definition LeafNode_contains (key : Key) (l : LeafNode) : bool :=
  (LeafNode_find key l <? length (lf_keys l))%nat.

Definition LeafNode_insert (key : Key) (ref : PageReference) : M LeafNode unit := λ l,
  if negb (PageReference_isValid ref)
  then (invalidArgument "LeafNode: invalid page reference", l)
  else if capacity (lf_node l) <=? keyCount (lf_node l)
  then (invalidArgument "LeafNode: node is full", l)
  else
    let pos := lowerBound (lf_keys l) key in
    if negb (allows_duplicates (lf_node l)) &&
       (match lf_keys l !! pos with Some k => Key_eqb k key | None => false end)
    then (invalidArgument "LeafNode: duplicate key", l)
    else (_ ← set_leaf_entries (vinsert pos key (lf_keys l)) (vinsert pos ref (lf_refs l));
          LeafNode_syncEntries) l.

Definition LeafNode_eraseAt (index : nat) : M LeafNode unit := λ l,
  if (length (lf_keys l) <=? index)%nat
  then (invalidArgument "LeafNode: index out of range", l)
  else (_ ← set_leaf_entries (verase index (lf_keys l)) (verase index (lf_refs l));
        LeafNode_syncEntries) l.

Definition LeafNode_erase (key : Key) : M LeafNode unit := λ l,
  let pos := LeafNode_find key l in
  if (length (lf_keys l) <=? pos)%nat
  then (invalidArgument "LeafNode: key not found", l)
  else LeafNode_eraseAt pos l.

Definition LeafNode_assignEntries (keys : list Key) (refs : list PageReference) : M LeafNode unit := λ l,
  if negb (length keys =? length refs)%nat
  then (invalidArgument "LeafNode: key/reference size mismatch", l)
  else if capacity (lf_node l) <? Z.of_nat (length keys)
  then (invalidArgument "LeafNode: exceeds capacity", l)
  else (_ ← set_leaf_entries keys refs; LeafNode_syncEntries) l.

Definition LeafNode_validate (l : LeafNode) : outcome unit :=
  _ ← BTreeNode_validate (lf_node l);
  if negb (ip_nodeType (page_ (lf_node l)) =? NodeType_value Leaf)
  then corruption "LeafNode: wrong node type"
  else if negb (length (lf_keys l) =? length (lf_refs l))%nat
  then corruption "LeafNode: key/reference count mismatch"
  else if negb (Z.of_nat (length (lf_keys l)) =? keyCount (lf_node l))
  then corruption "LeafNode: header key count mismatch"
  else if negb (keys_sorted_check (allows_duplicates (lf_node l)) (lf_keys l))
  then corruption "LeafNode: keys not sorted"
  else Ok tt.

Definition LeafNode_serializeBody (l : LeafNode) : M BinaryWriter unit :=
  writeEntries (lf_keys l) (lf_refs l).

(** ** InternalNode *)
Record InternalNode : Set := mkInternalNode {
  in_node : BTreeNode; in_keys : list Key; in_children : list PageReference }.

Definition on_internal_node {A} (m : M BTreeNode A) : M InternalNode A :=
  zoom in_node (λ n i, mkInternalNode n (in_keys i) (in_children i)) m.
Definition set_internal_entries (keys : list Key) (children : list PageReference) : M InternalNode unit :=
  modify (λ i, mkInternalNode
    (set_page (setKeyCount (u32 (Z.of_nat (length keys))) (page_ (in_node i))) (in_node i)) keys children).

Definition InternalNode_serializeBody (i : InternalNode) : M BinaryWriter unit :=
  _ ← write_ref (match in_children i with c :: _ => c | [] => PageReference_invalid end);
  writeEntries (in_keys i) (drop 1 (in_children i)).

Definition InternalNode_syncEntries : M InternalNode unit :=
  _ ← on_internal_node syncHeader;
  i ← get;
  '(_, w) ← local (BinaryWriter_make Buffer_empty)
     (_ ← write_ref (match in_children i with c :: _ => c | [] => PageReference_invalid end);
      writeEntries (in_keys i) (drop 1 (in_children i)));
  if entryAreaSize <? w_offset w
  then lift (corruption "InternalNode: entry data exceeds page capacity")
  else
    on_internal_node (modify (λ n,
      set_page (setKeyCount (u32 (Z.of_nat (length (in_keys i))))
        (store_entries (ztake (w_offset w) (buf_bytes (w_buffer w))) (page_ n))) n)).

Definition InternalNode_loadEntries : M InternalNode unit :=
  _ ← modify (λ i, mkInternalNode (in_node i) [] []);
  _ ← on_internal_node loadHeader;
  (λ i,
    match read_ref (BinaryReader_make (zdrop kBodyHeaderSize (ip_data (page_ (in_node i))))) with
    | (Ok leftChild, r) =>
        let '(o, (keys, children)) :=
          readEntries (Z.to_nat (keyCount (in_node i))) (binaryKeySize (config_ (in_node i)))
            [] [leftChild] r in
        (o, mkInternalNode (in_node i) keys children)
    | (Err e, _) => (Err e, i)
    | (Throw w, _) => (Throw w, i)
    | (UB, _) => (UB, i)
    | (Fuel, _) => (Fuel, i)
    end) : M InternalNode unit.

Definition InternalNode_fromPage (p : IndexPage) : InternalNode :=
  (InternalNode_loadEntries (mkInternalNode (BTreeNode_make p) [] [])).2.
Definition InternalNode_create (pageId : Z) (config : BTreeNodeConfig) : InternalNode :=
  let i := InternalNode_fromPage (IndexPage_create pageId) in
  let i := (on_internal_node (initializeHeader Internal config) i).2 in
  mkInternalNode (in_node i) (in_keys i) [PageReference_invalid].

Definition InternalNode_lowerBound (key : Key) (n : InternalNode) : nat := lowerBound (in_keys n) key.
Definition InternalNode_upperBound (key : Key) (n : InternalNode) : nat := upperBound (in_keys n) key.
Definition InternalNode_find (key : Key) (n : InternalNode) : nat := KeyComparator_find (in_keys n) key.
Definition InternalNode_keyAt (i : nat) (n : InternalNode) : outcome Key := at_ (in_keys n) i.
Definition InternalNode_childAt (i : nat) (n : InternalNode) : outcome PageReference :=
  at_ (in_children n) i.

Definition InternalNode_insert (index : nat) (key : Key) (rightChild : PageReference)
    : M InternalNode unit := λ i,
  if negb (PageReference_isValid rightChild)
  then (invalidArgument "InternalNode: invalid right child reference", i)
  else if (length (in_keys i) <? index)%nat
  then (invalidArgument "InternalNode: index out of range", i)
  else if capacity (in_node i) <=? Z.of_nat (length (in_keys i))
  then (invalidArgument "InternalNode: node is full", i)
  else if negb (allows_duplicates (in_node i)) && existsb (λ k, Key_eqb k key) (in_keys i)
  then (invalidArgument "InternalNode: duplicate key", i)
  else (_ ← set_internal_entries (vinsert index key (in_keys i))
              (vinsert (index + 1) rightChild (in_children i));
        InternalNode_syncEntries) i.

Definition InternalNode_eraseAt (index : nat) : M InternalNode unit := λ i,
  if (length (in_keys i) <=? index)%nat
  then (invalidArgument "InternalNode: index out of range", i)
  else (_ ← set_internal_entries (verase index (in_keys i)) (verase (index + 1) (in_children i));
        InternalNode_syncEntries) i.

Definition InternalNode_setKeyAt (index : nat) (key : Key) : M InternalNode unit := λ i,
  if (length (in_keys i) <=? index)%nat
  then (invalidArgument "InternalNode: key index out of range", i)
  else InternalNode_syncEntries
         (mkInternalNode (in_node i) (<[index := key]> (in_keys i)) (in_children i)).

Definition InternalNode_assignEntries (keys : list Key) (children : list PageReference)
    : M InternalNode unit := λ i,
  if negb (length children =? length keys + 1)%nat
  then (invalidArgument "InternalNode: child count mismatch", i)
  else if capacity (in_node i) <? Z.of_nat (length keys)
  then (invalidArgument "InternalNode: exceeds capacity", i)
  else (_ ← set_internal_entries keys children; InternalNode_syncEntries) i.

Definition InternalNode_validate (i : InternalNode) : outcome unit :=
  _ ← BTreeNode_validate (in_node i);
  if negb (ip_nodeType (page_ (in_node i)) =? NodeType_value Internal)
  then corruption "InternalNode: wrong node type"
  else if negb (length (in_children i) =? length (in_keys i) + 1)%nat
  then corruption "InternalNode: child count mismatch"
  else if negb (Z.of_nat (length (in_keys i)) =? keyCount (in_node i))
  then corruption "InternalNode: header key count mismatch"
  else if negb (keys_sorted_check (allows_duplicates (in_node i)) (in_keys i))
  then corruption "InternalNode: keys not sorted"
  else Ok tt.

(** ** NodeValidator::validateSerializedBody *)
Fixpoint skipEntries (n : nat) (bks : Z) : M BinaryReader unit :=
  match n with
  | O => mret tt
  | S n => _ ← Key_deserialize bks; _ ← read_ref; skipEntries n bks
  end.
Definition validateSerializedBody (config : BTreeNodeConfig) (type : NodeType) (keyCount : Z)
    : M BinaryReader unit :=
  match type with
  | Leaf => skipEntries (Z.to_nat keyCount) (binaryKeySize config)
  | Internal => _ ← read_ref; skipEntries (Z.to_nat keyCount) (binaryKeySize config)
  end.

(** ** SplitMergePlanner *)
Record SplitPlan : Set := mkSplitPlan {
  sp_feasible : bool; sp_splitPosition : Z; sp_promotedKey : Key;
  sp_leftOccupancy : double; sp_rightOccupancy : double }.
Definition SplitPlan_default : SplitPlan := mkSplitPlan false 0 Key_default (d_of_Z 0) (d_of_Z 0).
Record MergePlan : Set := mkMergePlan {
  mp_feasible : bool; mp_combinedOccupancy : double; mp_resultingKeyCount : Z }.

Definition percent (a b : Z) : double := d_mul (d_div (d_of_Z a) (d_of_Z b)) (d_of_Z 100).

Definition makeSplitPlan (keyCount capacity : Z) (promoted : Key) (splitPos : Z) : SplitPlan :=
  if (keyCount =? 0) || (capacity =? 0) then SplitPlan_default
  else mkSplitPlan ((0 <? splitPos) && (splitPos <? keyCount)) splitPos promoted
         (percent splitPos capacity) (percent (u32 (keyCount - splitPos)) capacity).

(** [planLeafSplit] and [planInternalSplit], on the header and the keys. *)
Definition plan_split (n : BTreeNode) (keys : list Key) : outcome SplitPlan :=
  let count := keyCount n in
  let cap := capacity n in
  if (count =? 0) || (cap =? 0) then Ok SplitPlan_default
  else
    let splitPos := u32 (d_trunc (d_mul (d_of_Z count) d_half)) in
    let pos := if 0 <? splitPos then splitPos else 1 in
    promoted ← at_ keys (Z.to_nat pos);
    Ok (makeSplitPlan count cap promoted pos).
Definition planLeafSplit (l : LeafNode) : outcome SplitPlan := plan_split (lf_node l) (lf_keys l).
Definition planInternalSplit (i : InternalNode) : outcome SplitPlan := plan_split (in_node i) (in_keys i).

Definition plan_merge (lhs rhs : BTreeNode) : MergePlan :=
  let combined := u32 (keyCount lhs + keyCount rhs) in
  let cap := capacity lhs in
  mkMergePlan (combined <=? cap) (if 0 <? cap then percent combined cap else d_of_Z 0) combined.
Definition planLeafMerge (lhs rhs : LeafNode) : MergePlan := plan_merge (lf_node lhs) (lf_node rhs).
Definition planInternalMerge (lhs rhs : InternalNode) : MergePlan := plan_merge (in_node lhs) (in_node rhs).
