(* ===== verification/NodeFacts.v ===== *)
(** Facts about the nodes: [sync*] never fails on entries that fit, the
    operations of leaves and internal nodes on every branch, and the leaf as a
    finite map from keys to page references. *)
From stdpp Require Import base strings list decidable sorting gmap.
From Stdlib Require Import ZArith Lia.
From S2P Require Import Prelude Config Doubles Buffers Pages Keys Nodes.

(** ** Writing a node into its page *)

Lemma emits_write_ref r : emits (write_ref r) (ref_wire r).
Proof. apply emits_writeBytes. Qed.
#[export] Hint Resolve emits_write_ref Key_serialize_emits : quartz.

Lemma zlen_ref_wire r : zlen (ref_wire r) = PageReference_kSize.
Proof.
  unfold ref_wire, zlen. rewrite !length_app, !length_le_bytes. reflexivity.
Qed.

Definition header_wire (n : BTreeNode) : list Z :=
  le_bytes 4 kNodeBodyMagic ++ ref_wire (parent_ n) ++ le_bytes 4 (level (config_ n)) ++
  le_bytes 1 (KeyType_value (keyType (config_ n))) ++
  le_bytes 1 (if allowDuplicates (config_ n) then 1 else 0) ++ le_bytes 2 (binaryKeySize (config_ n)).

Lemma header_writes_emits n : emits (header_writes n) (header_wire n).
Proof. unfold header_writes, header_wire. repeat (apply emits_bind; [auto with quartz|]). auto with quartz. Qed.

Lemma zlen_header_wire n : zlen (header_wire n) = kBodyHeaderSize.
Proof.
  unfold header_wire. rewrite !zlen_app, zlen_ref_wire. unfold zlen. rewrite !length_le_bytes. reflexivity.
Qed.

(** Running a serializer on an empty buffer, as every [sync*] does. *)
Lemma local_emits {S} m bs (s : S) : emits m bs → zlen bs <= 2 ^ 62 →
  ∃ w, local (BinaryWriter_make Buffer_empty) m s = (Ok (tt, w), s) ∧ w_offset w = zlen bs ∧
    buf_bytes (w_buffer w) = zeros (length bs).
Proof.
  intros Hm Hl. destruct (emits_end m bs Buffer_empty Hm) as (w & H1 & _ & H2 & H3).
  { unfold Buffer_size. cbn [Buffer_empty buf_bytes]. change (zlen []) with 0. lia. }
  { cbn. lia. }
  exists w. unfold local. rewrite H1. split; [done|]. cbn in H3. split; [|done].
  rewrite H2. unfold Buffer_size. by rewrite H3, zlen_zeros.
Qed.

Definition header_synced (n : BTreeNode) : BTreeNode :=
  set_page (set_reserved0 (level (config_ n))
    (set_data (splice 0 (zeros 32) (ip_data (page_ n))) (page_ n))) n.

Lemma ztake_all {A} (l : list A) n : n = zlen l → ztake n l = l.
Proof. intros ->. unfold ztake, zlen. rewrite Nat2Z.id. by apply take_ge. Qed.

Lemma syncHeader_eq n : syncHeader n = (Ok tt, header_synced n).
Proof.
  unfold syncHeader, mbind, M_bind, get.
  destruct (local_emits (header_writes n) (header_wire n) n) as (w & Hw & Ho & Hb).
  { apply header_writes_emits. } { rewrite zlen_header_wire. by vm_compute. }
  unfold mbind, M_bind. rewrite Hw, Ho, zlen_header_wire. change (kIndexDataSize <? kBodyHeaderSize) with false.
  cbv iota beta. unfold modify. do 2 f_equal. unfold header_synced. do 3 f_equal.
  assert (Hl : length (header_wire n) = 32%nat).
  { pose proof (zlen_header_wire n) as H. unfold zlen in H. change kBodyHeaderSize with 32 in H. lia. }
  rewrite Hb, Hl. reflexivity.
Qed.

(** ** Entries *)

Definition entry_wire (e : Key * PageReference) : list Z := key_wire e.1 ++ ref_wire e.2.
Definition entries_wire (keys : list Key) (refs : list PageReference) : list Z :=
  concat (entry_wire <$> zip keys refs).

Lemma entries_wire_cons k keys r refs :
  entries_wire (k :: keys) (r :: refs) = key_wire k ++ ref_wire r ++ entries_wire keys refs.
Proof.
  unfold entries_wire. change (zip (k :: keys) (r :: refs)) with ((k, r) :: zip keys refs).
  rewrite fmap_cons. cbn [concat]. unfold entry_wire at 1. cbn [fst snd]. by rewrite <-app_assoc.
Qed.

Lemma writeEntries_emits keys refs : (length keys <= length refs)%nat →
  emits (writeEntries keys refs) (entries_wire keys refs).
Proof.
  revert refs. induction keys as [|k keys IH]; intros [|r refs] Hl; cbn [length writeEntries] in *; try lia.
  1,2: apply emits_nil.
  rewrite entries_wire_cons.
  apply emits_bind; [auto with quartz|]. apply emits_bind; [auto with quartz|]. apply IH. lia.
Qed.

(** A key no longer than the configuration plans for. *)
Definition key_fits (c : BTreeNodeConfig) (k : Key) : Prop := serializedSize k <= keyWireSize c.

Lemma zlen_entries_wire c keys refs : Forall (key_fits c) keys →
  zlen (entries_wire keys refs) <= Z.of_nat (length keys) * entrySize c Leaf.
Proof.
  intros Hk. revert refs. induction Hk as [|k keys Hk _ IH]; intros [|r refs]; cbn [length].
  1,2: by change (zlen (entries_wire [] _)) with 0.
  - change (zlen (entries_wire (k :: keys) [])) with 0. unfold entrySize, PageReference_kSize, key_fits in *.
    pose proof (zlen_nonneg (key_wire k)). rewrite zlen_key_wire in *. nia.
  - rewrite entries_wire_cons, !zlen_app, zlen_key_wire, zlen_ref_wire.
    specialize (IH refs). unfold entrySize, key_fits in *. lia.
Qed.

Lemma entries_fit c n : 0 <= n <= computeCapacity c Leaf → n * entrySize c Leaf <= entryAreaSize.
Proof.
  intros Hn. unfold computeCapacity in Hn.
  destruct (Z.eqb_spec (entrySize c Leaf) 0) as [->|]; [rewrite Z.mul_0_r; by vm_compute|].
  change (kBodyHeaderSize <? maxBodyBytes) with true in Hn. cbv iota zeta in Hn.
  change (maxBodyBytes - kBodyHeaderSize) with entryAreaSize in Hn.
  destruct (Z.le_gt_cases (entrySize c Leaf) 0) as [Hneg|Hpos].
  { assert (0 <= entryAreaSize) by (by vm_compute). nia. }
  assert (Hdiv : u32 (entryAreaSize / entrySize c Leaf) <= entryAreaSize / entrySize c Leaf).
  { apply Z.mod_le; [apply Z.div_pos; [by vm_compute|done]|lia]. }
  assert (entrySize c Leaf * (entryAreaSize / entrySize c Leaf) <= entryAreaSize)
    by (by apply Z.mul_div_le). nia.
Qed.

Lemma internal_entries_fit c n : 0 <= n <= computeCapacity c Internal →
  PageReference_kSize + n * entrySize c Internal <= entryAreaSize.
Proof.
  intros Hn. unfold computeCapacity in Hn.
  destruct (Z.eqb_spec (entrySize c Internal) 0) as [->|]; [rewrite Z.mul_0_r; by vm_compute|].
  change (kBodyHeaderSize <? maxBodyBytes) with true in Hn. cbv iota zeta in Hn.
  change (maxBodyBytes - kBodyHeaderSize) with entryAreaSize in Hn.
  change (entryAreaSize <=? PageReference_kSize) with false in Hn. cbv iota in Hn.
  change (entryAreaSize - PageReference_kSize) with 3940 in Hn. change entryAreaSize with 3960.
  unfold PageReference_kSize.
  destruct (Z.le_gt_cases (entrySize c Internal) 0) as [Hneg|Hpos]; [nia|].
  assert (Hdiv : u32 (3940 / entrySize c Internal) <= 3940 / entrySize c Internal).
  { apply Z.mod_le; [apply Z.div_pos; lia|lia]. }
  assert (entrySize c Internal * (3940 / entrySize c Internal) <= 3940)
    by (by apply Z.mul_div_le). nia.
Qed.

Lemma computeCapacity_range c t : 0 <= computeCapacity c t < 2 ^ 32.
Proof.
  assert (Hu : ∀ x, 0 <= u32 x < 2 ^ 32) by (intros x; by apply (wrap_range 32 x)).
  unfold computeCapacity. destruct (_ =? 0); [lia|]. destruct t; [apply Hu|].
  destruct (_ <=? _); [lia|apply Hu].
Qed.

(** ** Well-formed nodes *)

(** What every operation on entries leaves alone. *)
Definition node_same (n n' : BTreeNode) : Prop :=
  ip_header (page_ n') = ip_header (page_ n) ∧ ip_nodeType (page_ n') = ip_nodeType (page_ n) ∧
  ip_capacity (page_ n') = ip_capacity (page_ n) ∧ ip_flags (page_ n') = ip_flags (page_ n) ∧
  config_ n' = config_ n ∧ parent_ n' = parent_ n ∧ length (ip_data (page_ n')) = length (ip_data (page_ n)).

#[global] Instance node_same_preorder : PreOrder node_same.
Proof.
  split; [by intros n; repeat split|].
  intros a b c (?&?&?&?&?&?&?) (?&?&?&?&?&?&?). repeat split; congruence.
Qed.

Definition node_wf (type : NodeType) (n : BTreeNode) : Prop :=
  ip_nodeType (page_ n) = NodeType_value type ∧
  ip_capacity (page_ n) = computeCapacity (config_ n) type ∧
  ip_flags (page_ n) = (if allowDuplicates (config_ n) then 1 else 0) ∧
  zlen (ip_data (page_ n)) = kIndexDataSize.

Lemma node_wf_same t n n' : node_wf t n → node_same n n' → node_wf t n'.
Proof.
  intros (?&?&?&?) (?&?&?&?&Hc&?&?). unfold node_wf, zlen in *. rewrite Hc.
  repeat split; congruence.
Qed.

Lemma allows_duplicates_wf t n : node_wf t n → allows_duplicates n = allowDuplicates (config_ n).
Proof.
  intros (_&_&Hf&_). unfold allows_duplicates, node_flags. rewrite Hf. by destruct (allowDuplicates _).
Qed.

Definition leaf_wf (l : LeafNode) : Prop :=
  node_wf Leaf (lf_node l) ∧ keyCount (lf_node l) = Z.of_nat (length (lf_keys l)) ∧
  length (lf_refs l) = length (lf_keys l) ∧
  Z.of_nat (length (lf_keys l)) <= capacity (lf_node l) ∧
  Forall (key_fits (config_ (lf_node l))) (lf_keys l).

Definition internal_wf (i : InternalNode) : Prop :=
  node_wf Internal (in_node i) ∧ keyCount (in_node i) = Z.of_nat (length (in_keys i)) ∧
  length (in_children i) = S (length (in_keys i)) ∧
  Z.of_nat (length (in_keys i)) <= capacity (in_node i) ∧
  Forall (key_fits (config_ (in_node i))) (in_keys i).

Lemma length_header_synced n : zlen (ip_data (page_ n)) = kIndexDataSize →
  length (ip_data (page_ (header_synced n))) = length (ip_data (page_ n)).
Proof.
  intros H. cbn [header_synced page_ set_page set_reserved0 set_data ip_data].
  apply length_splice. unfold zeros. rewrite length_replicate. unfold zlen, kIndexDataSize in H. lia.
Qed.

Lemma header_synced_same n : zlen (ip_data (page_ n)) = kIndexDataSize → node_same n (header_synced n).
Proof. intros H. repeat split; try done. by apply length_header_synced. Qed.

Lemma length_stored bytes p : zlen (ip_data p) = kIndexDataSize → zlen bytes <= entryAreaSize →
  zlen (ip_data (store_entries bytes p)) = kIndexDataSize.
Proof.
  intros Hd Hb. unfold store_entries. cbn [ip_data set_data]. rewrite zlen_app.
  unfold ztake, zlen in *. rewrite length_take, length_splice.
  - unfold zeros. rewrite length_replicate. unfold kIndexDataSize in *.
    change (entryAreaSize) with 3960. change kBodyHeaderSize with 32. lia.
  - unfold zeros. rewrite length_replicate. lia.
Qed.

Lemma zlen_ztake_zeros n (bs : list Z) bound : zlen bs <= bound → zlen (ztake n (zeros (length bs))) <= bound.
Proof.
  intros. unfold ztake, zlen, zeros in *. rewrite length_take, length_replicate. lia.
Qed.

(** The node after its entries were stored: first the count, then the header,
    then the entry area. *)
Definition stored (c1 c2 : Z) (bytes : list Z) (n : BTreeNode) : BTreeNode :=
  let n1 := header_synced (set_page (setKeyCount c1 (page_ n)) n) in
  set_page (setKeyCount c2 (store_entries bytes (page_ n1))) n1.

Lemma store_same n c1 c2 bytes : zlen (ip_data (page_ n)) = kIndexDataSize → zlen bytes <= entryAreaSize →
  node_same n (stored c1 c2 bytes n).
Proof.
  intros Hd Hb. set (n0 := set_page (setKeyCount c1 (page_ n)) n).
  assert (Hd0 : zlen (ip_data (page_ n0)) = kIndexDataSize) by done.
  repeat split; try done. change (length (ip_data (store_entries bytes (page_ (header_synced n0)))) =
    length (ip_data (page_ n))).
  assert (Hz : zlen (ip_data (store_entries bytes (page_ (header_synced n0)))) = kIndexDataSize).
  { apply length_stored; [|done]. unfold zlen. by rewrite length_header_synced. }
  unfold zlen in *. lia.
Qed.

(** A data area of zeros, which is what [stored] leaves: the bytes handed over
    were appended to an empty buffer. *)
Definition blank (n : BTreeNode) : Prop := ip_data (page_ n) = zeros (Z.to_nat kIndexDataSize).

Lemma splice_zeros k m n : (k <= n)%nat → splice 0 (ztake m (zeros k)) (zeros n) = zeros n.
Proof.
  intros Hk. unfold splice, ztake, zeros.
  rewrite !take_replicate, length_replicate, drop_replicate. cbn [Nat.min replicate app Nat.add].
  rewrite <-replicate_add. f_equal. lia.
Qed.

Lemma stored_blank n c1 c2 m (bs : list Z) : zlen (ip_data (page_ n)) = kIndexDataSize →
  zlen bs <= entryAreaSize → blank (stored c1 c2 (ztake m (zeros (length bs))) n).
Proof.
  intros Hd Hb. unfold blank, stored, store_entries.
  cbn [page_ set_page setKeyCount set_data ip_data header_synced set_reserved0].
  rewrite splice_zeros by (unfold zlen in Hb; lia).
  unfold splice, ztake. rewrite take_0, app_nil_l, take_app_length'; [reflexivity|by vm_compute].
Qed.

(** The bytes the entries of a leaf take in its page. *)
Definition entries_size (keys : list Key) : Z :=
  foldr (λ k n, serializedSize k + PageReference_kSize + n) 0 keys.

Lemma entries_wire_size keys refs : length refs = length keys → zlen (entries_wire keys refs) = entries_size keys.
Proof.
  revert refs. induction keys as [|k keys IH]; intros [|r refs] Hl; cbn in Hl; try lia; [done|].
  rewrite entries_wire_cons, !zlen_app, zlen_key_wire, zlen_ref_wire, IH by lia. cbn [entries_size foldr].
  unfold entries_size. lia.
Qed.

#[global] Instance entries_size_perm : Proper ((≡ₚ) ==> (=)) entries_size.
Proof. induction 1; cbn [entries_size foldr] in *; unfold entries_size in *; lia. Qed.

(** A leaf whose entries fit its page, whatever the sizes of the single keys. *)
Definition leaf_sound (l : LeafNode) : Prop :=
  node_wf Leaf (lf_node l) ∧ keyCount (lf_node l) = Z.of_nat (length (lf_keys l)) ∧
  length (lf_refs l) = length (lf_keys l) ∧
  Z.of_nat (length (lf_keys l)) <= capacity (lf_node l) ∧ entries_size (lf_keys l) <= entryAreaSize.

Lemma fitting_size c keys : Forall (key_fits c) keys → Z.of_nat (length keys) <= computeCapacity c Leaf →
  entries_size keys <= entryAreaSize.
Proof.
  intros Hf Hl. rewrite <-(entries_wire_size keys (replicate (length keys) PageReference_invalid))
    by apply length_replicate.
  etransitivity; [by apply zlen_entries_wire|]. apply entries_fit. lia.
Qed.

Lemma leaf_wf_sound l : leaf_wf l → leaf_sound l.
Proof.
  intros (Hwf & Hk & Hlen & Hcap & Hfit). split_and!; try done. apply (fitting_size (config_ (lf_node l))); [done|].
  destruct Hwf as (_ & Hc & _). unfold capacity in Hcap. lia.
Qed.

(** Replacing the entries and writing them out: the vectors are replaced in any
    case, and the call succeeds when the entries fit the page. *)
Lemma leaf_store_any keys refs l : node_wf Leaf (lf_node l) → length refs = length keys →
  Z.of_nat (length keys) <= capacity (lf_node l) → entries_size keys <= 2 ^ 62 →
  ∃ l', (_ ← set_leaf_entries keys refs; LeafNode_syncEntries) l =
      (if entryAreaSize <? entries_size keys then corruption "LeafNode: entry data exceeds page capacity" else Ok tt, l') ∧
    lf_keys l' = keys ∧ lf_refs l' = refs ∧
    (entries_size keys <= entryAreaSize → leaf_sound l' ∧ node_same (lf_node l) (lf_node l') ∧ blank (lf_node l')).
Proof.
  intros Hwf Hlen Hcap Hmax. pose proof Hwf as (Ht & Hc & Hf & Hd).
  unfold set_leaf_entries, LeafNode_syncEntries, on_leaf_node, zoom, mbind, M_bind, modify, get.
  cbn [lf_node]. rewrite syncHeader_eq. cbn [lf_node lf_keys lf_refs].
  set (n1 := set_page (setKeyCount (u32 (Z.of_nat (length keys))) (page_ (lf_node l))) (lf_node l)).
  pose proof (entries_wire_size keys refs Hlen) as Hsz.
  destruct (local_emits (writeEntries keys refs) (entries_wire keys refs)
              (mkLeafNode (header_synced n1) keys refs)) as (w & -> & Ho & Hb).
  { apply writeEntries_emits. lia. } { by rewrite Hsz. }
  rewrite Ho, Hsz. destruct (Z.ltb_spec entryAreaSize (entries_size keys)) as [Hover|Hfit].
  { eexists. split; [reflexivity|]. do 2 (split; [done|]). lia. }
  cbn [lf_node lf_keys lf_refs].
  assert (Hlr : u32 (Z.of_nat (length keys)) = Z.of_nat (length keys)).
  { apply u32_small. pose proof (computeCapacity_range (config_ (lf_node l)) Leaf). unfold capacity in *. lia. }
  assert (Hle : zlen (entries_wire keys refs) <= entryAreaSize) by lia.
  assert (Hsame := store_same (lf_node l) (u32 (Z.of_nat (length keys))) (u32 (Z.of_nat (length keys)))
    (ztake (entries_size keys) (buf_bytes (w_buffer w))) Hd
    ltac:(rewrite Hb; apply zlen_ztake_zeros, Hle)).
  eexists. split; [done|]. cbn [lf_keys lf_refs lf_node]. split; [done|]. split; [done|]. intros _.
  split; [|split; [exact Hsame|rewrite Hb; by apply stored_blank]]. split; [by eapply node_wf_same|].
  split; [exact Hlr|]. split; [done|]. split; [exact Hcap|exact Hfit].
Qed.

(** With keys that fit the configuration the call always succeeds. *)
Lemma leaf_store keys refs l : node_wf Leaf (lf_node l) → length refs = length keys →
  Z.of_nat (length keys) <= capacity (lf_node l) → Forall (key_fits (config_ (lf_node l))) keys →
  ∃ l', (_ ← set_leaf_entries keys refs; LeafNode_syncEntries) l = (Ok tt, l') ∧
    lf_keys l' = keys ∧ lf_refs l' = refs ∧ leaf_wf l' ∧ node_same (lf_node l) (lf_node l') ∧ blank (lf_node l').
Proof.
  intros Hwf Hlen Hcap Hfit. assert (Hsz : entries_size keys <= entryAreaSize).
  { apply (fitting_size (config_ (lf_node l))); [done|]. destruct Hwf as (_ & Hc & _). unfold capacity in Hcap. lia. }
  destruct (leaf_store_any keys refs l Hwf Hlen Hcap) as (l' & E & Hk & Hr & Hs).
  { etransitivity; [exact Hsz|]. by vm_compute. }
  destruct (Hs Hsz) as ((H1 & H2 & H3 & H4 & _) & Hsame & Hb). rewrite (proj2 (Z.ltb_ge _ _)) in E by done.
  exists l'. split; [exact E|]. split; [exact Hk|]. split; [exact Hr|]. split; [|split; [exact Hsame|exact Hb]].
  split; [exact H1|]. split; [exact H2|]. split; [exact H3|]. split; [exact H4|].
  destruct Hsame as (_ & _ & _ & _ & -> & _). rewrite Hk. exact Hfit.
Qed.

Lemma internal_body_emits i : (length (in_keys i) < length (in_children i))%nat →
  emits (InternalNode_serializeBody i)
    (ref_wire (match in_children i with c :: _ => c | [] => PageReference_invalid end) ++
     entries_wire (in_keys i) (drop 1 (in_children i))).
Proof.
  intros Hl. unfold InternalNode_serializeBody. apply emits_bind; [auto with quartz|].
  apply writeEntries_emits. rewrite length_drop. lia.
Qed.

(** [syncEntries] of an internal node whose entries fit. *)
Lemma internal_sync keys children i : node_wf Internal (in_node i) →
  length children = S (length keys) → Z.of_nat (length keys) <= capacity (in_node i) →
  Forall (key_fits (config_ (in_node i))) keys →
  ∃ i', InternalNode_syncEntries (mkInternalNode (in_node i) keys children) = (Ok tt, i') ∧
    in_keys i' = keys ∧ in_children i' = children ∧ internal_wf i' ∧ node_same (in_node i) (in_node i').
Proof.
  intros Hwf Hlen Hcap Hfit. pose proof Hwf as (Ht & Hc & Hf & Hd).
  unfold InternalNode_syncEntries, on_internal_node, zoom, mbind, M_bind, modify, get.
  cbn [in_node]. rewrite syncHeader_eq. cbn [in_node in_keys in_children].
  set (i1 := mkInternalNode (header_synced (in_node i)) keys children).
  set (first := match children with c :: _ => c | [] => PageReference_invalid end).
  assert (Hsz : zlen (ref_wire first ++ entries_wire keys (drop 1 children)) <= entryAreaSize).
  { rewrite zlen_app, zlen_ref_wire. pose proof (zlen_entries_wire _ keys (drop 1 children) Hfit).
    pose proof (internal_entries_fit (config_ (in_node i)) (Z.of_nat (length keys))) as Hn.
    unfold capacity, entrySize in *. lia. }
  destruct (local_emits (InternalNode_serializeBody i1) _ i1 (internal_body_emits i1 ltac:(cbn; lia)))
    as (w & He & Ho & Hb). { etransitivity; [exact Hsz|]. by vm_compute. }
  unfold InternalNode_serializeBody, mbind, M_bind in He. cbn [in_children in_keys i1] in He, Ho, Hb.
  fold first in He, Ho, Hb. rewrite He, Ho, (proj2 (Z.ltb_ge _ _)) by done. cbn [in_node in_keys in_children].
  assert (Hlr : u32 (Z.of_nat (length keys)) = Z.of_nat (length keys)).
  { apply u32_small. pose proof (computeCapacity_range (config_ (in_node i)) Internal). unfold capacity in *. lia. }
  assert (Hsame := store_same (in_node i) (ip_keyCount (page_ (in_node i))) (u32 (Z.of_nat (length keys)))
    (ztake (zlen (ref_wire first ++ entries_wire keys (drop 1 children))) (buf_bytes (w_buffer w))) Hd
    ltac:(rewrite Hb; apply zlen_ztake_zeros, Hsz)).
  eexists. split; [done|]. cbn [in_keys in_children in_node]. split; [done|]. split; [done|].
  split; [|exact Hsame]. split; [by eapply node_wf_same|]. split; [exact Hlr|].
  split; [done|]. split; [exact Hcap|exact Hfit].
Qed.

Lemma internal_store keys children i : node_wf Internal (in_node i) →
  length children = S (length keys) → Z.of_nat (length keys) <= capacity (in_node i) →
  Forall (key_fits (config_ (in_node i))) keys →
  ∃ i', (_ ← set_internal_entries keys children; InternalNode_syncEntries) i = (Ok tt, i') ∧
    in_keys i' = keys ∧ in_children i' = children ∧ internal_wf i' ∧ node_same (in_node i) (in_node i').
Proof.
  intros Hwf Hlen Hcap Hfit. unfold set_internal_entries, mbind, M_bind, modify.
  set (n1 := set_page (setKeyCount (u32 (Z.of_nat (length keys))) (page_ (in_node i))) (in_node i)).
  assert (Hs : node_same (in_node i) n1) by done.
  destruct (internal_sync keys children (mkInternalNode n1 keys children)) as (i' & H1 & H2 & H3 & H4 & H5);
    [by eapply node_wf_same|done..|].
  exists i'. split; [exact H1|]. split; [done|]. split; [done|]. split; [done|].
  etransitivity; [exact Hs|exact H5].
Qed.

(** ** Sorted vectors *)

Lemma vinsert_app {A} (x : A) xs ys : vinsert (length xs) x (xs ++ ys) = xs ++ x :: ys.
Proof. unfold vinsert. by rewrite take_app_length, drop_app_length. Qed.

Lemma vinsert_lowerBound_le keys key : sorted_le keys → sorted_le (vinsert (lowerBound keys key) key keys).
Proof.
  intros Hs. destruct (lowerBound_cut keys key Hs) as (xs & ys & -> & -> & Hx & Hy).
  rewrite vinsert_app. apply StronglySorted_app_iff in Hs as (Hsx & Hsy & Hxy).
  apply StronglySorted_app_iff. split; [done|]. split; [by constructor|].
  rewrite Forall_forall in *. intros x Hin. constructor; [by apply key_lt_le, Hx|by apply Hxy].
Qed.

Lemma vinsert_lowerBound_lt keys key : sorted_lt keys → key ∉ keys →
  sorted_lt (vinsert (lowerBound keys key) key keys).
Proof.
  intros Hs Hni. destruct (lowerBound_cut keys key (sorted_lt_le _ Hs)) as (xs & ys & -> & -> & Hx & Hy).
  rewrite vinsert_app. apply StronglySorted_app_iff in Hs as (Hsx & Hsy & Hxy).
  apply StronglySorted_app_iff. split; [done|]. split.
  - constructor; [done|]. rewrite Forall_forall in *. intros y Hin.
    apply Hy in Hin as Hle. apply key_le_lteq in Hle as [|<-]; [done|]. set_solver.
  - rewrite Forall_forall in *. intros x Hin. constructor; [by apply Hx|by apply Hxy].
Qed.

Lemma sorted_verase R keys i : StronglySorted R (keys : list Key) → StronglySorted R (verase i keys).
Proof.
  intros Hs. unfold verase. destruct (decide (i < length keys)%nat) as [Hi|Hi].
  - destruct (lookup_lt_is_Some_2 keys i Hi) as [k Hk]. rewrite <-(take_drop_middle keys i k Hk) in Hs.
    apply StronglySorted_app_iff in Hs as (H1 & H2 & H3). apply StronglySorted_inv in H2 as [H2 _].
    apply StronglySorted_app_iff. split; [done|]. split; [done|].
    eapply Forall_impl; [exact H3|]. intros x Hx. by apply Forall_cons in Hx as [_ Hx].
  - rewrite take_ge, drop_ge, app_nil_r by lia. done.
Qed.

Lemma sorted_lt_NoDup keys : sorted_lt keys → NoDup keys.
Proof.
  induction 1 as [|k keys _ IH Hk]; constructor; [|done]. intros Hin.
  rewrite Forall_forall in Hk. by apply (key_lt_irrefl k), Hk.
Qed.

(** ** Operations of a leaf *)

Lemma LeafNode_insert_ok key ref l : leaf_wf l → PageReference_isValid ref = true →
  key_fits (config_ (lf_node l)) key → Z.of_nat (length (lf_keys l)) < capacity (lf_node l) →
  allowDuplicates (config_ (lf_node l)) = true ∨
    lf_keys l !! lowerBound (lf_keys l) key ≠ Some key →
  ∃ l', LeafNode_insert key ref l = (Ok tt, l') ∧
    lf_keys l' = vinsert (lowerBound (lf_keys l) key) key (lf_keys l) ∧
    lf_refs l' = vinsert (lowerBound (lf_keys l) key) ref (lf_refs l) ∧
    leaf_wf l' ∧ node_same (lf_node l) (lf_node l') ∧ blank (lf_node l').
Proof.
  intros (Hwf & Hkc & Hlen & Hcap & Hfit) Hv Hk Hlt Hdup. unfold LeafNode_insert.
  rewrite Hv, Hkc, (proj2 (Z.leb_gt _ _)) by lia. cbn [negb].
  rewrite (allows_duplicates_wf _ _ Hwf).
  assert (Hno : negb (allowDuplicates (config_ (lf_node l))) &&
    match lf_keys l !! lowerBound (lf_keys l) key with Some k => Key_eqb k key | None => false end = false).
  { destruct Hdup as [->|Hne]; [done|]. apply andb_false_iff. right.
    destruct (lf_keys l !! _) as [k|]; [|done]. apply not_true_iff_false. rewrite Key_eqb_spec. congruence. }
  rewrite Hno. apply leaf_store; rewrite ?length_vinsert; [done|lia|lia|].
  rewrite vinsert_perm. by constructor.
Qed.

Lemma LeafNode_insert_full key ref l : leaf_wf l → PageReference_isValid ref = true →
  capacity (lf_node l) <= Z.of_nat (length (lf_keys l)) →
  LeafNode_insert key ref l = (invalidArgument "LeafNode: node is full", l).
Proof.
  intros (_ & Hkc & _) Hv Hc. unfold LeafNode_insert. rewrite Hv, Hkc, (proj2 (Z.leb_le _ _)) by lia. done.
Qed.

Lemma LeafNode_insert_dup key ref l : leaf_wf l → PageReference_isValid ref = true →
  Z.of_nat (length (lf_keys l)) < capacity (lf_node l) →
  allowDuplicates (config_ (lf_node l)) = false →
  lf_keys l !! lowerBound (lf_keys l) key = Some key →
  LeafNode_insert key ref l = (invalidArgument "LeafNode: duplicate key", l).
Proof.
  intros (Hwf & Hkc & _) Hv Hlt Hnd Hk. unfold LeafNode_insert.
  rewrite Hv, Hkc, (proj2 (Z.leb_gt _ _)) by lia. cbn [negb].
  rewrite (allows_duplicates_wf _ _ Hwf), Hnd, Hk, (proj2 (Key_eqb_spec key key)) by done. done.
Qed.

Lemma LeafNode_eraseAt_ok i l : leaf_wf l → (i < length (lf_keys l))%nat →
  ∃ l', LeafNode_eraseAt i l = (Ok tt, l') ∧ lf_keys l' = verase i (lf_keys l) ∧
    lf_refs l' = verase i (lf_refs l) ∧ leaf_wf l' ∧ node_same (lf_node l) (lf_node l') ∧ blank (lf_node l').
Proof.
  intros (Hwf & Hkc & Hlen & Hcap & Hfit) Hi. unfold LeafNode_eraseAt.
  rewrite (proj2 (Nat.leb_gt _ _)) by lia. apply leaf_store; rewrite ?length_verase by lia; [done|lia|lia|].
  destruct (lookup_lt_is_Some_2 (lf_keys l) i Hi) as [k Hk].
  rewrite (verase_perm _ _ _ Hk) in Hfit. by apply Forall_cons in Hfit as [_ ?].
Qed.

Lemma LeafNode_assign_ok keys refs l : node_wf Leaf (lf_node l) → length refs = length keys →
  Z.of_nat (length keys) <= capacity (lf_node l) → Forall (key_fits (config_ (lf_node l))) keys →
  ∃ l', LeafNode_assignEntries keys refs l = (Ok tt, l') ∧ lf_keys l' = keys ∧ lf_refs l' = refs ∧
    leaf_wf l' ∧ node_same (lf_node l) (lf_node l') ∧ blank (lf_node l').
Proof.
  intros Hwf Hlen Hcap Hfit. unfold LeafNode_assignEntries.
  rewrite Hlen, Nat.eqb_refl, (proj2 (Z.ltb_ge _ _)) by done. cbn [negb]. by apply leaf_store.
Qed.

(** ** Operations of an internal node *)

Lemma InternalNode_insert_ok idx key child i : internal_wf i → PageReference_isValid child = true →
  (idx <= length (in_keys i))%nat → key_fits (config_ (in_node i)) key →
  Z.of_nat (length (in_keys i)) < capacity (in_node i) →
  allowDuplicates (config_ (in_node i)) = true ∨ key ∉ in_keys i →
  ∃ i', InternalNode_insert idx key child i = (Ok tt, i') ∧
    in_keys i' = vinsert idx key (in_keys i) ∧ in_children i' = vinsert (idx + 1) child (in_children i) ∧
    internal_wf i' ∧ node_same (in_node i) (in_node i').
Proof.
  intros (Hwf & Hkc & Hlen & Hcap & Hfit) Hv Hi Hk Hlt Hdup. unfold InternalNode_insert.
  rewrite Hv, (proj2 (Nat.ltb_ge _ _)), (proj2 (Z.leb_gt _ _)) by lia. cbn [negb].
  rewrite (allows_duplicates_wf _ _ Hwf).
  assert (Hno : negb (allowDuplicates (config_ (in_node i))) && existsb (λ k, Key_eqb k key) (in_keys i) = false).
  { destruct Hdup as [->|Hne]; [done|]. apply andb_false_iff. right. apply not_true_iff_false.
    rewrite existsb_exists. intros (k & Hin & ->%Key_eqb_spec). by rewrite <-list_elem_of_In in Hin. }
  rewrite Hno. apply internal_store; rewrite ?length_vinsert; [done|lia|lia|].
  rewrite vinsert_perm. by constructor.
Qed.

Lemma InternalNode_eraseAt_ok idx i : internal_wf i → (idx < length (in_keys i))%nat →
  ∃ i', InternalNode_eraseAt idx i = (Ok tt, i') ∧ in_keys i' = verase idx (in_keys i) ∧
    in_children i' = verase (idx + 1) (in_children i) ∧ internal_wf i' ∧ node_same (in_node i) (in_node i').
Proof.
  intros (Hwf & Hkc & Hlen & Hcap & Hfit) Hi. unfold InternalNode_eraseAt.
  rewrite (proj2 (Nat.leb_gt _ _)) by lia. apply internal_store; rewrite ?length_verase by lia; [done|lia|lia|].
  destruct (lookup_lt_is_Some_2 (in_keys i) idx Hi) as [k Hk].
  rewrite (verase_perm _ _ _ Hk) in Hfit. by apply Forall_cons in Hfit as [_ ?].
Qed.

Lemma InternalNode_setKeyAt_ok idx key i : internal_wf i → (idx < length (in_keys i))%nat →
  key_fits (config_ (in_node i)) key →
  ∃ i', InternalNode_setKeyAt idx key i = (Ok tt, i') ∧ in_keys i' = <[idx := key]> (in_keys i) ∧
    in_children i' = in_children i ∧ internal_wf i' ∧ node_same (in_node i) (in_node i').
Proof.
  intros (Hwf & Hkc & Hlen & Hcap & Hfit) Hi Hk. unfold InternalNode_setKeyAt.
  rewrite (proj2 (Nat.leb_gt _ _)) by lia. apply internal_sync; rewrite ?length_insert; [done..|].
  by apply Forall_insert.
Qed.

Lemma InternalNode_assign_ok keys children i : node_wf Internal (in_node i) →
  length children = S (length keys) → Z.of_nat (length keys) <= capacity (in_node i) →
  Forall (key_fits (config_ (in_node i))) keys →
  ∃ i', InternalNode_assignEntries keys children i = (Ok tt, i') ∧ in_keys i' = keys ∧
    in_children i' = children ∧ internal_wf i' ∧ node_same (in_node i) (in_node i').
Proof.
  intros Hwf Hlen Hcap Hfit. unfold InternalNode_assignEntries.
  rewrite Hlen, Nat.add_1_r, Nat.eqb_refl, (proj2 (Z.ltb_ge _ _)) by done. cbn [negb]. by apply internal_store.
Qed.

(** ** New nodes *)

Lemma create_header t c n : (initializeHeader t c n).2 =
  header_synced (mkBTreeNode (mkIndexPage (ip_header (page_ n)) (NodeType_value t) 0 (computeCapacity c t)
    (if allowDuplicates c then 1 else 0) [level c; 0; 0] (zeros (Z.to_nat kIndexDataSize))) c
    PageReference_invalid).
Proof. unfold initializeHeader, mbind, M_bind, modify, ignore. by rewrite syncHeader_eq. Qed.

Lemma create_wf t c n : node_wf t (initializeHeader t c n).2.
Proof.
  rewrite create_header. eapply node_wf_same; [|apply header_synced_same].
  - by repeat split.
  - by vm_compute.
Qed.

(** A page of zeros loads as a node without entries. *)
Lemma fresh_leaf id : lf_keys (LeafNode_fromPage (IndexPage_create id)) = [] ∧
  lf_refs (LeafNode_fromPage (IndexPage_create id)) = [] ∧
  ip_header (page_ (lf_node (LeafNode_fromPage (IndexPage_create id)))) =
    PageHeader_make id (PageLayoutType_value PL_Index).
Proof. vm_compute. done. Qed.

Lemma LeafNode_create_spec id c : leaf_wf (LeafNode_create id c) ∧
  lf_keys (LeafNode_create id c) = [] ∧ lf_refs (LeafNode_create id c) = [] ∧
  config_ (lf_node (LeafNode_create id c)) = c ∧ ip_id (page_ (lf_node (LeafNode_create id c))) = id.
Proof.
  destruct (fresh_leaf id) as (H1 & H2 & H3). set (l0 := LeafNode_fromPage (IndexPage_create id)) in *.
  assert (Heq : LeafNode_create id c = mkLeafNode (initializeHeader Leaf c (lf_node l0)).2 [] []).
  { unfold LeafNode_create, on_leaf_node, zoom. fold l0. cbn [lf_node].
    destruct (initializeHeader _ _ _) as [? ?]. cbn [snd]. by rewrite H1, H2. }
  rewrite Heq. pose proof (create_wf Leaf c (lf_node l0)) as Hw. cbn [lf_keys lf_refs lf_node].
  rewrite create_header, H3 in *. split; [|repeat split; reflexivity]. split; [exact Hw|].
  split; [reflexivity|]. split; [reflexivity|]. split; [|constructor].
  apply (computeCapacity_range c).
Qed.

Lemma fresh_internal id : in_keys (InternalNode_fromPage (IndexPage_create id)) = [] ∧
  ip_header (page_ (in_node (InternalNode_fromPage (IndexPage_create id)))) =
    PageHeader_make id (PageLayoutType_value PL_Index).
Proof. vm_compute. done. Qed.

Lemma InternalNode_create_spec id c : internal_wf (InternalNode_create id c) ∧
  in_keys (InternalNode_create id c) = [] ∧ config_ (in_node (InternalNode_create id c)) = c ∧
  ip_id (page_ (in_node (InternalNode_create id c))) = id.
Proof.
  destruct (fresh_internal id) as (H1 & H3). set (i0 := InternalNode_fromPage (IndexPage_create id)) in *.
  assert (Heq : InternalNode_create id c = mkInternalNode (initializeHeader Internal c (in_node i0)).2
    [] [PageReference_invalid]).
  { unfold InternalNode_create, on_internal_node, zoom. fold i0. cbn [in_node].
    destruct (initializeHeader _ _ _) as [? ?]. cbn [snd in_node in_keys]. by rewrite H1. }
  rewrite Heq. pose proof (create_wf Internal c (in_node i0)) as Hw. cbn [in_keys in_children in_node].
  rewrite create_header, H3 in *. split; [|repeat split; reflexivity]. split; [exact Hw|].
  split; [reflexivity|]. split; [reflexivity|]. split; [|constructor].
  apply (computeCapacity_range c).
Qed.

(** ** The leaf as a finite map *)

(** The reference stored for a key. *)
Definition leaf_lookup (l : LeafNode) (k : Key) : option PageReference :=
  lf_refs l !! LeafNode_find k l.

Lemma zip_vinsert {A B} i (x : A) (y : B) xs ys : length xs = length ys →
  zip (vinsert i x xs) (vinsert i y ys) = vinsert i (x, y) (zip xs ys).
Proof.
  intros Hl. unfold vinsert. rewrite zip_with_app by (rewrite !length_take; lia). cbn.
  by rewrite zip_with_take, zip_with_drop.
Qed.
Lemma zip_verase {A B} i (xs : list A) (ys : list B) : length xs = length ys →
  zip (verase i xs) (verase i ys) = verase i (zip xs ys).
Proof.
  intros Hl. unfold verase. rewrite zip_with_app by (rewrite !length_take; lia).
  by rewrite zip_with_take, zip_with_drop.
Qed.

Lemma elem_of_zip_lookup {A B} (xs : list A) (ys : list B) x y :
  (x, y) ∈ zip xs ys ↔ ∃ i, xs !! i = Some x ∧ ys !! i = Some y.
Proof.
  rewrite list_elem_of_lookup. split.
  - intros [i Hi]. exists i. apply lookup_zip_with_Some in Hi as (?&?&?&?&?). by simplify_eq.
  - intros (i & Hx & Hy). exists i. apply lookup_zip_with_Some. eauto.
Qed.

Lemma leaf_lookup_elem l k r : length (lf_refs l) = length (lf_keys l) → sorted_lt (lf_keys l) →
  leaf_lookup l k = Some r ↔ (k, r) ∈ zip (lf_keys l) (lf_refs l).
Proof.
  intros Hlen Hs. rewrite elem_of_zip_lookup. unfold leaf_lookup, LeafNode_find.
  destruct (KeyComparator_find_spec (lf_keys l) k (sorted_lt_le _ Hs)) as [Hin Hni].
  destruct (decide (k ∈ lf_keys l)) as [Hk|Hk].
  - destruct (Hin Hk) as [Hp _]. split; [eauto|]. intros (i & Hi & Hr).
    assert (i = KeyComparator_find (lf_keys l) k) as <-; [|done].
    by apply (NoDup_lookup _ _ _ k (sorted_lt_NoDup _ Hs)).
  - rewrite (Hni Hk), <-Hlen. split.
    + intros H. apply lookup_lt_Some in H. lia.
    + intros (i & Hi & _). by apply list_elem_of_lookup_2 in Hi.
Qed.

Lemma leaf_lookup_None l k : length (lf_refs l) = length (lf_keys l) → sorted_lt (lf_keys l) →
  leaf_lookup l k = None ↔ k ∉ lf_keys l.
Proof.
  intros Hlen Hs. unfold leaf_lookup, LeafNode_find.
  destruct (KeyComparator_find_spec (lf_keys l) k (sorted_lt_le _ Hs)) as [Hin Hni].
  rewrite lookup_ge_None. split.
  - intros Hge Hk. destruct (Hin Hk) as [Hp _]. apply lookup_lt_Some in Hp. lia.
  - intros Hk. rewrite (Hni Hk). lia.
Qed.

Lemma lowerBound_member keys k : sorted_lt keys →
  keys !! lowerBound keys k = Some k ↔ k ∈ keys.
Proof.
  intros Hs. split; [apply list_elem_of_lookup_2|]. intros Hk.
  destruct (lowerBound_cut keys k (sorted_lt_le _ Hs)) as (xs & ys & -> & -> & Hx & Hy).
  rewrite lookup_app_r, Nat.sub_diag by done. apply elem_of_app in Hk as [Hk|Hk].
  { rewrite Forall_forall in Hx. by destruct (key_lt_irrefl k (Hx k Hk)). }
  destruct ys as [|y ys]; [by apply elem_of_nil in Hk|]. cbn. f_equal.
  apply elem_of_cons in Hk as [->|Hk]; [done|]. apply StronglySorted_app_iff in Hs as (_ & Hs & _).
  apply StronglySorted_inv in Hs as [_ Hs]. rewrite Forall_forall in Hs. apply Forall_cons in Hy as [Hy _].
  by destruct (key_lt_irrefl k (key_le_lt_trans _ _ _ Hy (Hs k Hk))).
Qed.

Lemma leaf_lookup_perm l l' : length (lf_refs l) = length (lf_keys l) →
  length (lf_refs l') = length (lf_keys l') → sorted_lt (lf_keys l) → sorted_lt (lf_keys l') →
  ∀ k, (∀ r, (k, r) ∈ zip (lf_keys l) (lf_refs l) ↔ (k, r) ∈ zip (lf_keys l') (lf_refs l')) →
  leaf_lookup l k = leaf_lookup l' k.
Proof.
  intros Hl Hl' Hs Hs' k H. apply option_eq. intros r. by rewrite !leaf_lookup_elem.
Qed.

Definition bound (l : LeafNode) (k : Key) : bool :=
  match leaf_lookup l k with Some _ => true | None => false end.

Lemma bound_spec l k : length (lf_refs l) = length (lf_keys l) → sorted_lt (lf_keys l) → bound l k = true ↔ k ∈ lf_keys l.
Proof.
  intros Hl Hs. pose proof (leaf_lookup_None l k Hl Hs) as H. unfold bound.
  destruct (leaf_lookup l k); split; try done; intros.
  - apply dec_stable. naive_solver.
  - naive_solver.
Qed.

Lemma leaf_insert_binds l key ref l' : length (lf_refs l) = length (lf_keys l) → sorted_lt (lf_keys l) →
  key ∉ lf_keys l → lf_keys l' = vinsert (lowerBound (lf_keys l) key) key (lf_keys l) →
  lf_refs l' = vinsert (lowerBound (lf_keys l) key) ref (lf_refs l) →
  sorted_lt (lf_keys l') ∧ ∀ k, leaf_lookup l' k = if decide (k = key) then Some ref else leaf_lookup l k.
Proof.
  intros Hlen Hs Hn H2 H3.
  assert (Hl' : length (lf_refs l') = length (lf_keys l')) by (rewrite H2, H3, !length_vinsert; lia).
  assert (Hs' : sorted_lt (lf_keys l')) by (rewrite H2; by apply vinsert_lowerBound_lt).
  split; [done|]. intros k. apply option_eq. intros r.
  rewrite leaf_lookup_elem, H2, H3, zip_vinsert, vinsert_perm, elem_of_cons by done.
  destruct (decide (k = key)) as [->|Hne].
  - split; [|intros [= ->]; by left]. intros [[= ->]|Hin]; [done|]. by apply elem_of_zip_l in Hin.
  - rewrite leaf_lookup_elem by done. split; [|by right]. intros [[= -> ->]|]; done.
Qed.

Lemma leaf_erase_unbinds l key i l' : length (lf_refs l) = length (lf_keys l) →
  length (lf_refs l') = length (lf_keys l') → sorted_lt (lf_keys l) →
  lf_keys l !! i = Some key → lf_keys l' = verase i (lf_keys l) → lf_refs l' = verase i (lf_refs l) →
  sorted_lt (lf_keys l') ∧ ∀ k, leaf_lookup l' k = if decide (k = key) then None else leaf_lookup l k.
Proof.
  intros Hlen Hl' Hs Hp H2 H3. pose proof (lookup_lt_Some _ _ _ Hp) as Hi.
  assert (Hs' : sorted_lt (lf_keys l')) by (rewrite H2; by apply sorted_verase).
  split; [done|]. intros k. destruct (lookup_lt_is_Some_2 (lf_refs l) i ltac:(lia)) as [r0 Hr0].
  assert (Hperm : zip (lf_keys l) (lf_refs l) ≡ₚ (key, r0) :: zip (lf_keys l') (lf_refs l')).
  { rewrite H2, H3, zip_verase by done. apply verase_perm, lookup_zip_with_Some. eauto. }
  assert (Hnd : key ∉ lf_keys l').
  { pose proof (sorted_lt_NoDup _ Hs) as Hd. rewrite (verase_perm i key _ Hp) in Hd.
    rewrite H2. by apply NoDup_cons in Hd as [? _]. }
  destruct (decide (k = key)) as [->|Hne]; [by apply leaf_lookup_None|].
  apply leaf_lookup_perm; auto. intros r. rewrite Hperm, elem_of_cons. naive_solver.
Qed.

(** Insertion and erasure in a sound leaf, whatever the sizes of the keys. *)
Lemma LeafNode_insert_any key ref l : leaf_sound l → sorted_lt (lf_keys l) → Key_ok key →
  PageReference_isValid ref = true → Z.of_nat (length (lf_keys l)) < capacity (lf_node l) → key ∉ lf_keys l →
  ∃ l', LeafNode_insert key ref l =
      (if entryAreaSize <? entries_size (key :: lf_keys l)
       then corruption "LeafNode: entry data exceeds page capacity" else Ok tt, l') ∧
    lf_keys l' = vinsert (lowerBound (lf_keys l) key) key (lf_keys l) ∧
    lf_refs l' = vinsert (lowerBound (lf_keys l) key) ref (lf_refs l) ∧
    (entries_size (key :: lf_keys l) <= entryAreaSize → leaf_sound l').
Proof.
  intros (Hwf & Hkc & Hlen & Hcap & Hsz) Hs Hok Hv Hlt Hn. unfold LeafNode_insert.
  rewrite Hv, Hkc, (proj2 (Z.leb_gt _ _)) by lia. cbn [negb].
  assert (Hno : match lf_keys l !! lowerBound (lf_keys l) key with Some k => Key_eqb k key | None => false end = false).
  { destruct (lf_keys l !! _) as [k|] eqn:Hk; [|done]. apply not_true_iff_false. rewrite Key_eqb_spec.
    intros ->. by apply list_elem_of_lookup_2 in Hk. }
  rewrite Hno, andb_false_r.
  assert (Hp : entries_size (vinsert (lowerBound (lf_keys l) key) key (lf_keys l)) = entries_size (key :: lf_keys l))
    by (by rewrite vinsert_perm).
  assert (Hks : serializedSize key <= 300).
  { destruct key as [v|v|bs]; cbn; [lia..|]. destruct Hok as [Hok _]. unfold kMaxBinaryKeySize in Hok. lia. }
  destruct (leaf_store_any (vinsert (lowerBound (lf_keys l) key) key (lf_keys l))
    (vinsert (lowerBound (lf_keys l) key) ref (lf_refs l)) l) as (l' & E & H1 & H2 & H3).
  - done.
  - rewrite !length_vinsert. lia.
  - rewrite length_vinsert. lia.
  - rewrite Hp. change (serializedSize key + 20 + entries_size (lf_keys l) <= 2 ^ 62).
    change entryAreaSize with 3960 in Hsz. lia.
  - rewrite Hp in *. exists l'. split; [exact E|]. split; [exact H1|]. split; [exact H2|]. intros H. apply H3, H.
Qed.

Lemma LeafNode_eraseAt_any i l : leaf_sound l → (i < length (lf_keys l))%nat →
  ∃ l', LeafNode_eraseAt i l = (Ok tt, l') ∧ lf_keys l' = verase i (lf_keys l) ∧
    lf_refs l' = verase i (lf_refs l) ∧ leaf_sound l'.
Proof.
  intros (Hwf & Hkc & Hlen & Hcap & Hsz) Hi. unfold LeafNode_eraseAt. rewrite (proj2 (Nat.leb_gt _ _)) by lia.
  destruct (lookup_lt_is_Some_2 (lf_keys l) i Hi) as [k Hk].
  assert (Hle : entries_size (verase i (lf_keys l)) <= entryAreaSize).
  { rewrite (verase_perm _ _ _ Hk) in Hsz. pose proof (zlen_nonneg (key_wire k)) as Hp. rewrite zlen_key_wire in Hp.
    change (serializedSize k + 20 + entries_size (verase i (lf_keys l)) <= entryAreaSize) in Hsz. lia. }
  destruct (leaf_store_any (verase i (lf_keys l)) (verase i (lf_refs l)) l) as (l' & E & H1 & H2 & H3).
  - done.
  - rewrite !length_verase by lia. lia.
  - rewrite length_verase by lia. lia.
  - etransitivity; [exact Hle|]. by vm_compute.
  - rewrite (proj2 (Z.ltb_ge _ _)) in E by done. exists l'.
    split; [exact E|]. split; [exact H1|]. split; [exact H2|]. apply H3, Hle.
Qed.

(** C31: A leaf without duplicates is a bounded finite map, but for one branch.
    In a leaf whose entries fit its page, [insert] of any key and reference fails
    and changes nothing when the reference is invalid, the leaf is full or it
    holds the key, in this order.  Otherwise it binds the key and no other and
    keeps the keys strictly sorted; it reports success, and the leaf still fits
    its page, exactly when the entries with the new one do.  When they do not,
    the call reports corruption although the key has been bound.  [erase] fails
    on an absent key and otherwise unbinds exactly that key. *)
Theorem leaf_is_finite_map l key ref : leaf_sound l → sorted_lt (lf_keys l) →
  allowDuplicates (config_ (lf_node l)) = false → Key_ok key →
  (if negb (PageReference_isValid ref) then
     LeafNode_insert key ref l = (invalidArgument "LeafNode: invalid page reference", l)
   else if capacity (lf_node l) <=? Z.of_nat (length (lf_keys l)) then
     LeafNode_insert key ref l = (invalidArgument "LeafNode: node is full", l)
   else if bound l key then LeafNode_insert key ref l = (invalidArgument "LeafNode: duplicate key", l)
   else
     ∃ o l', LeafNode_insert key ref l = (o, l') ∧ sorted_lt (lf_keys l') ∧
       (∀ k, leaf_lookup l' k = if decide (k = key) then Some ref else leaf_lookup l k) ∧
       if entries_size (key :: lf_keys l) <=? entryAreaSize then o = Ok tt ∧ leaf_sound l'
       else o = corruption "LeafNode: entry data exceeds page capacity") ∧
  (if bound l key then
     ∃ l', LeafNode_erase key l = (Ok tt, l') ∧ leaf_sound l' ∧ sorted_lt (lf_keys l') ∧
       ∀ k, leaf_lookup l' k = if decide (k = key) then None else leaf_lookup l k
   else LeafNode_erase key l = (invalidArgument "LeafNode: key not found", l)).
Proof.
  intros Hl Hs Hnd Hok. pose proof Hl as (Hwf & Hkc & Hlen & Hcap & _).
  pose proof (bound_spec l key Hlen Hs) as Hb. split.
  - unfold LeafNode_insert at 1 2 3. destruct (PageReference_isValid ref) eqn:Hv; cbn [negb]; [|done]. rewrite Hkc.
    destruct (Z.leb_spec (capacity (lf_node l)) (Z.of_nat (length (lf_keys l)))); [done|].
    destruct (bound l key).
    { rewrite (allows_duplicates_wf _ _ Hwf), Hnd, (proj2 (lowerBound_member (lf_keys l) key Hs)) by naive_solver.
      by rewrite (proj2 (Key_eqb_spec key key)). }
    assert (Hn : key ∉ lf_keys l) by naive_solver.
    destruct (LeafNode_insert_any key ref l Hl Hs Hok Hv ltac:(lia) Hn) as (l' & E & H2 & H3 & H4).
    destruct (leaf_insert_binds l key ref l' Hlen Hs Hn H2 H3) as [Hs' Hbind].
    rewrite E. do 2 eexists. split; [done|]. do 2 (split; [done|]).
    destruct (Z.leb_spec (entries_size (key :: lf_keys l)) entryAreaSize) as [Hle|Hgt].
    + rewrite (proj2 (Z.ltb_ge _ _)) by exact Hle. split; [done|]. exact (H4 Hle).
    + by rewrite (proj2 (Z.ltb_lt _ _)) by exact Hgt.
  - unfold LeafNode_erase, LeafNode_find.
    destruct (KeyComparator_find_spec (lf_keys l) key (sorted_lt_le _ Hs)) as [Hin Hni].
    destruct (bound l key).
    + destruct (Hin ltac:(naive_solver)) as [Hp _]. pose proof (lookup_lt_Some _ _ _ Hp) as Hi.
      rewrite (proj2 (Nat.leb_gt _ _)) by lia.
      destruct (LeafNode_eraseAt_any _ l Hl Hi) as (l' & H1 & H2 & H3 & H4).
      pose proof H4 as (_ & _ & Hlen' & _).
      destruct (leaf_erase_unbinds l key _ l' Hlen Hlen' Hs Hp H2 H3) as [? ?]. eauto.
    + rewrite Hni, (proj2 (Nat.leb_le _ _)) by (done || naive_solver). done.
Qed.

(** A leaf of the default configuration with the keys 3 and 8. *)
Definition leaf_example : LeafNode :=
  (LeafNode_insert (KeyUInt32 3) (PageReference_make 30 0 4)
    (LeafNode_insert (KeyUInt32 8) (PageReference_make 80 0 4) (LeafNode_create 9 BTreeNodeConfig_default)).2).2.

Lemma leaf_example_wf : leaf_wf leaf_example ∧ sorted_lt (lf_keys leaf_example) ∧
  config_ (lf_node leaf_example) = BTreeNodeConfig_default.
Proof. vm_compute. repeat split; repeat constructor; discriminate. Qed.

Lemma leaf_is_finite_map_witness :
  ∃ l', LeafNode_insert (KeyUInt32 5) (PageReference_make 50 0 4) leaf_example = (Ok tt, l') ∧
    leaf_lookup l' (KeyUInt32 5) = Some (PageReference_make 50 0 4) ∧
    leaf_lookup l' (KeyUInt32 8) = Some (PageReference_make 80 0 4).
Proof.
  assert (E1 : (capacity (lf_node leaf_example) <=? Z.of_nat (length (lf_keys leaf_example))) = false)
    by (vm_compute; reflexivity).
  assert (E2 : bound leaf_example (KeyUInt32 5) = false) by (vm_compute; reflexivity).
  assert (E3 : leaf_lookup leaf_example (KeyUInt32 8) = Some (PageReference_make 80 0 4))
    by (vm_compute; reflexivity).
  pose proof (leaf_is_finite_map leaf_example (KeyUInt32 5) (PageReference_make 50 0 4)
    (leaf_wf_sound _ (proj1 leaf_example_wf)) (proj1 (proj2 leaf_example_wf)) ltac:(vm_compute; reflexivity)
    ltac:(split; by vm_compute)) as [H _].
  change (negb (PageReference_isValid (PageReference_make 50 0 4))) with false in H. cbv iota in H.
  rewrite E1, E2 in H. destruct H as (o & l' & H1 & _ & H2 & H3).
  change (entries_size (KeyUInt32 5 :: lf_keys leaf_example) <=? entryAreaSize) with true in H3. destruct H3 as [-> _].
  exists l'. split; [exact H1|]. split; rewrite H2; [reflexivity|exact E3].
Defined.

(** Reading entries from a blank area stops at the first key. *)
Lemma readEntries_blank m bks :
  readEntries (S m) bks [] [] (BinaryReader_make (zeros 3960)) = (corruption "Key: unknown key type", ([], [])).
Proof. vm_compute. reflexivity. Qed.

Lemma loadHeader_blank n : blank n → loadHeader n = (Ok tt, mkBTreeNode (page_ n)
  (with_level (u32 (nth 0 (ip_reserved (page_ n)) 0)) (config_ n)) PageReference_invalid).
Proof.
  intros Hb. unfold loadHeader. rewrite Hb.
  change (BinaryReader_read 4 (BinaryReader_make (zeros (Z.to_nat kIndexDataSize))))
    with (Ok 0, mkReader (zeros (Z.to_nat kIndexDataSize)) 4). reflexivity.
Qed.

(** The page image of a leaf does not hold its entries.  After any
    successful [insert] the page header still counts the entries, but reading
    the node back from its own page finds none: the entry area consists of
    zeros, since [syncEntries] serializes into an empty buffer. *)
Theorem leaf_image_loses_entries l key ref l' : leaf_wf l →
  key_fits (config_ (lf_node l)) key → LeafNode_insert key ref l = (Ok tt, l') →
  0 < ip_keyCount (page_ (lf_node l')) ∧ lf_keys l' ≠ [] ∧
  lf_keys (LeafNode_fromPage (page_ (lf_node l'))) = [] ∧
  lf_refs (LeafNode_fromPage (page_ (lf_node l'))) = [].
Proof.
  intros Hwf Hk Hi. destruct (PageReference_isValid ref) eqn:Hv; [|unfold LeafNode_insert in Hi; by rewrite Hv in Hi].
  destruct (Z.le_gt_cases (capacity (lf_node l)) (Z.of_nat (length (lf_keys l)))) as [Hc|Hc].
  { by rewrite LeafNode_insert_full in Hi. }
  destruct (decide (allowDuplicates (config_ (lf_node l)) = true ∨
    lf_keys l !! lowerBound (lf_keys l) key ≠ Some key)) as [Hd|Hd].
  2:{ assert (Hd1 : allowDuplicates (config_ (lf_node l)) = false) by (apply not_true_is_false; tauto).
      assert (Hd2 : lf_keys l !! lowerBound (lf_keys l) key = Some key) by (apply dec_stable; tauto).
      by rewrite LeafNode_insert_dup in Hi. }
  destruct (LeafNode_insert_ok key ref l) as (l'' & Hi' & H2 & H3 & (_ & Hkc & _) & _ & Hb); auto.
  rewrite Hi in Hi'. injection Hi' as <-. unfold keyCount in Hkc. rewrite Hkc, H2, length_vinsert.
  split; [lia|]. split; [by intros ?%(f_equal length); rewrite length_vinsert in *|].
  unfold LeafNode_fromPage, BTreeNode_make. rewrite loadHeader_blank by exact Hb. cbn [snd page_].
  unfold LeafNode_loadEntries, mbind, M_bind, modify, on_leaf_node, zoom.
  cbn [lf_node]. rewrite loadHeader_blank by exact Hb.
  unfold keyCount. cbn [page_ lf_node config_]. rewrite Hkc, H2, length_vinsert, Hb, Nat2Z.id.
  change (zdrop kBodyHeaderSize (zeros (Z.to_nat kIndexDataSize))) with (zeros 3960).
  rewrite readEntries_blank. done.
Qed.

Lemma leaf_image_loses_entries_witness :
  ∃ l', LeafNode_insert (KeyUInt32 5) (PageReference_make 50 0 4) leaf_example = (Ok tt, l') ∧
    lf_keys (LeafNode_fromPage (page_ (lf_node l'))) = [].
Proof.
  eexists. split; [vm_compute; reflexivity|].
  apply (leaf_image_loses_entries leaf_example (KeyUInt32 5) (PageReference_make 50 0 4)).
  - exact (proj1 leaf_example_wf).
  - by vm_compute.
  - vm_compute. reflexivity.
Defined.

(** A node with a single key cannot be planned: position 1 is read with [at]. *)
Example plan_single_key_throws :
  planLeafSplit (LeafNode_insert (KeyUInt32 8) (PageReference_make 80 0 4)
    (LeafNode_create 9 BTreeNodeConfig_default)).2 = Throw "std::out_of_range".
Proof. vm_compute. reflexivity. Qed.

(** ** Positions of a key *)

(** In a sorted vector, duplicates included, the positions that hold a key are
    those between its lower and its upper bound. *)
Lemma at_bounds keys key i : sorted_le keys →
  at_ keys i = Ok key ↔ (lowerBound keys key <= i < upperBound keys key)%nat.
Proof.
  intros Hs. unfold at_.
  destruct (lowerBound_cut keys key Hs) as (xs & ys & Hl & -> & Hx & Hy).
  destruct (upperBound_cut keys key Hs) as (us & vs & Hu & -> & Hus & Hvs).
  rewrite Forall_lookup in Hx, Hy, Hus, Hvs. split.
  - destruct (keys !! i) as [k|] eqn:Hk; [|done]. intros [= ->]. split.
    + destruct (decide (i < length xs)%nat) as [Hi|Hi]; [|lia]. exfalso.
      rewrite Hl, lookup_app_l in Hk by done. apply (key_lt_irrefl key). by eapply Hx.
    + destruct (decide (i < length us)%nat) as [Hi|Hi]; [done|]. exfalso.
      rewrite Hu, lookup_app_r in Hk by lia. apply (key_lt_irrefl key). by eapply Hvs.
  - intros [Hi Hj]. destruct (lookup_lt_is_Some_2 us i Hj) as [k Hk].
    assert (Hk' : keys !! i = Some k) by (rewrite Hu, lookup_app_l by done; done).
    rewrite Hk'. f_equal. apply Key_compare_eq. specialize (Hus i k Hk).
    rewrite Hl, lookup_app_r in Hk' by lia. specialize (Hy _ _ Hk'). unfold key_le in *.
    rewrite (Key_compare_antisym k key) in Hy. lia.
Qed.

Lemma LeafNode_keyAt_iff l key i : sorted_le (lf_keys l) →
  LeafNode_keyAt i l = Ok key ↔ (LeafNode_lowerBound key l <= i < LeafNode_upperBound key l)%nat.
Proof. apply at_bounds. Qed.

Lemma InternalNode_keyAt_iff n key i : sorted_le (in_keys n) →
  InternalNode_keyAt i n = Ok key ↔ (InternalNode_lowerBound key n <= i < InternalNode_upperBound key n)%nat.
Proof. apply at_bounds. Qed.

(** The position of the child an internal node routes a key to is always in
    range, sorted or not, when the node has one child more than it has keys. *)
Lemma InternalNode_route n key : length (in_children n) = Datatypes.S (length (in_keys n)) →
  ∃ r, InternalNode_childAt (InternalNode_lowerBound key n) n = Ok r.
Proof.
  intros Hl. pose proof (lowerBound_le (in_keys n) key) as Hle.
  destruct (lookup_lt_is_Some_2 (in_children n) (lowerBound (in_keys n) key)) as [r Hr]; [lia|].
  exists r. unfold InternalNode_childAt, InternalNode_lowerBound, at_. by rewrite Hr.
Qed.
