(* ===== verification/Tree.v ===== *)
(** The B-tree (src/src/btree/BTree.cpp, SearchPath.cpp, Rebalance.cpp,
    TreeValidator.cpp, src/include/quartz/btree/BTreeWalSink.h,
    TreeStatistics.h).

    The tree owns its nodes in two maps from page ids, takes pages from a
    [PageSpace] and reports to an optional write-ahead-log sink; both are
    interfaces here, as in the code.  A [SearchPath] is a list whose head is the
    top of the stack. *)
From stdpp Require Import base strings list gmap decidable.
From Stdlib Require Import ZArith Lia.
From S2P Require Import Prelude Config PageAlloc Buffers Keys Nodes.

(** ** The write-ahead-log sink *)

(** [sink_ready] is what the sink needs to accept every record; a sink that is
    not ready may fail any call. *)
Class BTreeWalSink (W : Type) := {
  onInsert : Key → PageReference → M W unit;
  onErase : Key → M W unit;
  onPageAllocate : Z → M W unit;
  onPageDeallocate : Z → M W unit;
  onNodeSplit : Z → Z → Key → M W unit;
  onNodeMerge : Z → Z → M W unit;
  sink_ready : W → Prop;
  sink_accepts : ∀ m w, sink_ready w →
    (∃ k r, m = onInsert k r) ∨ (∃ k, m = onErase k) ∨ (∃ p, m = onPageAllocate p) ∨
    (∃ p, m = onPageDeallocate p) ∨ (∃ l r k, m = onNodeSplit l r k) ∨ (∃ s r, m = onNodeMerge s r) →
    ∃ w', m w = (Ok tt, w') ∧ sink_ready w'
}.

(** ** Statistics *)
Record TreeOperationStats : Set := mkTreeStats {
  splitCount : Z; mergeCount : Z; rotationCount : Z; allocationCount : Z }.
Definition TreeOperationStats_default : TreeOperationStats := mkTreeStats 0 0 0 0.
Definition tree_recordSplit (s : TreeOperationStats) : TreeOperationStats :=
  mkTreeStats (u64 (splitCount s + 1)) (mergeCount s) (rotationCount s) (allocationCount s).
Definition tree_recordMerge (s : TreeOperationStats) : TreeOperationStats :=
  mkTreeStats (splitCount s) (u64 (mergeCount s + 1)) (rotationCount s) (allocationCount s).
Definition tree_recordRotation (s : TreeOperationStats) : TreeOperationStats :=
  mkTreeStats (splitCount s) (mergeCount s) (u64 (rotationCount s + 1)) (allocationCount s).
Definition tree_recordAllocation (s : TreeOperationStats) : TreeOperationStats :=
  mkTreeStats (splitCount s) (mergeCount s) (rotationCount s) (u64 (allocationCount s + 1)).

(** ** SearchPath *)
Record SearchPathEntry : Set := mkPathEntry { pe_pageId : Z; pe_childIndex : Z; pe_pageRef : PageReference }.
Notation SearchPath := (list SearchPathEntry).
Definition SearchPath_pop (p : SearchPath) : SearchPath := tail p.
Definition SearchPath_clear (p : SearchPath) : SearchPath := [].
Definition SearchPath_push (e : SearchPathEntry) (p : SearchPath) : SearchPath := e :: p.
Definition SearchPath_empty (p : SearchPath) : bool := match p with [] => true | _ => false end.
Definition SearchPath_depth (p : SearchPath) : nat := length p.
(** [entries_.back()]: undefined on an empty path. *)
Definition SearchPath_top (p : SearchPath) : outcome SearchPathEntry :=
  match p with e :: _ => Ok e | [] => UB end.
(** [entries_.at(index)]: the vector's first entry is the outermost one. *)
Definition SearchPath_at (i : nat) (p : SearchPath) : outcome SearchPathEntry := at_ (rev p) i.
Definition SearchPath_parentEntry (p : SearchPath) : outcome SearchPathEntry :=
  match p with
  | _ :: e :: _ => Ok e
  | _ => invalidArgument "SearchPath: no parent frame"
  end.

Definition makeIndexRef (id : Z) : PageReference := PageReference_make id 1 (PageType_value PT_Index).

(** ** The tree *)
Record BTree (S W : Type) : Type := mkBTree {
  bt_space : S; bt_config : BTreeNodeConfig; bt_rootId : Z; bt_size : Z; bt_height : Z;
  bt_opStats : TreeOperationStats; bt_wal : option W;
  bt_leaves : gmap Z LeafNode; bt_internals : gmap Z InternalNode }.
Arguments mkBTree {S W} _ _ _ _ _ _ _ _ _.
Arguments bt_space {S W} _.
Arguments bt_config {S W} _.
Arguments bt_rootId {S W} _.
Arguments bt_size {S W} _.
Arguments bt_height {S W} _.
Arguments bt_opStats {S W} _.
Arguments bt_wal {S W} _.
Arguments bt_leaves {S W} _.
Arguments bt_internals {S W} _.

Section tree.
Context {S W : Type} `{PageSpace S} `{BTreeWalSink W}.
Notation BT := (BTree S W).

Definition BTree_create (space : S) (config : BTreeNodeConfig) : BT :=
  mkBTree space config kInvalidPageId 0 0 TreeOperationStats_default None ∅ ∅.

Definition set_space (s : S) (t : BT) : BT :=
  mkBTree s (bt_config t) (bt_rootId t) (bt_size t) (bt_height t) (bt_opStats t) (bt_wal t)
    (bt_leaves t) (bt_internals t).
Definition setRoot (id : Z) (t : BT) : BT :=
  mkBTree (bt_space t) (bt_config t) id (bt_size t) (bt_height t) (bt_opStats t) (bt_wal t)
    (bt_leaves t) (bt_internals t).
Definition set_size (n : Z) (t : BT) : BT :=
  mkBTree (bt_space t) (bt_config t) (bt_rootId t) n (bt_height t) (bt_opStats t) (bt_wal t)
    (bt_leaves t) (bt_internals t).
Definition setHeight (h : Z) (t : BT) : BT :=
  mkBTree (bt_space t) (bt_config t) (bt_rootId t) (bt_size t) h (bt_opStats t) (bt_wal t)
    (bt_leaves t) (bt_internals t).
Definition upd_stats (f : TreeOperationStats → TreeOperationStats) (t : BT) : BT :=
  mkBTree (bt_space t) (bt_config t) (bt_rootId t) (bt_size t) (bt_height t) (f (bt_opStats t))
    (bt_wal t) (bt_leaves t) (bt_internals t).
Definition set_wal (w : option W) (t : BT) : BT :=
  mkBTree (bt_space t) (bt_config t) (bt_rootId t) (bt_size t) (bt_height t) (bt_opStats t) w
    (bt_leaves t) (bt_internals t).
Definition set_leaves (m : gmap Z LeafNode) (t : BT) : BT :=
  mkBTree (bt_space t) (bt_config t) (bt_rootId t) (bt_size t) (bt_height t) (bt_opStats t)
    (bt_wal t) m (bt_internals t).
Definition set_internals (m : gmap Z InternalNode) (t : BT) : BT :=
  mkBTree (bt_space t) (bt_config t) (bt_rootId t) (bt_size t) (bt_height t) (bt_opStats t)
    (bt_wal t) (bt_leaves t) m.

Definition empty_ (t : BT) : bool := bt_rootId t =? kInvalidPageId.
Definition isLeaf (id : Z) (t : BT) : bool := bool_decide (is_Some (bt_leaves t !! id)).
Definition isInternal (id : Z) (t : BT) : bool := bool_decide (is_Some (bt_internals t !! id)).

(** [leaves_.at(id)] and [internals_.at(id)]. *)
Definition leaf (id : Z) : M BT LeafNode := λ t,
  (match bt_leaves t !! id with Some l => Ok l | None => Throw "std::out_of_range" end, t).
Definition internal (id : Z) : M BT InternalNode := λ t,
  (match bt_internals t !! id with Some i => Ok i | None => Throw "std::out_of_range" end, t).

(** A member call on the node stored under [id]. *)
Definition on_leaf {A} (id : Z) (m : M LeafNode A) : M BT A := λ t,
  match bt_leaves t !! id with
  | Some l => let '(o, l') := m l in (o, set_leaves (<[id := l']> (bt_leaves t)) t)
  | None => (Throw "std::out_of_range", t)
  end.
Definition on_internal {A} (id : Z) (m : M InternalNode A) : M BT A := λ t,
  match bt_internals t !! id with
  | Some i => let '(o, i') := m i in (o, set_internals (<[id := i']> (bt_internals t)) t)
  | None => (Throw "std::out_of_range", t)
  end.

(** [walOn*]: nothing without a sink. *)
Definition wal_call (m : M W unit) : M BT unit := λ t,
  match bt_wal t with
  | None => (Ok tt, t)
  | Some w => let '(o, w') := m w in (o, set_wal (Some w') t)
  end.

Definition allocateLeaf (lvl : Z) : M BT Z := λ t,
  let '(pageId, sp) := ps_allocatePage (bt_space t) in
  let t := set_space sp t in
  if pageId =? kInvalidPageId
  then (outOfMemory "BTree: failed to allocate leaf page", t)
  else
    let t := upd_stats tree_recordAllocation t in
    match bt_leaves t !! pageId with
    | Some _ => (corruption "BTree: duplicate leaf page id", t)
    | None =>
        let t := set_leaves
          (<[pageId := LeafNode_create pageId (with_level lvl (bt_config t))]> (bt_leaves t)) t in
        (_ ← wal_call (onPageAllocate pageId); mret pageId) t
    end.

Definition allocateInternal (lvl : Z) : M BT Z := λ t,
  let '(pageId, sp) := ps_allocatePage (bt_space t) in
  let t := set_space sp t in
  if pageId =? kInvalidPageId
  then (outOfMemory "BTree: failed to allocate internal page", t)
  else
    let t := upd_stats tree_recordAllocation t in
    match bt_internals t !! pageId with
    | Some _ => (corruption "BTree: duplicate internal page id", t)
    | None =>
        let t := set_internals
          (<[pageId := InternalNode_create pageId (with_level lvl (bt_config t))]> (bt_internals t)) t in
        (_ ← wal_call (onPageAllocate pageId); mret pageId) t
    end.

Definition releaseNode (id : Z) : M BT unit :=
  _ ← ignore (wal_call (onPageDeallocate id));
  modify (λ t,
    let t := if isLeaf id t then set_leaves (delete id (bt_leaves t)) t
             else if isInternal id t then set_internals (delete id (bt_internals t)) t else t in
    set_space (ps_freePage id (bt_space t)).2 t).

(** The [while (true)] of [descendToLeaf]: every round moves from an internal
    node to a child; a tree has fewer levels than internal nodes plus one. *)
Fixpoint descend_loop (fuel : nat) (t : BT) (key : Key) (exactMatch : bool) (path : SearchPath)
    (current : Z) : outcome (SearchPath * Z * nat) :=
  match bt_leaves t !! current with
  | Some leaf =>
      if exactMatch then
        let index := LeafNode_find key leaf in
        if keyCount (lf_node leaf) <=? Z.of_nat index
        then invalidArgument "BTree: key not found"
        else
          k ← at_ (lf_keys leaf) index;
          if negb (Key_eqb k key) then invalidArgument "BTree: key not found"
          else Ok (path, current, index)
      else Ok (path, current, lowerBound (lf_keys leaf) key)
  | None =>
      match fuel with
      | O => Fuel
      | Datatypes.S fuel =>
          match bt_internals t !! current with
          | None => Throw "std::out_of_range"
          | Some node =>
              let childIndex := lowerBound (in_keys node) key in
              childRef ← at_ (in_children node) childIndex;
              if negb (PageReference_isValid childRef)
              then corruption "BTree: invalid child reference"
              else
                let entry := mkPathEntry current (u32 (Z.of_nat childIndex)) (makeIndexRef current) in
                descend_loop fuel t key exactMatch (entry :: path) (pr_pageId childRef)
          end
      end
  end.

Definition descendToLeaf (key : Key) (exactMatch : bool) (t : BT) : outcome (SearchPath * Z * nat) :=
  if empty_ t then invalidArgument "BTree: tree is empty"
  else descend_loop (size (bt_internals t)) t key exactMatch [] (bt_rootId t).

Definition descendForInsert (key : Key) (t : BT) : outcome (SearchPath * Z * nat) :=
  '(path, id, index) ← descendToLeaf key false t;
  match bt_leaves t !! id with
  | None => Throw "std::out_of_range"
  | Some leaf =>
      if negb (allowDuplicates (bt_config t)) && (Z.of_nat index <? keyCount (lf_node leaf)) then
        k ← at_ (lf_keys leaf) index;
        if Key_eqb k key then invalidArgument "BTree: duplicate key" else Ok (path, id, index)
      else Ok (path, id, index)
  end.

Definition BTree_find (key : Key) (t : BT) : outcome PageReference :=
  '(_, id, index) ← descendToLeaf key true t;
  match bt_leaves t !! id with
  | None => Throw "std::out_of_range"
  | Some leaf => at_ (lf_refs leaf) index
  end.
Definition BTree_contains (key : Key) (t : BT) : bool := is_ok (BTree_find key t).

(** ** Rebalance: splits *)

(** [insertInto] is [insertIntoParent] on the path without its top, which
    [splitAndInsertInternal] calls at the end. *)
Definition splitAndInsertInternal (insertInto : Key → Z → Z → M BT unit) (nodeId : Z)
    (insertIndex : nat) (key : Key) (rightChild : PageReference) : M BT unit :=
  node ← internal nodeId;
  let keys := vinsert insertIndex key (in_keys node) in
  let children := vinsert (insertIndex + 1) rightChild (in_children node) in
  let splitIdx := (length keys / 2)%nat in
  promoted ← lift (index keys splitIdx);
  _ ← on_internal nodeId
        (InternalNode_assignEntries (take splitIdx keys) (take (splitIdx + 1) children));
  sibling ← allocateInternal (node_level (in_node node));
  _ ← on_internal sibling
        (InternalNode_assignEntries (drop (splitIdx + 1) keys) (drop (splitIdx + 1) children));
  _ ← modify (upd_stats tree_recordSplit);
  _ ← wal_call (onNodeSplit (ip_id (page_ (in_node node))) sibling promoted);
  insertInto promoted (ip_id (page_ (in_node node))) sibling.

Fixpoint insertIntoParent (path : SearchPath) (promoted : Key) (leftId rightId : Z) : M BT unit :=
  match path with
  | [] =>
      h ← gets bt_height;
      root ← allocateInternal h;
      _ ← on_internal root
            (InternalNode_assignEntries [promoted] [makeIndexRef leftId; makeIndexRef rightId]);
      modify (λ t, setHeight (u32 (bt_height t + 1)) (setRoot root t))
  | frame :: rest =>
      parent ← internal (pe_pageId frame);
      if keyCount (in_node parent) <? capacity (in_node parent) then
        on_internal (pe_pageId frame)
          (InternalNode_insert (Z.to_nat (pe_childIndex frame)) promoted (makeIndexRef rightId))
      else
        splitAndInsertInternal (insertIntoParent rest) (pe_pageId frame)
          (Z.to_nat (pe_childIndex frame)) promoted (makeIndexRef rightId)
  end.

Definition splitAndInsertLeaf (leafId : Z) (path : SearchPath) (key : Key) (value : PageReference)
    : M BT unit :=
  lf ← leaf leafId;
  let pos := lowerBound (lf_keys lf) key in
  let keys := vinsert pos key (lf_keys lf) in
  let refs := vinsert pos value (lf_refs lf) in
  let splitIdx := (length keys / 2)%nat in
  promoted ← lift (index keys splitIdx);
  _ ← on_leaf leafId (LeafNode_assignEntries (take splitIdx keys) (take splitIdx refs));
  sibling ← allocateLeaf (node_level (lf_node lf));
  _ ← on_leaf sibling
        (LeafNode_assignEntries (drop (splitIdx + 1) keys) (drop (splitIdx + 1) refs));
  _ ← modify (upd_stats tree_recordSplit);
  _ ← wal_call (onNodeSplit (ip_id (page_ (lf_node lf))) sibling promoted);
  insertIntoParent path promoted (ip_id (page_ (lf_node lf))) sibling.

(** ** insert *)
Definition BTree_insert (key : Key) (value : PageReference) : M BT unit :=
  if negb (PageReference_isValid value)
  then lift (invalidArgument "BTree: invalid page reference")
  else
    t ← get;
    if empty_ t then
      id ← allocateLeaf 0;
      _ ← on_leaf id (LeafNode_insert key value);
      _ ← modify (λ t, set_size (u64 (bt_size t + 1)) (setHeight 1 (setRoot id t)));
      wal_call (onInsert key value)
    else
      '(path, id, index) ← lift (descendForInsert key t);
      lf ← leaf id;
      if keyCount (lf_node lf) <? capacity (lf_node lf) then
        _ ← on_leaf id (LeafNode_insert key value);
        _ ← modify (λ t, set_size (u64 (bt_size t + 1)) t);
        wal_call (onInsert key value)
      else
        _ ← splitAndInsertLeaf id path key value;
        _ ← modify (λ t, set_size (u64 (bt_size t + 1)) t);
        wal_call (onInsert key value).

(** ** Rebalance: underflow *)

(** [for (i < n) v.push_back(l.at(i))]. *)
Definition collect {A} (n : Z) (l : list A) : outcome (list A) :=
  if Z.of_nat (length l) <? n then Throw "std::out_of_range" else Ok (take (Z.to_nat n) l).

(** The index [i - 1] of a [size_t]; [at] refuses the wrapped value. *)
Definition at_pred {A} (l : list A) (i : Z) : outcome A :=
  if i <=? 0 then Throw "std::out_of_range" else at_ l (Z.to_nat (i - 1)).

Definition borrowFromLeftLeaf (parentId childIndex leftId nodeId : Z) : M BT unit :=
  parent ← internal parentId;
  lf ← leaf leftId;
  separator ← lift (at_pred (in_keys parent) childIndex);
  leftKey ← lift (at_pred (lf_keys lf) (keyCount (lf_node lf)));
  leftRef ← lift (at_pred (lf_refs lf) (keyCount (lf_node lf)));
  _ ← on_leaf leftId (LeafNode_eraseAt (Z.to_nat (keyCount (lf_node lf) - 1)));
  _ ← on_internal parentId (InternalNode_setKeyAt (Z.to_nat (childIndex - 1)) leftKey);
  node ← leaf nodeId;
  _ ← on_leaf nodeId (LeafNode_assignEntries (separator :: lf_keys node) (leftRef :: lf_refs node));
  modify (upd_stats tree_recordRotation).

Definition borrowFromRightLeaf (parentId childIndex nodeId rightId : Z) : M BT unit :=
  parent ← internal parentId;
  lf ← leaf rightId;
  separator ← lift (at_ (in_keys parent) (Z.to_nat childIndex));
  rightKey ← lift (at_ (lf_keys lf) 0);
  rightRef ← lift (at_ (lf_refs lf) 0);
  _ ← on_leaf rightId (LeafNode_eraseAt 0);
  _ ← on_internal parentId (InternalNode_setKeyAt (Z.to_nat childIndex) rightKey);
  node ← leaf nodeId;
  _ ← on_leaf nodeId (LeafNode_assignEntries (lf_keys node ++ [separator]) (lf_refs node ++ [rightRef]));
  modify (upd_stats tree_recordRotation).

Definition borrowFromLeftInternal (parentId childIndex leftId nodeId : Z) : M BT unit :=
  parent ← internal parentId;
  nd ← internal leftId;
  separator ← lift (at_pred (in_keys parent) childIndex);
  leftKey ← lift (at_pred (in_keys nd) (keyCount (in_node nd)));
  leftChild ← lift (at_ (in_children nd) (Z.to_nat (keyCount (in_node nd))));
  _ ← on_internal leftId (InternalNode_assignEntries
        (take (length (in_keys nd) - 1) (in_keys nd)) (take (length (in_children nd) - 1) (in_children nd)));
  _ ← on_internal parentId (InternalNode_setKeyAt (Z.to_nat (childIndex - 1)) leftKey);
  node ← internal nodeId;
  _ ← on_internal nodeId
        (InternalNode_assignEntries (separator :: in_keys node) (leftChild :: in_children node));
  modify (upd_stats tree_recordRotation).

Definition borrowFromRightInternal (parentId childIndex nodeId rightId : Z) : M BT unit :=
  parent ← internal parentId;
  nd ← internal rightId;
  separator ← lift (at_ (in_keys parent) (Z.to_nat childIndex));
  rightKey ← lift (at_ (in_keys nd) 0);
  rightChild ← lift (at_ (in_children nd) 0);
  _ ← on_internal rightId (InternalNode_assignEntries (drop 1 (in_keys nd)) (drop 1 (in_children nd)));
  _ ← on_internal parentId (InternalNode_setKeyAt (Z.to_nat childIndex) rightKey);
  node ← internal nodeId;
  _ ← on_internal nodeId
        (InternalNode_assignEntries (in_keys node ++ [separator]) (in_children node ++ [rightChild]));
  modify (upd_stats tree_recordRotation).

(** The common end of the four merges: the separator is erased from the parent,
    the merged node released, an emptied root replaced, and an underfull parent
    fixed by [fixUp]. *)
Definition finish_merge (parentId eraseIdx survivorId removedId : Z) (fixUp : M BT unit) : M BT unit :=
  _ ← on_internal parentId (InternalNode_eraseAt (Z.to_nat eraseIdx));
  _ ← wal_call (onNodeMerge survivorId removedId);
  _ ← releaseNode removedId;
  _ ← modify (upd_stats tree_recordMerge);
  parent ← internal parentId;
  t ← get;
  let isRoot := ip_id (page_ (in_node parent)) =? bt_rootId t in
  if isRoot && (keyCount (in_node parent) =? 0) then
    newRoot ← lift (at_ (in_children parent) 0);
    _ ← releaseNode (ip_id (page_ (in_node parent)));
    modify (λ t, let t := setRoot (pr_pageId newRoot) t in
                 if 0 <? bt_height t then setHeight (bt_height t - 1) t else t)
  else if isUnderfull (keyCount (in_node parent)) (capacity (in_node parent)) isRoot then fixUp
  else mret tt.

(** [mergeLeafLeft]/[mergeLeafRight]: the node at [li] absorbs the one at
    [ri = li + 1]; the separator [li] goes. *)
Definition mergeLeaves (parentId li : Z) (fixUp : M BT unit) : M BT unit :=
  parent ← internal parentId;
  lref ← lift (at_ (in_children parent) (Z.to_nat li));
  rref ← lift (at_ (in_children parent) (Z.to_nat (li + 1)));
  lhs ← leaf (pr_pageId lref);
  rhs ← leaf (pr_pageId rref);
  moreKeys ← lift (collect (keyCount (lf_node rhs)) (lf_keys rhs));
  moreRefs ← lift (collect (keyCount (lf_node rhs)) (lf_refs rhs));
  _ ← on_leaf (pr_pageId lref)
        (LeafNode_assignEntries (lf_keys lhs ++ moreKeys) (lf_refs lhs ++ moreRefs));
  finish_merge parentId li (ip_id (page_ (lf_node lhs))) (ip_id (page_ (lf_node rhs))) fixUp.
Definition mergeLeafLeft (parentId childIndex : Z) (fixUp : M BT unit) : M BT unit :=
  mergeLeaves parentId (childIndex - 1) fixUp.
Definition mergeLeafRight (parentId childIndex : Z) (fixUp : M BT unit) : M BT unit :=
  mergeLeaves parentId childIndex fixUp.

(** [mergeInternalLeft]/[mergeInternalRight], likewise; the children of the
    right node are taken from the second on. *)
Definition mergeInternals (parentId li : Z) (fixUp : M BT unit) : M BT unit :=
  parent ← internal parentId;
  lref ← lift (at_ (in_children parent) (Z.to_nat li));
  rref ← lift (at_ (in_children parent) (Z.to_nat (li + 1)));
  lhs ← internal (pr_pageId lref);
  rhs ← internal (pr_pageId rref);
  separator ← lift (at_ (in_keys parent) (Z.to_nat li));
  _ ← on_internal (pr_pageId lref)
        (InternalNode_assignEntries (in_keys lhs ++ [separator] ++ in_keys rhs)
           (in_children lhs ++ drop 1 (in_children rhs)));
  finish_merge parentId li (ip_id (page_ (in_node lhs))) (ip_id (page_ (in_node rhs))) fixUp.
Definition mergeInternalLeft (parentId childIndex : Z) (fixUp : M BT unit) : M BT unit :=
  mergeInternals parentId (childIndex - 1) fixUp.
Definition mergeInternalRight (parentId childIndex : Z) (fixUp : M BT unit) : M BT unit :=
  mergeInternals parentId childIndex fixUp.

(** Whether the sibling under [ref] can lend an entry. *)
Definition lends (n : BTreeNode) : bool := minKeyCount (capacity n) false <? keyCount n.

Fixpoint fixInternalUnderflow (path : SearchPath) (nodeId : Z) : M BT unit :=
  match path with
  | [] => mret tt
  | frame :: rest =>
      let parentId := pe_pageId frame in
      let childIndex := pe_childIndex frame in
      let fixUp := fixInternalUnderflow rest parentId in
      parent ← internal parentId;
      fromLeft ← (if 0 <? childIndex then
          ref ← lift (at_pred (in_children parent) childIndex);
          nd ← internal (pr_pageId ref);
          mret (if lends (in_node nd) then Some (pr_pageId ref) else None)
        else mret None);
      match fromLeft with
      | Some leftId => borrowFromLeftInternal parentId childIndex leftId nodeId
      | None =>
          fromRight ← (if childIndex + 1 <=? keyCount (in_node parent) then
              ref ← lift (at_ (in_children parent) (Z.to_nat (childIndex + 1)));
              nd ← internal (pr_pageId ref);
              mret (if lends (in_node nd) then Some (pr_pageId ref) else None)
            else mret None);
          match fromRight with
          | Some rightId => borrowFromRightInternal parentId childIndex nodeId rightId
          | None =>
              if 0 <? childIndex then mergeInternalLeft parentId childIndex fixUp
              else mergeInternalRight parentId childIndex fixUp
          end
      end
  end.

Definition fixLeafUnderflow (path : SearchPath) (leafId : Z) : M BT unit :=
  match path with
  | [] => mret tt
  | frame :: rest =>
      let parentId := pe_pageId frame in
      let childIndex := pe_childIndex frame in
      let fixUp := fixInternalUnderflow rest parentId in
      parent ← internal parentId;
      fromLeft ← (if 0 <? childIndex then
          ref ← lift (at_pred (in_children parent) childIndex);
          nd ← leaf (pr_pageId ref);
          mret (if lends (lf_node nd) then Some (pr_pageId ref) else None)
        else mret None);
      match fromLeft with
      | Some leftId => borrowFromLeftLeaf parentId childIndex leftId leafId
      | None =>
          fromRight ← (if childIndex + 1 <=? keyCount (in_node parent) then
              ref ← lift (at_ (in_children parent) (Z.to_nat (childIndex + 1)));
              nd ← leaf (pr_pageId ref);
              mret (if lends (lf_node nd) then Some (pr_pageId ref) else None)
            else mret None);
          match fromRight with
          | Some rightId => borrowFromRightLeaf parentId childIndex leafId rightId
          | None =>
              if 0 <? childIndex then mergeLeafLeft parentId childIndex fixUp
              else mergeLeafRight parentId childIndex fixUp
          end
      end
  end.

(** ** erase *)
Definition BTree_erase (key : Key) : M BT unit :=
  t ← get;
  if empty_ t then lift (invalidArgument "BTree: key not found")
  else
    '(path, id, index) ← lift (descendToLeaf key true t);
    _ ← on_leaf id (LeafNode_eraseAt index);
    _ ← modify (λ t, set_size (u64 (bt_size t - 1)) t);
    _ ← wal_call (onErase key);
    lf ← leaf id;
    match path with
    | [] =>
        if keyCount (lf_node lf) =? 0 then
          _ ← releaseNode (ip_id (page_ (lf_node lf)));
          modify (λ t, setHeight 0 (setRoot kInvalidPageId t))
        else mret tt
    | _ =>
        if negb (isUnderfull (keyCount (lf_node lf)) (capacity (lf_node lf)) false) then mret tt
        else fixLeafUnderflow path id
    end.

Definition collapseRootIfNeeded : M BT unit :=
  t ← get;
  if empty_ t then mret tt
  else if negb (isInternal (bt_rootId t) t) then mret tt
  else
    root ← internal (bt_rootId t);
    if (keyCount (in_node root) =? 0) && (length (in_children root) =? 1)%nat then
      newRoot ← lift (at_ (in_children root) 0);
      _ ← releaseNode (bt_rootId t);
      modify (λ t, let t := setRoot (pr_pageId newRoot) t in
                   if 0 <? bt_height t then setHeight (bt_height t - 1) t else t)
    else mret tt.

(** [clear]: [ord] is the order in which a hash map is traversed. *)
Definition BTree_clear (ord : list Z → list Z) : M BT unit := modify (λ t,
  let freeAll ids sp := foldl (λ sp id, (ps_freePage id sp).2) sp ids in
  let sp := freeAll (ord (elements (dom (bt_leaves t)))) (bt_space t) in
  let sp := freeAll (ord (elements (dom (bt_internals t)))) sp in
  mkBTree sp (bt_config t) kInvalidPageId 0 0 TreeOperationStats_default (bt_wal t) ∅ ∅).

(** ** TreeValidator *)

(** [prev] is the key before, [None] at the first. *)
Fixpoint range_check (minKey maxKey prev : option Key) (keys : list Key) : outcome unit :=
  match keys with
  | [] => Ok tt
  | key :: keys =>
      if (match minKey with Some m => Key_ltb key m | None => false end)
      then corruption "TreeValidator: leaf key below parent separator"
      else if (match maxKey with Some m => negb (Key_ltb key m) | None => false end)
      then corruption "TreeValidator: leaf key at or above upper separator"
      else if (match prev with Some p => Key_ltb key p | None => false end)
      then corruption "TreeValidator: leaf keys not sorted"
      else range_check minKey maxKey (Some key) keys
  end.
Definition validateLeafRange (l : LeafNode) (minKey maxKey : option Key) : outcome unit :=
  _ ← LeafNode_validate l;
  keys ← collect (keyCount (lf_node l)) (lf_keys l);
  range_check minKey maxKey None keys.

Fixpoint internal_range_check (minKey maxKey prev : option Key) (keys : list Key) : outcome unit :=
  match keys with
  | [] => Ok tt
  | key :: keys =>
      if (match minKey with Some m => Key_ltb key m | None => false end)
      then corruption "TreeValidator: internal key below bound"
      else if (match maxKey with Some m => Key_gtb key m | None => false end)
      then corruption "TreeValidator: internal key above bound"
      else if (match prev with Some p => Key_ltb key p | None => false end)
      then corruption "TreeValidator: internal keys not sorted"
      else internal_range_check minKey maxKey (Some key) keys
  end.

(** The loop over the children; the bounds of child [i] are the keys around it,
    the node's own bounds at the ends. *)
Fixpoint validate_children (visit : Z → Z → option Key → option Key → outcome Z)
    (leafDepth : Z) (minKey maxKey : option Key) (keys : list Key) (children : list PageReference)
    : outcome Z :=
  match children with
  | [] => Throw "std::out_of_range"
  | c :: children =>
      if negb (PageReference_isValid c) then corruption "TreeValidator: invalid child reference"
      else
        match keys with
        | [] => visit (pr_pageId c) leafDepth minKey maxKey
        | k :: keys =>
            leafDepth ← visit (pr_pageId c) leafDepth minKey (Some k);
            validate_children visit leafDepth (Some k) maxKey keys children
        end
  end.

(** Returns the leaf depth, the in-out parameter of the code. *)
Fixpoint validateSubtree (fuel : nat) (t : BT) (pageId depth leafDepth : Z)
    (minKey maxKey : option Key) : outcome Z :=
  match bt_leaves t !! pageId with
  | Some l =>
      if leafDepth =? 0 then _ ← validateLeafRange l minKey maxKey; Ok depth
      else if negb (leafDepth =? depth) then corruption "TreeValidator: leaves at different depths"
      else _ ← validateLeafRange l minKey maxKey; Ok leafDepth
  | None =>
      match bt_internals t !! pageId with
      | None => corruption "TreeValidator: unknown page in tree"
      | Some node =>
          match fuel with
          | O => Fuel
          | Datatypes.S fuel =>
              _ ← InternalNode_validate node;
              keys ← collect (keyCount (in_node node)) (in_keys node);
              _ ← internal_range_check minKey maxKey None keys;
              validate_children
                (λ id ld mn mx, validateSubtree fuel t id (u32 (depth + 1)) ld mn mx)
                leafDepth minKey maxKey keys (in_children node)
          end
      end
  end.

Definition BTree_validate (t : BT) : outcome unit :=
  if empty_ t then Ok tt
  else if negb (isLeaf (bt_rootId t) t) && negb (isInternal (bt_rootId t) t)
  then corruption "TreeValidator: invalid root page"
  else _ ← validateSubtree (size (bt_internals t)) t (bt_rootId t) 1 0 None None; Ok tt.
End tree.
