(* ===== verification/TreeShape.v ===== *)
(** The mathematical trees behind the page maps.

    [ptree] is the tree as a value.  [inorder] is the sequence of all keys, leaf
    keys and separators; [pnodes] flattens a tree into descriptions of its pages
    (a page knows its children only by id), and a context [list frame] is what
    surrounds the place a search path leads to. *)
From stdpp Require Import base list sorting decidable sets gmap.
From Stdlib Require Import ZArith Lia.
From S2P Require Import Prelude Keys Nodes NodeFacts.

Notation entry := (Key * PageReference)%type.

Inductive ptree : Type :=
  | PLeaf (id : Z) (es : list entry)
  | PNode (id : Z) (ks : list Key) (cs : list ptree).

Definition pid (p : ptree) : Z := match p with PLeaf id _ => id | PNode id _ _ => id end.

(** All leaves at distance [h], and one child more than keys. *)
Fixpoint uniform (h : nat) (p : ptree) : Prop :=
  match h, p with
  | O, PLeaf _ _ => True
  | S h, PNode _ ks cs => length cs = S (length ks) ∧ Forall (uniform h) cs
  | _, _ => False
  end.

Fixpoint interleave {A} (ks : list A) (ls : list (list A)) : list A :=
  match ls with
  | [] => []
  | l :: ls => l ++ match ks with [] => [] | k :: ks => k :: interleave ks ls end
  end.

Fixpoint inorder (p : ptree) : list Key :=
  match p with
  | PLeaf _ es => es.*1
  | PNode _ ks cs => interleave ks (inorder <$> cs)
  end.

(** ** Pages *)

(** A page: a leaf with its entries, an internal node with its keys and the ids
    of its children, or a new internal node without contents. *)
Inductive shallow : Type :=
  | SLeaf (id : Z) (es : list entry)
  | SNode (id : Z) (ks : list Key) (cs : list Z)
  | SFresh (id : Z).

Definition sid (s : shallow) : Z := match s with SLeaf id _ | SNode id _ _ | SFresh id => id end.
Definition sentries (s : shallow) : list entry := match s with SLeaf _ es => es | _ => [] end.

Fixpoint pnodes (p : ptree) : list shallow :=
  match p with
  | PLeaf id es => [SLeaf id es]
  | PNode id ks cs => SNode id ks (pid <$> cs) :: concat (pnodes <$> cs)
  end.

Lemma elem_of_concat {A} (x : A) ls : x ∈ concat ls ↔ ∃ l, x ∈ l ∧ l ∈ ls.
Proof. induction ls as [|l ls IH]; cbn; [set_solver|]. rewrite elem_of_app, IH. set_solver. Qed.

(** The entries stored in the leaves among some pages. *)
Definition stored_entries (N : list shallow) : list entry := concat (sentries <$> N).
Definition entries (p : ptree) : list entry := stored_entries (pnodes p).

#[global] Instance stored_entries_perm : Proper ((≡ₚ) ==> (≡ₚ)) stored_entries.
Proof.
  intros N N' HN. unfold stored_entries. induction HN; cbn; [done|by f_equiv| |by etransitivity].
  rewrite !app_assoc. f_equiv. apply Permutation_app_comm.
Qed.

Lemma stored_entries_app N N' : stored_entries (N ++ N') = stored_entries N ++ stored_entries N'.
Proof. unfold stored_entries. by rewrite fmap_app, concat_app. Qed.

Lemma elem_of_stored_entries e N : e ∈ stored_entries N ↔ ∃ s, s ∈ N ∧ e ∈ sentries s.
Proof.
  unfold stored_entries. rewrite elem_of_concat. setoid_rewrite list_elem_of_fmap. naive_solver.
Qed.

(** ** Contexts *)
Record frame : Type := mkFrame {
  f_id : Z; f_lks : list Key; f_lcs : list ptree; f_rks : list Key; f_rcs : list ptree }.

Definition frame_ok (h : nat) (f : frame) : Prop :=
  length (f_lcs f) = length (f_lks f) ∧ length (f_rcs f) = length (f_rks f) ∧
  Forall (uniform h) (f_lcs f) ∧ Forall (uniform h) (f_rcs f).

Definition plug1 (f : frame) (p : ptree) : ptree :=
  PNode (f_id f) (f_lks f ++ f_rks f) (f_lcs f ++ p :: f_rcs f).
(** The innermost frame is the head. *)
Definition plug (c : list frame) (p : ptree) : ptree := foldl (λ p f, plug1 f p) p c.

(** The frames are at the heights [h], [h + 1], ... *)
Fixpoint ctx_ok (h : nat) (c : list frame) : Prop :=
  match c with
  | [] => True
  | f :: c => frame_ok h f ∧ ctx_ok (S h) c
  end.

Fixpoint seg_left (ks : list Key) (cs : list ptree) : list Key :=
  match ks, cs with
  | k :: ks, c :: cs => inorder c ++ k :: seg_left ks cs
  | _, _ => []
  end.
Fixpoint seg_right (ks : list Key) (cs : list ptree) : list Key :=
  match ks, cs with
  | k :: ks, c :: cs => k :: inorder c ++ seg_right ks cs
  | _, _ => []
  end.

Fixpoint ctx_left (c : list frame) : list Key :=
  match c with [] => [] | f :: c => ctx_left c ++ seg_left (f_lks f) (f_lcs f) end.
Fixpoint ctx_right (c : list frame) : list Key :=
  match c with [] => [] | f :: c => seg_right (f_rks f) (f_rcs f) ++ ctx_right c end.

(** The pages of the context, given the id of what is in its hole. *)
Fixpoint ctx_nodes (c : list frame) (id : Z) : list shallow :=
  match c with
  | [] => []
  | f :: c =>
      SNode (f_id f) (f_lks f ++ f_rks f) ((pid <$> f_lcs f) ++ id :: (pid <$> f_rcs f)) ::
      concat (pnodes <$> f_lcs f) ++ concat (pnodes <$> f_rcs f) ++ ctx_nodes c (f_id f)
  end.

Lemma uniform_plug h c p : uniform h p → ctx_ok h c → uniform (h + length c) (plug c p).
Proof.
  revert h p. induction c as [|f c IH]; intros h p Hp Hc; cbn in *.
  - by rewrite Nat.add_0_r.
  - destruct Hc as [(H1 & H2 & H3 & H4) Hc]. rewrite <-plus_n_Sm. change (S (h + length c)) with (S h + length c)%nat.
    apply IH; [|done]. cbn. rewrite !length_app. cbn. split; [lia|].
    apply Forall_app. split; [done|]. by constructor.
Qed.

Lemma plug_nodes c p : pnodes (plug c p) ≡ₚ pnodes p ++ ctx_nodes c (pid p).
Proof.
  revert p. induction c as [|f c IH]; intros p; cbn [plug foldl ctx_nodes]; [by rewrite app_nil_r|].
  change (foldl (λ p f, plug1 f p) (plug1 f p) c) with (plug c (plug1 f p)). rewrite IH.
  unfold plug1. cbn [pnodes pid]. rewrite !fmap_app, !fmap_cons, concat_app. cbn [concat].
  generalize (SNode (f_id f) (f_lks f ++ f_rks f) ((pid <$> f_lcs f) ++ pid p :: (pid <$> f_rcs f))).
  intros s. cbn [app]. rewrite <-Permutation_middle. constructor. rewrite <-!app_assoc.
  apply Permutation_app_swap_app.
Qed.

Lemma interleave_app {A} (l1 l2 : list A) (c1 c2 : list (list A)) (c : list A) :
  length c1 = length l1 →
  interleave (l1 ++ l2) (c1 ++ c :: c2) = interleave l1 (c1 ++ [[]]) ++ interleave l2 (c :: c2).
Proof.
  revert c1. induction l1 as [|k l1 IH]; intros [|x c1] Hl; cbn in *; try lia; [done|].
  rewrite <-app_assoc. f_equal. cbn. f_equal. rewrite IH by lia. done.
Qed.

Lemma interleave_left ks cs : length cs = length ks →
  interleave ks ((inorder <$> cs) ++ [[]]) = seg_left ks cs.
Proof.
  revert cs. induction ks as [|k ks IH]; intros [|c cs] Hl; cbn in *; try lia; [done|].
  by rewrite IH by lia.
Qed.
Lemma interleave_right p ks cs : length cs = length ks →
  interleave ks (inorder p :: (inorder <$> cs)) = inorder p ++ seg_right ks cs.
Proof.
  revert p cs. induction ks as [|k ks IH]; intros p [|c cs] Hl; cbn in *; try lia; [done|].
  f_equal. f_equal. specialize (IH c cs). cbn in IH. by rewrite IH by lia.
Qed.

Lemma plug1_inorder h f p : frame_ok h f →
  inorder (plug1 f p) = seg_left (f_lks f) (f_lcs f) ++ inorder p ++ seg_right (f_rks f) (f_rcs f).
Proof.
  intros (H1 & H2 & _). unfold plug1. cbn [inorder]. rewrite fmap_app. rewrite fmap_cons.
  rewrite interleave_app by (by rewrite length_fmap). by rewrite interleave_left, interleave_right.
Qed.

Lemma plug_inorder h c p : ctx_ok h c → inorder (plug c p) = ctx_left c ++ inorder p ++ ctx_right c.
Proof.
  revert h p. induction c as [|f c IH]; intros h p Hc; cbn [plug foldl ctx_left ctx_right].
  - by rewrite app_nil_r.
  - destruct Hc as [Hf Hc]. change (foldl (λ p f, plug1 f p) (plug1 f p) c) with (plug c (plug1 f p)).
    rewrite (IH (S h)) by done. rewrite (plug1_inorder h) by done. by rewrite <-!app_assoc.
Qed.

Lemma plug_entries c p : entries (plug c p) ≡ₚ entries p ++ stored_entries (ctx_nodes c (pid p)).
Proof. unfold entries. by rewrite plug_nodes, stored_entries_app. Qed.

(** Cutting a node in two around a key. *)
Lemma inorder_cut id id1 id2 ks1 k ks2 cs1 cs2 : length cs1 = S (length ks1) →
  inorder (PNode id (ks1 ++ k :: ks2) (cs1 ++ cs2)) =
    inorder (PNode id1 ks1 cs1) ++ k :: inorder (PNode id2 ks2 cs2).
Proof.
  cbn [inorder]. rewrite fmap_app. revert cs1. induction ks1 as [|x ks1 IH]; intros [|c cs1] Hl; cbn in *; try lia.
  - destruct cs1; cbn in *; [|lia]. by rewrite app_nil_r.
  - rewrite <-app_assoc. f_equal. cbn. f_equal. apply IH. lia.
Qed.

(** A key of a leaf is a key of the tree. *)
Lemma entries_node id ks cs : entries (PNode id ks cs) = concat (entries <$> cs).
Proof.
  unfold entries at 1. cbn [pnodes]. unfold stored_entries. rewrite fmap_cons. cbn [concat sentries app].
  induction cs as [|c cs IH]; cbn; [done|]. by rewrite fmap_app, concat_app, IH.
Qed.

Lemma elem_of_interleave {A} (x : A) ks ls : length ls = S (length ks) →
  x ∈ interleave ks ls ↔ x ∈ ks ∨ ∃ l, l ∈ ls ∧ x ∈ l.
Proof.
  revert ls. induction ks as [|k ks IH]; intros [|l ls] Hl; cbn in *; try lia.
  - destruct ls; cbn in *; [|lia]. rewrite app_nil_r. set_solver.
  - rewrite elem_of_app, elem_of_cons, IH by lia. set_solver.
Qed.

Lemma entries_inorder h p e : uniform h p → e ∈ entries p → e.1 ∈ inorder p.
Proof.
  revert p. induction h as [|h IH]; intros [id es|id ks cs] Hu He; cbn in Hu; try done.
  - unfold entries, stored_entries in He. cbn in He. rewrite app_nil_r in He. cbn.
    apply list_elem_of_fmap. eauto.
  - destruct Hu as [Hl Hu]. rewrite entries_node, elem_of_concat in He.
    destruct He as (x & He & Hx). apply list_elem_of_fmap in Hx as (c & -> & Hc).
    cbn [inorder]. apply elem_of_interleave; [by rewrite length_fmap|]. right.
    exists (inorder c). split; [by apply list_elem_of_fmap_2|]. rewrite Forall_forall in Hu. auto.
Qed.

Lemma sorted_sublist (xs ys : list Key) : xs `sublist_of` ys → sorted_lt ys → sorted_lt xs.
Proof.
  induction 1 as [|x xs ys Hsub IH|x xs ys Hsub IH]; intros Hs; [done| |].
  - apply StronglySorted_inv in Hs as [Hs Hx]. constructor; [by apply IH|].
    rewrite Forall_forall in *. intros y Hy. apply Hx. by eapply elem_of_sublist.
  - apply StronglySorted_inv in Hs as [Hs _]. auto.
Qed.
