(* ===== verification/TreeFacts.v ===== *)
(** The invariant of the tree's page maps and the effect of each primitive step
    of the tree on it.  [Inv t N] says that the maps hold exactly the pages
    described by [N], and that the pages in use are these and the [foreign] ones;
    it is invariant under permutation of [N]. *)
From stdpp Require Import base strings list gmap decidable sorting sets.
From Stdlib Require Import ZArith Lia.
From S2P Require Import Prelude Config PageAlloc Buffers Keys Nodes NodeFacts Tree TreeShape.

(** The pages of the space that someone other than the tree holds. *)
Class ForeignPages := foreign : Z → Prop.

(** ** Free pages *)

Lemma filter_ne_absent (id : Z) l : id ∉ l → length (filter (λ x, x ≠ id) l) = length l.
Proof.
  induction l as [|x l IH]; intros Hni; [done|]. apply not_elem_of_cons in Hni as [Hne Hni].
  rewrite filter_cons_True by done. cbn. by rewrite IH.
Qed.
Lemma filter_ne_length (id : Z) l : NoDup l → (length l <= S (length (filter (λ x, x ≠ id) l)))%nat.
Proof.
  induction 1 as [|x l Hx _ IH]; [cbn; lia|]. destruct (decide (x = id)) as [->|Hne].
  - rewrite filter_cons_False by (by intros []). cbn. by rewrite filter_ne_absent.
  - rewrite filter_cons_True by done. cbn. lia.
Qed.

Section room.
Context {S : Type} `{PageSpace S}.

(** At least [n] pages can still be allocated. *)
Definition room (n : nat) (s : S) : Prop :=
  ∃ l, NoDup l ∧ (n <= length l)%nat ∧
    ∀ x, x ∈ l → kFirstDataPageId <= x <= kMaxPageId ∧ ¬ ps_used s x.

Lemma room_le n m s : (m <= n)%nat → room n s → room m s.
Proof. intros Hle (l & ? & ? & ?). exists l. split; [done|]. split; [lia|done]. Qed.

Lemma allocate_room n s : ps_ok s → room (Datatypes.S n) s →
  ∃ id s', ps_allocatePage s = (id, s') ∧ ps_ok s' ∧ kFirstDataPageId <= id <= kMaxPageId ∧
    ¬ ps_used s id ∧ (∀ x, ps_used s' x ↔ ps_used s x ∨ x = id) ∧ room n s'.
Proof.
  intros Hok (l & Hnd & Hlen & Hfree). pose proof (ps_allocate_spec s Hok) as Ha.
  destruct (ps_allocatePage s) as [id s'] eqn:He. destruct Ha as (Hok' & [(_ & Hall & _)|(Hid & Hnu & Hu)]).
  - exfalso. destruct l as [|x l]; [cbn in Hlen; lia|].
    destruct (Hfree x ltac:(left)) as [Hx Hnx]. by apply Hnx, Hall.
  - exists id, s'. do 5 (split; [done|]). exists (filter (λ x, x ≠ id) l).
    split; [by apply NoDup_filter|]. split.
    + pose proof (filter_ne_length id l Hnd). lia.
    + intros x [Hne Hx]%list_elem_of_filter. destruct (Hfree x Hx). split; [done|]. rewrite Hu. tauto.
Qed.
End room.

Section facts.
Context {S W : Type} `{PageSpace S} `{BTreeWalSink W} `{Fo : ForeignPages}.
Notation BT := (BTree S W).
Implicit Types (t : BT) (N : list shallow).

(** ** Representation of pages *)
Definition leaf_repr (c : BTreeNodeConfig) (id : Z) (es : list entry) (l : LeafNode) : Prop :=
  leaf_wf l ∧ lf_keys l = es.*1 ∧ lf_refs l = es.*2 ∧ ip_id (page_ (lf_node l)) = id ∧
  ∃ lv, config_ (lf_node l) = with_level lv c.
Definition internal_repr (c : BTreeNodeConfig) (id : Z) (ks : list Key) (cs : list Z)
    (i : InternalNode) : Prop :=
  internal_wf i ∧ in_keys i = ks ∧ in_children i = makeIndexRef <$> cs ∧
  ip_id (page_ (in_node i)) = id ∧ ∃ lv, config_ (in_node i) = with_level lv c.
Definition fresh_repr (c : BTreeNodeConfig) (id : Z) (i : InternalNode) : Prop :=
  node_wf Internal (in_node i) ∧ ip_id (page_ (in_node i)) = id ∧
  ∃ lv, config_ (in_node i) = with_level lv c.

Definition node_repr t (s : shallow) : Prop :=
  match s with
  | SLeaf id es => ∃ l, bt_leaves t !! id = Some l ∧ leaf_repr (bt_config t) id es l
  | SNode id ks cs => ∃ i, bt_internals t !! id = Some i ∧ internal_repr (bt_config t) id ks cs i
  | SFresh id => ∃ i, bt_internals t !! id = Some i ∧ fresh_repr (bt_config t) id i
  end.

Definition wal_ready t : Prop := match bt_wal t with None => True | Some w => sink_ready w end.

Record Inv t N : Prop := {
  inv_repr : Forall (node_repr t) N;
  inv_nodup : NoDup (sid <$> N);
  inv_leaves : ∀ id, is_Some (bt_leaves t !! id) → ∃ es, SLeaf id es ∈ N;
  inv_internals : ∀ id, is_Some (bt_internals t !! id) → SFresh id ∈ N ∨ ∃ ks cs, SNode id ks cs ∈ N;
  inv_space : ps_ok (bt_space t);
  inv_pages : ∀ id, ps_used (bt_space t) id ↔ id ∈ sid <$> N ∨ foreign id;
  inv_foreign : ∀ id, foreign id → id ∉ sid <$> N;
  inv_wal : wal_ready t
}.

Lemma inv_used t N : Inv t N → ∀ id, id ∈ sid <$> N → ps_used (bt_space t) id.
Proof. intros HI id Hid. apply (inv_pages _ _ HI). by left. Qed.

#[global] Instance Inv_perm t : Proper ((≡ₚ) ==> iff) (Inv t).
Proof.
  assert (Hhalf : ∀ N N', N ≡ₚ N' → Inv t N → Inv t N').
  { intros N N' HN [H1 H2 H3 H4 H5 H6 H7 H8]. split; auto.
    - by rewrite <-HN.
    - by rewrite <-HN.
    - intros id Hid. destruct (H3 id Hid) as [es He]. exists es. by rewrite <-HN.
    - intros id Hid. setoid_rewrite <-HN. auto.
    - intros id. by rewrite <-HN.
    - intros id. rewrite <-HN. auto. }
  intros N N' HN. split; by apply Hhalf.
Qed.

(** What the steps on nodes leave alone. *)
Definition same_meta t t' : Prop :=
  bt_config t' = bt_config t ∧ bt_rootId t' = bt_rootId t ∧ bt_size t' = bt_size t ∧
  bt_height t' = bt_height t.

#[global] Instance same_meta_preorder : PreOrder same_meta.
Proof. split; [by intros t; repeat split|]. intros a b c (?&?&?&?) (?&?&?&?). repeat split; congruence. Qed.

(** The invariant reads neither the root nor the counters. *)
Lemma Inv_ext t t' N : Inv t N → bt_config t' = bt_config t → bt_space t' = bt_space t →
  bt_wal t' = bt_wal t → bt_leaves t' = bt_leaves t → bt_internals t' = bt_internals t → Inv t' N.
Proof.
  intros [H1 H2 H3 H4 H5 H6 H7 H8] E1 E2 E3 E4 E5. split; rewrite ?E2, ?E4, ?E5; auto.
  - eapply Forall_impl; [exact H1|]. intros [id es|id ks cs|id]; unfold node_repr; by rewrite ?E1, ?E4, ?E5.
  - unfold wal_ready. by rewrite E3.
Qed.

Lemma Inv_disjoint t s N : Inv t (s :: N) → ∀ s', s' ∈ N → sid s' ≠ sid s.
Proof.
  intros HI s' Hs' Heq. pose proof (inv_nodup _ _ HI) as Hnd. cbn in Hnd.
  apply NoDup_cons in Hnd as [Hni _]. apply Hni. rewrite <-Heq. by apply list_elem_of_fmap_2.
Qed.

(** No page is both a leaf and an internal node. *)
Lemma Inv_internal_not_leaf t N id ks cs : Inv t N → SNode id ks cs ∈ N → bt_leaves t !! id = None.
Proof.
  intros HI Hn. destruct (bt_leaves t !! id) as [l|] eqn:Hl; [|done]. exfalso.
  destruct (inv_leaves _ _ HI id ltac:(eauto)) as [es He].
  apply list_elem_of_split in Hn as (N1 & N2 & ->). rewrite <-Permutation_middle in HI.
  rewrite <-Permutation_middle, elem_of_cons in He. destruct He as [He|He]; [done|].
  by apply (Inv_disjoint _ _ _ HI _ He).
Qed.

Lemma Inv_one_kind t N id l i : Inv t N → bt_leaves t !! id = Some l → bt_internals t !! id = Some i → False.
Proof.
  intros HI Hl Hi. destruct (inv_leaves _ _ HI id ltac:(eauto)) as [es Hs].
  destruct (inv_internals _ _ HI id ltac:(eauto)) as [Hs'|(ks & cs & Hs')].
  - apply list_elem_of_split in Hs as (N1 & N2 & ->). rewrite <-Permutation_middle in HI.
    rewrite <-Permutation_middle, elem_of_cons in Hs'. destruct Hs' as [|Hs']; [done|]. by apply (Inv_disjoint _ _ _ HI _ Hs').
  - rewrite (Inv_internal_not_leaf t N id ks cs HI Hs') in Hl. done.
Qed.

Lemma node_repr_leaf_upd t id l s : sid s ≠ id → node_repr t s →
  node_repr (set_leaves (<[id := l]> (bt_leaves t)) t) s.
Proof.
  destruct s as [i es|i ks cs|i]; cbn; [|done|done]. intros Hne (x & ? & ?). exists x.
  by rewrite lookup_insert_ne.
Qed.
Lemma node_repr_internal_upd t id i s : sid s ≠ id → node_repr t s →
  node_repr (set_internals (<[id := i]> (bt_internals t)) t) s.
Proof.
  destruct s as [j es|j ks cs|j]; cbn; [done| |]; intros Hne (x & ? & ?); exists x;
    by rewrite lookup_insert_ne.
Qed.

(** ** Steps *)

Lemma M_step {T A B} (m : M T A) (f : A → M T B) s a s' : m s = (Ok a, s') → (m ≫= f) s = f a s'.
Proof. intros Hm. unfold mbind, M_bind. by rewrite Hm. Qed.

(** A leaf operation that succeeds on every leaf with entries [es] and leaves
    entries [es']. *)
Lemma on_leaf_ok t N id es es' (m : M LeafNode unit) : Inv t (SLeaf id es :: N) →
  (∀ l, bt_leaves t !! id = Some l → leaf_repr (bt_config t) id es l →
     ∃ l', m l = (Ok tt, l') ∧ lf_keys l' = es'.*1 ∧ lf_refs l' = es'.*2 ∧ leaf_wf l' ∧
       node_same (lf_node l) (lf_node l')) →
  ∃ t', on_leaf id m t = (Ok tt, t') ∧ Inv t' (SLeaf id es' :: N) ∧ same_meta t t' ∧
    bt_space t' = bt_space t.
Proof.
  intros HI Hm. pose proof HI as [Hr Hnd Hl Hi Hsp Hu Hfo Hw]. apply Forall_cons in Hr as [Hs Hr].
  destruct Hs as (l & Hlk & Hlr). destruct (Hm l Hlk Hlr) as (l' & He & Hk & Hrf & Hwf & Hsame).
  unfold on_leaf. rewrite Hlk, He. eexists. split; [done|]. split; [|by repeat split].
  destruct Hlr as (_ & _ & _ & Hid & lv & Hc). destruct Hsame as (Hid' & _ & _ & _ & Hc' & _).
  split; [|done| | |done|done|done|done].
  - constructor.
    + exists l'. cbn. rewrite lookup_insert_eq. split; [done|]. split; [done|]. do 2 (split; [done|]).
      split; [unfold ip_id in *; congruence|]. exists lv. congruence.
    + rewrite Forall_forall in *. intros s Hin. apply node_repr_leaf_upd; [|by apply Hr].
      by apply (Inv_disjoint _ _ _ HI).
  - intros j. cbn. destruct (decide (j = id)) as [->|Hne]; [intros _; exists es'; left|].
    rewrite lookup_insert_ne by done. intros Hj. destruct (Hl j Hj) as [es0 Hin].
    apply elem_of_cons in Hin as [Hin|Hin]; [congruence|]. exists es0. by right.
  - intros j Hj. destruct (Hi j Hj) as [Hin|(ks & cs & Hin)];
      (apply elem_of_cons in Hin as [Hin|Hin]; [done|]); [left|right; exists ks, cs]; by right.
Qed.

(** The same for internal nodes, new or not. *)
Lemma on_internal_ok t N s id ks cs (m : M InternalNode unit) : Inv t (s :: N) → sid s = id →
  (∃ i, bt_internals t !! id = Some i ∧ fresh_repr (bt_config t) id i ∧
     ∃ i', m i = (Ok tt, i') ∧ in_keys i' = ks ∧ in_children i' = makeIndexRef <$> cs ∧
       internal_wf i' ∧ node_same (in_node i) (in_node i')) →
  (∀ es, s ≠ SLeaf id es) →
  ∃ t', on_internal id m t = (Ok tt, t') ∧ Inv t' (SNode id ks cs :: N) ∧ same_meta t t' ∧
    bt_space t' = bt_space t.
Proof.
  intros HI Hsid (i & Hlk & (_ & Hid & lv & Hc) & i' & He & Hk & Hch & Hwf & Hsame) Hnl.
  pose proof HI as [Hr Hnd Hl Hi Hsp Hu Hfo Hw]. apply Forall_cons in Hr as [_ Hr].
  unfold on_internal. rewrite Hlk, He. eexists. split; [done|]. split; [|by repeat split].
  destruct Hsame as (Hid' & _ & _ & _ & Hc' & _). cbn [fmap list_fmap] in Hnd, Hu, Hfo. rewrite Hsid in Hnd. setoid_rewrite Hsid in Hu. setoid_rewrite Hsid in Hfo.
  split; [|exact Hnd| | |done|exact Hu|exact Hfo|done].
  - constructor.
    + exists i'. cbn. rewrite lookup_insert_eq. split; [done|]. split; [done|]. do 2 (split; [done|]).
      split; [unfold ip_id in *; congruence|]. exists lv. congruence.
    + rewrite Forall_forall in *. intros x Hin. apply node_repr_internal_upd; [|by apply Hr].
      rewrite <-Hsid. by apply (Inv_disjoint _ _ _ HI).
  - intros j Hj. destruct (Hl j Hj) as [es0 Hin]. apply elem_of_cons in Hin as [Hin|Hin].
    + subst s. cbn in Hsid. subst j. by destruct (Hnl es0).
    + exists es0. by right.
  - intros j. cbn. destruct (decide (j = id)) as [->|Hne]; [intros _; right; exists ks, cs; left|].
    rewrite lookup_insert_ne by done. intros Hj. destruct (Hi j Hj) as [Hin|(ks0 & cs0 & Hin)];
      (apply elem_of_cons in Hin as [Hin|Hin]; [subst s; cbn in Hsid; congruence|]);
      [left|right; exists ks0, cs0]; by right.
Qed.

Lemma internal_repr_fresh c id ks cs i : internal_repr c id ks cs i → fresh_repr c id i.
Proof. intros ((Hwf & _) & _ & _ & Hid & Hc). by split. Qed.

Lemma wal_call_ok t N m : Inv t N →
  (∃ k r, m = onInsert k r) ∨ (∃ k, m = onErase k) ∨ (∃ p, m = onPageAllocate p) ∨
    (∃ p, m = onPageDeallocate p) ∨ (∃ l r k, m = onNodeSplit l r k) ∨ (∃ s r, m = onNodeMerge s r) →
  ∃ t', wal_call m t = (Ok tt, t') ∧ Inv t' N ∧ same_meta t t' ∧ bt_space t' = bt_space t.
Proof.
  intros HI Hm. pose proof (inv_wal _ _ HI) as Hw. unfold wal_call, wal_ready in *.
  destruct (bt_wal t) as [w|] eqn:Ew;
    [|exists t; split; [done|]; split; [done|]; split; [by repeat split|done]].
  destruct (sink_accepts m w Hw Hm) as (w' & -> & Hw'). eexists. split; [done|].
  split; [|by repeat split]. destruct HI as [H1 H2 H3 H4 H5 H6 H7 H8]. by split.
Qed.

Lemma upd_stats_Inv t N f : Inv t N → Inv (upd_stats f t) N.
Proof. intros HI. by apply (Inv_ext t). Qed.

(** A new page: not one of the tree's, and not the null page. *)
Lemma new_page t N n : Inv t N → room (Datatypes.S n) (bt_space t) →
  ∃ id sp, ps_allocatePage (bt_space t) = (id, sp) ∧ ps_ok sp ∧ room n sp ∧
    kFirstDataPageId <= id <= kMaxPageId ∧ id ∉ sid <$> N ∧
    bt_leaves t !! id = None ∧ bt_internals t !! id = None ∧
    (∀ x, ps_used sp x ↔ x ∈ id :: (sid <$> N) ∨ foreign x) ∧ (∀ x, foreign x → x ∉ id :: (sid <$> N)).
Proof.
  intros HI Hroom. destruct (allocate_room n _ (inv_space _ _ HI) Hroom)
    as (id & sp & He & Hok & Hid & Hnu & Hu & Hr').
  assert (Hni : id ∉ sid <$> N) by (intros Hin; by apply Hnu, (inv_used _ _ HI)).
  exists id, sp. do 5 (split; [done|]). split; [|split; [|split]].
  - apply eq_None_not_Some. intros Hs. destruct (inv_leaves _ _ HI _ Hs) as [es Hin].
    apply Hni, list_elem_of_fmap. by exists (SLeaf id es).
  - apply eq_None_not_Some. intros Hs. destruct (inv_internals _ _ HI _ Hs) as [Hin|(ks & cs & Hin)].
    + apply Hni, list_elem_of_fmap. by exists (SFresh id).
    + apply Hni, list_elem_of_fmap. by exists (SNode id ks cs).
  - intros x. rewrite Hu, (inv_pages _ _ HI), elem_of_cons. tauto.
  - intros x Hx [->|Hin]%elem_of_cons; [|by apply (inv_foreign _ _ HI x)]. apply Hnu, (inv_pages _ _ HI). by right.
Qed.

Lemma page_not_null id : kFirstDataPageId <= id <= kMaxPageId → (id =? kInvalidPageId) = false.
Proof. intros. apply Z.eqb_neq. consts. lia. Qed.

Lemma allocateLeaf_ok t N lvl n : Inv t N → room (Datatypes.S n) (bt_space t) →
  ∃ id t', allocateLeaf lvl t = (Ok id, t') ∧ Inv t' (SLeaf id [] :: N) ∧ same_meta t t' ∧
    room n (bt_space t') ∧ kFirstDataPageId <= id <= kMaxPageId.
Proof.
  intros HI Hroom. destruct (new_page t N n HI Hroom)
    as (id & sp & He & Hok & Hr & Hid & Hni & Hnl & Hnn & Hu & Hfo).
  unfold allocateLeaf. rewrite He, page_not_null by done. cbn [set_space upd_stats bt_leaves bt_config].
  rewrite Hnl.
  destruct (LeafNode_create_spec id (with_level lvl (bt_config t))) as (Hwf & Hk & Hrf & Hc & Hpid).
  set (lf := LeafNode_create id (with_level lvl (bt_config t))) in *. clearbody lf.
  match goal with |- context [(_ ← _; mret id) ?s] => set (t1 := s) end.
  assert (HI1 : Inv t1 (SLeaf id [] :: N)).
  { destruct HI as [H1 H2 H3 H4 H5 H6 H7 H8]. split; cbn [t1 set_leaves bt_leaves bt_internals bt_space]; try done.
    - constructor.
      + exists lf. cbn. rewrite lookup_insert_eq.
        split; [done|]. repeat split; try done; try apply Hwf. by exists lvl.
      + rewrite Forall_forall in *. intros s Hs.
        apply (node_repr_leaf_upd (upd_stats tree_recordAllocation (set_space sp t)) id lf s);
          [|exact (H1 s Hs)]. intros <-. by apply Hni, list_elem_of_fmap_2.
    - cbn. by constructor.
    - intros j. destruct (decide (j = id)) as [->|Hne]; [intros _; exists []; left|].
      cbn. rewrite lookup_insert_ne by done. intros Hj. destruct (H3 j Hj) as [es Hes]. exists es. by right.
    - intros j Hj. destruct (H4 j Hj) as [Hin|(ks & cs & Hin)]; [left; by right|].
      right. exists ks, cs. by right. }
  destruct (wal_call_ok t1 _ (onPageAllocate id) HI1) as (t2 & Hw & HI2 & Hm & Hsp); [naive_solver|].
  exists id, t2. rewrite (M_step _ _ _ _ _ Hw). split; [done|]. split; [done|].
  split; [etransitivity; [|exact Hm]; by repeat split|]. by rewrite Hsp.
Qed.

Lemma allocateInternal_ok t N lvl n : Inv t N → room (Datatypes.S n) (bt_space t) →
  ∃ id t', allocateInternal lvl t = (Ok id, t') ∧ Inv t' (SFresh id :: N) ∧ same_meta t t' ∧
    room n (bt_space t') ∧ kFirstDataPageId <= id <= kMaxPageId.
Proof.
  intros HI Hroom. destruct (new_page t N n HI Hroom)
    as (id & sp & He & Hok & Hr & Hid & Hni & Hnl & Hnn & Hu & Hfo).
  unfold allocateInternal. rewrite He, page_not_null by done.
  cbn [set_space upd_stats bt_internals bt_config]. rewrite Hnn.
  destruct (InternalNode_create_spec id (with_level lvl (bt_config t))) as (Hwf & Hk & Hc & Hpid).
  set (nd := InternalNode_create id (with_level lvl (bt_config t))) in *. clearbody nd.
  match goal with |- context [(_ ← _; mret id) ?s] => set (t1 := s) end.
  assert (HI1 : Inv t1 (SFresh id :: N)).
  { destruct HI as [H1 H2 H3 H4 H5 H6 H7 H8]. split; cbn [t1 set_internals bt_leaves bt_internals bt_space]; try done.
    - constructor.
      + exists nd. cbn. rewrite lookup_insert_eq.
        split; [done|]. split; [apply Hwf|]. split; [done|]. by exists lvl.
      + rewrite Forall_forall in *. intros s Hs.
        apply (node_repr_internal_upd (upd_stats tree_recordAllocation (set_space sp t)) id nd s);
          [|exact (H1 s Hs)]. intros <-. by apply Hni, list_elem_of_fmap_2.
    - cbn. by constructor.
    - intros j Hj. destruct (H3 j Hj) as [es Hes]. exists es. by right.
    - intros j. destruct (decide (j = id)) as [->|Hne]; [intros _; left; left|].
      cbn. rewrite lookup_insert_ne by done. intros Hj. destruct (H4 j Hj) as [Hin|(ks & cs & Hin)].
      + left. by right.
      + right. exists ks, cs. by right. }
  destruct (wal_call_ok t1 _ (onPageAllocate id) HI1) as (t2 & Hw & HI2 & Hm & Hsp); [naive_solver|].
  exists id, t2. rewrite (M_step _ _ _ _ _ Hw). split; [done|]. split; [done|].
  split; [etransitivity; [|exact Hm]; by repeat split|]. by rewrite Hsp.
Qed.
End facts.
