(* ===== verification/TreeSearch.v ===== *)
(** Searching the tree: [descendToLeaf] reaches the leaf whose neighbourhood
    encloses the key, and [find] answers from the entries of all leaves. *)
From stdpp Require Import base strings list gmap decidable sorting sets.
From Stdlib Require Import ZArith Lia.
From S2P Require Import Prelude Config PageAlloc Buffers Keys Nodes NodeFacts Tree TreeShape TreeFacts.

(** ** Order in a tree *)

Definition between (key : Key) (c : list frame) : Prop :=
  Forall (λ k, key_lt k key) (ctx_left c) ∧ Forall (key_le key) (ctx_right c).

Lemma seg_left_keys ks cs k : length cs = length ks → k ∈ ks → k ∈ seg_left ks cs.
Proof.
  revert cs. induction ks as [|x ks IH]; intros [|c cs] Hl Hk; cbn in *; try lia; [set_solver|].
  apply elem_of_cons in Hk as [->|Hk]; [set_solver|]. rewrite elem_of_app, elem_of_cons. auto.
Qed.
Lemma seg_right_keys ks cs k : length cs = length ks → k ∈ ks → k ∈ seg_right ks cs.
Proof.
  revert cs. induction ks as [|x ks IH]; intros [|c cs] Hl Hk; cbn in *; try lia; [set_solver|].
  apply elem_of_cons in Hk as [->|Hk]; [set_solver|]. rewrite elem_of_cons, elem_of_app. auto.
Qed.

Lemma seg_left_sorted ks cs : sorted_lt (seg_left ks cs) → length cs = length ks → sorted_lt ks.
Proof.
  revert cs. induction ks as [|x ks IH]; intros [|c cs] Hs Hl; cbn in *; try lia; [constructor|].
  apply StronglySorted_app_iff in Hs as (_ & Hs & _). apply StronglySorted_inv in Hs as [Hs Hx].
  constructor; [eapply IH; [exact Hs|lia]|]. rewrite Forall_forall in *. intros k Hk.
  apply Hx, seg_left_keys; [lia|done].
Qed.

Lemma seg_left_snoc ks cs k c : length cs = length ks →
  seg_left (ks ++ [k]) (cs ++ [c]) = (seg_left ks cs ++ inorder c) ++ [k].
Proof.
  revert cs. induction ks as [|x ks IH]; intros [|y cs] Hl; cbn in *; try lia; [done|].
  rewrite IH by lia. by rewrite <-!app_assoc.
Qed.

(** Everything left of the place where a search for [key] goes down is below it,
    and everything right of it is not. *)
Lemma seg_left_below key ks cs : length cs = length ks → sorted_lt (seg_left ks cs) →
  Forall (λ k, key_lt k key) ks → Forall (λ k, key_lt k key) (seg_left ks cs).
Proof.
  destruct ks as [|x ks _] using rev_ind; [destruct cs; constructor|].
  destruct cs as [|c cs _] using rev_ind; [rewrite length_app; cbn; lia|].
  rewrite !length_app. cbn. intros Hl. rewrite seg_left_snoc by lia.
  intros (_ & _ & Hs)%StronglySorted_app_iff Hk. apply Forall_app in Hk as [_ Hk].
  apply Forall_app. split; [|done]. rewrite Forall_singleton in Hk. rewrite Forall_forall in *.
  intros y Hy. specialize (Hs y Hy). rewrite Forall_singleton in Hs. by eapply key_lt_trans.
Qed.
Lemma seg_right_above key ks cs : sorted_lt (seg_right ks cs) →
  Forall (key_le key) ks → Forall (key_le key) (seg_right ks cs).
Proof.
  destruct ks as [|k ks], cs as [|c cs]; cbn; try (intros; constructor; fail).
  intros [_ Hs]%StronglySorted_inv [Hk _]%Forall_cons. constructor; [done|].
  eapply Forall_impl; [exact Hs|]. intros x Hx. apply key_lt_le. by eapply key_le_lt_trans.
Qed.

(** Entries outside the enclosed leaf have other keys: those to the right lie
    beyond a separator. *)
Lemma seg_right_entries key ks cs h e : sorted_lt (seg_right ks cs) → Forall (key_le key) (seg_right ks cs) →
  length cs = length ks → Forall (uniform h) cs → e ∈ concat (entries <$> cs) → key_lt key e.1.
Proof.
  revert cs. induction ks as [|k ks IH]; intros [|c cs] Hs Hk Hl Hu He; cbn in *; try lia; [set_solver|].
  apply StronglySorted_inv in Hs as [Hs Hx]. apply Forall_cons in Hk as [Hk Hr], Hu as [Hc Hu].
  apply elem_of_app in He as [He|He].
  - apply (key_le_lt_trans _ k); [done|]. rewrite Forall_forall in Hx. apply Hx, elem_of_app. left.
    by apply (entries_inorder h).
  - apply StronglySorted_app_iff in Hs as (_ & Hs & _). apply Forall_app in Hr as [_ Hr].
    by apply (IH cs); [..|lia|done|done].
Qed.
Lemma seg_left_entries ks cs h e : length cs = length ks → Forall (uniform h) cs →
  e ∈ concat (entries <$> cs) → e.1 ∈ seg_left ks cs.
Proof.
  revert cs. induction ks as [|k ks IH]; intros [|c cs] Hl Hu He; cbn in *; try lia; [set_solver|].
  apply Forall_cons in Hu as [Hc Hu]. rewrite elem_of_app in He. rewrite elem_of_app, elem_of_cons.
  destruct He as [He|He]; [left; by apply (entries_inorder h)|]. right. right. apply IH; auto.
Qed.

Lemma stored_concat cs : stored_entries (concat (pnodes <$> cs)) = concat (entries <$> cs).
Proof.
  induction cs as [|c cs IH]; [done|]. rewrite !fmap_cons. cbn [concat].
  by rewrite stored_entries_app, IH.
Qed.

Lemma ctx_nodes_entries f c id : stored_entries (ctx_nodes (f :: c) id) =
  concat (entries <$> f_lcs f) ++ concat (entries <$> f_rcs f) ++ stored_entries (ctx_nodes c (f_id f)).
Proof.
  cbn [ctx_nodes]. unfold stored_entries at 1. rewrite fmap_cons. cbn [concat sentries app].
  change (concat (sentries <$> ?l)) with (stored_entries l).
  by rewrite !stored_entries_app, !stored_concat.
Qed.

Lemma ctx_entries_other h key c id e : ctx_ok h c → between key c → sorted_lt (ctx_right c) →
  e ∈ stored_entries (ctx_nodes c id) → e.1 ≠ key.
Proof.
  revert h id. induction c as [|f c IH]; intros h id Hc [Hl Hr] Hs He; [set_solver|].
  destruct Hc as [(H1 & H2 & H3 & H4) Hc]. cbn in Hl, Hr, Hs.
  apply Forall_app in Hl as [Hl1 Hl2], Hr as [Hr1 Hr2]. apply StronglySorted_app_iff in Hs as (Hs1 & Hs2 & _).
  rewrite ctx_nodes_entries, !elem_of_app in He. destruct He as [He|[He|He]].
  - intros <-. rewrite Forall_forall in Hl2. apply (key_lt_irrefl e.1), Hl2. by apply (seg_left_entries _ _ h).
  - intros <-. by apply (key_lt_irrefl e.1), (seg_right_entries _ (f_rks f) (f_rcs f) h).
  - by apply (IH (S h) (f_id f)).
Qed.

(** ** Descending *)

(** Cutting a node where the search goes down. *)
Lemma node_cut h key id ks cs : uniform (S h) (PNode id ks cs) → sorted_lt (inorder (PNode id ks cs)) →
  ∃ f child, PNode id ks cs = plug1 f child ∧ f_id f = id ∧ frame_ok h f ∧ uniform h child ∧
    lowerBound ks key = length (f_lks f) ∧
    Forall (λ k, key_lt k key) (seg_left (f_lks f) (f_lcs f)) ∧
    Forall (key_le key) (seg_right (f_rks f) (f_rcs f)).
Proof.
  intros [Hl Hu] Hs.
  assert (Hks : sorted_lt ks).
  { destruct cs as [|c cs _] using rev_ind; [done|]. rewrite length_app in Hl. cbn in Hl.
    rewrite <-(app_nil_r ks) in Hs. cbn [inorder] in Hs.
    rewrite fmap_app in Hs. change (inorder <$> [c]) with [inorder c] in Hs.
    rewrite (interleave_app ks [] (inorder <$> cs) []) in Hs by (rewrite length_fmap; lia).
    apply StronglySorted_app_iff in Hs as [Hs _]. rewrite interleave_left in Hs by lia.
    eapply seg_left_sorted; [exact Hs|lia]. }
  destruct (lowerBound_cut ks key (sorted_lt_le _ Hks)) as (xs & ys & -> & Hb & Hx & Hy).
  rewrite length_app in Hl.
  destruct (lookup_lt_is_Some_2 cs (length xs)) as [child Hc]; [lia|].
  rewrite <-(take_drop_middle cs _ _ Hc) in *. set (lcs := take (length xs) cs) in *.
  set (rcs := drop (S (length xs)) cs) in *.
  assert (Hll : length lcs = length xs) by (unfold lcs; rewrite length_take; apply lookup_lt_Some in Hc; lia).
  rewrite length_app in Hl. cbn in Hl. apply Forall_app in Hu as [Hu1 Hu2]. apply Forall_cons in Hu2 as [Hu2 Hu3].
  assert (Hf : frame_ok h (mkFrame id xs lcs ys rcs)) by (split; cbn; [done|split; [lia|done]]).
  exists (mkFrame id xs lcs ys rcs), child. do 4 (split; [done|]).
  split; [done|]. change (PNode id (xs ++ ys) (lcs ++ child :: rcs)) with (plug1 (mkFrame id xs lcs ys rcs) child) in Hs.
  rewrite (plug1_inorder h) in Hs by done. cbn in *. apply StronglySorted_app_iff in Hs as (Hs1 & Hs2 & _).
  apply StronglySorted_app_iff in Hs2 as (_ & Hs2 & _).
  split; [by apply seg_left_below|by apply seg_right_above].
Qed.

Section search.
Context {S W : Type} `{PageSpace S} `{BTreeWalSink W} `{Fo : ForeignPages}.
Notation BT := (BTree S W).
Implicit Types (t : BT).

(** [t] holds the tree [p] of height [h + 1]. *)
Record holds t (p : ptree) (h : nat) : Prop := {
  h_inv : Inv t (pnodes p);
  h_uniform : uniform h p;
  h_root : bt_rootId t = pid p;
  h_height : bt_height t = u32 (Z.of_nat (Datatypes.S h));
  h_sorted : sorted_lt (inorder p)
}.

Definition frame_entry (f : frame) : SearchPathEntry :=
  mkPathEntry (f_id f) (Z.of_nat (length (f_lks f))) (makeIndexRef (f_id f)).
Definition path_of (c : list frame) : SearchPath := frame_entry <$> c.

Lemma pid_nodes p : pid p ∈ sid <$> pnodes p.
Proof. destruct p; cbn; left. Qed.

Lemma child_valid t N id : Inv t N → id ∈ sid <$> N → PageReference_isValid (makeIndexRef id) = true.
Proof.
  intros HI Hid. pose proof (ps_used_range _ _ (inv_space _ _ HI) (inv_used _ _ HI _ Hid)).
  unfold PageReference_isValid. cbn. rewrite negb_true_iff. by apply page_not_null.
Qed.

Lemma subtree_node c p s : s ∈ pnodes p → s ∈ pnodes (plug c p).
Proof. intros Hs. rewrite plug_nodes, elem_of_app. by left. Qed.

Lemma Inv_leaf t N id es : Inv t N → SLeaf id es ∈ N →
  ∃ l, bt_leaves t !! id = Some l ∧ leaf_repr (bt_config t) id es l.
Proof. intros HI Hin. pose proof (inv_repr _ _ HI) as Hr. rewrite Forall_forall in Hr. apply (Hr _ Hin). Qed.
Lemma Inv_node t N id ks cs : Inv t N → SNode id ks cs ∈ N →
  ∃ i, bt_internals t !! id = Some i ∧ internal_repr (bt_config t) id ks cs i.
Proof. intros HI Hin. pose proof (inv_repr _ _ HI) as Hr. rewrite Forall_forall in Hr. apply (Hr _ Hin). Qed.

Lemma internal_repr_capacity c id ks cs i : internal_repr c id ks cs i → Z.of_nat (length ks) < 2 ^ 32.
Proof.
  intros ((Hwf & _ & _ & Hcap & _) & <- & _). destruct Hwf as (_ & Hc & _).
  pose proof (computeCapacity_range (config_ (in_node i)) Internal). unfold capacity in Hcap. lia.
Qed.

Lemma descend_spec t key b h : ∀ p c fuel, Inv t (pnodes (plug c p)) → uniform h p → ctx_ok h c →
  sorted_lt (inorder (plug c p)) → between key c → (h <= fuel)%nat →
  ∃ c' id es, plug c' (PLeaf id es) = plug c p ∧ ctx_ok 0 c' ∧ between key c' ∧
    length c' = (h + length c)%nat ∧
    descend_loop fuel t key b (path_of c) (pid p) = descend_loop 0 t key b (path_of c') id.
Proof.
  induction h as [|h IH]; intros p c fuel HI Hu Hc Hs Hb Hf; destruct p as [id es|id ks cs]; try done.
  - exists c, id, es. do 4 (split; [done|]).
    destruct (Inv_leaf t _ id es HI) as (l & Hl & _); [apply subtree_node; left|].
    cbn [pid]. destruct fuel; cbn [descend_loop]; by rewrite Hl.
  - assert (Hin : SNode id ks (pid <$> cs) ∈ pnodes (plug c (PNode id ks cs))) by (apply subtree_node; left).
    destruct (Inv_node _ _ _ _ _ HI Hin) as (i & Hi & Hr).
    assert (Hsp : sorted_lt (inorder (PNode id ks cs))).
    { rewrite (plug_inorder (Datatypes.S h)) in Hs by done.
      by apply StronglySorted_app_iff in Hs as (_ & (Hs & _)%StronglySorted_app_iff & _). }
    destruct (node_cut h key id ks cs Hu Hsp) as (f & child & Hp & Hid & Hfok & Huc & Hlb & Hfl & Hfr).
    destruct fuel as [|fuel]; [lia|].
    assert (Hpl : plug c (PNode id ks cs) = plug (f :: c) child) by (by rewrite Hp).
    rewrite Hpl in HI, Hs. destruct Hb as [Hbl Hbr].
    destruct (IH child (f :: c) fuel HI Huc (conj Hfok Hc) Hs) as (c' & lid & es & Hpl' & Hc' & Hb' & Hlen & Hd).
    { split; cbn; by apply Forall_app. } { lia. }
    exists c', lid, es. split; [congruence|]. do 2 (split; [done|]). split; [cbn in Hlen; lia|].
    rewrite <-Hd. cbn [descend_loop pid].
    rewrite (Inv_internal_not_leaf t _ _ _ _ HI) by (rewrite <-Hpl; exact Hin). rewrite Hi.
    pose proof (internal_repr_capacity _ _ _ _ _ Hr) as Hcap.
    destruct Hr as (Hwf & -> & -> & Hr). rewrite Hlb.
    injection Hp as _ -> ->.
    assert (Hat : at_ (makeIndexRef <$> (pid <$> f_lcs f ++ child :: f_rcs f)) (length (f_lks f)) =
                  Ok (makeIndexRef (pid child))).
    { unfold at_. rewrite !list_lookup_fmap, list_lookup_middle by (symmetry; apply Hfok). done. }
    unfold at_ in *. rewrite Hat. cbn [mbind outcome_bind].
    rewrite (child_valid t _ (pid child) HI); [cbn [negb]|].
    2:{ apply list_elem_of_fmap. pose proof (pid_nodes child) as Hpc.
        apply list_elem_of_fmap in Hpc as (s & -> & Hsn). exists s. split; [done|]. by apply subtree_node. }
    change (path_of (f :: c)) with
      (mkPathEntry (f_id f) (Z.of_nat (length (f_lks f))) (makeIndexRef (f_id f)) :: path_of c).
    rewrite Hid, u32_small; [done|].
    rewrite length_app in Hcap. lia.
Qed.

(** The fuel: a tree has at least as many internal nodes as levels above its
    leaves. *)
Definition node_ids (N : list shallow) : list Z :=
  concat ((λ s, match s with SNode id _ _ => [id] | _ => [] end) <$> N).

Lemma node_ids_app N N' : node_ids (N ++ N') = node_ids N ++ node_ids N'.
Proof. unfold node_ids. by rewrite fmap_app, concat_app. Qed.

Lemma node_ids_height h p : uniform h p → (h <= length (node_ids (pnodes p)))%nat.
Proof.
  revert p. induction h as [|h IH]; intros [id es|id ks cs] Hu; cbn in Hu; try done; try lia.
  destruct Hu as [Hl Hu]. destruct cs as [|c cs]; [done|]. apply Forall_cons in Hu as [Hc _].
  specialize (IH c Hc). cbn [pnodes]. rewrite fmap_cons. cbn [concat].
  change (Datatypes.S h <= Datatypes.S (length (node_ids (pnodes c ++ concat (pnodes <$> cs)))))%nat.
  rewrite node_ids_app, length_app. lia.
Qed.

Lemma node_ids_sublist N : node_ids N `sublist_of` (sid <$> N).
Proof.
  induction N as [|[id es|id ks cs|id] N IH]; cbn; [constructor|..]; by constructor.
Qed.

Lemma height_bound t N : Inv t N → (length (node_ids N) <= size (bt_internals t))%nat.
Proof.
  intros HI. pose proof (inv_nodup _ _ HI) as Hnd.
  assert (Hnd' : NoDup (node_ids N)) by (by eapply sublist_NoDup; [|apply node_ids_sublist]).
  rewrite <-size_dom, <-(size_list_to_set (C := gset Z) _ Hnd'). apply subseteq_size.
  intros id Hid. apply elem_of_list_to_set, elem_of_concat in Hid as (x & Hx & Hin).
  apply list_elem_of_fmap in Hin as ([i es|i ks cs|i] & -> & Hs); [set_solver| |set_solver].
  apply list_elem_of_singleton in Hx as ->. destruct (Inv_node _ _ _ _ _ HI Hs) as (nd & Hnd2 & _).
  apply elem_of_dom. eauto.
Qed.

Lemma holds_nonempty t p h : holds t p h → empty_ t = false.
Proof.
  intros Hh. unfold empty_. rewrite (h_root _ _ _ Hh). apply page_not_null.
  eapply ps_used_range; [apply (h_inv _ _ _ Hh)|]. apply (inv_used _ _ (h_inv _ _ _ Hh)), pid_nodes.
Qed.

(** [descendToLeaf] always arrives, at a leaf the key belongs to. *)
Lemma descendToLeaf_spec t p h key b : holds t p h →
  ∃ c id es l, p = plug c (PLeaf id es) ∧ ctx_ok 0 c ∧ between key c ∧ length c = h ∧
    bt_leaves t !! id = Some l ∧ leaf_repr (bt_config t) id es l ∧ sorted_lt es.*1 ∧
    sorted_lt (ctx_right c) ∧
    descendToLeaf key b t = descend_loop 0 t key b (path_of c) id.
Proof.
  intros Hh. pose proof Hh as [HI Hu Hroot Hhe Hs].
  destruct (descend_spec t key b h p [] (size (bt_internals t)) HI Hu) as (c & id & es & Hp & Hc & Hb & Hlen & Hd);
    [done|done|split; constructor| |].
  { etransitivity; [by apply node_ids_height|by apply height_bound]. }
  cbn in Hp, Hlen. subst p.
  destruct (Inv_leaf t _ id es HI) as (l & Hl & Hr); [apply subtree_node; left|].
  rewrite (plug_inorder 0) in Hs by done.
  apply StronglySorted_app_iff in Hs as (_ & (Hs1 & Hs2 & _)%StronglySorted_app_iff & _).
  exists c, id, es, l. rewrite Nat.add_0_r in Hlen. do 8 (split; [done|]).
  unfold descendToLeaf. rewrite (holds_nonempty _ _ _ Hh), Hroot. done.
Qed.

(** ** find *)
Lemma zip_entries (es : list entry) : zip es.*1 es.*2 = es.
Proof. induction es as [|[k r] es IH]; cbn; [done|]. by f_equal. Qed.

Lemma leaf_entries_lookup (es : list entry) key r : sorted_lt es.*1 →
  (key, r) ∈ es ↔ key ∈ es.*1 ∧ es.*2 !! KeyComparator_find es.*1 key = Some r.
Proof.
  intros Hs. pose proof (KeyComparator_find_spec es.*1 key (sorted_lt_le _ Hs)) as [Hin Hni].
  rewrite <-(zip_entries es) at 1. rewrite elem_of_zip_lookup. split.
  - intros (i & Hi & Hr). pose proof (list_elem_of_lookup_2 _ _ _ Hi) as Hk. split; [done|].
    destruct (Hin Hk) as [Hp _]. by rewrite (NoDup_lookup _ _ i _ (sorted_lt_NoDup _ Hs) Hp Hi).
  - intros [Hk Hr]. destruct (Hin Hk) as [Hp _]. eauto.
Qed.

(** At a leaf with entries [es], the search for an exact match. *)
Lemma exact_at_leaf t key path id es l : bt_leaves t !! id = Some l → leaf_repr (bt_config t) id es l →
  sorted_lt es.*1 → descend_loop 0 t key true path id =
    (if decide (key ∈ es.*1) then Ok (path, id, KeyComparator_find es.*1 key)
     else invalidArgument "BTree: key not found").
Proof.
  intros Hl ((_ & Hkc & _) & Hk & _ & _) Hs. cbn [descend_loop]. rewrite Hl. unfold LeafNode_find.
  rewrite Hkc, Hk. pose proof (KeyComparator_find_spec es.*1 key (sorted_lt_le _ Hs)) as [Hin Hni].
  destruct (decide (key ∈ es.*1)) as [Hk'|Hk'].
  - destruct (Hin Hk') as [Hp _]. rewrite (proj2 (Z.leb_gt _ _)) by (apply lookup_lt_Some in Hp; lia).
    unfold at_. rewrite Hp. cbn. by rewrite (proj2 (Key_eqb_spec key key)).
  - rewrite (Hni Hk'), (proj2 (Z.leb_le _ _)) by lia. done.
Qed.

Lemma leaf_entry_iff c id es key r : ctx_ok 0 c → between key c → sorted_lt (ctx_right c) →
  (key, r) ∈ entries (plug c (PLeaf id es)) ↔ (key, r) ∈ es.
Proof.
  intros Hc Hb Hs. rewrite plug_entries, elem_of_app. cbn [pid].
  change (entries (PLeaf id es)) with (es ++ []). rewrite app_nil_r. split; [|by left].
  intros [?|Ho]; [done|]. by destruct (ctx_entries_other 0 key c id _ Hc Hb Hs Ho).
Qed.

Lemma tree_find_spec t p h key : holds t p h →
  (∀ r, BTree_find key t = Ok r ↔ (key, r) ∈ entries p) ∧
  ((∀ r, (key, r) ∉ entries p) → BTree_find key t = invalidArgument "BTree: key not found").
Proof.
  intros Hh. destruct (descendToLeaf_spec t p h key true Hh)
    as (c & id & es & l & -> & Hc & Hb & _ & Hl & Hr & Hs & Hsr & Hd).
  unfold BTree_find. rewrite Hd, (exact_at_leaf t key _ id es l Hl Hr Hs).
  destruct Hr as ((_ & _ & Hlen & _) & Hk & Hrf & _). rewrite Hk in Hlen.
  assert (Hiff : ∀ r, (key, r) ∈ entries (plug c (PLeaf id es)) ↔ (key, r) ∈ es) by (by intros; apply leaf_entry_iff).
  setoid_rewrite Hiff. clear Hiff. destruct (decide (key ∈ es.*1)) as [Hin|Hni]; cbn [mbind outcome_bind].
  - rewrite Hl, Hrf. unfold at_. destruct (KeyComparator_find_spec es.*1 key (sorted_lt_le _ Hs)) as [Hf _].
    destruct (Hf Hin) as [Hp _]. apply lookup_lt_Some in Hp.
    destruct (lookup_lt_is_Some_2 es.*2 (KeyComparator_find es.*1 key)) as [r0 Hr0].
    { rewrite length_fmap. by rewrite length_fmap in Hp. }
    rewrite Hr0. split.
    + intros r. rewrite leaf_entries_lookup by done. rewrite Hr0. naive_solver.
    + intros Hno. destruct (Hno r0). by apply leaf_entries_lookup.
  - split; [|done]. intros r. split; [done|]. rewrite leaf_entries_lookup by done. naive_solver.
Qed.
End search.

(** ** The path a descent records *)

Section search_path.
Context {S W : Type} `{PageSpace S} `{BTreeWalSink W}.
Implicit Types (t : BTree S W) (p : SearchPath).

(** [p] leads from the root to [id]: each frame is an internal node whose child
    at the recorded index is the next one. *)
Fixpoint path_chain t p (id : Z) : Prop :=
  match p with
  | [] => id = bt_rootId t
  | e :: p =>
      path_chain t p (pe_pageId e) ∧ pe_pageRef e = makeIndexRef (pe_pageId e) ∧
      ∃ n i r, bt_internals t !! pe_pageId e = Some n ∧ pe_childIndex e = u32 (Z.of_nat i) ∧
        InternalNode_childAt i n = Ok r ∧ PageReference_isValid r = true ∧ pr_pageId r = id
  end.

Lemma descend_loop_leaf t key b fuel p cur l p' id i : bt_leaves t !! cur = Some l →
  descend_loop fuel t key b p cur = Ok (p', id, i) → p' = p ∧ id = cur.
Proof.
  intros Hl Hd. destruct fuel; cbn [descend_loop] in Hd; rewrite Hl in Hd; destruct b; simplify_eq; try done;
    (destruct (_ <=? _) in Hd; [done|]); (destruct (at_ _ _) as [k| | | |] in Hd; try done);
    cbn [mbind outcome_bind] in Hd; destruct (negb _) in Hd; try done; by simplify_eq.
Qed.

Lemma descend_loop_chain t key b fuel : ∀ p cur p' id i, path_chain t p cur →
  descend_loop fuel t key b p cur = Ok (p', id, i) →
  path_chain t p' id ∧ is_Some (bt_leaves t !! id) ∧ (length p' <= fuel + length p)%nat.
Proof.
  induction fuel as [|fuel IH]; intros p cur p' id i Hc Hd;
    (destruct (bt_leaves t !! cur) as [l|] eqn:Hl;
     [destruct (descend_loop_leaf _ _ _ _ _ _ _ _ _ _ Hl Hd) as [-> ->]; rewrite Hl;
      split; [done|split; [done|lia]]|]);
    cbn [descend_loop] in Hd; rewrite Hl in Hd; [done|].
  destruct (bt_internals t !! cur) as [n|] eqn:Hn; [|done].
  destruct (at_ (in_children n) (lowerBound (in_keys n) key)) as [r| | | |] eqn:Hr; try done.
  cbn [mbind outcome_bind] in Hd. destruct (negb (PageReference_isValid r)) eqn:Hv; [done|].
  apply negb_false_iff in Hv. apply IH in Hd as (? & ? & Hlen).
  2:{ cbn [path_chain pe_pageId pe_pageRef pe_childIndex]. eauto 10. }
  cbn [length] in Hlen. split; [done|]. split; [done|lia].
Qed.

(** A descent records a path from the root to the leaf it returns, with a frame
    for every internal node on the way and no more frames than internal nodes. *)
Lemma descendToLeaf_chain t key b p id i : descendToLeaf key b t = Ok (p, id, i) →
  path_chain t p id ∧ is_Some (bt_leaves t !! id) ∧ (SearchPath_depth p <= size (bt_internals t))%nat.
Proof.
  unfold descendToLeaf. destruct (empty_ t); [done|]. intros Hd.
  destruct (descend_loop_chain t key b _ [] _ _ _ _ eq_refl Hd) as (? & ? & Hlen).
  cbn [length] in Hlen. rewrite Nat.add_0_r in Hlen. done.
Qed.

(** The outermost entry of a recorded path is the root and the innermost one
    the parent of the leaf; the path is empty, and [top] undefined, exactly when
    the leaf is the root. *)
Lemma path_chain_ends t p id : path_chain t p id →
  match p with
  | [] => SearchPath_empty p = true ∧ SearchPath_top p = UB ∧ id = bt_rootId t
  | _ => ∃ e e', SearchPath_at 0 p = Ok e ∧ pe_pageId e = bt_rootId t ∧
      SearchPath_top p = Ok e' ∧ is_Some (bt_internals t !! pe_pageId e') ∧
      SearchPath_pop (SearchPath_push e' p) = p
  end.
Proof.
  revert id. induction p as [|e p IH]; intros id Hc; [done|].
  destruct Hc as (Hc & _ & n & i & r & Hn & _). specialize (IH _ Hc).
  unfold SearchPath_at, at_ in *. cbn [rev SearchPath_top]. destruct p as [|f p].
  - destruct IH as (_ & _ & Hr). exists e, e. rewrite Hn. eauto 10.
  - destruct IH as (e0 & e' & He0 & Hroot & _). exists e0, e. rewrite Hn.
    rewrite lookup_app_l by (cbn; rewrite length_app; cbn; lia). repeat split; done.
Qed.
End search_path.
