(* ===== verification/TreeInsert.v ===== *)
(** Insertion: what [insert] does to the tree when the leaf has room, when it
    is split, and how splits travel up the search path. *)
From stdpp Require Import base strings list gmap decidable sorting sets.
From Stdlib Require Import ZArith Lia.
From S2P Require Import Prelude Config PageAlloc Buffers Keys Nodes NodeFacts Tree TreeShape TreeFacts TreeSearch.

(** ** Shapes *)

Lemma take_drop_at {A} n (l : list A) x : l !! n = Some x → l = take n l ++ x :: drop (n + 1) l.
Proof. intros Hx. by rewrite Nat.add_1_r, take_drop_middle. Qed.

Lemma vinsert_mid {A} (xs ys : list A) x n : n = length xs → vinsert n x (xs ++ ys) = xs ++ x :: ys.
Proof. intros ->. apply vinsert_app. Qed.

(** The keys of a node after the child [L] was replaced by [L], [k], [R]. *)
Lemma frame_split_inorder h f id L k R : frame_ok h f →
  inorder (PNode id (f_lks f ++ k :: f_rks f) (f_lcs f ++ L :: R :: f_rcs f)) =
  seg_left (f_lks f) (f_lcs f) ++ inorder L ++ k :: inorder R ++ seg_right (f_rks f) (f_rcs f).
Proof.
  intros (H1 & H2 & _). cbn [inorder]. rewrite fmap_app. rewrite !fmap_cons.
  rewrite interleave_app by (by rewrite length_fmap). rewrite interleave_left by done. f_equal.
  cbn [interleave]. f_equal. f_equal. by rewrite (interleave_right R).
Qed.

Lemma inorder_root id L k R : inorder (PNode id [k] [L; R]) = inorder L ++ k :: inorder R.
Proof. cbn. by rewrite app_nil_r. Qed.

(** The separator between two siblings is none of their parent's. *)
Lemma promoted_new h f c L k R :
  sorted_lt (ctx_left (f :: c) ++ inorder L ++ k :: inorder R ++ ctx_right (f :: c)) → frame_ok h f →
  k ∉ f_lks f ++ f_rks f.
Proof.
  intros Hs (H1 & H2 & _). cbn [ctx_left ctx_right] in Hs.
  apply sorted_lt_NoDup in Hs. rewrite app_assoc, <-Permutation_middle in Hs.
  apply NoDup_cons in Hs as [Hn _]. intros Hin. apply Hn. rewrite !elem_of_app.
  apply elem_of_app in Hin as [Hin|Hin].
  - left. left. right. by apply seg_left_keys.
  - right. right. left. by apply seg_right_keys.
Qed.

Lemma entries_leaf id es : entries (PLeaf id es) = es.
Proof. change (es ++ [] = es). apply app_nil_r. Qed.

Lemma keyWireSize_level lv c : keyWireSize (with_level lv c) = keyWireSize c.
Proof. done. Qed.
Lemma capacity_level lv c ty : computeCapacity (with_level lv c) ty = computeCapacity c ty.
Proof. done. Qed.

(** Nodes hold at least one key. *)
Definition config_ok (c : BTreeNodeConfig) : Prop :=
  0 < computeCapacity c Leaf ∧ 0 < computeCapacity c Internal.

Section insert.
Context {S W : Type} `{PageSpace S} `{BTreeWalSink W} `{Fo : ForeignPages}.
Notation BT := (BTree S W).
Implicit Types (t : BT).

(** Storing new contents in an internal node. *)
Lemma assign_internal t N s id ks cs : Inv t (s :: N) → (s = SFresh id ∨ ∃ ks0 cs0, s = SNode id ks0 cs0) →
  length cs = Datatypes.S (length ks) → Z.of_nat (length ks) <= computeCapacity (bt_config t) Internal →
  Forall (key_fits (bt_config t)) ks →
  ∃ t', on_internal id (InternalNode_assignEntries ks (makeIndexRef <$> cs)) t = (Ok tt, t') ∧
    Inv t' (SNode id ks cs :: N) ∧ same_meta t t' ∧ bt_space t' = bt_space t.
Proof.
  intros HI Hs Hl Hc Hf.
  assert (∃ i, bt_internals t !! id = Some i ∧ fresh_repr (bt_config t) id i) as (i & Hi & Hr).
  { pose proof (inv_repr _ _ HI) as Hr. apply Forall_cons in Hr as [Hr _].
    destruct Hs as [->|(ks0 & cs0 & ->)]; [done|]. destruct Hr as (i & ? & ?). exists i. split; [done|].
    by eapply internal_repr_fresh. }
  apply (on_internal_ok t N s); [done|by destruct Hs as [->|(?&?&->)]| |by destruct Hs as [->|(?&?&->)]].
  exists i. split; [done|]. split; [done|]. destruct Hr as (Hwf & Hid & lv & Hcf).
  pose proof Hwf as (_ & Hcap & _). rewrite Hcf, capacity_level in Hcap.
  destruct (InternalNode_assign_ok ks (makeIndexRef <$> cs) i) as (i' & He & Hk & Hch & Hwf' & Hsame);
    [done|by rewrite length_fmap|unfold capacity; lia|by rewrite Hcf|].
  exists i'. done.
Qed.

(** What [insertIntoParent] achieves for siblings [L] and [R] under [c]. *)
Definition joined t c L k R (o : outcome unit) t' : Prop :=
  o = Ok tt ∧ ∃ p' h', Inv t' (pnodes p') ∧ uniform h' p' ∧ bt_rootId t' = pid p' ∧
    bt_height t' = u32 (Z.of_nat (Datatypes.S h')) ∧
    inorder p' = ctx_left c ++ inorder L ++ k :: inorder R ++ ctx_right c ∧
    entries p' ≡ₚ entries L ++ entries R ++ stored_entries (ctx_nodes c (pid L)) ∧
    bt_config t' = bt_config t ∧ bt_size t' = bt_size t.

Definition joinable h t c L k R : Prop :=
  Inv t (pnodes L ++ pnodes R ++ ctx_nodes c (pid L)) ∧ uniform h L ∧ uniform h R ∧ ctx_ok h c ∧
  bt_rootId t = pid (plug c L) ∧ bt_height t = u32 (Z.of_nat (Datatypes.S (h + length c))) ∧
  sorted_lt (ctx_left c ++ inorder L ++ k :: inorder R ++ ctx_right c) ∧ key_fits (bt_config t) k.

Lemma join_root h t L k R : joinable h t [] L k R → config_ok (bt_config t) → room 1 (bt_space t) →
  let '(o, t') := insertIntoParent [] k (pid L) (pid R) t in joined t [] L k R o t'.
Proof.
  intros (HI & HL & HR & _ & Hroot & Hh & Hs & Hk) [_ Hcap] Hroom.
  cbn [insertIntoParent]. unfold gets. rewrite (M_step _ _ t (bt_height t) t) by done.
  destruct (allocateInternal_ok t _ (bt_height t) 0 HI Hroom) as (id & t1 & Ha & HI1 & Hm1 & _ & _).
  rewrite (M_step _ _ _ _ _ Ha).
  destruct (assign_internal t1 _ _ id [k] [pid L; pid R] HI1 (or_introl eq_refl)) as (t2 & Hb & HI2 & Hm2 & _);
    [done|cbn; rewrite (proj1 Hm1); lia|by rewrite (proj1 Hm1), Forall_singleton|].
  change (makeIndexRef <$> [pid L; pid R]) with [makeIndexRef (pid L); makeIndexRef (pid R)] in Hb.
  rewrite (M_step _ _ _ _ _ Hb). unfold modify. split; [done|].
  assert (Hm : same_meta t t2) by (by etransitivity). destruct Hm as (Hc & Hr & Hz & Hh2).
  exists (PNode id [k] [L; R]), (Datatypes.S h). split; [|split; [|split; [|split; [|split; [|split]]]]].
  - eapply (Inv_ext t2); [|done..]. eapply (Inv_perm t2); [|exact HI2]. cbn. by rewrite !app_nil_r.
  - cbn. split; [done|]. by repeat constructor.
  - done.
  - cbn. rewrite Hh2, Hh, Nat.add_0_r. unfold u32, wrap. rewrite Zplus_mod_idemp_l. f_equal. lia.
  - cbn [ctx_left ctx_right]. by rewrite inorder_root, !app_nil_r.
  - rewrite entries_node. cbn. change (stored_entries []) with (@nil entry). done.
  - done.
Qed.

(** The pages around the parent. *)
Definition around c f L R : list shallow :=
  concat (pnodes <$> (f_lcs f ++ L :: R :: f_rcs f)) ++ ctx_nodes c (f_id f).

Lemma around_perm c f L R :
  pnodes L ++ pnodes R ++ ctx_nodes (f :: c) (pid L) ≡ₚ
  SNode (f_id f) (f_lks f ++ f_rks f) (pid <$> (f_lcs f ++ L :: f_rcs f)) :: around c f L R.
Proof.
  unfold around. rewrite !fmap_app, !fmap_cons, !concat_app. cbn [concat ctx_nodes].
  rewrite !app_assoc. rewrite <-Permutation_middle. constructor.
  rewrite <-!app_assoc. rewrite (Permutation_app_swap_app (concat _) (pnodes L)). f_equiv.
  rewrite (Permutation_app_swap_app (concat _) (pnodes R)). done.
Qed.

Lemma around_entries c f L R : stored_entries (around c f L R) ≡ₚ
  entries L ++ entries R ++ stored_entries (ctx_nodes (f :: c) (pid L)).
Proof.
  unfold around. rewrite stored_entries_app, stored_concat, ctx_nodes_entries, !fmap_app, !fmap_cons, !concat_app.
  cbn [concat]. rewrite <-!app_assoc. rewrite (Permutation_app_swap_app (concat _) (entries L)). f_equiv.
  by rewrite (Permutation_app_swap_app (concat _) (entries R)).
Qed.

Lemma frame_split_uniform h f id L k R : frame_ok h f → uniform h L → uniform h R →
  uniform (Datatypes.S h) (PNode id (f_lks f ++ k :: f_rks f) (f_lcs f ++ L :: R :: f_rcs f)).
Proof.
  intros (H1 & H2 & H3 & H4) HL HR. cbn. rewrite !length_app. cbn. split; [lia|].
  apply Forall_app. split; [done|]. by constructor; [|constructor].
Qed.

Lemma frame_keys_repr t N c f L R : Inv t (pnodes L ++ pnodes R ++ ctx_nodes (f :: c) (pid L)) →
  N = around c f L R →
  Inv t (SNode (f_id f) (f_lks f ++ f_rks f) (pid <$> (f_lcs f ++ L :: f_rcs f)) :: N) ∧
  ∃ i, bt_internals t !! f_id f = Some i ∧
    internal_repr (bt_config t) (f_id f) (f_lks f ++ f_rks f) (pid <$> (f_lcs f ++ L :: f_rcs f)) i.
Proof.
  intros HI ->. rewrite around_perm in HI. split; [done|]. eapply Inv_node; [done|left].
Qed.

Lemma sibling_valid t N L R c : Inv t (pnodes L ++ pnodes R ++ ctx_nodes c N) →
  PageReference_isValid (makeIndexRef (pid R)) = true.
Proof.
  intros HI. apply (child_valid t _ _ HI). rewrite !fmap_app, !elem_of_app. right. left. apply pid_nodes.
Qed.

(** The children of the parent with [R] put after [L]. *)
Lemma children_split h f L R : frame_ok h f →
  vinsert (length (f_lks f) + 1) (makeIndexRef (pid R)) (makeIndexRef <$> (pid <$> (f_lcs f ++ L :: f_rcs f))) =
  makeIndexRef <$> (pid <$> (f_lcs f ++ L :: R :: f_rcs f)).
Proof.
  intros (H1 & _). rewrite <-!list_fmap_compose, !fmap_app, !fmap_cons.
  rewrite (cons_middle _ (_ <$> f_lcs f)), app_assoc, vinsert_mid
    by (rewrite length_app, length_fmap; cbn; lia).
  by rewrite <-app_assoc.
Qed.

Lemma join_room h t c f L k R i : joinable h t (f :: c) L k R → bt_internals t !! f_id f = Some i →
  keyCount (in_node i) < capacity (in_node i) →
  let '(o, t') := insertIntoParent (path_of (f :: c)) k (pid L) (pid R) t in joined t (f :: c) L k R o t'.
Proof.
  intros (HI & HL & HR & [Hf Hc] & Hroot & Hh & Hs & Hk) Hi Hroom.
  pose proof (sibling_valid _ _ _ _ _ HI) as Hv.
  destruct (frame_keys_repr t _ c f L R HI eq_refl) as [HI' (i' & Hi' & Hr)].
  rewrite Hi in Hi'. injection Hi' as <-.
  set (P := PNode (f_id f) (f_lks f ++ k :: f_rks f) (f_lcs f ++ L :: R :: f_rcs f)).
  change (path_of (f :: c)) with (frame_entry f :: path_of c). cbn [insertIntoParent frame_entry pe_pageId pe_childIndex].
  rewrite (M_step _ _ t i t) by (unfold internal; by rewrite Hi).
  rewrite (proj2 (Z.ltb_lt _ _)) by done. rewrite Nat2Z.id.
  pose proof Hr as (Hwf & Hks & Hcs & Hid & lv & Hcf). pose proof Hwf as (_ & Hkc & _ & _ & _).
  destruct (InternalNode_insert_ok (length (f_lks f)) k (makeIndexRef (pid R)) i)
    as (i' & He & Hk' & Hc' & Hwf' & Hsame); try done.
  { rewrite Hks, length_app. lia. } { by rewrite Hcf. } { lia. }
  { right. rewrite Hks. by apply (promoted_new h f c L k R). }
  destruct (on_internal_ok t (around c f L R) _ (f_id f) (f_lks f ++ k :: f_rks f)
    (pid <$> (f_lcs f ++ L :: R :: f_rcs f)) (InternalNode_insert (length (f_lks f)) k (makeIndexRef (pid R))) HI')
    as (t' & Hon & HIt & (Hm1 & Hm2 & Hm3 & Hm4) & _); [done| |done|].
  { exists i. split; [done|]. split; [by eapply internal_repr_fresh|]. exists i'. split; [done|].
    rewrite Hk', Hc', Hks, Hcs, vinsert_mid, (children_split h) by done. done. }
  rewrite Hon. split; [done|]. exists (plug c P), (Datatypes.S h + length c)%nat.
  split; [|split; [|split; [|split; [|split; [|split]]]]].
  - rewrite plug_nodes. eapply (Inv_perm t'); [|exact HIt]. unfold around. done.
  - apply uniform_plug; [|done]. by apply frame_split_uniform.
  - rewrite Hm2, Hroot. cbn. clear. destruct c as [|g c] using rev_ind; [done|].
    unfold plug. by rewrite !foldl_app.
  - rewrite Hm4, Hh. cbn. f_equal. f_equal. lia.
  - rewrite (plug_inorder (Datatypes.S h)) by done. unfold P. rewrite (frame_split_inorder h) by done.
    cbn [ctx_left ctx_right]. by rewrite <-!app_assoc, <-app_comm_cons, <-!app_assoc.
  - rewrite plug_entries, <-around_entries. unfold around, P. rewrite entries_node.
    by rewrite stored_entries_app, stored_concat.
  - done.
Qed.

Lemma pid_plug c p q : pid p = pid q → pid (plug c p) = pid (plug c q).
Proof. destruct c as [|g c _] using rev_ind; [done|]. unfold plug. by rewrite !foldl_app. Qed.

(** Cutting a node at its key [m]. *)
Lemma cut_node h id id1 id2 K T m k : uniform (Datatypes.S h) (PNode id K T) → K !! m = Some k →
  let A := PNode id1 (take m K) (take (m + 1) T) in
  let B := PNode id2 (drop (m + 1) K) (drop (m + 1) T) in
  uniform (Datatypes.S h) A ∧ uniform (Datatypes.S h) B ∧
  inorder (PNode id K T) = inorder A ++ k :: inorder B ∧
  concat (pnodes <$> T) = concat (pnodes <$> take (m + 1) T) ++ concat (pnodes <$> drop (m + 1) T).
Proof.
  intros [Hl Hu] Hk. pose proof (lookup_lt_Some _ _ _ Hk) as Hm. cbn zeta. split; [|split; [|split]].
  - cbn. split; [rewrite !length_take; lia|by apply Forall_take].
  - cbn. split; [rewrite !length_drop; lia|by apply Forall_drop].
  - rewrite (take_drop_at m K k Hk) at 1. rewrite <-(take_drop (m + 1) T) at 1.
    apply inorder_cut. rewrite !length_take. lia.
  - by rewrite <-concat_app, <-fmap_app, take_drop.
Qed.

(** The two halves of an overfull parent: together they are the parent. *)
Lemma halves h c f L k R m k' sib : frame_ok h f → uniform h L → uniform h R →
  (f_lks f ++ k :: f_rks f) !! m = Some k' →
  let K := f_lks f ++ k :: f_rks f in let T := f_lcs f ++ L :: R :: f_rcs f in
  let A := PNode (f_id f) (take m K) (take (m + 1) T) in
  let B := PNode sib (drop (m + 1) K) (drop (m + 1) T) in
  uniform (Datatypes.S h) A ∧ uniform (Datatypes.S h) B ∧
  (∀ x y, x ++ inorder A ++ k' :: inorder B ++ y = x ++ seg_left (f_lks f) (f_lcs f) ++
      inorder L ++ k :: inorder R ++ seg_right (f_rks f) (f_rcs f) ++ y) ∧
  entries A ++ entries B ++ stored_entries (ctx_nodes c (pid A)) ≡ₚ
    entries L ++ entries R ++ stored_entries (ctx_nodes (f :: c) (pid L)) ∧
  SNode sib (drop (m + 1) K) (pid <$> drop (m + 1) T) ::
    SNode (f_id f) (take m K) (pid <$> take (m + 1) T) :: around c f L R ≡ₚ
    pnodes A ++ pnodes B ++ ctx_nodes c (pid A).
Proof.
  intros Hf HL HR Hk' K T A B.
  assert (HU := frame_split_uniform h f (f_id f) L k R Hf HL HR). fold K T in HU.
  destruct (cut_node h (f_id f) (f_id f) sib K T m k' HU Hk') as (HA & HB & Hino & Hcat). fold A B in HA, HB, Hino.
  do 2 (split; [done|]). split; [|split].
  - intros x y. f_equal. rewrite app_comm_cons, app_assoc, <-Hino. unfold K, T.
    rewrite (frame_split_inorder h) by done. by rewrite <-!app_assoc, <-app_comm_cons, <-!app_assoc.
  - rewrite <-around_entries. unfold around, A, B. rewrite !entries_node, stored_entries_app, stored_concat.
    fold T. cbn [pid]. rewrite <-(take_drop (m + 1) T) at 3. by rewrite fmap_app, concat_app, <-app_assoc.
  - unfold around. fold T. rewrite Hcat. cbn [pid A B pnodes].
    rewrite <-!app_assoc. cbn [app]. rewrite <-!Permutation_middle. by apply perm_swap.
Qed.

Lemma full_keys t id ks cs i k : internal_repr (bt_config t) id ks cs i → key_fits (bt_config t) k →
  ¬ keyCount (in_node i) < capacity (in_node i) →
  Z.of_nat (length ks) = computeCapacity (bt_config t) Internal ∧ Forall (key_fits (bt_config t)) (k :: ks).
Proof.
  intros ((Hwf & Hkc & _ & Hcap & Hfit) & <- & _ & _ & lv & Hcf) Hk Hfull.
  destruct Hwf as (_ & Hc & _). rewrite Hcf in *. unfold capacity in *. rewrite capacity_level in Hc.
  split; [lia|]. by constructor.
Qed.

(** The steps of [splitAndInsertInternal] between reading the node and telling
    the parent. *)
Lemma split_internal_steps t N id ks0 cs0 K C m k level n : Inv t (SNode id ks0 cs0 :: N) →
  K !! m = Some k → length C = Datatypes.S (length K) →
  Z.of_nat (length K) <= computeCapacity (bt_config t) Internal + 1 →
  (m = length K / 2)%nat → Forall (key_fits (bt_config t)) K → room (Datatypes.S n) (bt_space t) →
  ∃ sib t', Inv t' (SNode sib (drop (m + 1) K) (drop (m + 1) C) :: SNode id (take m K) (take (m + 1) C) :: N) ∧
    same_meta t t' ∧ room n (bt_space t') ∧
    ∀ f : Z → M BT unit,
      (_ ← on_internal id (InternalNode_assignEntries (take m K) (makeIndexRef <$> take (m + 1) C));
       sibling ← allocateInternal level;
       _ ← on_internal sibling
             (InternalNode_assignEntries (drop (m + 1) K) (makeIndexRef <$> drop (m + 1) C));
       _ ← modify (upd_stats tree_recordSplit);
       _ ← wal_call (onNodeSplit id sibling k);
       f sibling) t = f sib t'.
Proof.
  intros HI Hk HlC Hcap Hhalf Hfit Hroom. pose proof (lookup_lt_Some _ _ _ Hk) as Hm.
  destruct (assign_internal t _ _ id (take m K) (take (m + 1) C) HI)
    as (t1 & Ha1 & HI1 & Hm1 & Hsp1); [eauto|rewrite !length_take; lia|
      rewrite length_take; lia|by apply Forall_take|].
  destruct (allocateInternal_ok t1 _ level n HI1 ltac:(by rewrite Hsp1))
    as (sib & t2 & Ha2 & HI2 & Hm2 & Hr2 & _). assert (Hm12 : same_meta t t2) by (by etransitivity).
  destruct (assign_internal t2 _ _ sib (drop (m + 1) K) (drop (m + 1) C) HI2)
    as (t3 & Ha3 & HI3 & Hm3 & Hsp3); [by left|rewrite !length_drop; lia|
      rewrite length_drop, (proj1 Hm12); lia|rewrite (proj1 Hm12); by apply Forall_drop|].
  destruct (wal_call_ok (upd_stats tree_recordSplit t3) _ (onNodeSplit id sib k)
    (upd_stats_Inv _ _ _ HI3)) as (t4 & Ha4 & HI4 & Hm4 & Hsp4); [naive_solver|].
  exists sib, t4. split; [done|]. split; [|split].
  - etransitivity; [exact Hm12|]. etransitivity; [exact Hm3|]. etransitivity; [|exact Hm4]. by repeat split.
  - rewrite Hsp4. change (bt_space (upd_stats tree_recordSplit t3)) with (bt_space t3). by rewrite Hsp3.
  - intros f. rewrite (M_step _ _ _ _ _ Ha1), (M_step _ _ _ _ _ Ha2), (M_step _ _ _ _ _ Ha3).
    rewrite (M_step _ _ t3 tt (upd_stats tree_recordSplit t3)) by done. by rewrite (M_step _ _ _ _ _ Ha4).
Qed.

Lemma join_split h t c f L k R i n (Hnext : ∀ t2 L' k' R', joinable (Datatypes.S h) t2 c L' k' R' →
      config_ok (bt_config t2) → room n (bt_space t2) →
      let '(o, t') := insertIntoParent (path_of c) k' (pid L') (pid R') t2 in joined t2 c L' k' R' o t') :
  joinable h t (f :: c) L k R → bt_internals t !! f_id f = Some i →
  ¬ keyCount (in_node i) < capacity (in_node i) → config_ok (bt_config t) →
  room (Datatypes.S n) (bt_space t) →
  let '(o, t') := insertIntoParent (path_of (f :: c)) k (pid L) (pid R) t in joined t (f :: c) L k R o t'.
Proof.
  intros (HI & HL & HR & [Hf Hc] & Hroot & Hh & Hs & Hk) Hi Hfull Hcfg Hroom.
  destruct (frame_keys_repr t _ c f L R HI eq_refl) as [HI' (i' & Hi' & Hr)].
  rewrite Hi in Hi'. injection Hi' as <-. destruct (full_keys t _ _ _ i k Hr Hk Hfull) as [Hcap Hfit].
  change (path_of (f :: c)) with (frame_entry f :: path_of c). cbn [insertIntoParent frame_entry pe_pageId pe_childIndex].
  rewrite (M_step _ _ t i t) by (unfold internal; by rewrite Hi).
  rewrite (proj2 (Z.ltb_ge _ _)) by lia. rewrite Nat2Z.id. unfold splitAndInsertInternal.
  rewrite (M_step _ _ t i t) by (unfold internal; by rewrite Hi).
  destruct Hr as (_ & -> & -> & -> & _). rewrite (vinsert_mid (f_lks f)), (children_split h) by done.
  set (K := f_lks f ++ k :: f_rks f) in *. set (T := f_lcs f ++ L :: R :: f_rcs f) in *.
  set (m := (length K / 2)%nat).
  assert (HK : K ≡ₚ k :: f_lks f ++ f_rks f) by (unfold K; by rewrite Permutation_middle).
  assert (HlK : length K = Datatypes.S (length (f_lks f ++ f_rks f))) by (by rewrite HK).
  assert (Hm : (m < length K)%nat) by (apply Nat.div_lt; lia).
  rewrite <-HK in Hfit.
  destruct (lookup_lt_is_Some_2 K m Hm) as [k' Hk'].
  rewrite (M_step _ _ t k' t) by (unfold lift, index; by rewrite Hk').
  assert (HlT : length T = Datatypes.S (length K))
    by (apply (frame_split_uniform h f (f_id f) L k R Hf HL HR)).
  destruct (split_internal_steps t _ _ _ _ K (pid <$> T) m k' (node_level (in_node i)) n HI' Hk')
    as (sib & t4 & HI4 & (Hcf4 & Hrt4 & Hsz4 & Hh4) & Hr4 & Hsteps);
    [by rewrite length_fmap|lia|done|done|done|].
  rewrite fmap_take, fmap_drop in Hsteps. rewrite Hsteps. clear Hsteps.
  destruct (halves h c f L k R m k' sib Hf HL HR Hk') as (HA & HB & Hio & Hent & Hnodes).
  fold K T in HA, HB, Hio, Hent, Hnodes.
  set (A := PNode (f_id f) (take m K) (take (m + 1) T)) in *.
  set (B := PNode sib (drop (m + 1) K) (drop (m + 1) T)) in *.
  specialize (Hnext t4 A k' B). change (pid A) with (f_id f) in Hnext. change (pid B) with sib in Hnext.
  destruct (insertIntoParent (path_of c) k' (f_id f) sib t4) as [o t'].
  destruct Hnext as [-> (p' & h' & G1 & G2 & G3 & G4 & G5 & G6 & G7 & G8)].
  - split; [|split; [done|split; [done|split; [done|split; [|split; [|split]]]]]].
    + rewrite <-Hnodes. by rewrite <-fmap_take, <-fmap_drop in HI4.
    + rewrite Hrt4, Hroot. by apply (pid_plug c (plug1 f L) A).
    + rewrite Hh4, Hh. cbn. f_equal. f_equal. lia.
    + rewrite Hio. cbn [ctx_left ctx_right] in Hs. by rewrite <-app_assoc in Hs.
    + rewrite Hcf4. rewrite Forall_forall in Hfit. by apply Hfit, (list_elem_of_lookup_2 _ m).
  - by rewrite Hcf4.
  - done.
  - split; [done|]. exists p', h'. do 4 (split; [done|]). split; [|split; [|split; congruence]].
    + rewrite G5, Hio. cbn [ctx_left ctx_right]. by rewrite <-!app_assoc.
    + by rewrite G6.
Qed.

(** [insertIntoParent] never fails when every level can get a page. *)
Lemma join h t c L k R : joinable h t c L k R → config_ok (bt_config t) →
  room (Datatypes.S (length c)) (bt_space t) →
  let '(o, t') := insertIntoParent (path_of c) k (pid L) (pid R) t in joined t c L k R o t'.
Proof.
  revert h t L k R. induction c as [|f c IH]; intros h t L k R Hj Hcfg Hroom; [by apply (join_root h)|].
  pose proof Hj as (HI & _). destruct (frame_keys_repr t _ c f L R HI eq_refl) as [_ (i & Hi & _)].
  destruct (decide (keyCount (in_node i) < capacity (in_node i))) as [Hlt|Hge].
  - by apply (join_room h t c f L k R i).
  - apply (join_split h t c f L k R i (Datatypes.S (length c))); try done.
    intros t2 L' k' R' Hj' Hcfg' Hroom'. by apply (IH (Datatypes.S h)).
Qed.

(** ** Leaves *)

Lemma assign_leaf t N id es es' : Inv t (SLeaf id es :: N) →
  Z.of_nat (length es') <= computeCapacity (bt_config t) Leaf → Forall (key_fits (bt_config t)) es'.*1 →
  ∃ t', on_leaf id (LeafNode_assignEntries es'.*1 es'.*2) t = (Ok tt, t') ∧
    Inv t' (SLeaf id es' :: N) ∧ same_meta t t' ∧ bt_space t' = bt_space t.
Proof.
  intros HI Hcap Hfit. apply (on_leaf_ok t N id es); [done|]. intros l _ (Hwf & _ & _ & _ & lv & Hcf).
  pose proof Hwf as (Hn & _). pose proof Hn as (_ & Hc & _). rewrite Hcf, capacity_level in Hc.
  destruct (LeafNode_assign_ok es'.*1 es'.*2 l) as (l' & He & Hk & Hr & Hwf' & Hsame & _);
    [done|by rewrite !length_fmap|unfold capacity; rewrite length_fmap; lia|by rewrite Hcf|].
  exists l'. done.
Qed.

Lemma fmap_vinsert {A B} (g : A → B) i x l : g <$> vinsert i x l = vinsert i (g x) (g <$> l).
Proof. unfold vinsert. by rewrite fmap_app, fmap_cons, fmap_take, fmap_drop. Qed.

Lemma leaf_full_keys t id es l key : leaf_repr (bt_config t) id es l → key_fits (bt_config t) key →
  Z.of_nat (length es) <= computeCapacity (bt_config t) Leaf ∧
  capacity (lf_node l) = computeCapacity (bt_config t) Leaf ∧ keyCount (lf_node l) = Z.of_nat (length es) ∧
  Forall (key_fits (bt_config t)) (key :: es.*1).
Proof.
  intros ((Hwf & Hkc & _ & Hcap & Hfit) & Hk & _ & _ & lv & Hcf) Hkf. rewrite Hk in *.
  destruct Hwf as (_ & Hc & _). rewrite Hcf in *. unfold capacity in *. rewrite capacity_level in Hc.
  rewrite length_fmap in *. split; [lia|]. split; [done|]. split; [lia|]. by constructor.
Qed.

(** The same for [splitAndInsertLeaf]. *)
Lemma split_leaf_steps t N id es0 es m e level n : Inv t (SLeaf id es0 :: N) → es !! m = Some e →
  Z.of_nat (length es) <= computeCapacity (bt_config t) Leaf + 1 → (m = length es / 2)%nat →
  Forall (key_fits (bt_config t)) es.*1 → room (Datatypes.S n) (bt_space t) →
  ∃ sib t', Inv t' (SLeaf sib (drop (m + 1) es) :: SLeaf id (take m es) :: N) ∧
    same_meta t t' ∧ room n (bt_space t') ∧
    ∀ f : Z → M BT unit,
      (_ ← on_leaf id (LeafNode_assignEntries (take m es).*1 (take m es).*2);
       sibling ← allocateLeaf level;
       _ ← on_leaf sibling (LeafNode_assignEntries (drop (m + 1) es).*1 (drop (m + 1) es).*2);
       _ ← modify (upd_stats tree_recordSplit);
       _ ← wal_call (onNodeSplit id sibling e.1);
       f sibling) t = f sib t'.
Proof.
  intros HI He Hcap Hhalf Hfit Hroom. pose proof (lookup_lt_Some _ _ _ He) as Hm.
  destruct (assign_leaf t _ id es0 (take m es) HI) as (t1 & Ha1 & HI1 & Hm1 & Hsp1);
    [rewrite length_take; lia|rewrite fmap_take; by apply Forall_take|].
  destruct (allocateLeaf_ok t1 _ level n HI1 ltac:(by rewrite Hsp1))
    as (sib & t2 & Ha2 & HI2 & Hm2 & Hr2 & _). assert (Hm12 : same_meta t t2) by (by etransitivity).
  destruct (assign_leaf t2 _ sib [] (drop (m + 1) es) HI2) as (t3 & Ha3 & HI3 & Hm3 & Hsp3);
    [rewrite length_drop, (proj1 Hm12); lia|rewrite (proj1 Hm12), fmap_drop; by apply Forall_drop|].
  destruct (wal_call_ok (upd_stats tree_recordSplit t3) _ (onNodeSplit id sib e.1)
    (upd_stats_Inv _ _ _ HI3)) as (t4 & Ha4 & HI4 & Hm4 & Hsp4); [naive_solver|].
  exists sib, t4. split; [done|]. split; [|split].
  - etransitivity; [exact Hm12|]. etransitivity; [exact Hm3|]. etransitivity; [|exact Hm4]. by repeat split.
  - rewrite Hsp4. change (bt_space (upd_stats tree_recordSplit t3)) with (bt_space t3). by rewrite Hsp3.
  - intros f. rewrite (M_step _ _ _ _ _ Ha1), (M_step _ _ _ _ _ Ha2), (M_step _ _ _ _ _ Ha3).
    rewrite (M_step _ _ t3 tt (upd_stats tree_recordSplit t3)) by done. by rewrite (M_step _ _ _ _ _ Ha4).
Qed.

(** [splitAndInsertLeaf]: the entry in the middle of the leaf, the new one
    included, leaves the leaves; its key becomes a separator. *)
Lemma split_leaf t c id es l key v : Inv t (pnodes (plug c (PLeaf id es))) → ctx_ok 0 c →
  bt_leaves t !! id = Some l → leaf_repr (bt_config t) id es l →
  computeCapacity (bt_config t) Leaf <= Z.of_nat (length es) → key_fits (bt_config t) key →
  config_ok (bt_config t) → room (Datatypes.S (Datatypes.S (length c))) (bt_space t) →
  bt_rootId t = pid (plug c (PLeaf id es)) → bt_height t = u32 (Z.of_nat (Datatypes.S (length c))) →
  sorted_lt (ctx_left c ++ vinsert (lowerBound es.*1 key) key es.*1 ++ ctx_right c) →
  ∃ t' p' h' E1 e E2, splitAndInsertLeaf id (path_of c) key v t = (Ok tt, t') ∧
    vinsert (lowerBound es.*1 key) (key, v) es = E1 ++ e :: E2 ∧
    Inv t' (pnodes p') ∧ uniform h' p' ∧ bt_rootId t' = pid p' ∧
    bt_height t' = u32 (Z.of_nat (Datatypes.S h')) ∧
    inorder p' = ctx_left c ++ vinsert (lowerBound es.*1 key) key es.*1 ++ ctx_right c ∧
    entries p' ≡ₚ E1 ++ E2 ++ stored_entries (ctx_nodes c id) ∧
    bt_config t' = bt_config t ∧ bt_size t' = bt_size t.
Proof.
  intros HI Hc Hl Hr Hfull Hkf Hcfg Hroom Hroot Hh Hs.
  destruct (leaf_full_keys t id es l key Hr Hkf) as (Hcap & _ & _ & Hfit).
  set (es' := vinsert (lowerBound es.*1 key) (key, v) es).
  assert (Hks : es'.*1 = vinsert (lowerBound es.*1 key) key es.*1) by apply (fmap_vinsert fst).
  assert (Hvs : es'.*2 = vinsert (lowerBound es.*1 key) v es.*2) by apply (fmap_vinsert snd).
  assert (Hlen : length es' = Datatypes.S (length es)) by apply length_vinsert.
  set (m := (length es' / 2)%nat). assert (Hm : (m < length es')%nat) by (apply Nat.div_lt; lia).
  destruct (lookup_lt_is_Some_2 es' m Hm) as [e He]. pose proof (take_drop_at m es' e He) as Hcut.
  assert (Hfit' : Forall (key_fits (bt_config t)) es'.*1) by (rewrite Hks, vinsert_perm; done).
  rewrite plug_nodes in HI. cbn [pnodes pid app] in HI.
  unfold splitAndInsertLeaf. rewrite (M_step _ _ t l t) by (unfold leaf; by rewrite Hl).
  destruct Hr as (_ & -> & -> & Hid & lv & Hcf). rewrite <-Hks, <-Hvs, Hid.
  rewrite !length_fmap. fold m. rewrite <-!fmap_take, <-!fmap_drop.
  rewrite (M_step _ _ t e.1 t) by (unfold lift, index; by rewrite list_lookup_fmap, He).
  destruct (split_leaf_steps t _ id es es' m e (node_level (lf_node l)) (Datatypes.S (length c)) HI He)
    as (sib & t4 & HI4 & (Hcf4 & Hrt4 & Hsz4 & Hh4) & Hr4 & Hsteps); [lia|done|done|done|].
  rewrite Hsteps. clear Hsteps.
  pose proof (join 0 t4 c (PLeaf id (take m es')) e.1 (PLeaf sib (drop (m + 1) es'))) as Hj.
  assert (Hio : ∀ y, (take m es').*1 ++ e.1 :: (drop (m + 1) es').*1 ++ y =
                     vinsert (lowerBound es.*1 key) key es.*1 ++ y).
  { intros y. rewrite app_comm_cons, app_assoc, <-fmap_cons, <-fmap_app, <-Hcut. by rewrite Hks. }
  cbn [pid inorder] in Hj.
  destruct (insertIntoParent (path_of c) e.1 id sib t4) as [o t'].
  destruct Hj as [-> (p' & h' & G1 & G2 & G3 & G4 & G5 & G6 & G7 & G8)].
  - split; [|split; [done|split; [done|split; [done|split; [|split; [|split]]]]]].
    + eapply (Inv_perm t4); [|exact HI4]. cbn. by apply perm_swap.
    + rewrite Hrt4, Hroot. by apply pid_plug.
    + by rewrite Hh4, Hh.
    + cbn [inorder]. by rewrite Hio.
    + rewrite Hcf4. rewrite Forall_forall in Hfit'. apply Hfit', list_elem_of_fmap_2.
      by apply (list_elem_of_lookup_2 _ m).
  - by rewrite Hcf4.
  - done.
  - cbn [inorder] in G5. rewrite Hio in G5.
    exists t', p', h', (take m es'), e, (drop (m + 1) es'). split; [done|]. split; [exact Hcut|]. do 4 (split; [done|]).
    split; [by rewrite Hks|].
    split; [|split; congruence].
    rewrite G6. cbn [pid]. by rewrite !entries_leaf.
Qed.

(** ** insert *)

(** The leaf the key goes to has no room. *)
Definition leaf_full t key : bool :=
  match descendToLeaf key false t with
  | Ok (_, id, _) =>
      match bt_leaves t !! id with
      | Some l => negb (keyCount (lf_node l) <? capacity (lf_node l))
      | None => false
      end
  | _ => false
  end.

Lemma sorted_insert c es key : sorted_lt (ctx_left c ++ es ++ ctx_right c) → between key c →
  key ∉ ctx_left c ++ es ++ ctx_right c →
  sorted_lt (ctx_left c ++ vinsert (lowerBound es key) key es ++ ctx_right c).
Proof.
  intros Hs [Hl Hr] Hn. rewrite !elem_of_app in Hn.
  apply StronglySorted_app_iff in Hs as (S1 & S2 & S3). apply StronglySorted_app_iff in S2 as (S4 & S5 & S6).
  apply StronglySorted_app_iff. split; [done|]. split.
  - apply StronglySorted_app_iff. split; [apply vinsert_lowerBound_lt; tauto|]. split; [done|].
    rewrite vinsert_perm. constructor; [|done]. rewrite Forall_forall in *. intros x Hx.
    apply Hr in Hx as Hle. apply key_le_lteq in Hle as [|<-]; [done|]. tauto.
  - rewrite Forall_forall in *. intros x Hx. rewrite Forall_app, vinsert_perm, Forall_cons.
    pose proof (S3 x Hx) as Hx'. rewrite Forall_app in Hx'. split; [split; [by apply Hl|]|]; apply Hx'.
Qed.

(** Where the insertion of a new key arrives. *)
Lemma insert_place t p h key : holds t p h → key ∉ inorder p →
  ∃ c id es l, p = plug c (PLeaf id es) ∧ ctx_ok 0 c ∧ between key c ∧ length c = h ∧
    bt_leaves t !! id = Some l ∧ leaf_repr (bt_config t) id es l ∧
    sorted_lt (ctx_left c ++ vinsert (lowerBound es.*1 key) key es.*1 ++ ctx_right c) ∧
    key ∉ es.*1 ∧ sorted_lt es.*1 ∧
    leaf_full t key = negb (keyCount (lf_node l) <? capacity (lf_node l)) ∧
    descendForInsert key t = Ok (path_of c, id, lowerBound es.*1 key).
Proof.
  intros Hh Hn. destruct (descendToLeaf_spec t p h key false Hh)
    as (c & id & es & l & -> & Hc & Hb & Hlen & Hl & Hr & Hs & Hsr & Hd).
  pose proof (h_sorted _ _ _ Hh) as Hso. rewrite (plug_inorder 0) in Hso, Hn by done. cbn [inorder] in Hso, Hn.
  assert (Hne : key ∉ es.*1) by (rewrite !elem_of_app in Hn; tauto).
  assert (Hd' : descendToLeaf key false t = Ok (path_of c, id, lowerBound es.*1 key)).
  { rewrite Hd. cbn [descend_loop]. rewrite Hl. by rewrite (proj1 (proj2 Hr)). }
  exists c, id, es, l. do 6 (split; [done|]). split; [by apply sorted_insert|].
  do 2 (split; [done|]). split; [unfold leaf_full; by rewrite Hd', Hl|].
  unfold descendForInsert. rewrite Hd'. cbn [mbind outcome_bind]. rewrite Hl.
  destruct (negb _ && _) eqn:Ht; [|done]. destruct Hr as ((_ & Hkc & _) & Hk & _). rewrite Hk.
  apply andb_true_iff in Ht as [_ Ht%Z.ltb_lt]. rewrite Hkc, Hk in Ht.
  destruct (lookup_lt_is_Some_2 es.*1 (lowerBound es.*1 key)) as [x Hx]; [lia|].
  unfold at_. rewrite Hx. cbn. destruct (Key_eqb x key) eqn:Hxk; [|done].
  apply Key_eqb_spec in Hxk as ->. by apply list_elem_of_lookup_2 in Hx.
Qed.

(** A leaf with room takes the entry. *)
Lemma insert_into_leaf t N id es key v : Inv t (SLeaf id es :: N) → PageReference_isValid v = true →
  key_fits (bt_config t) key → key ∉ es.*1 → sorted_lt es.*1 →
  Z.of_nat (length es) < computeCapacity (bt_config t) Leaf →
  ∃ t', on_leaf id (LeafNode_insert key v) t = (Ok tt, t') ∧
    Inv t' (SLeaf id (vinsert (lowerBound es.*1 key) (key, v) es) :: N) ∧ same_meta t t' ∧
    bt_space t' = bt_space t.
Proof.
  intros HI Hv Hkf Hn Hs Hlt. apply (on_leaf_ok t N id es); [done|].
  intros l _ (Hwf & Hk & Hr & _ & lv & Hcf). pose proof Hwf as ((_ & Hc & _) & _).
  rewrite Hcf, capacity_level in Hc.
  destruct (LeafNode_insert_ok key v l Hwf Hv) as (l' & He & Hk' & Hr' & Hwf' & Hsame & _).
  - by rewrite Hcf.
  - rewrite Hk, length_fmap. unfold capacity. lia.
  - right. rewrite Hk. by rewrite lowerBound_member.
  - exists l'. rewrite !fmap_vinsert, Hk', Hr', Hk, Hr. done.
Qed.

(** The end of [insert]: the size is counted and the sink told. *)
Lemma insert_finish t N key v : Inv t N →
  ∃ t', (_ ← modify (λ t, set_size (u64 (bt_size t + 1)) t); wal_call (onInsert key v)) t = (Ok tt, t') ∧
    Inv t' N ∧ bt_config t' = bt_config t ∧ bt_rootId t' = bt_rootId t ∧ bt_height t' = bt_height t ∧
    bt_size t' = u64 (bt_size t + 1) ∧ bt_space t' = bt_space t.
Proof.
  intros HI. set (t1 := set_size (u64 (bt_size t + 1)) t).
  rewrite (M_step _ _ t tt t1) by done.
  destruct (wal_call_ok t1 N (onInsert key v)) as (t2 & Hw & HI2 & (K1 & K2 & K3 & K4) & K5);
    [by apply (Inv_ext t)|naive_solver|]. exists t2. done.
Qed.

(** What [insert] leaves when the entries [lost] drop out. *)
Definition inserted t p key v (lost : list entry) (o : outcome unit) t' : Prop :=
  o = Ok tt ∧ ∃ p' h', holds t' p' h' ∧ inorder p' ≡ₚ key :: inorder p ∧
    (key, v) :: entries p ≡ₚ lost ++ entries p' ∧
    bt_config t' = bt_config t ∧ bt_size t' = u64 (bt_size t + 1).

Lemma inorder_inserted c id es key : ctx_ok 0 c →
  ctx_left c ++ vinsert (lowerBound es.*1 key) key es.*1 ++ ctx_right c ≡ₚ key :: inorder (plug c (PLeaf id es)).
Proof.
  intros Hc. rewrite (plug_inorder 0), vinsert_perm by done. cbn [inorder app]. by rewrite <-Permutation_middle.
Qed.

(** [insert] up to the test of the leaf's room. *)
Lemma insert_at_leaf t p h key v c id (es : list entry) l : holds t p h → PageReference_isValid v = true →
  descendForInsert key t = Ok (path_of c, id, lowerBound es.*1 key) → bt_leaves t !! id = Some l →
  BTree_insert key v t =
    (if keyCount (lf_node l) <? capacity (lf_node l) then
       _ ← on_leaf id (LeafNode_insert key v);
       _ ← modify (λ t, set_size (u64 (bt_size t + 1)) t);
       wal_call (onInsert key v)
     else
       _ ← splitAndInsertLeaf id (path_of c) key v;
       _ ← modify (λ t, set_size (u64 (bt_size t + 1)) t);
       wal_call (onInsert key v)) t.
Proof.
  intros Hh Hv Hd Hl. unfold BTree_insert. rewrite Hv. cbn [negb]. rewrite (M_step get _ t t t) by done.
  rewrite (holds_nonempty _ _ _ Hh).
  rewrite (M_step _ _ t (path_of c, id, lowerBound es.*1 key) t) by (unfold lift; by rewrite Hd).
  by rewrite (M_step _ _ t l t) by (unfold leaf; by rewrite Hl).
Qed.

Lemma insert_room_shape t c id es key v h : holds t (plug c (PLeaf id es)) h → ctx_ok 0 c → length c = h →
  PageReference_isValid v = true → key_fits (bt_config t) key → key ∉ es.*1 → sorted_lt es.*1 →
  sorted_lt (ctx_left c ++ vinsert (lowerBound es.*1 key) key es.*1 ++ ctx_right c) →
  Z.of_nat (length es) < computeCapacity (bt_config t) Leaf →
  ∃ t', (_ ← on_leaf id (LeafNode_insert key v);
    _ ← modify (λ t, set_size (u64 (bt_size t + 1)) t); wal_call (onInsert key v)) t = (Ok tt, t') ∧
    holds t' (plug c (PLeaf id (vinsert (lowerBound es.*1 key) (key, v) es))) h ∧
    bt_config t' = bt_config t ∧ bt_size t' = u64 (bt_size t + 1).
Proof.
  intros Hh Hc Hlen Hv Hkf Hne Hse Hs Hlt. pose proof Hh as [HI Hu Hroot Hhe Hso].
  rewrite plug_nodes in HI. cbn [pnodes pid app] in HI.
  destruct (insert_into_leaf t _ id es key v HI Hv Hkf Hne Hse Hlt) as (t1 & Ha & HI1 & (Hm1 & Hm2 & Hm3 & Hm4) & _).
  rewrite (M_step _ _ _ _ _ Ha).
  destruct (insert_finish t1 _ key v HI1) as (t2 & -> & HI2 & K1 & K2 & K4 & K3 & _). exists t2. split; [done|].
  split; [|split; [by rewrite K1|by rewrite K3, Hm3]]. split.
  - by rewrite plug_nodes.
  - rewrite <-Hlen. by apply (uniform_plug 0).
  - rewrite K2, Hm2, Hroot. by apply pid_plug.
  - by rewrite K4, Hm4.
  - rewrite (plug_inorder 0) by done. cbn [inorder]. by rewrite fmap_vinsert.
Qed.

Lemma insert_spec_room t c id es key v h : holds t (plug c (PLeaf id es)) h → ctx_ok 0 c → length c = h →
  PageReference_isValid v = true → key_fits (bt_config t) key → key ∉ es.*1 → sorted_lt es.*1 →
  sorted_lt (ctx_left c ++ vinsert (lowerBound es.*1 key) key es.*1 ++ ctx_right c) →
  Z.of_nat (length es) < computeCapacity (bt_config t) Leaf →
  let '(o, t') := (_ ← on_leaf id (LeafNode_insert key v);
    _ ← modify (λ t, set_size (u64 (bt_size t + 1)) t); wal_call (onInsert key v)) t in
  inserted t (plug c (PLeaf id es)) key v [] o t'.
Proof.
  intros Hh Hc Hlen Hv Hkf Hne Hse Hs Hlt.
  destruct (insert_room_shape t c id es key v h Hh Hc Hlen Hv Hkf Hne Hse Hs Hlt) as (t' & -> & Hh' & K1 & K3).
  split; [done|]. eexists _, h. split; [exact Hh'|]. split; [|split; [|done]].
  - rewrite (plug_inorder 0) by done. cbn [inorder]. rewrite fmap_vinsert. by apply inorder_inserted.
  - rewrite !plug_entries, !entries_leaf. cbn [pid app]. by rewrite vinsert_perm.
Qed.

Lemma insert_spec_split t c id es l key v h : holds t (plug c (PLeaf id es)) h → ctx_ok 0 c → length c = h →
  config_ok (bt_config t) → key_fits (bt_config t) key →
  bt_leaves t !! id = Some l → leaf_repr (bt_config t) id es l →
  sorted_lt (ctx_left c ++ vinsert (lowerBound es.*1 key) key es.*1 ++ ctx_right c) →
  computeCapacity (bt_config t) Leaf <= Z.of_nat (length es) → room (Datatypes.S (Datatypes.S h)) (bt_space t) →
  let '(o, t') := (_ ← splitAndInsertLeaf id (path_of c) key v;
    _ ← modify (λ t, set_size (u64 (bt_size t + 1)) t); wal_call (onInsert key v)) t in
  ∃ e, inserted t (plug c (PLeaf id es)) key v [e] o t'.
Proof.
  intros Hh Hc <- Hcfg Hkf Hl Hr Hs Hfull Hroom. pose proof Hh as [HI Hu Hroot Hhe Hso].
  destruct (split_leaf t c id es l key v HI Hc Hl Hr) as
    (t1 & p' & h' & E1 & e & E2 & Ha & Hcut & HI1 & Hu1 & Hr1 & Hh1 & Hio & Hent & Hc1 & Hz1); try done.
  rewrite (M_step _ _ _ _ _ Ha).
  destruct (insert_finish t1 _ key v HI1) as (t2 & -> & HI2 & K1 & K2 & K4 & K3 & _).
  exists e. split; [done|]. exists p', h'. split; [|split; [|split; [|split]]].
  - split; [done|done|by rewrite K2|by rewrite K4|by rewrite Hio].
  - rewrite Hio. by apply inorder_inserted.
  - rewrite plug_entries, entries_leaf, Hent. cbn [pid app].
    rewrite app_comm_cons, <-(vinsert_perm (lowerBound es.*1 key) (key, v) es), Hcut, <-app_assoc.
    by rewrite <-app_comm_cons, <-Permutation_middle.
  - by rewrite K1.
  - by rewrite K3, Hz1.
Qed.

(** [insert] of a new key succeeds; it keeps every entry when the leaf has room
    and loses one, the middle one of the leaf, when it is full. *)
Lemma insert_spec t p h key v : holds t p h → config_ok (bt_config t) → PageReference_isValid v = true →
  key_fits (bt_config t) key → key ∉ inorder p →
  (leaf_full t key = true → room (Datatypes.S (Datatypes.S h)) (bt_space t)) →
  ∃ o t' lost, BTree_insert key v t = (o, t') ∧ inserted t p key v lost o t' ∧
    length lost = (if leaf_full t key then 1 else 0)%nat.
Proof.
  intros Hh Hcfg Hv Hkf Hn Hroom.
  destruct (insert_place t p h key Hh Hn)
    as (c & id & es & l & -> & Hc & Hb & Hlen & Hl & Hr & Hs & Hne & Hse & Hfull & Hd).
  destruct (leaf_full_keys t id es l key Hr Hkf) as (Hcap & Hlc & Hkc & _).
  rewrite (insert_at_leaf t _ h key v c id es l Hh Hv Hd Hl).
  destruct (keyCount (lf_node l) <? capacity (lf_node l)) eqn:Hroomy; rewrite Hfull in *; cbn [negb] in *.
  - apply Z.ltb_lt in Hroomy.
    pose proof (insert_spec_room t c id es key v h Hh Hc Hlen Hv Hkf Hne Hse Hs ltac:(lia)) as Hi.
    destruct ((_ ← on_leaf id _; _) t) as [o t']. by exists o, t', [].
  - apply Z.ltb_ge in Hroomy.
    pose proof (insert_spec_split t c id es l key v h Hh Hc Hlen Hcfg Hkf Hl Hr Hs ltac:(lia) (Hroom eq_refl)) as Hi.
    destruct ((_ ← splitAndInsertLeaf id _ _ _; _) t) as [o t']. destruct Hi as [e Hi]. by exists o, t', [e].
Qed.

(** ** The first key *)

Record holds_nothing t : Prop := { hn_inv : Inv t []; hn_root : bt_rootId t = kInvalidPageId }.

Lemma holds_nothing_empty t : holds_nothing t → empty_ t = true.
Proof. intros [_ Hr]. unfold empty_. by rewrite Hr. Qed.

(** A space in which the tree holds no page. *)
Definition all_foreign (sp : S) : Prop := ps_ok sp ∧ ∀ id, ps_used sp id ↔ foreign id.

Lemma nothing_held t : all_foreign (bt_space t) → wal_ready t → bt_leaves t = ∅ → bt_internals t = ∅ →
  bt_rootId t = kInvalidPageId → holds_nothing t.
Proof.
  intros [Hok Hp] Hw Hl Hi Hr. split; [|done]. split; [constructor|constructor| | |done| |set_solver|done].
  - intros id [x Hx]. by rewrite Hl in Hx.
  - intros id [x Hx]. by rewrite Hi in Hx.
  - intros id. rewrite Hp. set_solver.
Qed.

Lemma create_holds_nothing sp cfg : all_foreign sp → holds_nothing (BTree_create sp cfg).
Proof. intros Hsp. by apply nothing_held. Qed.

Lemma insert_first t key v : holds_nothing t → config_ok (bt_config t) → PageReference_isValid v = true →
  key_fits (bt_config t) key → room 1 (bt_space t) →
  ∃ t' id, BTree_insert key v t = (Ok tt, t') ∧ holds t' (PLeaf id [(key, v)]) 0 ∧
    bt_config t' = bt_config t ∧ bt_size t' = u64 (bt_size t + 1).
Proof.
  intros Hh [Hcap _] Hv Hkf Hroom. unfold BTree_insert. rewrite Hv. cbn [negb].
  rewrite (M_step get _ t t t), (holds_nothing_empty _ Hh) by done.
  destruct (allocateLeaf_ok t [] 0 0 (hn_inv _ Hh) Hroom) as (id & t1 & Ha & HI1 & Hm1 & _ & _).
  rewrite (M_step _ _ _ _ _ Ha).
  destruct (insert_into_leaf t1 [] id [] key v HI1 Hv) as (t2 & Hb & HI2 & Hm2 & _);
    [by rewrite (proj1 Hm1)|set_solver|constructor|cbn; by rewrite (proj1 Hm1)|].
  rewrite (M_step _ _ _ _ _ Hb). assert (Hm : same_meta t t2) by (by etransitivity).
  destruct Hm as (M1 & M2 & M3 & M4).
  destruct (insert_finish (setHeight 1 (setRoot id t2)) (pnodes (PLeaf id [(key, v)])) key v)
    as (t3 & Hc & HI3 & K1 & K2 & K3 & K4 & _); [by apply (Inv_ext t2)|].
  exists t3, id. split; [exact Hc|]. split; [|split].
  - split; [done|done|by rewrite K2|by rewrite K3|repeat constructor].
  - by rewrite K1.
  - rewrite K4. cbn. by rewrite M3.
Qed.

(** ** Reading what was written *)

Lemma sublist_concat_interleave (ls ls' : list (list Key)) ks : length ls' = Datatypes.S (length ks) →
  Forall2 (sublist (A := Key)) ls ls' → concat ls `sublist_of` interleave ks ls'.
Proof.
  intros Hl Hf. revert ks Hl. induction Hf as [|x y ls ls' Hx Hf IH]; intros ks Hl; cbn; [apply sublist_nil_l|].
  destruct ks as [|k ks]; apply sublist_app; try done.
  - destruct ls' as [|? ?]; [|cbn in Hl; lia]. apply Forall2_nil_inv_r in Hf as ->. constructor.
  - apply sublist_cons. apply IH. cbn in Hl. lia.
Qed.

Lemma entries_sublist h p : uniform h p → (entries p).*1 `sublist_of` inorder p.
Proof.
  revert p. induction h as [|h IH]; intros [id es|id ks cs] Hu; cbn in Hu; try done.
  - rewrite entries_leaf. done.
  - destruct Hu as [Hl Hu]. rewrite entries_node. cbn [inorder].
    assert (Hc : ∀ ls : list (list entry), (concat ls).*1 = concat ((λ l : list entry, l.*1) <$> ls)).
    { induction ls as [|x ls IHl]; cbn; [done|]. by rewrite fmap_app, IHl. }
    rewrite Hc, <-list_fmap_compose. apply sublist_concat_interleave; [by rewrite length_fmap|].
    clear Hl. induction Hu as [|x cs Hx Hu IHc]; cbn; constructor; [by apply IH|done].
Qed.

Lemma entries_keys_NoDup t p h : holds t p h → NoDup (entries p).*1.
Proof.
  intros Hh. eapply sublist_NoDup; [|eapply entries_sublist, (h_uniform _ _ _ Hh)].
  apply sorted_lt_NoDup, (h_sorted _ _ _ Hh).
Qed.

Lemma find_same t p h t' p' h' k : holds t p h → holds t' p' h' →
  (∀ r, (k, r) ∈ entries p ↔ (k, r) ∈ entries p') → BTree_find k t' = BTree_find k t.
Proof.
  intros Hh Hh' He. destruct (tree_find_spec t p h k Hh) as [F1 F2]. destruct (tree_find_spec t' p' h' k Hh') as [F1' F2'].
  destruct (decide (k ∈ (entries p).*1)) as [Hin|Hni].
  - apply list_elem_of_fmap in Hin as ([k0 r] & -> & Hin). cbn in *.
    rewrite (proj2 (F1 r) Hin). apply F1'. by apply He.
  - assert (Hno : ∀ r, (k, r) ∉ entries p).
    { intros r Hr. apply Hni, list_elem_of_fmap. by exists (k, r). }
    rewrite F2 by done. apply F2'. intros r Hr. apply (Hno r). by apply He.
Qed.

Lemma find_absent t p h k : holds t p h → k ∉ (entries p).*1 →
  BTree_find k t = invalidArgument "BTree: key not found".
Proof.
  intros Hh Hk. apply (tree_find_spec t p h k Hh). intros r Hr. apply Hk, list_elem_of_fmap. by exists (k, r).
Qed.
End insert.
