(* ===== verification/TreeErase.v ===== *)
(** Erasure up to the rebalancing of an underfull leaf (TreeRebalance.v), and the
    merge of internal nodes. *)
From stdpp Require Import base strings list gmap decidable sorting sets.
From Stdlib Require Import ZArith Lia.
From S2P Require Import Prelude Config PageAlloc Buffers Keys Nodes NodeFacts Tree TreeShape TreeFacts TreeSearch TreeInsert.

Section erase.
Context {S W : Type} `{PageSpace S} `{BTreeWalSink W} `{Fo : ForeignPages}.
Notation BT := (BTree S W).
Implicit Types (t : BT).

(** The leaf that holds the key is not the root and would be left underfull. *)
Definition underflows t key : bool :=
  match descendToLeaf key true t with
  | Ok (_ :: _, id, _) =>
      match bt_leaves t !! id with
      | Some l => isUnderfull (keyCount (lf_node l) - 1) (capacity (lf_node l)) false
      | None => false
      end
  | _ => false
  end.

Lemma fmap_verase {A B} (g : A → B) i l : g <$> verase i l = verase i (g <$> l).
Proof. unfold verase. by rewrite fmap_app, fmap_take, fmap_drop. Qed.

Lemma erase_from_leaf t N id es i : Inv t (SLeaf id es :: N) → (i < length es)%nat →
  ∃ t', on_leaf id (LeafNode_eraseAt i) t = (Ok tt, t') ∧ Inv t' (SLeaf id (verase i es) :: N) ∧
    same_meta t t' ∧ bt_space t' = bt_space t.
Proof.
  intros HI Hi. apply (on_leaf_ok t N id es); [done|]. intros l _ (Hwf & Hk & Hr & _).
  destruct (LeafNode_eraseAt_ok i l Hwf) as (l' & He & Hk' & Hr' & Hwf' & Hsame & _).
  { by rewrite Hk, length_fmap. }
  exists l'. rewrite !fmap_verase, Hk', Hr', Hk, Hr. done.
Qed.

(** A leaf given back: its page is free again. *)
Lemma release_leaf t N id es : Inv t (SLeaf id es :: N) →
  ∃ t', releaseNode id t = (Ok tt, t') ∧ Inv t' N ∧ same_meta t t' ∧ ¬ ps_used (bt_space t') id.
Proof.
  intros HI. unfold releaseNode.
  destruct (wal_call_ok t _ (onPageDeallocate id) HI) as (t1 & Hw & HI1 & Hm & Hsp); [naive_solver|].
  rewrite (M_step _ _ t tt t1) by (unfold ignore; by rewrite Hw).
  pose proof HI1 as [H1 H2 H3 H4 H5 H6 H7 H8]. pose proof (Inv_disjoint _ _ _ HI1) as Hdis.
  assert (Hl : isLeaf id t1 = true).
  { apply bool_decide_eq_true. apply Forall_cons in H1 as [(l & Hl & _) _]. by exists l. }
  unfold modify. rewrite Hl. eexists. split; [done|].
  pose proof (ps_free_spec (bt_space t1) id H5) as Hf. cbn [set_leaves bt_space].
  destruct (ps_freePage id (bt_space t1)) as [b sp]. destruct Hf as (Hok & _ & Hu).
  split; [|split; [etransitivity; [exact Hm|by repeat split]|cbn; rewrite Hu; tauto]].
  apply Forall_cons in H1 as [_ H1]. cbn in H2. apply NoDup_cons in H2 as [Hni H2].
  split; cbn; try done.
  - rewrite Forall_forall in *. intros s Hs. specialize (H1 s Hs). specialize (Hdis s Hs). cbn in Hdis.
    destruct s as [j es'|j ks cs|j]; [|exact H1|exact H1]. destruct H1 as (l & Hlk & Hr). exists l.
    cbn in *. by rewrite lookup_delete_ne.
  - intros j [l Hj]. apply lookup_delete_Some in Hj as [Hne Hj]. destruct (H3 j ltac:(eauto)) as [es' Hin].
    apply elem_of_cons in Hin as [Hin|Hin]; [congruence|eauto].
  - intros j Hj. destruct (H4 j Hj) as [Hin|(ks & cs & Hin)]; (apply elem_of_cons in Hin as [Hin|Hin]; [done|]);
      eauto.
  - intros j. rewrite Hu, H6. cbn. rewrite elem_of_cons. pose proof (H7 j) as Hj. cbn in Hj. set_solver.
  - intros j Hj Hin. apply (H7 j Hj). by right.
Qed.

Lemma verase_find (es : list entry) key r : sorted_lt es.*1 → (key, r) ∈ es →
  es !! KeyComparator_find es.*1 key = Some (key, r).
Proof.
  intros Hs Hin. pose proof (proj1 (leaf_entries_lookup es key r Hs) Hin) as [Hk Hr].
  destruct (KeyComparator_find_spec es.*1 key (sorted_lt_le _ Hs)) as [Hf _]. destruct (Hf Hk) as [Hp _].
  rewrite list_lookup_fmap in Hp. rewrite list_lookup_fmap in Hr. destruct (es !! _) as [[k0 r0]|]; [|done]. cbn in *. congruence.
Qed.

Lemma sorted_erase c (es : list Key) i : sorted_lt (ctx_left c ++ es ++ ctx_right c) →
  sorted_lt (ctx_left c ++ verase i es ++ ctx_right c).
Proof.
  intros (S1 & S2 & S3)%StronglySorted_app_iff. apply StronglySorted_app_iff in S2 as (S4 & S5 & S6).
  assert (Hsub : ∀ P : Key → Prop, Forall P es → Forall P (verase i es)).
  { intros P HP. unfold verase. apply Forall_app. split; [by apply Forall_take|by apply Forall_drop]. }
  apply StronglySorted_app_iff. split; [done|]. split.
  - apply StronglySorted_app_iff. split; [by apply sorted_verase|]. split; [done|]. by apply Hsub.
  - eapply Forall_impl; [exact S3|]. intros x [Hx Hy]%Forall_app. apply Forall_app. split; [by apply Hsub|done].
Qed.

(** The effect of [erase] up to the point where the leaf is looked at. *)
Lemma erase_prefix t p h key r : holds t p h → (key, r) ∈ entries p →
  ∃ c id es i l t', p = plug c (PLeaf id es) ∧ ctx_ok 0 c ∧ length c = h ∧ es !! i = Some (key, r) ∧
    bt_leaves t !! id = Some l ∧ leaf_repr (bt_config t) id es l ∧
    descendToLeaf key true t = Ok (path_of c, id, i) ∧
    (∀ m : M BT unit, (_ ← on_leaf id (LeafNode_eraseAt i);
       _ ← modify (λ t, set_size (u64 (bt_size t - 1)) t); _ ← wal_call (onErase key); m) t = m t') ∧
    Inv t' (pnodes (plug c (PLeaf id (verase i es)))) ∧ bt_config t' = bt_config t ∧
    bt_rootId t' = bt_rootId t ∧ bt_height t' = bt_height t ∧ bt_size t' = u64 (bt_size t - 1).
Proof.
  intros Hh Hin. destruct (descendToLeaf_spec t p h key true Hh)
    as (c & id & es & l & -> & Hc & Hb & Hlen & Hl & Hr & Hs & Hsr & Hd).
  rewrite leaf_entry_iff in Hin by done. pose proof (verase_find es key r Hs Hin) as Hi.
  rewrite (exact_at_leaf t key _ id es l Hl Hr Hs), decide_True in Hd.
  2:{ apply list_elem_of_fmap. by exists (key, r). }
  set (i := KeyComparator_find es.*1 key) in *.
  pose proof (h_inv _ _ _ Hh) as HI. rewrite plug_nodes in HI. cbn [pnodes pid app] in HI.
  destruct (erase_from_leaf t _ id es i HI) as (t1 & Ha & HI1 & (M1 & M2 & M3 & M4) & _);
    [by apply lookup_lt_Some in Hi|].
  set (t2 := set_size (u64 (bt_size t1 - 1)) t1).
  destruct (wal_call_ok t2 _ (onErase key) (Inv_ext t1 t2 _ HI1 eq_refl eq_refl eq_refl eq_refl eq_refl))
    as (t3 & Hw & HI3 & (K1 & K2 & K3 & K4) & _); [naive_solver|].
  exists c, id, es, i, l, t3. do 7 (split; [done|]). split.
  { intros m. rewrite (M_step _ _ _ _ _ Ha), (M_step _ _ t1 tt t2) by done. by rewrite (M_step _ _ _ _ _ Hw). }
  split; [by rewrite plug_nodes|]. rewrite K1, K2, K3, K4. cbn. by rewrite M1, M2, M3, M4.
Qed.

(** The tree without the key, before any rebalancing, and what [erase] goes on
    with. *)
Lemma erase_core t p h key r : holds t p h → (key, r) ∈ entries p →
  ∃ c id es t1, ctx_ok 0 c ∧ length c = h ∧ holds t1 (plug c (PLeaf id es)) h ∧
    bt_config t1 = bt_config t ∧ bt_size t1 = u64 (bt_size t - 1) ∧
    inorder p ≡ₚ key :: inorder (plug c (PLeaf id es)) ∧ entries p ≡ₚ (key, r) :: entries (plug c (PLeaf id es)) ∧
    match c with
    | [] => underflows t key = false ∧ BTree_erase key t =
        (if Z.of_nat (length es) =? 0
         then _ ← releaseNode id; modify (λ t, setHeight 0 (setRoot kInvalidPageId t)) else mret tt) t1
    | _ :: _ => underflows t key = isUnderfull (Z.of_nat (length es)) (computeCapacity (bt_config t) Leaf) false ∧
        BTree_erase key t = (if underflows t key then fixLeafUnderflow (path_of c) id else mret tt) t1
    end.
Proof.
  intros Hh Hin. destruct (erase_prefix t p h key r Hh Hin)
    as (c & id & es & i & l & t1 & -> & Hc & Hlen & Hi & Hl & Hr & Hd & Hstep & HI & K1 & K2 & K3 & K4).
  pose proof Hh as [_ _ Hroot Hhe Hso]. rewrite (plug_inorder 0) in Hso by done. cbn [inorder] in Hso.
  destruct (Inv_leaf t1 _ id (verase i es) HI) as (l1 & Hl1 & Hr1); [apply subtree_node; left|].
  pose proof (lookup_lt_Some _ _ _ Hi) as Hlt. pose proof (length_verase i es Hlt) as Hle.
  destruct Hr as ((Hw & Hkc & _) & Hk & _ & _ & lv & Hcf). rewrite Hk, length_fmap in Hkc.
  destruct Hr1 as ((Hw1 & Hkc1 & _) & Hk1 & _ & Hid1 & lv1 & Hcf1). rewrite Hk1, length_fmap in Hkc1.
  exists c, id, (verase i es), t1. do 2 (split; [done|]). split; [|split; [done|split; [done|split; [|split]]]].
  - split; [done| | |by rewrite K3|].
    + rewrite <-Hlen. by apply (uniform_plug 0).
    + rewrite K2, Hroot. by apply pid_plug.
    + rewrite (plug_inorder 0) by done. cbn [inorder]. rewrite fmap_verase. by apply sorted_erase.
  - rewrite !(plug_inorder 0) by done. cbn [inorder].
    rewrite (verase_perm i key es.*1), fmap_verase by (by rewrite list_lookup_fmap, Hi).
    cbn [app]. by rewrite <-Permutation_middle.
  - rewrite !plug_entries, !entries_leaf. cbn [pid]. by rewrite (verase_perm i (key, r) es Hi) at 1.
  - assert (He : BTree_erase key t = (lf ← leaf id; match path_of c with
        | [] => if keyCount (lf_node lf) =? 0 then _ ← releaseNode (ip_id (page_ (lf_node lf)));
                  modify (λ t, setHeight 0 (setRoot kInvalidPageId t)) else mret tt
        | _ => if negb (isUnderfull (keyCount (lf_node lf)) (capacity (lf_node lf)) false) then mret tt
               else fixLeafUnderflow (path_of c) id end) t1).
    { unfold BTree_erase. rewrite (M_step get _ t t t), (holds_nonempty _ _ _ Hh) by done.
      rewrite (M_step _ _ t (path_of c, id, i) t) by (unfold lift; by rewrite Hd). by rewrite Hstep. }
    rewrite (M_step _ _ t1 l1 t1) in He by (unfold leaf; by rewrite Hl1). rewrite Hkc1, Hid1 in He.
    unfold underflows. rewrite Hd, Hl, Hkc. destruct c as [|f c]; cbn [path_of fmap list_fmap] in *; [done|].
    destruct Hw as (_ & Hcap & _), Hw1 as (_ & Hcap1 & _). unfold capacity in *.
    rewrite Hcap1, Hcf1, K1, !capacity_level in He. rewrite Hcap, Hcf, !capacity_level.
    replace (Z.of_nat (length es) - 1) with (Z.of_nat (length (verase i es))) by lia.
    split; [done|]. rewrite He. by destruct (isUnderfull _ _ _).
Qed.

(** The last entry of the root leaf: the tree is empty again. *)
Lemma erase_last t id h : holds t (PLeaf id []) h →
  ∃ t', (_ ← releaseNode id; modify (λ t : BT, setHeight 0 (setRoot kInvalidPageId t))) t = (Ok tt, t') ∧
    holds_nothing t' ∧ bt_config t' = bt_config t ∧ bt_size t' = bt_size t.
Proof.
  intros [HI _ _ _ _]. destruct (release_leaf t [] id [] HI) as (t2 & Hrel & HI2 & (M1 & M2 & M3 & M4) & _).
  rewrite (M_step _ _ _ _ _ Hrel). eexists. split; [done|]. split; [split; [by apply (Inv_ext t2)|done]|by split].
Qed.

Lemma erase_spec t p h key r : holds t p h → (key, r) ∈ entries p → underflows t key = false →
  ∃ t', BTree_erase key t = (Ok tt, t') ∧ bt_config t' = bt_config t ∧ bt_size t' = u64 (bt_size t - 1) ∧
    ((holds_nothing t' ∧ entries p = [(key, r)]) ∨
     ∃ p', holds t' p' h ∧ inorder p ≡ₚ key :: inorder p' ∧ entries p ≡ₚ (key, r) :: entries p').
Proof.
  intros Hh Hin Hund. destruct (erase_core t p h key r Hh Hin)
    as (c & id & es & t1 & Hc & Hlen & Hh1 & K1 & K4 & Pi & Pe & He).
  destruct c as [|f c].
  - destruct He as [_ ->]. cbn [plug] in *. destruct es as [|e es]; cbn [length].
    + destruct (erase_last t1 id h Hh1) as (t2 & E & Hn & C & Z). exists t2. split; [exact E|].
      split_and!; [congruence..|]. left. split; [done|]. by apply Permutation_singleton_r.
    + exists t1. split_and!; try done. right. eauto.
  - destruct He as [_ ->]. rewrite Hund. exists t1. split_and!; try done. right. eauto.
Qed.

Lemma erase_absent t p h key : holds t p h → key ∉ (entries p).*1 →
  BTree_erase key t = (invalidArgument "BTree: key not found", t).
Proof.
  intros Hh Hn. destruct (descendToLeaf_spec t p h key true Hh)
    as (c & id & es & l & -> & Hc & Hb & Hlen & Hl & Hr & Hs & Hsr & Hd).
  unfold BTree_erase. rewrite (M_step get _ t t t), (holds_nonempty _ _ _ Hh) by done.
  rewrite Hd, (exact_at_leaf t key _ id es l Hl Hr Hs), decide_False; [done|].
  intros ([k r] & -> & Hk)%list_elem_of_fmap. apply Hn, list_elem_of_fmap. exists (k, r). split; [done|].
  by apply leaf_entry_iff.
Qed.

(** ** Merging internal nodes *)

(** The internal nodes left and right of the separator [li] of [parentId]. *)
Definition merge_site t (parentId li : Z) : Prop :=
  ∃ parent lref rref lhs rhs sep, bt_internals t !! parentId = Some parent ∧
    in_children parent !! Z.to_nat li = Some lref ∧ in_children parent !! Z.to_nat (li + 1) = Some rref ∧
    in_keys parent !! Z.to_nat li = Some sep ∧
    bt_internals t !! pr_pageId lref = Some lhs ∧ bt_internals t !! pr_pageId rref = Some rhs ∧
    internal_wf lhs ∧ internal_wf rhs.

Lemma merge_refused t parentId li fixUp : merge_site t parentId li →
  mergeInternals parentId li fixUp t = (invalidArgument "InternalNode: child count mismatch", t).
Proof.
  intros (parent & lref & rref & lhs & rhs & sep & Hp & Hl & Hr & Hk & Hlhs & Hrhs & (_ & _ & Hcl & _) & (_ & _ & Hcr & _)).
  unfold mergeInternals, internal, lift, at_.
  rewrite (M_step _ _ t parent t) by (by rewrite Hp). rewrite (M_step _ _ t lref t) by (by rewrite Hl).
  rewrite (M_step _ _ t rref t) by (by rewrite Hr). rewrite (M_step _ _ t lhs t) by (by rewrite Hlhs).
  rewrite (M_step _ _ t rhs t) by (by rewrite Hrhs). rewrite (M_step _ _ t sep t) by (by rewrite Hk).
  unfold mbind at 1, M_bind at 1, on_internal. rewrite Hlhs. unfold InternalNode_assignEntries.
  rewrite (proj2 (Nat.eqb_neq _ _)) by (rewrite !length_app, length_drop; cbn; lia). cbn [negb].
  rewrite insert_id by done. by destruct t.
Qed.

(** merging two well-formed internal nodes is always refused with "child count
    mismatch", and nothing changes: the first child of the right node is left
    out, so there is one child too few for the keys. *)
Theorem merge_internals_refused t parentId li fixUp : merge_site t parentId li →
  mergeInternals parentId li fixUp t = (invalidArgument "InternalNode: child count mismatch", t).
Proof. apply merge_refused. Qed.
End erase.
