(* ===== verification/TreeValid.v ===== *)
(** The validator accepts every well-formed tree. *)
From stdpp Require Import base strings list gmap decidable sorting sets.
From Stdlib Require Import ZArith Lia.
From S2P Require Import Prelude Config PageAlloc Buffers Keys Nodes NodeFacts Tree TreeShape TreeFacts TreeSearch TreeInsert TreeErase.

(** ** The checks on keys *)

Definition within (mn mx : option Key) (k : Key) : Prop :=
  (∀ m, mn = Some m → key_lt m k) ∧ (∀ m, mx = Some m → key_lt k m).

Lemma sorted_check_lt dup prev keys : sorted_lt (prev :: keys) → sorted_check dup prev keys = true.
Proof.
  revert prev. induction keys as [|k keys IH]; intros prev Hs; cbn; [done|].
  apply StronglySorted_inv in Hs as [Hs Hp]. apply Forall_cons in Hp as [Hp _].
  rewrite (proj2 (Key_ltb_spec prev k)) by done. cbn. by apply IH.
Qed.
Lemma keys_sorted_check_lt dup keys : sorted_lt keys → keys_sorted_check dup keys = true.
Proof. destruct keys; cbn; [done|]. apply sorted_check_lt. Qed.

Lemma within_tests mn mx prev k : within mn mx k → (∀ p, prev = Some p → key_lt p k) →
  (match mn with Some m => Key_ltb k m | None => false end) = false ∧
  (match mx with Some m => negb (Key_ltb k m) | None => false end) = false ∧
  (match mx with Some m => Key_gtb k m | None => false end) = false ∧
  (match prev with Some p => Key_ltb k p | None => false end) = false.
Proof.
  intros [Hn Hx] Hp. split; [|split; [|split]].
  - destruct mn as [m|]; [|done]. apply Key_ltb_false, key_lt_le. auto.
  - destruct mx as [m|]; [|done]. apply negb_false_iff, Key_ltb_spec. auto.
  - destruct mx as [m|]; [|done]. unfold Key_gtb. specialize (Hx m eq_refl). unfold key_lt in Hx.
    apply Z.ltb_ge. lia.
  - destruct prev as [p|]; [|done]. apply Key_ltb_false, key_lt_le. auto.
Qed.

Lemma range_check_ok mn mx prev keys : Forall (within mn mx) keys → sorted_lt keys →
  (∀ p, prev = Some p → Forall (key_lt p) keys) →
  range_check mn mx prev keys = Ok tt ∧ internal_range_check mn mx prev keys = Ok tt.
Proof.
  revert prev. induction keys as [|k keys IH]; intros prev Hw Hs Hp; [done|].
  apply Forall_cons in Hw as [Hk Hw]. apply StronglySorted_inv in Hs as [Hs Hlt].
  destruct (within_tests mn mx prev k Hk) as (T1 & T2 & T3 & T4).
  { intros p ->. specialize (Hp p eq_refl). by apply Forall_cons in Hp as [? _]. }
  cbn [range_check internal_range_check]. rewrite T1, T2, T3, T4. apply IH; [done|done|].
  by intros p [= <-].
Qed.

Lemma collect_all {A} (l : list A) n : n = Z.of_nat (length l) → collect n l = Ok l.
Proof.
  intros ->. unfold collect. rewrite Z.ltb_irrefl, Nat2Z.id, take_ge by done. done.
Qed.

(** ** Nodes *)

Lemma page_validates ty n : node_wf ty n → 0 < computeCapacity (config_ n) ty →
  keyCount n <= capacity n → BTreeNode_validate n = Ok tt ∧ ip_nodeType (page_ n) = NodeType_value ty.
Proof.
  intros (Ht & Hc & _) Hpos Hk. split; [|done]. unfold BTreeNode_validate, IndexPage_validate.
  unfold keyCount, capacity in *. rewrite Hc in *.
  by rewrite (proj2 (Z.ltb_lt _ _)), (proj2 (Z.leb_le _ _)) by lia.
Qed.

Lemma leaf_validates c id es l mn mx : leaf_repr c id es l → config_ok c → sorted_lt es.*1 →
  Forall (within mn mx) es.*1 → validateLeafRange l mn mx = Ok tt.
Proof.
  intros ((Hwf & Hkc & Hlen & Hcap & _) & Hk & _ & _ & lv & Hcf) [Hpos _] Hs Hw.
  destruct (page_validates Leaf (lf_node l) Hwf) as [Hv Ht]; [by rewrite Hcf, capacity_level|lia|].
  unfold validateLeafRange, LeafNode_validate. rewrite Hv. cbn [mbind outcome_bind].
  rewrite Ht, Z.eqb_refl, Hlen, Nat.eqb_refl, Hkc, Z.eqb_refl, Hk, keys_sorted_check_lt by done. cbn [negb].
  rewrite collect_all by done. by apply range_check_ok.
Qed.

Lemma internal_validates c id ks cs i : internal_repr c id ks cs i → config_ok c → sorted_lt ks →
  InternalNode_validate i = Ok tt ∧ collect (keyCount (in_node i)) (in_keys i) = Ok ks.
Proof.
  intros ((Hwf & Hkc & Hlen & Hcap & _) & Hk & _ & _ & lv & Hcf) [_ Hpos] Hs.
  destruct (page_validates Internal (in_node i) Hwf) as [Hv Ht]; [by rewrite Hcf, capacity_level|lia|].
  unfold InternalNode_validate. rewrite Hv. cbn [mbind outcome_bind].
  rewrite Ht, Z.eqb_refl, Hlen, Nat.add_1_r, Nat.eqb_refl, Hkc, Z.eqb_refl, Hk, keys_sorted_check_lt by done.
  cbn [negb]. split; [done|]. by apply collect_all.
Qed.

Lemma interleave_keys {A} (ks : list A) ls : length ls = S (length ks) → ks `sublist_of` interleave ks ls.
Proof.
  revert ls. induction ks as [|k ks IH]; intros [|l ls] Hl; cbn in *; try lia; [apply sublist_nil_l|].
  apply sublist_inserts_l, sublist_skip, IH. lia.
Qed.

Section validate.
Context {S W : Type} `{PageSpace S} `{BTreeWalSink W} `{Fo : ForeignPages}.
Notation BT := (BTree S W).
Implicit Types (t : BT).

(** The loop over the children, for any visit that accepts each child within
    its bounds. *)
Lemma validate_children_ok visit D mx : ∀ ks cs mn ld,
  length cs = Datatypes.S (length ks) → (ld = 0 ∨ ld = D) →
  sorted_lt (interleave ks (inorder <$> cs)) → Forall (within mn mx) (interleave ks (inorder <$> cs)) →
  (∀ c ld' mn' mx', c ∈ cs → (ld' = 0 ∨ ld' = D) → sorted_lt (inorder c) → Forall (within mn' mx') (inorder c) →
     PageReference_isValid (makeIndexRef (pid c)) = true ∧ visit (pid c) ld' mn' mx' = Ok D) →
  validate_children visit ld mn mx ks (makeIndexRef <$> (pid <$> cs)) = Ok D.
Proof.
  induction ks as [|k ks IH]; intros [|c cs] mn ld Hl Hld Hs Hw Hv; cbn in Hl; try lia.
  - destruct cs; [|cbn in Hl; lia]. cbn in Hs, Hw. rewrite app_nil_r in Hs, Hw.
    destruct (Hv c ld mn mx) as [Hval Hvis]; [left|done..|]. cbn -[PageReference_isValid]. by rewrite Hval.
  - cbn in Hs, Hw. apply StronglySorted_app_iff in Hs as (S1 & S2 & S3).
    apply StronglySorted_inv in S2 as [S2 S4]. apply Forall_app in Hw as [W1 W2].
    apply Forall_cons in W2 as [_ W3].
    destruct (Hv c ld mn (Some k)) as [Hval Hvis]; [left|done|done| |].
    { rewrite Forall_forall in *. intros x Hx. destruct (W1 x Hx) as [Hmn _]. split; [done|].
      intros m [= <-]. specialize (S3 x Hx). by apply Forall_cons in S3 as [? _]. }
    cbn -[PageReference_isValid]. rewrite Hval. cbn -[PageReference_isValid]. rewrite Hvis. cbn -[PageReference_isValid].
    apply IH; [lia|by right|done| |].
    + rewrite Forall_forall in *. intros x Hx. destruct (W3 x Hx) as [_ Hmx]. split; [|done].
      intros m [= <-]. auto.
    + intros c' ld' mn' mx' Hc'. apply Hv. by right.
Qed.

Lemma validateSubtree_ok t N : Inv t N → config_ok (bt_config t) → ∀ h p depth ld mn mx fuel,
  pnodes p ⊆ N → uniform h p → sorted_lt (inorder p) → Forall (within mn mx) (inorder p) →
  (h <= fuel)%nat → 0 < depth → depth + Z.of_nat h < 2 ^ 32 → (ld = 0 ∨ ld = depth + Z.of_nat h) →
  validateSubtree fuel t (pid p) depth ld mn mx = Ok (depth + Z.of_nat h).
Proof.
  intros HI Hcfg. induction h as [|h IH]; intros p depth ld mn mx fuel Hsub Hu Hs Hw Hf Hd Hb Hld;
    destruct p as [id es|id ks cs]; try done; cbn [pid].
  - destruct (Inv_leaf t N id es HI) as (l & Hl & Hr); [apply Hsub; left|].
    assert (Hv := leaf_validates _ _ _ _ mn mx Hr Hcfg Hs Hw). rewrite Z.add_0_r in *.
    destruct fuel; cbn [validateSubtree]; rewrite Hl, Hv; cbn [mbind outcome_bind];
      (destruct Hld as [->| ->]; [done|]); rewrite Z.eqb_refl; destruct (depth =? 0); done.
  - destruct Hu as [Hlen Hu]. assert (Hin : SNode id ks (pid <$> cs) ∈ N) by (apply Hsub; left).
    destruct (Inv_node _ _ _ _ _ HI Hin) as (i & Hi & Hr). destruct fuel as [|fuel]; [lia|].
    assert (Hsl : ks `sublist_of` inorder (PNode id ks cs)) by (apply interleave_keys; by rewrite length_fmap).
    destruct (internal_validates _ _ _ _ _ Hr Hcfg (sorted_sublist _ _ Hsl Hs)) as [Hv Hc].
    cbn [validateSubtree]. rewrite (Inv_internal_not_leaf t _ _ _ _ HI Hin), Hi, Hv. cbn [mbind outcome_bind].
    rewrite Hc. cbn [mbind outcome_bind].
    destruct (range_check_ok mn mx None ks) as [_ Hrc].
    { rewrite Forall_forall in *. intros k Hk. apply Hw. by eapply elem_of_sublist. }
    { by eapply sorted_sublist. } { done. }
    rewrite Hrc. cbn [mbind outcome_bind]. destruct Hr as (_ & _ & -> & _).
    rewrite u32_small by lia. apply validate_children_ok; try done.
    intros c ld' mn' mx' Hcin Hld' Hsc Hwc.
    assert (Hsubc : pnodes c ⊆ N).
    { intros s Hsn. apply Hsub. right. apply elem_of_concat. exists (pnodes c). split; [done|].
      by apply list_elem_of_fmap_2. }
    split.
    + apply (child_valid t N _ HI). pose proof (pid_nodes c) as Hp.
      apply list_elem_of_fmap in Hp as (s & -> & Hsn). by apply list_elem_of_fmap_2, Hsubc.
    + replace (depth + Z.of_nat (Datatypes.S h)) with (depth + 1 + Z.of_nat h) in * by lia.
      rewrite Forall_forall in Hu. apply IH; auto; lia.
Qed.

(** Distinct pages of a tree are at most the pages of a file. *)
Lemma pages_bound t N l : Inv t N → NoDup l → (∀ id, id ∈ l → id ∈ sid <$> N) → Z.of_nat (length l) <= kMaxPageId.
Proof.
  intros HI Hnd Hl. assert (Hsub : l ⊆ seqZ 1 kMaxPageId).
  { intros id Hid. pose proof (ps_used_range _ _ (inv_space _ _ HI) (inv_used _ _ HI _ (Hl id Hid))).
    apply elem_of_seqZ. consts. lia. }
  pose proof (NoDup_submseteq _ _ Hnd Hsub) as Hsm. apply submseteq_length in Hsm.
  rewrite length_seqZ in Hsm. consts. lia.
Qed.

(** A tree has fewer levels than pages. *)
Lemma height_pages t p h : holds t p h → Z.of_nat h <= kMaxPageId.
Proof.
  intros Hh. pose proof (h_inv _ _ _ Hh) as HI. pose proof (node_ids_height h p (h_uniform _ _ _ Hh)) as Hb.
  assert (Hn : Z.of_nat (length (node_ids (pnodes p))) <= kMaxPageId); [|lia].
  apply (pages_bound t (pnodes p)); [done| |].
  - eapply sublist_NoDup; [apply (inv_nodup _ _ HI)|apply node_ids_sublist].
  - intros id Hid. eapply elem_of_sublist; [exact Hid|apply node_ids_sublist].
Qed.

Lemma holds_validates t p h : holds t p h → config_ok (bt_config t) → BTree_validate t = Ok tt.
Proof.
  intros Hh Hcfg. pose proof Hh as [HI Hu Hroot _ Hs]. pose proof (height_pages _ _ _ Hh) as Hhp.
  unfold BTree_validate. rewrite (holds_nonempty _ _ _ Hh).
  assert (Hroot' : negb (isLeaf (bt_rootId t) t) && negb (isInternal (bt_rootId t) t) = false).
  { rewrite Hroot. unfold isLeaf, isInternal. destruct p as [id es|id ks cs]; cbn [pid].
    - destruct (Inv_leaf t _ id es HI) as (l & Hl & _); [left|]. rewrite Hl. by rewrite bool_decide_true by eauto.
    - destruct (Inv_node t _ id ks (pid <$> cs) HI) as (i & Hi & _); [left|].
      rewrite Hi, (bool_decide_true (is_Some (Some i))) by eauto. by rewrite andb_false_r. }
  rewrite Hroot', Hroot.
  rewrite (validateSubtree_ok t (pnodes p) HI Hcfg h p 1 0 None None); try done; try (by left).
  - by apply Forall_true.
  - etransitivity; [by apply node_ids_height|by apply height_bound].
  - unfold kMaxPageId, kMaxPageCount in Hhp. lia.
Qed.
End validate.
