(* ===== verification/TreeRebalance.v ===== *)
(** Underflow: what the borrowing and merging of nodes do to the tree.

    The two nodes a step works on are neighbours under one parent: [pair] is the
    parent around them.  Borrowing keeps the sequence of all keys, but between
    leaves the entry that is lent changes its key; merging leaves drops the
    separator between them; merging internal nodes is refused. *)
From stdpp Require Import base strings list gmap decidable sorting sets.
From Stdlib Require Import ZArith Lia.
From S2P Require Import Prelude Config PageAlloc Buffers Keys Nodes NodeFacts Tree TreeShape TreeFacts TreeSearch TreeInsert TreeErase TreeValid.

Lemma verase_mid {A} n (xs ys : list A) x : n = length xs → verase n (xs ++ x :: ys) = xs ++ ys.
Proof. intros ->. by rewrite <-(vinsert_app x xs ys), verase_vinsert by (rewrite length_app; lia). Qed.

(** ** Neighbours *)

(** A parent with the neighbouring children [A] and [B] and [s] between them. *)
Definition pair (id : Z) (k1 : list Key) (c1 : list ptree) (A : ptree) (s : Key) (B : ptree)
    (k2 : list Key) (c2 : list ptree) : ptree :=
  PNode id (k1 ++ s :: k2) (c1 ++ A :: B :: c2).
(** The pages around the three. *)
Definition pair_rest (c : list frame) (id : Z) (c1 c2 : list ptree) : list shallow :=
  concat (pnodes <$> c1) ++ concat (pnodes <$> c2) ++ ctx_nodes c id.

Lemma pair_nodes c id k1 c1 A s B k2 c2 :
  pnodes (plug c (pair id k1 c1 A s B k2 c2)) ≡ₚ
  SNode id (k1 ++ s :: k2) ((pid <$> c1) ++ pid A :: pid B :: (pid <$> c2)) ::
    pnodes A ++ pnodes B ++ pair_rest c id c1 c2.
Proof.
  rewrite plug_nodes. unfold pair, pair_rest. cbn [pnodes pid]. rewrite !fmap_app, !fmap_cons, concat_app.
  cbn [concat app]. constructor. rewrite <-!app_assoc.
  rewrite (Permutation_app_swap_app (concat _) (pnodes A)). f_equiv.
  by rewrite (Permutation_app_swap_app (concat _) (pnodes B)).
Qed.

Lemma pair_entries c id k1 c1 A s B k2 c2 :
  entries (plug c (pair id k1 c1 A s B k2 c2)) ≡ₚ
  entries A ++ entries B ++ stored_entries (pair_rest c id c1 c2).
Proof.
  unfold entries at 1. rewrite pair_nodes. unfold stored_entries at 1. rewrite fmap_cons. cbn [concat sentries app].
  change (concat (sentries <$> ?l)) with (stored_entries l). by rewrite !stored_entries_app.
Qed.

(** What comes before and after the two children in the order of the keys. *)
Lemma pair_inorder h c id k1 c1 A s B k2 c2 : ctx_ok (S h) c → length c1 = length k1 → length c2 = length k2 →
  inorder (plug c (pair id k1 c1 A s B k2 c2)) =
  (ctx_left c ++ seg_left k1 c1) ++ (inorder A ++ s :: inorder B) ++ seg_right k2 c2 ++ ctx_right c.
Proof.
  intros Hc H1 H2. rewrite (plug_inorder (S h)) by done.
  assert (E : inorder (pair id k1 c1 A s B k2 c2) =
              seg_left k1 c1 ++ inorder A ++ s :: inorder B ++ seg_right k2 c2).
  { unfold pair. cbn [inorder]. rewrite fmap_app, !fmap_cons.
    rewrite interleave_app by (by rewrite length_fmap). rewrite interleave_left by done. f_equal.
    cbn [interleave]. f_equal. f_equal. by rewrite (interleave_right B). }
  rewrite E. by rewrite <-!app_assoc, <-app_comm_cons, <-!app_assoc.
Qed.

Lemma pair_uniform h id k1 c1 A s B k2 c2 : uniform (S h) (pair id k1 c1 A s B k2 c2) ↔
  (length c1 + length c2 = length k1 + length k2)%nat ∧ Forall (uniform h) c1 ∧ uniform h A ∧ uniform h B ∧
  Forall (uniform h) c2.
Proof.
  unfold pair. cbn [uniform]. rewrite Forall_app, !Forall_cons, !length_app. cbn [length].
  split; [intros (? & ? & ? & ? & ?)|intros (? & ? & ? & ? & ?)]; split_and!; try done; lia.
Qed.

(** The frame of a child with a neighbour on its left, or on its right. *)
Lemma frame_left h f p : frame_ok h f → f_lks f ≠ [] →
  ∃ k1 s c1 A, f_lks f = k1 ++ [s] ∧ f_lcs f = c1 ++ [A] ∧ length c1 = length k1 ∧ uniform h A ∧
    plug1 f p = pair (f_id f) k1 c1 A s p (f_rks f) (f_rcs f).
Proof.
  intros (H1 & H2 & H3 & H4) Hne. destruct f as [id lks lcs rks rcs]. cbn in *.
  destruct lks as [|s k1 _] using rev_ind; [done|].
  destruct lcs as [|A c1 _] using rev_ind; [rewrite length_app in H1; cbn in H1; lia|].
  rewrite !length_app in H1. cbn in H1. apply Forall_app in H3 as [_ HA]. rewrite Forall_singleton in HA.
  exists k1, s, c1, A. split_and!; try done; [lia|]. unfold plug1, pair. cbn. by rewrite <-!app_assoc.
Qed.
Lemma frame_right h f p : frame_ok h f → f_rks f ≠ [] →
  ∃ s k2 B c2, f_rks f = s :: k2 ∧ f_rcs f = B :: c2 ∧ length c2 = length k2 ∧ uniform h B ∧
    plug1 f p = pair (f_id f) (f_lks f) (f_lcs f) p s B k2 c2.
Proof.
  intros (H1 & H2 & H3 & H4) Hne. destruct f as [id lks lcs rks rcs]. cbn in *.
  destruct rks as [|s k2]; [done|]. destruct rcs as [|B c2]; [done|]. cbn in H2. apply Forall_cons in H4 as [HB _].
  exists s, k2, B, c2. split_and!; try done. lia.
Qed.

Lemma plug1_uniform h f p : frame_ok h f → uniform h p → uniform (S h) (plug1 f p).
Proof.
  intros (H1 & H2 & H3 & H4) Hp. cbn [plug1 uniform]. rewrite !length_app. cbn [length].
  split; [lia|]. apply Forall_app. split; [done|]. by constructor.
Qed.

(** A child that moves across the separator between its parent and the
    neighbour, in either direction. *)
Lemma rotation h c id k1 c1 a ka lk ca x s b kb cb k2 c2 : ctx_ok (S (S h)) c →
  length c1 = length k1 → length c2 = length k2 → length ca = S (length ka) → length cb = S (length kb) →
  let p1 := pair id k1 c1 (PNode a (ka ++ [lk]) (ca ++ [x])) s (PNode b kb cb) k2 c2 in
  let p2 := pair id k1 c1 (PNode a ka ca) lk (PNode b (s :: kb) (x :: cb)) k2 c2 in
  (uniform (S (S h)) p1 ↔ uniform (S (S h)) p2) ∧ inorder (plug c p1) = inorder (plug c p2) ∧
  entries (plug c p1) ≡ₚ entries (plug c p2).
Proof.
  intros Hc H1 H2 Ha Hb p1 p2. unfold p1, p2. split; [|split].
  - rewrite !pair_uniform. cbn [uniform]. rewrite !length_app, Forall_app, Forall_singleton, Forall_cons. cbn [length].
    split; intros (? & ? & [? ?] & [? ?] & ?); split_and!; try tauto; lia.
  - rewrite !(pair_inorder (S h)) by done. f_equal. f_equal.
    pose proof (inorder_cut a a a ka lk [] ca [x] Ha) as E. rewrite E. cbn. by rewrite app_nil_r, <-app_assoc.
  - rewrite !pair_entries, !entries_node. rewrite fmap_app, concat_app. cbn. by rewrite app_nil_r, <-!app_assoc.
Qed.

(** An entry that crosses the separator between two leaves: its reference stays
    on the leaves, under the key that was the separator. *)
Lemma leaf_rotation c id k1 c1 a ea lk r s b eb k2 c2 : ctx_ok 1 c →
  length c1 = length k1 → length c2 = length k2 →
  let p1 := pair id k1 c1 (PLeaf a (ea ++ [(lk, r)])) s (PLeaf b eb) k2 c2 in
  let p2 := pair id k1 c1 (PLeaf a ea) lk (PLeaf b ((s, r) :: eb)) k2 c2 in
  (uniform 1 p1 ↔ uniform 1 p2) ∧ inorder (plug c p1) = inorder (plug c p2) ∧
  (sorted_lt (inorder (plug c p1)) → lk ≠ s) ∧
  ∃ E, entries (plug c p1) ≡ₚ (lk, r) :: E ∧ entries (plug c p2) ≡ₚ (s, r) :: E.
Proof.
  intros Hc H1 H2 p1 p2. unfold p1, p2. rewrite !pair_uniform, !(pair_inorder 0) by done.
  cbn [inorder]. rewrite fmap_app. cbn [fmap list_fmap fst]. split; [done|]. split; [by rewrite <-(app_assoc ea.*1)|]. split.
  - rewrite <-(app_assoc ea.*1). intros Hs%sorted_lt_NoDup ->.
    apply NoDup_app in Hs as (_ & _ & Hs). apply NoDup_app in Hs as (Hs & _). apply NoDup_app in Hs as (_ & _ & Hs).
    apply NoDup_cons in Hs as [Hs _]. apply Hs. left.
  - exists (ea ++ eb ++ stored_entries (pair_rest c id c1 c2)). split.
    + rewrite pair_entries, !entries_leaf, <-app_assoc. cbn [app]. by rewrite <-Permutation_middle.
    + rewrite pair_entries, !entries_leaf. cbn [app]. by rewrite <-Permutation_middle.
Qed.

Section rebalance.
Context {S W : Type} `{PageSpace S} `{BTreeWalSink W} `{Fo : ForeignPages}.
Notation BT := (BTree S W).
Implicit Types (t : BT).

(** ** Reading and single steps *)
Lemma read_internal t N id ks cs : Inv t N → SNode id ks cs ∈ N →
  ∃ i, internal_repr (bt_config t) id ks cs i ∧ bt_internals t !! id = Some i ∧
    ∀ B (f : InternalNode → M BT B), (x ← internal id; f x) t = f i t.
Proof.
  intros HI Hin. destruct (Inv_node _ _ _ _ _ HI Hin) as (i & Hi & Hr). exists i. split; [done|]. split; [done|].
  intros B f. by rewrite (M_step _ _ t i t) by (unfold internal; by rewrite Hi).
Qed.
Lemma read_leaf t N id es : Inv t N → SLeaf id es ∈ N →
  ∃ l, leaf_repr (bt_config t) id es l ∧ bt_leaves t !! id = Some l ∧
    ∀ B (f : LeafNode → M BT B), (x ← leaf id; f x) t = f l t.
Proof.
  intros HI Hin. destruct (Inv_leaf _ _ _ _ HI Hin) as (l & Hl & Hr). exists l. split; [done|]. split; [done|].
  intros B f. by rewrite (M_step _ _ t l t) by (unfold leaf; by rewrite Hl).
Qed.
Lemma step_lift {A B} (o : outcome A) (a : A) (f : A → M BT B) t : o = Ok a → (x ← lift o; f x) t = f a t.
Proof. intros ->. done. Qed.

Lemma set_separator t N id k1 s k2 cs k : Inv t (SNode id (k1 ++ s :: k2) cs :: N) → key_fits (bt_config t) k →
  ∃ t', on_internal id (InternalNode_setKeyAt (length k1) k) t = (Ok tt, t') ∧
    Inv t' (SNode id (k1 ++ k :: k2) cs :: N) ∧ same_meta t t' ∧ bt_space t' = bt_space t.
Proof.
  intros HI Hk. destruct (Inv_node _ _ _ _ _ HI ltac:(left)) as (i & Hi & Hr).
  pose proof Hr as (Hwf & Hks & Hcs & Hid & lv & Hcf).
  destruct (InternalNode_setKeyAt_ok (length k1) k i Hwf) as (i' & He & Hk' & Hc' & Hwf' & Hsame);
    [rewrite Hks, length_app; cbn; lia|by rewrite Hcf|].
  apply (on_internal_ok t N _ id (k1 ++ k :: k2) cs _ HI); [done| |done].
  exists i. split; [done|]. split; [by eapply internal_repr_fresh|]. exists i'. split; [done|].
  rewrite Hk', Hc', Hks. split_and!; try done. by rewrite insert_app_r_alt, Nat.sub_diag by lia.
Qed.
Lemma drop_separator t N id k1 s k2 cs1 a b cs2 : Inv t (SNode id (k1 ++ s :: k2) (cs1 ++ a :: b :: cs2) :: N) →
  length cs1 = length k1 →
  ∃ t', on_internal id (InternalNode_eraseAt (length k1)) t = (Ok tt, t') ∧
    Inv t' (SNode id (k1 ++ k2) (cs1 ++ a :: cs2) :: N) ∧ same_meta t t' ∧ bt_space t' = bt_space t.
Proof.
  intros HI Hl. destruct (Inv_node _ _ _ _ _ HI ltac:(left)) as (i & Hi & Hr).
  pose proof Hr as (Hwf & Hks & Hcs & Hid & lv & Hcf).
  destruct (InternalNode_eraseAt_ok (length k1) i Hwf) as (i' & He & Hk' & Hc' & Hwf' & Hsame);
    [rewrite Hks, length_app; cbn; lia|].
  apply (on_internal_ok t N _ id (k1 ++ k2) (cs1 ++ a :: cs2) _ HI); [done| |done].
  exists i. split; [done|]. split; [by eapply internal_repr_fresh|]. exists i'. split; [done|].
  rewrite Hk', Hc', Hks, Hcs. split_and!; try done.
  - by apply verase_mid.
  - rewrite (cons_middle a), app_assoc, fmap_app, fmap_cons, verase_mid by (rewrite length_fmap, length_app; cbn; lia).
    by rewrite <-fmap_app, <-app_assoc.
Qed.
(** What stands in the pages of a tree fits its configuration. *)
Lemma keys_fit t N id ks cs k : Inv t N → SNode id ks cs ∈ N → k ∈ ks → key_fits (bt_config t) k.
Proof.
  intros HI Hin Hk. destruct (Inv_node _ _ _ _ _ HI Hin) as (i & _ & (_ & _ & _ & _ & Hf) & Hks & _ & _ & lv & Hcf).
  rewrite Hks, Hcf in Hf. rewrite Forall_forall in Hf. by apply Hf.
Qed.
Lemma entries_keys_fit t N id es : Inv t N → SLeaf id es ∈ N → Forall (key_fits (bt_config t)) es.*1.
Proof.
  intros HI Hin. destruct (Inv_leaf _ _ _ _ HI Hin) as (l & _ & (_ & _ & _ & _ & Hf) & Hk & _ & _ & lv & Hcf).
  by rewrite Hk, Hcf in Hf.
Qed.
Lemma at_mid {A} n (xs ys : list A) x : n = length xs → at_ (xs ++ x :: ys) n = Ok x.
Proof. intros ->. unfold at_. by rewrite list_lookup_middle. Qed.
Lemma at_pred_mid {A} i (xs ys : list A) x : i = Z.of_nat (length xs) + 1 → at_pred (xs ++ x :: ys) i = Ok x.
Proof. intros ->. unfold at_pred. rewrite (proj2 (Z.leb_gt _ _)) by lia. apply at_mid. lia. Qed.

(** ** Borrowing *)

(** Bringing the third of three pages to the front. *)
Lemma perm_third {A} (x y z : A) R : x :: y :: z :: R ≡ₚ z :: x :: y :: R.
Proof. by rewrite (Permutation_swap z y), (Permutation_swap z x). Qed.

(** The leaf [x] lends its entry [i]: its key becomes the separator, and the leaf
    [y] gets new entries. *)
Lemma lend_leaf t R id k1 s k2 cs x ex i k r y ey ey' fk fr :
  Inv t (SNode id (k1 ++ s :: k2) cs :: SLeaf x ex :: SLeaf y ey :: R) → ex !! i = Some (k, r) →
  Z.of_nat (length ey') <= computeCapacity (bt_config t) Leaf → Forall (key_fits (bt_config t)) ey'.*1 →
  fk ey.*1 = ey'.*1 → fr ey.*2 = ey'.*2 →
  ∃ t', (_ ← on_leaf x (LeafNode_eraseAt i);
         _ ← on_internal id (InternalNode_setKeyAt (length k1) k);
         node ← leaf y;
         _ ← on_leaf y (LeafNode_assignEntries (fk (lf_keys node)) (fr (lf_refs node)));
         modify (upd_stats tree_recordRotation)) t = (Ok tt, t') ∧
    Inv t' (SNode id (k1 ++ k :: k2) cs :: SLeaf x (verase i ex) :: SLeaf y ey' :: R) ∧ same_meta t t'.
Proof.
  intros HI Hi Hcap Hfit Hfk Hfr.
  pose proof (entries_keys_fit t _ x _ HI ltac:(right; left)) as Hx. rewrite Forall_forall in Hx.
  specialize (Hx k ltac:(apply list_elem_of_fmap; exists (k, r); split; [done|by eapply list_elem_of_lookup_2])).
  rewrite Permutation_swap in HI. destruct (erase_from_leaf t _ x _ i HI) as (t1 & E1 & I1 & M1 & _);
    [by eapply lookup_lt_Some|].
  rewrite (M_step _ _ _ _ _ E1). rewrite Permutation_swap in I1.
  destruct (set_separator t1 _ id k1 s k2 cs k I1) as (t2 & E2 & I2 & M2 & _); [by rewrite (proj1 M1)|].
  rewrite (M_step _ _ _ _ _ E2).
  destruct (read_leaf t2 _ y ey I2 ltac:(right; right; left)) as (l2 & (_ & Hk2 & Hr2 & _) & _ & ->).
  rewrite Hk2, Hr2, Hfk, Hfr. assert (M12 : same_meta t t2) by (by etransitivity).
  rewrite perm_third in I2. destruct (assign_leaf t2 _ y ey ey' I2) as (t3 & E3 & I3 & M3 & _);
    [by rewrite (proj1 M12)|by rewrite (proj1 M12)|].
  rewrite (M_step _ _ _ _ _ E3). eexists. split; [done|].
  split; [apply upd_stats_Inv; by rewrite perm_third|].
  etransitivity; [exact M12|]. etransitivity; [exact M3|]. by repeat split.
Qed.

Lemma borrow_left_leaf t c id k1 c1 a ea lk lr s b eb k2 c2 :
  Inv t (pnodes (plug c (pair id k1 c1 (PLeaf a (ea ++ [(lk, lr)])) s (PLeaf b eb) k2 c2))) →
  Z.of_nat (length eb) < computeCapacity (bt_config t) Leaf →
  ∃ t', borrowFromLeftLeaf id (Z.of_nat (length k1) + 1) a b t = (Ok tt, t') ∧
    Inv t' (pnodes (plug c (pair id k1 c1 (PLeaf a ea) lk (PLeaf b ((s, lr) :: eb)) k2 c2))) ∧ same_meta t t'.
Proof.
  intros HI Hcap. rewrite pair_nodes in HI. cbn [pnodes pid app] in HI. unfold borrowFromLeftLeaf.
  destruct (read_internal t _ id _ _ HI ltac:(left)) as (i & (_ & Hks & _) & _ & ->). rewrite Hks.
  destruct (read_leaf t _ a (ea ++ [(lk, lr)]) HI ltac:(right; left)) as (l & ((_ & Hkc & _) & Hk & Hr & _) & _ & ->).
  rewrite Hkc, Hk, Hr, !fmap_app, length_app, length_fmap. cbn [fmap list_fmap length fst snd].
  rewrite (step_lift _ s) by (by apply at_pred_mid).
  rewrite (step_lift _ lk) by (apply at_pred_mid; rewrite length_fmap; lia).
  rewrite (step_lift _ lr) by (apply at_pred_mid; rewrite length_fmap; lia).
  replace (Z.to_nat (Z.of_nat (length ea + 1) - 1)) with (length ea) by lia.
  replace (Z.to_nat (Z.of_nat (length k1) + 1 - 1)) with (length k1) by lia.
  destruct (lend_leaf t _ id k1 s k2 _ a _ (length ea) lk lr b eb ((s, lr) :: eb) (cons s) (cons lr) HI)
    as (t' & E & I & M); [by apply list_lookup_middle|cbn [length]; lia| |done|done|].
  - cbn. constructor; [by eapply keys_fit; [exact HI|left|set_solver]|].
    by eapply entries_keys_fit; [exact HI|right; right; left].
  - exists t'. split; [exact E|]. split; [|done]. rewrite pair_nodes. cbn [pnodes pid app].
    by rewrite verase_mid, app_nil_r in I.
Qed.

Lemma borrow_right_leaf t c id k1 c1 a ea s rk rr b eb k2 c2 :
  Inv t (pnodes (plug c (pair id k1 c1 (PLeaf a ea) s (PLeaf b ((rk, rr) :: eb)) k2 c2))) →
  Z.of_nat (length ea) < computeCapacity (bt_config t) Leaf →
  ∃ t', borrowFromRightLeaf id (Z.of_nat (length k1)) a b t = (Ok tt, t') ∧
    Inv t' (pnodes (plug c (pair id k1 c1 (PLeaf a (ea ++ [(s, rr)])) rk (PLeaf b eb) k2 c2))) ∧ same_meta t t'.
Proof.
  intros HI Hcap. rewrite pair_nodes in HI. cbn [pnodes pid app] in HI. unfold borrowFromRightLeaf.
  destruct (read_internal t _ id _ _ HI ltac:(left)) as (i & (_ & Hks & _) & _ & ->). rewrite Hks.
  destruct (read_leaf t _ b ((rk, rr) :: eb) HI ltac:(right; right; left)) as (l & (_ & Hk & Hr & _) & _ & ->).
  rewrite Hk, Hr. cbn [fmap list_fmap fst snd]. rewrite Nat2Z.id.
  rewrite (step_lift _ s) by (by apply at_mid). rewrite (step_lift _ rk) by done. rewrite (step_lift _ rr) by done.
  rewrite (Permutation_swap (SLeaf b _) (SLeaf a _)) in HI.
  destruct (lend_leaf t _ id k1 s k2 _ b _ 0 rk rr a ea (ea ++ [(s, rr)]) (λ l, l ++ [s]) (λ l, l ++ [rr]) HI)
    as (t' & E & I & M); [done|rewrite length_app; cbn [length]; lia| |by rewrite fmap_app|by rewrite fmap_app|].
  - rewrite fmap_app, Forall_app. split; [by eapply entries_keys_fit; [exact HI|right; right; left]|].
    constructor; [|constructor]. by eapply keys_fit; [exact HI|left|set_solver].
  - exists t'. split; [exact E|]. split; [|done]. rewrite pair_nodes. cbn [pnodes pid app].
    by rewrite (Permutation_swap (SLeaf b _) (SLeaf a _)).
Qed.
(** The same between internal nodes: [x] and [y] get new contents. *)
Lemma lend_internal t R id k1 s k2 cs x kx cx kx' cx' k y ky cy ky' cy' fk fc :
  Inv t (SNode id (k1 ++ s :: k2) cs :: SNode x kx cx :: SNode y ky cy :: R) →
  length cx' = Datatypes.S (length kx') → Z.of_nat (length kx') <= computeCapacity (bt_config t) Internal →
  length cy' = Datatypes.S (length ky') → Z.of_nat (length ky') <= computeCapacity (bt_config t) Internal →
  k ∈ kx → (∀ z, z ∈ kx' → z ∈ kx) → (∀ z, z ∈ ky' → z = s ∨ z ∈ ky) →
  fk ky = ky' → fc (makeIndexRef <$> cy) = makeIndexRef <$> cy' →
  ∃ t', (_ ← on_internal x (InternalNode_assignEntries kx' (makeIndexRef <$> cx'));
         _ ← on_internal id (InternalNode_setKeyAt (length k1) k);
         node ← internal y;
         _ ← on_internal y (InternalNode_assignEntries (fk (in_keys node)) (fc (in_children node)));
         modify (upd_stats tree_recordRotation)) t = (Ok tt, t') ∧
    Inv t' (SNode id (k1 ++ k :: k2) cs :: SNode x kx' cx' :: SNode y ky' cy' :: R) ∧ same_meta t t'.
Proof.
  intros HI Hl1 Hc1 Hl2 Hc2 Hk Hkx Hky Hfk Hfc.
  assert (Hfx : ∀ z, z ∈ kx → key_fits (bt_config t) z) by (intros; by eapply keys_fit; [exact HI|right; left|]).
  assert (Hfy : ∀ z, z ∈ ky → key_fits (bt_config t) z) by (intros; by eapply keys_fit; [exact HI|right; right; left|]).
  assert (Hs : key_fits (bt_config t) s) by (eapply keys_fit; [exact HI|left|set_solver]).
  rewrite Permutation_swap in HI. destruct (assign_internal t _ _ x kx' cx' HI) as (t1 & E1 & I1 & M1 & _);
    [by right; eauto|done|done|apply Forall_forall; auto|].
  rewrite (M_step _ _ _ _ _ E1). rewrite Permutation_swap in I1.
  destruct (set_separator t1 _ id k1 s k2 cs k I1) as (t2 & E2 & I2 & M2 & _); [rewrite (proj1 M1); auto|].
  rewrite (M_step _ _ _ _ _ E2).
  destruct (read_internal t2 _ y ky cy I2 ltac:(right; right; left)) as (n2 & (_ & Hk2 & Hr2 & _) & _ & ->).
  rewrite Hk2, Hr2, Hfk, Hfc. assert (M12 : same_meta t t2) by (by etransitivity).
  rewrite perm_third in I2. destruct (assign_internal t2 _ _ y ky' cy' I2) as (t3 & E3 & I3 & M3 & _);
    [by right; eauto|done|by rewrite (proj1 M12)| |].
  { rewrite (proj1 M12). apply Forall_forall. intros z [->|]%Hky; auto. }
  rewrite (M_step _ _ _ _ _ E3). eexists. split; [done|].
  split; [apply upd_stats_Inv; by rewrite perm_third|].
  etransitivity; [exact M12|]. etransitivity; [exact M3|]. by repeat split.
Qed.

(** The pages of two internal neighbours: the two, then their children's. *)
Lemma node_pair_nodes c id k1 c1 a ka ca s b kb cb k2 c2 :
  pnodes (plug c (pair id k1 c1 (PNode a ka ca) s (PNode b kb cb) k2 c2)) ≡ₚ
  SNode id (k1 ++ s :: k2) ((pid <$> c1) ++ a :: b :: (pid <$> c2)) ::
    SNode a ka (pid <$> ca) :: SNode b kb (pid <$> cb) ::
    concat (pnodes <$> (ca ++ cb)) ++ pair_rest c id c1 c2.
Proof.
  rewrite pair_nodes. cbn [pnodes pid app]. constructor. constructor. rewrite fmap_app, concat_app, <-app_assoc.
  by rewrite <-Permutation_middle.
Qed.

Lemma borrow_left_internal t c id k1 c1 a ka lk ca x s b kb cb k2 c2 :
  Inv t (pnodes (plug c (pair id k1 c1 (PNode a (ka ++ [lk]) (ca ++ [x])) s (PNode b kb cb) k2 c2))) →
  length ca = Datatypes.S (length ka) → length cb = Datatypes.S (length kb) →
  Z.of_nat (length kb) < computeCapacity (bt_config t) Internal →
  ∃ t', borrowFromLeftInternal id (Z.of_nat (length k1) + 1) a b t = (Ok tt, t') ∧
    Inv t' (pnodes (plug c (pair id k1 c1 (PNode a ka ca) lk (PNode b (s :: kb) (x :: cb)) k2 c2))) ∧ same_meta t t'.
Proof.
  intros HI Hla Hlb Hcap. rewrite node_pair_nodes in HI. unfold borrowFromLeftInternal.
  destruct (read_internal t _ id _ _ HI ltac:(left)) as (i & (_ & Hks & _) & _ & ->). rewrite Hks.
  destruct (read_internal t _ a _ _ HI ltac:(right; left)) as (n & ((Hw & Hkc & _ & Hn & _) & Hk & Hc & _ & lv & Hcf) & _ & ->).
  destruct Hw as (_ & Hcp & _). rewrite Hcf, capacity_level in Hcp. unfold capacity in Hn.
  rewrite Hk in Hn. rewrite length_app in Hn. cbn [length] in Hn.
  rewrite Hkc, Hk, Hc, !fmap_app, !length_app, !length_fmap. cbn [fmap list_fmap length].
  rewrite (step_lift _ s) by (by apply at_pred_mid).
  rewrite (step_lift _ lk) by (apply at_pred_mid; lia).
  rewrite (step_lift _ (makeIndexRef (pid x))) by (apply at_mid; rewrite !length_fmap; lia).
  replace (length ka + 1 - 1)%nat with (length ka) by lia. replace (length ca + 1 - 1)%nat with (length ca) by lia.
  rewrite take_app_length, take_app_length' by (by rewrite !length_fmap).
  replace (Z.to_nat (Z.of_nat (length k1) + 1 - 1)) with (length k1) by lia.
  destruct (lend_internal t _ id k1 s k2 _ a _ _ ka (pid <$> ca) lk b kb _ (s :: kb) (pid <$> (x :: cb))
    (cons s) (cons (makeIndexRef (pid x))) HI) as (t' & E & I & M);
    [by rewrite length_fmap|lia|cbn; rewrite length_fmap; lia|cbn [length]; lia|set_solver|set_solver|set_solver|done|done|].
  exists t'. split; [exact E|]. split; [|done]. rewrite node_pair_nodes. by rewrite <-app_assoc in I.
Qed.

Lemma borrow_right_internal t c id k1 c1 a ka ca s b rk kb x cb k2 c2 :
  Inv t (pnodes (plug c (pair id k1 c1 (PNode a ka ca) s (PNode b (rk :: kb) (x :: cb)) k2 c2))) →
  length ca = Datatypes.S (length ka) → length cb = Datatypes.S (length kb) →
  Z.of_nat (length ka) < computeCapacity (bt_config t) Internal →
  ∃ t', borrowFromRightInternal id (Z.of_nat (length k1)) a b t = (Ok tt, t') ∧
    Inv t' (pnodes (plug c (pair id k1 c1 (PNode a (ka ++ [s]) (ca ++ [x])) rk (PNode b kb cb) k2 c2))) ∧ same_meta t t'.
Proof.
  intros HI Hla Hlb Hcap. rewrite node_pair_nodes in HI. unfold borrowFromRightInternal.
  destruct (read_internal t _ id _ _ HI ltac:(left)) as (i & (_ & Hks & _) & _ & ->). rewrite Hks.
  destruct (read_internal t _ b _ _ HI ltac:(right; right; left)) as (n & ((Hw & Hkc & _ & Hn & _) & Hk & Hc & _ & lv & Hcf) & _ & ->).
  destruct Hw as (_ & Hcp & _). rewrite Hcf, capacity_level in Hcp. unfold capacity in Hn. rewrite Hk in Hn.
  cbn [length] in Hn. rewrite Hk, Hc. cbn [fmap list_fmap]. rewrite Nat2Z.id.
  rewrite (step_lift _ s) by (by apply at_mid). rewrite (step_lift _ rk) by done.
  rewrite (step_lift _ (makeIndexRef (pid x))) by done. cbn [drop].
  rewrite (Permutation_swap (SNode b _ _) (SNode a _ _)) in HI.
  destruct (lend_internal t _ id k1 s k2 _ b _ _ kb (pid <$> cb) rk a ka _ (ka ++ [s]) (pid <$> (ca ++ [x]))
    (λ l, l ++ [s]) (λ l, l ++ [makeIndexRef (pid x)]) HI) as (t' & E & I & M);
    [by rewrite length_fmap|lia|rewrite length_fmap, !length_app; cbn; lia|rewrite length_app; cbn [length]; lia
    |set_solver|set_solver|set_solver|done|by rewrite !fmap_app|].
  exists t'. split; [exact E|]. split; [|done]. rewrite node_pair_nodes.
  rewrite (Permutation_swap (SNode b _ _) (SNode a _ _)). by rewrite <-app_assoc.
Qed.
(** ** Looking for a neighbour that can lend *)

Lemma lends_spec c id ks cs i : internal_repr c id ks cs i →
  lends (in_node i) = (computeCapacity c Internal / 2 <? Z.of_nat (length ks)).
Proof.
  intros ((Hw & Hkc & _) & Hk & _ & _ & lv & Hcf). destruct Hw as (_ & Hcap & _). unfold lends, minKeyCount, capacity.
  by rewrite Hkc, Hk, Hcap, Hcf, capacity_level.
Qed.
Lemma leaf_lends_spec c id es l : leaf_repr c id es l →
  lends (lf_node l) = (computeCapacity c Leaf / 2 <? Z.of_nat (length es)).
Proof.
  intros ((Hw & Hkc & _) & Hk & _ & _ & lv & Hcf). destruct Hw as (_ & Hcap & _). unfold lends, minKeyCount, capacity.
  by rewrite Hkc, Hk, Hcap, Hcf, capacity_level, length_fmap.
Qed.
Lemma frame_page t c f p : Inv t (pnodes (plug (f :: c) p)) →
  ∃ i, bt_internals t !! f_id f = Some i ∧
    internal_repr (bt_config t) (f_id f) (f_lks f ++ f_rks f) (pid <$> (f_lcs f ++ p :: f_rcs f)) i.
Proof. intros HI. eapply Inv_node; [exact HI|]. cbn [plug foldl]. apply subtree_node. left. Qed.
Lemma uniform_node h p : uniform (Datatypes.S h) p →
  ∃ id ks cs, p = PNode id ks cs ∧ length cs = Datatypes.S (length ks) ∧ Forall (uniform h) cs.
Proof. destruct p as [|id ks cs]; [done|]. intros [? ?]. by exists id, ks, cs. Qed.
Lemma uniform_leaf p : uniform 0 p → ∃ id es, p = PLeaf id es.
Proof. destruct p as [id es|]; [|done]. by exists id, es. Qed.
Lemma snoc_cases {A} (l : list A) n : length l = Datatypes.S n → ∃ l' x, l = l' ++ [x] ∧ length l' = n.
Proof.
  destruct l as [|x l' _] using rev_ind; [done|]. rewrite length_app. cbn. intros. exists l', x. split; [done|lia].
Qed.

(** The references to the neighbours, as the code reads them. *)
Lemma neighbour_left t f p c1 A i : length (f_lcs f) = length (f_lks f) → f_lcs f = c1 ++ [A] →
  internal_repr (bt_config t) (f_id f) (f_lks f ++ f_rks f) (pid <$> (f_lcs f ++ p :: f_rcs f)) i →
  at_pred (in_children i) (Z.of_nat (length (f_lks f))) = Ok (makeIndexRef (pid A)).
Proof.
  intros Hl E (_ & _ & -> & _). rewrite <-Hl, E, <-app_assoc, !fmap_app. cbn [fmap list_fmap app].
  apply at_pred_mid. rewrite length_app, !length_fmap. cbn. lia.
Qed.
Lemma neighbour_right t f p B c2 i : length (f_lcs f) = length (f_lks f) → f_rcs f = B :: c2 →
  internal_repr (bt_config t) (f_id f) (f_lks f ++ f_rks f) (pid <$> (f_lcs f ++ p :: f_rcs f)) i →
  at_ (in_children i) (Z.to_nat (Z.of_nat (length (f_lks f)) + 1)) = Ok (makeIndexRef (pid B)).
Proof.
  intros Hl E (_ & _ & -> & _). rewrite E, (cons_middle p), app_assoc, !fmap_app. cbn [fmap list_fmap].
  apply at_mid. rewrite length_app, !length_fmap. cbn [length]. lia.
Qed.
Lemma plug_pair t c f p q : Inv t (pnodes (plug (f :: c) p)) → plug1 f p = q → Inv t (pnodes (plug c q)).
Proof. by intros HI <-. Qed.

(** [m] finds no lender, or finds [a]; either way nothing changes. *)
Definition probes (m : M BT (option Z)) t (o : option Z) : Prop :=
  ∀ B (k : option Z → M BT B), (x ← m; k x) t = k o t.

Definition probe_left_internal (parent : InternalNode) (childIndex : Z) : M BT (option Z) :=
  if 0 <? childIndex then
    ref ← lift (at_pred (in_children parent) childIndex);
    nd ← internal (pr_pageId ref);
    mret (if lends (in_node nd) then Some (pr_pageId ref) else None)
  else mret None.
Definition probe_right_internal (parent : InternalNode) (childIndex : Z) : M BT (option Z) :=
  if childIndex + 1 <=? keyCount (in_node parent) then
    ref ← lift (at_ (in_children parent) (Z.to_nat (childIndex + 1)));
    nd ← internal (pr_pageId ref);
    mret (if lends (in_node nd) then Some (pr_pageId ref) else None)
  else mret None.

Lemma probe_left_internal_spec h t c f p i : Inv t (pnodes (plug (f :: c) p)) → frame_ok (Datatypes.S h) f →
  internal_repr (bt_config t) (f_id f) (f_lks f ++ f_rks f) (pid <$> (f_lcs f ++ p :: f_rcs f)) i →
  probes (probe_left_internal i (Z.of_nat (length (f_lks f)))) t None ∨
  ∃ k1 s c1 a ka lk ca x, f_lks f = k1 ++ [s] ∧ length c1 = length k1 ∧ length ca = Datatypes.S (length ka) ∧
    uniform (Datatypes.S h) (PNode a (ka ++ [lk]) (ca ++ [x])) ∧
    plug1 f p = pair (f_id f) k1 c1 (PNode a (ka ++ [lk]) (ca ++ [x])) s p (f_rks f) (f_rcs f) ∧
    probes (probe_left_internal i (Z.of_nat (length (f_lks f)))) t (Some a).
Proof.
  intros HI Hf Hrep. unfold probe_left_internal. destruct (decide (f_lks f = [])) as [->|Hne]; [by left|].
  destruct (frame_left _ f p Hf Hne) as (k1 & s & c1 & A & E1 & E2 & Hl & HA & Hp).
  destruct (uniform_node _ _ HA) as (a & ka & ca & -> & Hla & _).
  apply (plug_pair _ _ _ _ _ HI) in Hp as HI'. rewrite pair_nodes in HI'.
  destruct (read_internal t _ a ka (pid <$> ca) HI') as (n & Hr & _ & Hrd); [right; left|].
  assert (Hstep : ∀ B (k : option Z → M BT B), (x ← (ref ← lift (at_pred (in_children i) (Z.of_nat (length (f_lks f))));
      nd ← internal (pr_pageId ref); mret (if lends (in_node nd) then Some (pr_pageId ref) else None)); k x) t =
      k (if lends (in_node n) then Some a else None) t).
  { intros B k. unfold mbind at 1, M_bind at 1. rewrite (step_lift _ _ _ _ (neighbour_left t f p _ _ i (proj1 Hf) E2 Hrep)). by rewrite Hrd. }
  rewrite (proj2 (Z.ltb_lt _ _)) by (rewrite E1, length_app; cbn; lia).
  rewrite (lends_spec _ _ _ _ _ Hr) in Hstep. destruct (Z.ltb_spec (computeCapacity (bt_config t) Internal / 2) (Z.of_nat (length ka))) as [Hlt|]; [|by left].
  right. pose proof (computeCapacity_range (bt_config t) Internal).
  destruct (snoc_cases ka (pred (length ka))) as (ka' & lk & -> & _); [lia|].
  destruct (snoc_cases ca _ Hla) as (ca' & x & -> & Hx). rewrite length_app in Hx. cbn in Hx.
  exists k1, s, c1, a, ka', lk, ca', x. split_and!; try done. lia.
Qed.
Lemma probe_right_internal_spec h t c f p i : Inv t (pnodes (plug (f :: c) p)) → frame_ok (Datatypes.S h) f →
  internal_repr (bt_config t) (f_id f) (f_lks f ++ f_rks f) (pid <$> (f_lcs f ++ p :: f_rcs f)) i →
  probes (probe_right_internal i (Z.of_nat (length (f_lks f)))) t None ∨
  ∃ s k2 b rk kb x cb c2, f_rks f = s :: k2 ∧ length c2 = length k2 ∧ length cb = Datatypes.S (length kb) ∧
    uniform (Datatypes.S h) (PNode b (rk :: kb) (x :: cb)) ∧
    plug1 f p = pair (f_id f) (f_lks f) (f_lcs f) p s (PNode b (rk :: kb) (x :: cb)) k2 c2 ∧
    probes (probe_right_internal i (Z.of_nat (length (f_lks f)))) t (Some b).
Proof.
  intros HI Hf Hrep. pose proof Hrep as ((_ & Hkc & _) & Hks & _). unfold probe_right_internal. rewrite Hkc, Hks, length_app.
  destruct (decide (f_rks f = [])) as [->|Hne]; [left; by rewrite (proj2 (Z.leb_gt _ _)) by (cbn; lia)|].
  destruct (frame_right _ f p Hf Hne) as (s & k2 & B & c2 & E1 & E2 & Hl & HB & Hp).
  destruct (uniform_node _ _ HB) as (b & kb & cb & -> & Hlb & _).
  apply (plug_pair _ _ _ _ _ HI) in Hp as HI'. rewrite pair_nodes in HI'.
  destruct (read_internal t _ b kb (pid <$> cb) HI') as (n & Hr & _ & Hrd); [right; apply elem_of_app; right; left|].
  assert (Hstep : ∀ B (k : option Z → M BT B), (x ← (ref ← lift (at_ (in_children i) (Z.to_nat (Z.of_nat (length (f_lks f)) + 1)));
      nd ← internal (pr_pageId ref); mret (if lends (in_node nd) then Some (pr_pageId ref) else None)); k x) t =
      k (if lends (in_node n) then Some b else None) t).
  { intros B k. unfold mbind at 1, M_bind at 1. rewrite (step_lift _ _ _ _ (neighbour_right t f p _ _ i (proj1 Hf) E2 Hrep)). by rewrite Hrd. }
  rewrite (proj2 (Z.leb_le _ _)) by (rewrite E1; cbn [length]; lia).
  rewrite (lends_spec _ _ _ _ _ Hr) in Hstep. destruct (Z.ltb_spec (computeCapacity (bt_config t) Internal / 2) (Z.of_nat (length kb))) as [Hlt|]; [|by left].
  right. pose proof (computeCapacity_range (bt_config t) Internal).
  destruct kb as [|rk kb]; [cbn in Hlt; lia|]. destruct cb as [|x cb]; [done|]. cbn in Hlb.
  exists s, k2, b, rk, kb, x, cb, c2. split_and!; try done. lia.
Qed.

Definition probe_left_leaf (parent : InternalNode) (childIndex : Z) : M BT (option Z) :=
  if 0 <? childIndex then
    ref ← lift (at_pred (in_children parent) childIndex);
    nd ← leaf (pr_pageId ref);
    mret (if lends (lf_node nd) then Some (pr_pageId ref) else None)
  else mret None.
Definition probe_right_leaf (parent : InternalNode) (childIndex : Z) : M BT (option Z) :=
  if childIndex + 1 <=? keyCount (in_node parent) then
    ref ← lift (at_ (in_children parent) (Z.to_nat (childIndex + 1)));
    nd ← leaf (pr_pageId ref);
    mret (if lends (lf_node nd) then Some (pr_pageId ref) else None)
  else mret None.

(** Without a lender on the left there is no left leaf, or it is at most half
    full. *)
Lemma probe_left_leaf_spec t c f p i : Inv t (pnodes (plug (f :: c) p)) → frame_ok 0 f →
  internal_repr (bt_config t) (f_id f) (f_lks f ++ f_rks f) (pid <$> (f_lcs f ++ p :: f_rcs f)) i →
  (f_lks f = [] ∧ probes (probe_left_leaf i (Z.of_nat (length (f_lks f)))) t None) ∨
  ∃ k1 s c1 a ea, f_lks f = k1 ++ [s] ∧ length c1 = length k1 ∧ Forall (uniform 0) c1 ∧
    plug1 f p = pair (f_id f) k1 c1 (PLeaf a ea) s p (f_rks f) (f_rcs f) ∧
    (Z.of_nat (length ea) <= computeCapacity (bt_config t) Leaf / 2 ∧
       probes (probe_left_leaf i (Z.of_nat (length (f_lks f)))) t None ∨
     ∃ ea' lk lr, ea = ea' ++ [(lk, lr)] ∧
       probes (probe_left_leaf i (Z.of_nat (length (f_lks f)))) t (Some a)).
Proof.
  intros HI Hf Hrep. unfold probe_left_leaf. destruct (decide (f_lks f = [])) as [->|Hne]; [by left|right].
  destruct (frame_left _ f p Hf Hne) as (k1 & s & c1 & A & E1 & E2 & Hl & HA & Hp).
  destruct (uniform_leaf _ HA) as (a & ea & ->).
  exists k1, s, c1, a, ea. do 2 (split; [done|]). split; [destruct Hf as (_ & _ & Hf & _); rewrite E2 in Hf; by apply Forall_app in Hf as [? _]|].
  split; [done|]. apply (plug_pair _ _ _ _ _ HI) in Hp as HI'. rewrite pair_nodes in HI'.
  destruct (read_leaf t _ a ea HI') as (n & Hr & _ & Hrd); [right; left|].
  assert (Hstep : ∀ B (k : option Z → M BT B), (x ← (ref ← lift (at_pred (in_children i) (Z.of_nat (length (f_lks f))));
      nd ← leaf (pr_pageId ref); mret (if lends (lf_node nd) then Some (pr_pageId ref) else None)); k x) t =
      k (if lends (lf_node n) then Some a else None) t).
  { intros B k. unfold mbind at 1, M_bind at 1. rewrite (step_lift _ _ _ _ (neighbour_left t f p _ _ i (proj1 Hf) E2 Hrep)). by rewrite Hrd. }
  rewrite (proj2 (Z.ltb_lt _ _)) by (rewrite E1, length_app; cbn; lia).
  rewrite (leaf_lends_spec _ _ _ _ Hr) in Hstep. destruct (Z.ltb_spec (computeCapacity (bt_config t) Leaf / 2) (Z.of_nat (length ea))) as [Hlt|]; [|by left].
  right. pose proof (computeCapacity_range (bt_config t) Leaf).
  destruct (snoc_cases ea (pred (length ea))) as (ea' & [lk lr] & -> & _); [lia|]. by exists ea', lk, lr.
Qed.
Lemma probe_right_leaf_spec t c f p i : Inv t (pnodes (plug (f :: c) p)) → frame_ok 0 f →
  internal_repr (bt_config t) (f_id f) (f_lks f ++ f_rks f) (pid <$> (f_lcs f ++ p :: f_rcs f)) i →
  (f_rks f = [] ∧ probes (probe_right_leaf i (Z.of_nat (length (f_lks f)))) t None) ∨
  ∃ s k2 b eb c2, f_rks f = s :: k2 ∧ length c2 = length k2 ∧ Forall (uniform 0) c2 ∧
    plug1 f p = pair (f_id f) (f_lks f) (f_lcs f) p s (PLeaf b eb) k2 c2 ∧
    (Z.of_nat (length eb) <= computeCapacity (bt_config t) Leaf / 2 ∧
       probes (probe_right_leaf i (Z.of_nat (length (f_lks f)))) t None ∨
     ∃ rk rr eb', eb = (rk, rr) :: eb' ∧
       probes (probe_right_leaf i (Z.of_nat (length (f_lks f)))) t (Some b)).
Proof.
  intros HI Hf Hrep. pose proof Hrep as ((_ & Hkc & _) & Hks & _). unfold probe_right_leaf. rewrite Hkc, Hks, length_app.
  destruct (decide (f_rks f = [])) as [->|Hne]; [left; by rewrite (proj2 (Z.leb_gt _ _)) by (cbn; lia)|right].
  destruct (frame_right _ f p Hf Hne) as (s & k2 & B & c2 & E1 & E2 & Hl & HB & Hp).
  destruct (uniform_leaf _ HB) as (b & eb & ->).
  exists s, k2, b, eb, c2. do 2 (split; [done|]). split; [destruct Hf as (_ & _ & _ & Hf); rewrite E2 in Hf; by apply Forall_cons in Hf as [_ ?]|].
  split; [done|]. apply (plug_pair _ _ _ _ _ HI) in Hp as HI'. rewrite pair_nodes in HI'.
  destruct (read_leaf t _ b eb HI') as (n & Hr & _ & Hrd); [right; apply elem_of_app; right; left|].
  assert (Hstep : ∀ B (k : option Z → M BT B), (x ← (ref ← lift (at_ (in_children i) (Z.to_nat (Z.of_nat (length (f_lks f)) + 1)));
      nd ← leaf (pr_pageId ref); mret (if lends (lf_node nd) then Some (pr_pageId ref) else None)); k x) t =
      k (if lends (lf_node n) then Some b else None) t).
  { intros B k. unfold mbind at 1, M_bind at 1. rewrite (step_lift _ _ _ _ (neighbour_right t f p _ _ i (proj1 Hf) E2 Hrep)). by rewrite Hrd. }
  rewrite (proj2 (Z.leb_le _ _)) by (rewrite E1; cbn [length]; lia).
  rewrite (leaf_lends_spec _ _ _ _ Hr) in Hstep. destruct (Z.ltb_spec (computeCapacity (bt_config t) Leaf / 2) (Z.of_nat (length eb))) as [Hlt|]; [|by left].
  right. pose proof (computeCapacity_range (bt_config t) Leaf).
  destruct eb as [|[rk rr] eb']; [cbn in Hlt; lia|]. by exists rk, rr, eb'.
Qed.
(** ** Internal nodes *)

(** How an operation ends when internal nodes would have to be merged: the merge
    is refused, or there is no neighbour to merge with. *)
Definition fix_error (o : outcome unit) : Prop :=
  o = invalidArgument "InternalNode: child count mismatch" ∨ o = Throw "std::out_of_range".

Lemma holds_moved t t' p p' h : holds t p h → Inv t' (pnodes p') → uniform h p' → pid p' = pid p →
  same_meta t t' → inorder p' `sublist_of` inorder p → holds t' p' h.
Proof.
  intros [_ _ Hr Hh Hs] HI Hu Hp (_ & M2 & _ & M4) Hsub. split; [done|done|congruence|congruence|].
  by eapply sorted_sublist.
Qed.

Lemma pair_merge_site t c id k1 c1 a ka ca s b kb cb k2 c2 :
  Inv t (pnodes (plug c (pair id k1 c1 (PNode a ka ca) s (PNode b kb cb) k2 c2))) → length c1 = length k1 →
  merge_site t id (Z.of_nat (length k1)).
Proof.
  intros HI Hl. rewrite node_pair_nodes in HI.
  destruct (Inv_node t _ id _ _ HI ltac:(left)) as (i & Hi & _ & Hk & Hc & _).
  destruct (Inv_node t _ a _ _ HI ltac:(right; left)) as (x & Hx & Hwx & _).
  destruct (Inv_node t _ b _ _ HI ltac:(right; right; left)) as (y & Hy & Hwy & _).
  exists i, (makeIndexRef a), (makeIndexRef b), x, y, s. rewrite Hk, Hc, fmap_app. cbn [fmap list_fmap].
  split_and!; try done.
  - rewrite Nat2Z.id. apply list_lookup_middle. by rewrite !length_fmap.
  - rewrite (cons_middle (makeIndexRef a)), app_assoc. apply list_lookup_middle.
    rewrite length_app, !length_fmap. cbn. lia.
  - rewrite Nat2Z.id. by apply list_lookup_middle.
Qed.

(** No neighbour at all: the merge asks for a child that is not there. *)
Lemma lone_child t id p i : internal_repr (bt_config t) id [] (pid <$> [p]) i → bt_internals t !! id = Some i →
  ∀ fixUp, mergeInternals id 0 fixUp t = (Throw "std::out_of_range", t) ∧
           mergeLeaves id 0 fixUp t = (Throw "std::out_of_range", t).
Proof.
  intros (_ & _ & Hc & _) Hi fixUp. unfold mergeInternals, mergeLeaves.
  assert (Hrd : ∀ B (f : InternalNode → M BT B), (x ← internal id; f x) t = f i t).
  { intros B f. by rewrite (M_step _ _ t i t) by (unfold internal; by rewrite Hi). }
  rewrite !Hrd, Hc. cbn [fmap list_fmap]. change (Z.to_nat 0) with 0%nat. change (Z.to_nat (0 + 1)) with 1%nat.
  by rewrite !(step_lift _ (makeIndexRef (pid p))) by done.
Qed.

Lemma fixInternal_unfold f c id : fixInternalUnderflow (path_of (f :: c)) id =
  (parent ← internal (f_id f);
   fromLeft ← probe_left_internal parent (Z.of_nat (length (f_lks f)));
   match fromLeft with
   | Some leftId => borrowFromLeftInternal (f_id f) (Z.of_nat (length (f_lks f))) leftId id
   | None =>
       fromRight ← probe_right_internal parent (Z.of_nat (length (f_lks f)));
       match fromRight with
       | Some rightId => borrowFromRightInternal (f_id f) (Z.of_nat (length (f_lks f))) id rightId
       | None =>
           if 0 <? Z.of_nat (length (f_lks f))
           then mergeInternalLeft (f_id f) (Z.of_nat (length (f_lks f))) (fixInternalUnderflow (path_of c) (f_id f))
           else mergeInternalRight (f_id f) (Z.of_nat (length (f_lks f))) (fixInternalUnderflow (path_of c) (f_id f))
       end
   end : M BT unit).
Proof. done. Qed.

(** Without a lender the merge is refused, or there is nothing to merge with. *)
Lemma merge_internal_stuck h t f c P i fixUp : Inv t (pnodes (plug (f :: c) P)) → uniform (Datatypes.S h) P →
  frame_ok (Datatypes.S h) f → bt_internals t !! f_id f = Some i →
  internal_repr (bt_config t) (f_id f) (f_lks f ++ f_rks f) (pid <$> (f_lcs f ++ P :: f_rcs f)) i →
  ∃ o, (if 0 <? Z.of_nat (length (f_lks f)) then mergeInternalLeft (f_id f) (Z.of_nat (length (f_lks f))) fixUp
        else mergeInternalRight (f_id f) (Z.of_nat (length (f_lks f))) fixUp) t = (o, t) ∧ fix_error o.
Proof.
  intros HI HP Hf Hi Hr. destruct (uniform_node _ _ HP) as (a & ka & ca & -> & _ & _).
  destruct (decide (f_lks f = [])) as [E|Hne].
  - rewrite E. cbn [length]. change (0 <? Z.of_nat 0) with false. unfold mergeInternalRight.
    destruct (decide (f_rks f = [])) as [E2|Hne2].
    + destruct Hf as (H1 & H2 & _). rewrite E in *. rewrite E2 in *.
      destruct (f_lcs f); [|done]. destruct (f_rcs f); [|done].
      eexists. split; [exact (proj1 (lone_child t _ _ i Hr Hi fixUp))|by right].
    + destruct (frame_right _ f (PNode a ka ca) Hf Hne2) as (s & k2 & B & c2 & _ & _ & _ & HB & Hp).
      destruct (uniform_node _ _ HB) as (b & kb & cb & -> & _ & _).
      eexists. split; [|by left]. apply merge_refused. replace (Z.of_nat 0) with (Z.of_nat (length (f_lks f))) by (by rewrite E).
      eapply pair_merge_site; [by eapply plug_pair|by destruct Hf].
  - destruct (frame_left _ f (PNode a ka ca) Hf Hne) as (k1 & s & c1 & B & E & _ & Hl & HB & Hp).
    destruct (uniform_node _ _ HB) as (b & kb & cb & -> & _ & _).
    rewrite (proj2 (Z.ltb_lt _ _)) by (rewrite E, length_app; cbn; lia). unfold mergeInternalLeft.
    replace (Z.of_nat (length (f_lks f)) - 1) with (Z.of_nat (length k1)) by (rewrite E, length_app; cbn; lia).
    eexists. split; [|by left]. apply merge_refused. eapply pair_merge_site; [by eapply plug_pair|done].
Qed.

(** [fixInternalUnderflow] borrows, or reports an error and changes nothing; the
    keys and the entries stay either way. *)
Lemma fix_internal h t c id ks cs : holds t (plug c (PNode id ks cs)) (Datatypes.S h + length c) →
  uniform (Datatypes.S h) (PNode id ks cs) → ctx_ok (Datatypes.S h) c →
  Z.of_nat (length ks) < computeCapacity (bt_config t) Internal →
  ∃ o t' p', fixInternalUnderflow (path_of c) id t = (o, t') ∧ (o = Ok tt ∨ fix_error o) ∧
    holds t' p' (Datatypes.S h + length c) ∧ inorder p' = inorder (plug c (PNode id ks cs)) ∧
    entries p' ≡ₚ entries (plug c (PNode id ks cs)) ∧ same_meta t t'.
Proof.
  intros Hh HP Hc Hcap. pose proof (h_inv _ _ _ Hh) as HI. destruct c as [|f c].
  { exists (Ok tt), t, (PNode id ks cs). split_and!; try done. by left. }
  destruct Hc as [Hf Hc]. destruct (frame_page t c f _ HI) as (i & Hi & Hr).
  rewrite fixInternal_unfold. rewrite (M_step _ _ t i t) by (unfold internal; by rewrite Hi).
  pose proof HP as [HlP HuP].
  assert (Hdone : ∀ t' p', Inv t' (pnodes (plug c p')) → uniform (Datatypes.S (Datatypes.S h)) p' →
    pid p' = f_id f → same_meta t t' → inorder (plug c p') = inorder (plug (f :: c) (PNode id ks cs)) →
    holds t' (plug c p') (Datatypes.S h + length (f :: c))).
  { intros t' p' I U E Mt Ein. eapply (holds_moved t t'); [exact Hh|done| |by apply (pid_plug c p' (plug1 f _))|done|by rewrite Ein].
    cbn [length]. rewrite <-plus_n_Sm. by apply (uniform_plug (Datatypes.S (Datatypes.S h))). }
  pose proof Hf as (Hf1 & Hf2 & _). pose proof (h_uniform _ _ _ Hh) as HU.
  assert (HU1 : uniform (Datatypes.S (Datatypes.S h)) (plug1 f (PNode id ks cs))).
  { by apply plug1_uniform. }
  destruct (probe_left_internal_spec h t c f _ i HI Hf Hr) as [->|(k1 & s & c1 & a & ka & lk & ca & x & E1 & Hl & Hla & HA & Hp & ->)].
  2:{ apply (plug_pair _ _ _ _ _ HI) in Hp as HI'. replace (Z.of_nat (length (f_lks f))) with (Z.of_nat (length k1) + 1) by (rewrite E1, length_app; cbn; lia).
      destruct (borrow_left_internal t c _ k1 c1 a ka lk ca x s id ks cs _ _ HI' Hla HlP Hcap) as (t' & -> & I & Mt).
      destruct (rotation h c (f_id f) k1 c1 a ka lk ca x s id ks cs (f_rks f) (f_rcs f)) as (R1 & R2 & R3); try done.
      cbn [plug foldl]. fold (plug c (plug1 f (PNode id ks cs))). rewrite Hp in HU1 |- *.
      exists (Ok tt), t', (plug c (pair (f_id f) k1 c1 (PNode a ka ca) lk (PNode id (s :: ks) (x :: cs)) (f_rks f) (f_rcs f))).
      split; [done|]. split; [by left|]. split; [|split; [by rewrite R2|split; [by rewrite R3|done]]].
      apply Hdone; [exact I|by apply R1|done|done|]. cbn [plug foldl]. fold (plug c (plug1 f (PNode id ks cs))). by rewrite Hp, R2. }
  destruct (probe_right_internal_spec h t c f _ i HI Hf Hr) as [->|(s & k2 & b & rk & kb & x & cb & c2 & E1 & Hl & Hlb & HB & Hp & ->)].
  2:{ apply (plug_pair _ _ _ _ _ HI) in Hp as HI'.
      destruct (borrow_right_internal t c _ (f_lks f) (f_lcs f) id ks cs s b rk kb x cb _ _ HI' HlP Hlb Hcap) as (t' & -> & I & Mt).
      destruct (rotation h c (f_id f) (f_lks f) (f_lcs f) id ks s cs x rk b kb cb k2 c2) as (R1 & R2 & R3); try done.
      cbn [plug foldl]. fold (plug c (plug1 f (PNode id ks cs))). rewrite Hp in HU1 |- *.
      exists (Ok tt), t', (plug c (pair (f_id f) (f_lks f) (f_lcs f) (PNode id (ks ++ [s]) (cs ++ [x])) rk (PNode b kb cb) k2 c2)).
      split; [done|]. split; [by left|]. split; [|split; [by rewrite R2|split; [by rewrite R3|done]]].
      apply Hdone; [exact I|by apply R1|done|done|]. cbn [plug foldl]. fold (plug c (plug1 f (PNode id ks cs))). by rewrite Hp, R2. }
  destruct (merge_internal_stuck h t f c _ i (fixInternalUnderflow (path_of c) (f_id f)) HI HP Hf Hi Hr) as (o & -> & Ho).
  exists o, t, (plug (f :: c) (PNode id ks cs)). split_and!; try done. by right.
Qed.
(** ** Merging leaves *)

Lemma release_internal t N id ks cs : Inv t (SNode id ks cs :: N) →
  ∃ t', releaseNode id t = (Ok tt, t') ∧ Inv t' N ∧ same_meta t t'.
Proof.
  intros HI. unfold releaseNode.
  destruct (wal_call_ok t _ (onPageDeallocate id) HI) as (t1 & Hw & HI1 & Hm & _); [naive_solver|].
  rewrite (M_step _ _ t tt t1) by (unfold ignore; by rewrite Hw).
  pose proof (Inv_internal_not_leaf t1 _ id ks cs HI1 ltac:(left)) as Hnl.
  pose proof HI1 as [H1 H2 H3 H4 H5 H6 H7 H8]. pose proof (Inv_disjoint _ _ _ HI1) as Hdis.
  apply Forall_cons in H1 as [(i & Hi & _) H1].
  unfold modify, isLeaf, isInternal. rewrite Hnl, Hi, bool_decide_false, bool_decide_true by (done || by intros []).
  eexists. split; [done|]. pose proof (ps_free_spec (bt_space t1) id H5) as Hf. cbn [set_internals bt_space].
  destruct (ps_freePage id (bt_space t1)) as [b sp]. destruct Hf as (Hok & _ & Hu).
  split; [|etransitivity; [exact Hm|by repeat split]].
  cbn in H2. apply NoDup_cons in H2 as [Hni H2]. split; cbn; try done.
  - rewrite Forall_forall in *. intros s Hs. specialize (H1 s Hs). specialize (Hdis s Hs). cbn in Hdis.
    destruct s as [j es'|j ks' cs'|j]; [exact H1| |]; destruct H1 as (l & Hlk & Hr); exists l;
      cbn in *; by rewrite lookup_delete_ne.
  - intros j Hj. destruct (H3 j Hj) as [es Hin]. apply elem_of_cons in Hin as [Hin|Hin]; [done|eauto].
  - intros j [x Hj]. apply lookup_delete_Some in Hj as [Hne Hj].
    destruct (H4 j ltac:(eauto)) as [Hin|(ks' & cs' & Hin)]; (apply elem_of_cons in Hin as [Hin|Hin]; [congruence|]); eauto.
  - intros j. rewrite Hu, H6. cbn. rewrite elem_of_cons. pose proof (H7 j) as Hj. cbn in Hj. set_solver.
  - intros j Hj Hin. apply (H7 j Hj). by right.
Qed.

(** The root of a tree with a context is not the page in its hole. *)
Lemma inner_not_root t f c p : Inv t (pnodes (plug (f :: c) p)) → pid (plug (f :: c) p) ≠ pid p.
Proof.
  intros HI E. pose proof (inv_nodup _ _ HI) as Hnd. rewrite plug_nodes, fmap_app in Hnd.
  apply NoDup_app in Hnd as (_ & Hd & _). apply (Hd (pid p)); [apply pid_nodes|]. rewrite <-E.
  clear E Hd HI. revert f p. induction c as [|g c IH]; intros f p; [left|].
  specialize (IH g (plug1 f p)). cbn [plug foldl ctx_nodes] in *. rewrite fmap_cons, elem_of_cons. right.
  rewrite !fmap_app, !elem_of_app. right. right. exact IH.
Qed.

(** What follows once the separator is gone and the page released. *)
Definition merge_tail (parentId : Z) (fixUp : M BT unit) : M BT unit :=
  parent ← internal parentId;
  t ← get;
  let isRoot := ip_id (page_ (in_node parent)) =? bt_rootId t in
  if isRoot && (keyCount (in_node parent) =? 0) then
    newRoot ← lift (at_ (in_children parent) 0);
    _ ← releaseNode (ip_id (page_ (in_node parent)));
    modify (λ t, let t := setRoot (pr_pageId newRoot) t in
                 if 0 <? bt_height t then setHeight (bt_height t - 1) t else t)
  else if isUnderfull (keyCount (in_node parent)) (capacity (in_node parent)) isRoot then fixUp
  else mret tt.

Lemma merge_steps t c id k1 c1 a ea s b eb k2 c2 :
  Inv t (pnodes (plug c (pair id k1 c1 (PLeaf a ea) s (PLeaf b eb) k2 c2))) → length c1 = length k1 →
  Z.of_nat (length ea + length eb) <= computeCapacity (bt_config t) Leaf →
  ∃ t', Inv t' (pnodes (plug c (PNode id (k1 ++ k2) (c1 ++ PLeaf a (ea ++ eb) :: c2)))) ∧ same_meta t t' ∧
    ∀ fixUp, mergeLeaves id (Z.of_nat (length k1)) fixUp t = merge_tail id fixUp t'.
Proof.
  intros HI Hl Hcap. rewrite pair_nodes in HI. cbn [pnodes pid app] in HI.
  destruct (read_internal t _ id _ _ HI ltac:(left)) as (i & (_ & _ & Hc & _) & _ & Ri).
  destruct (read_leaf t _ a ea HI ltac:(right; left)) as (la & (_ & Hka & Hra & Hia & _) & _ & Ra).
  destruct (read_leaf t _ b eb HI ltac:(right; right; left)) as (lb & ((_ & Hkc & _) & Hkb & Hrb & Hib & _) & _ & Rb).
  rewrite Hkb, length_fmap in Hkc. rewrite fmap_app in Hc. cbn [fmap list_fmap] in Hc.
  assert (Hcol : ∀ {A} (l : list A), length l = length eb → collect (Z.of_nat (length eb)) l = Ok l).
  { intros A l E. unfold collect. by rewrite E, Z.ltb_irrefl, Nat2Z.id, take_ge by lia. }
  pose proof (entries_keys_fit t _ a _ HI ltac:(right; left)) as Fa.
  pose proof (entries_keys_fit t _ b _ HI ltac:(right; right; left)) as Fb.
  rewrite Permutation_swap in HI. destruct (assign_leaf t _ a ea (ea ++ eb) HI) as (t1 & E1 & I1 & M1 & _);
    [by rewrite length_app|rewrite fmap_app; by apply Forall_app|].
  rewrite Permutation_swap in I1. destruct (drop_separator t1 _ id k1 s k2 _ a b _ I1) as (t2 & E2 & I2 & M2 & _);
    [by rewrite length_fmap|].
  destruct (wal_call_ok t2 _ (onNodeMerge a b) I2) as (t3 & E3 & I3 & M3 & _); [naive_solver|].
  rewrite perm_third in I3. destruct (release_leaf t3 _ b eb I3) as (t4 & E4 & I4 & M4 & _).
  exists (upd_stats tree_recordMerge t4). split; [|split].
  - apply upd_stats_Inv. rewrite plug_nodes. eapply (Inv_perm t4); [|exact I4]. cbn [pnodes pid app].
    rewrite !fmap_app, !fmap_cons, concat_app. cbn [concat pnodes app pid]. constructor. unfold pair_rest.
    rewrite <-app_assoc. cbn [app]. by rewrite <-Permutation_middle.
  - etransitivity; [exact M1|]. etransitivity; [exact M2|]. etransitivity; [exact M3|]. etransitivity; [exact M4|]. by repeat split.
  - intros fixUp. unfold mergeLeaves. rewrite Ri, Hc, Nat2Z.id.
    rewrite (step_lift _ (makeIndexRef a)) by (apply at_mid; by rewrite !length_fmap).
    rewrite (step_lift _ (makeIndexRef b)).
    2:{ rewrite (cons_middle (makeIndexRef a)), app_assoc. apply at_mid. rewrite length_app, !length_fmap. cbn. lia. }
    cbn [pr_pageId makeIndexRef PageReference_make]. rewrite Ra, Rb, Hka, Hra, Hkb, Hrb, Hkc, Hia, Hib.
    rewrite (step_lift _ eb.*1) by (apply Hcol, length_fmap). rewrite (step_lift _ eb.*2) by (apply Hcol, length_fmap).
    rewrite <-!fmap_app, (M_step _ _ _ _ _ E1). unfold finish_merge. rewrite Nat2Z.id, (M_step _ _ _ _ _ E2).
    rewrite (M_step _ _ _ _ _ E3), (M_step _ _ _ _ _ E4). done.
Qed.
(** An emptied root gives way to its only child. *)
Lemma collapse t id q h : holds t (PNode id [] [q]) (Datatypes.S h) →
  ∃ t', merge_tail id (mret tt) t = (Ok tt, t') ∧ holds t' q h ∧ bt_config t' = bt_config t ∧ bt_size t' = bt_size t.
Proof.
  intros Hh. pose proof Hh as [HI HU Hr Hhe Hs]. cbn [pnodes fmap list_fmap concat] in HI. rewrite app_nil_r in HI.
  destruct (read_internal t _ id _ _ HI ltac:(left)) as (i & ((_ & Hkc & _) & Hk & Hc & Hid & _) & _ & Ri).
  unfold merge_tail. rewrite Ri, (M_step get _ t t t) by done. rewrite Hid, Hkc, Hk, Hr. cbn [pid length].
  rewrite Z.eqb_refl. cbn [andb]. change (Z.of_nat 0 =? 0) with true. cbv iota. rewrite Hc. cbn [fmap list_fmap].
  rewrite (step_lift _ (makeIndexRef (pid q))) by done.
  destruct (release_internal t _ id [] [pid q] HI) as (t1 & E1 & I1 & M1 & M2 & M3 & M4). rewrite (M_step _ _ _ _ _ E1).
  pose proof (height_pages t _ _ Hh) as Hp. unfold kMaxPageId, kMaxPageCount in Hp.
  rewrite u32_small in Hhe by lia. eexists. split; [done|]. cbn [setRoot bt_height]. rewrite M4, Hhe.
  rewrite (proj2 (Z.ltb_lt _ _)) by lia. destruct HU as [_ HU]. apply Forall_cons in HU as [Hq _].
  split; [|by rewrite <-M1, <-M3]. split; cbn.
  - by apply (Inv_ext t1).
  - done.
  - done.
  - rewrite u32_small; lia.
  - cbn in Hs. by rewrite app_nil_r in Hs.
Qed.

Lemma merge_tail_spec t c id ks cs : holds t (plug c (PNode id ks cs)) (1 + length c) →
  uniform 1 (PNode id ks cs) → ctx_ok 1 c →
  ∃ o t' p' h', merge_tail id (fixInternalUnderflow (path_of c) id) t = (o, t') ∧ (o = Ok tt ∨ fix_error o) ∧
    holds t' p' h' ∧ inorder p' = inorder (plug c (PNode id ks cs)) ∧
    entries p' ≡ₚ entries (plug c (PNode id ks cs)) ∧ bt_config t' = bt_config t ∧ bt_size t' = bt_size t.
Proof.
  intros Hh HU Hc. pose proof (h_inv _ _ _ Hh) as HI. pose proof (h_root _ _ _ Hh) as Hroot.
  destruct (read_internal t _ id ks (pid <$> cs) HI) as (i & ((Hw & Hkc & _) & Hk & Hch & Hid & lv & Hcf) & _ & Ri);
    [apply subtree_node; left|].
  destruct c as [|f c].
  - destruct ks as [|k ks].
    + destruct HU as [Hl HU]. destruct cs as [|q [|? ?]]; [done| |done].
      destruct (collapse t id q 0 Hh) as (t' & E & Hq & E1 & E2). exists (Ok tt), t', q, 0%nat.
      split; [|split_and!; try done; [by left|cbn; by rewrite app_nil_r|cbn [plug foldl]; rewrite (entries_node id); cbn; by rewrite app_nil_r]].
      rewrite <-E. unfold merge_tail. rewrite !Ri, !(M_step get _ t t t) by done. by rewrite Hid, Hroot, Hkc, Hk, Z.eqb_refl.
    + exists (Ok tt), t, (PNode id (k :: ks) cs), 1%nat. split; [|split_and!; try done; by left].
      unfold merge_tail. rewrite Ri, (M_step get _ t t t) by done. by rewrite Hid, Hroot, Hkc, Hk, Z.eqb_refl.
  - assert (Hnr : (id =? bt_rootId t) = false).
    { apply Z.eqb_neq. rewrite Hroot. intros E. by apply (inner_not_root t f c (PNode id ks cs) HI). }
    unfold merge_tail. rewrite Ri, (M_step get _ t t t) by done. rewrite Hid, Hnr. cbn [andb].
    unfold isUnderfull, minKeyCount, capacity. destruct Hw as (_ & Hcap & _). rewrite Hkc, Hk, Hcap, Hcf, capacity_level.
    cbn [negb andb]. pose proof (computeCapacity_range (bt_config t) Internal).
    destruct (Z.ltb_spec (Z.of_nat (length ks)) (computeCapacity (bt_config t) Internal / 2)) as [Hlt|Hge].
    + destruct (fix_internal 0 t (f :: c) id ks cs Hh HU Hc ltac:(lia)) as (o & t' & p' & E & Ho & Hh' & Ei & Ee & M1 & _ & M3 & _).
      exists o, t', p', (1 + length (f :: c))%nat. by split_and!.
    + exists (Ok tt), t, (plug (f :: c) (PNode id ks cs)), (1 + length (f :: c))%nat. split_and!; try done. by left.
Qed.

(** Merging two leaves keeps the entries and drops the separator. *)
Lemma merge_leaves t c id k1 c1 a ea s b eb k2 c2 :
  holds t (plug c (pair id k1 c1 (PLeaf a ea) s (PLeaf b eb) k2 c2)) (1 + length c) → ctx_ok 1 c →
  length c1 = length k1 → length c2 = length k2 → Forall (uniform 0) c1 → Forall (uniform 0) c2 →
  Z.of_nat (length ea + length eb) <= computeCapacity (bt_config t) Leaf →
  ∃ o t' p' h', mergeLeaves id (Z.of_nat (length k1)) (fixInternalUnderflow (path_of c) id) t = (o, t') ∧
    (o = Ok tt ∨ fix_error o) ∧ holds t' p' h' ∧
    inorder p' `sublist_of` inorder (plug c (pair id k1 c1 (PLeaf a ea) s (PLeaf b eb) k2 c2)) ∧
    entries p' ≡ₚ entries (plug c (pair id k1 c1 (PLeaf a ea) s (PLeaf b eb) k2 c2)) ∧
    bt_config t' = bt_config t ∧ bt_size t' = bt_size t.
Proof.
  intros Hh Hc Hl1 Hl2 Hu1 Hu2 Hcap. set (p := plug c _) in *.
  destruct (merge_steps t c id k1 c1 a ea s b eb k2 c2 (h_inv _ _ _ Hh) Hl1 Hcap) as (t1 & I1 & M1 & E1).
  set (g := mkFrame id k1 c1 k2 c2). assert (Hg : frame_ok 0 g) by by split_and!.
  set (q := PNode id (k1 ++ k2) (c1 ++ PLeaf a (ea ++ eb) :: c2)) in *. change q with (plug1 g (PLeaf a (ea ++ eb))) in *.
  assert (Hq : uniform 1 (plug1 g (PLeaf a (ea ++ eb)))) by by apply plug1_uniform.
  assert (Hsub : inorder (plug c (plug1 g (PLeaf a (ea ++ eb)))) `sublist_of` inorder p).
  { unfold p. rewrite (pair_inorder 0) by done. rewrite (plug_inorder 1), (plug1_inorder 0) by done. cbn [inorder].
    rewrite fmap_app, <-!app_assoc. cbn [g f_lks f_lcs f_rks f_rcs]. do 3 (apply sublist_app; [done|]).
    cbn [app]. by apply sublist_cons. }
  assert (Hent : entries (plug c (plug1 g (PLeaf a (ea ++ eb)))) ≡ₚ entries p).
  { unfold p. rewrite pair_entries, plug_entries. unfold plug1. rewrite !entries_leaf, entries_node.
    unfold pair_rest. rewrite !stored_entries_app, !stored_concat. cbn [g f_lks f_lcs f_rks f_rcs f_id pid].
    rewrite fmap_app, fmap_cons, concat_app. cbn [concat]. rewrite entries_leaf, <-!app_assoc.
    rewrite (Permutation_app_swap_app (concat _) ea). f_equiv. by rewrite (Permutation_app_swap_app (concat _) eb). }
  assert (Hh1 : holds t1 (plug c (plug1 g (PLeaf a (ea ++ eb)))) (1 + length c)).
  { eapply (holds_moved t t1); [exact Hh|done|by apply (uniform_plug 1)|by apply pid_plug|done|done]. }
  destruct (merge_tail_spec t1 c id _ _ Hh1 Hq Hc) as (o & t' & p' & h' & E & Ho & Hh' & Ei & Ee & C1 & C2).
  exists o, t', p', h'. rewrite E1. split; [done|]. split; [done|]. split; [done|]. split; [by rewrite Ei|].
  split; [by rewrite Ee|]. destruct M1 as (M1 & _ & M3 & _). by rewrite C1, C2.
Qed.

(** ** Underfull leaves *)

(** What becomes of the keys and entries of [p]: all entries stay, or one entry
    moves from the key [lent], which becomes a separator, to the key [sep], which
    was one. *)
Definition settled (p p' : ptree) (o : outcome unit) : Prop :=
  ((o = Ok tt ∨ fix_error o) ∧ inorder p' `sublist_of` inorder p ∧ entries p' ≡ₚ entries p) ∨
  (o = Ok tt ∧ inorder p' = inorder p ∧ ∃ lent sep r E, lent ≠ sep ∧
     entries p ≡ₚ (lent, r) :: E ∧ entries p' ≡ₚ (sep, r) :: E).

Lemma fixLeaf_unfold f c id : fixLeafUnderflow (path_of (f :: c)) id =
  (parent ← internal (f_id f);
   fromLeft ← probe_left_leaf parent (Z.of_nat (length (f_lks f)));
   match fromLeft with
   | Some leftId => borrowFromLeftLeaf (f_id f) (Z.of_nat (length (f_lks f))) leftId id
   | None =>
       fromRight ← probe_right_leaf parent (Z.of_nat (length (f_lks f)));
       match fromRight with
       | Some rightId => borrowFromRightLeaf (f_id f) (Z.of_nat (length (f_lks f))) id rightId
       | None =>
           if 0 <? Z.of_nat (length (f_lks f))
           then mergeLeafLeft (f_id f) (Z.of_nat (length (f_lks f))) (fixInternalUnderflow (path_of c) (f_id f))
           else mergeLeafRight (f_id f) (Z.of_nat (length (f_lks f))) (fixInternalUnderflow (path_of c) (f_id f))
       end
   end : M BT unit).
Proof. done. Qed.

(** After a borrow: the new parent [q] in place of the old one. *)
Lemma borrowed t t' c p q : holds t (plug c p) (1 + length c) → ctx_ok 1 c → Inv t' (pnodes (plug c q)) →
  uniform 1 q → pid q = pid p → same_meta t t' → inorder (plug c q) = inorder (plug c p) →
  (sorted_lt (inorder (plug c p)) → ∃ lent sep r E, lent ≠ sep ∧
     entries (plug c p) ≡ₚ (lent, r) :: E ∧ entries (plug c q) ≡ₚ (sep, r) :: E) →
  ∃ p' h', holds t' p' h' ∧ bt_config t' = bt_config t ∧ bt_size t' = bt_size t ∧ settled (plug c p) p' (Ok tt).
Proof.
  intros Hh Hc HI Hu Hp M Hio Hent. exists (plug c q), (1 + length c)%nat. split; [|split; [apply M|split; [apply M|]]].
  - eapply (holds_moved t t'); [exact Hh|done|by apply (uniform_plug 1)|by apply pid_plug|done|by rewrite Hio].
  - right. split; [done|]. split; [done|]. apply Hent, (h_sorted _ _ _ Hh).
Qed.

(** A leaf that can be merged with the one on its left, or on its right. *)
Definition mergeable_left t f id es : Prop :=
  ∃ k1 s c1 a ea, f_lks f = k1 ++ [s] ∧ length c1 = length k1 ∧ Forall (uniform 0) c1 ∧
    plug1 f (PLeaf id es) = pair (f_id f) k1 c1 (PLeaf a ea) s (PLeaf id es) (f_rks f) (f_rcs f) ∧
    Z.of_nat (length ea) <= computeCapacity (bt_config t) Leaf / 2.
Definition mergeable_right t f id es : Prop :=
  ∃ s k2 b eb c2, f_rks f = s :: k2 ∧ length c2 = length k2 ∧ Forall (uniform 0) c2 ∧
    plug1 f (PLeaf id es) = pair (f_id f) (f_lks f) (f_lcs f) (PLeaf id es) s (PLeaf b eb) k2 c2 ∧
    Z.of_nat (length eb) <= computeCapacity (bt_config t) Leaf / 2.

Lemma fix_leaf_merge t f c id es i : holds t (plug c (plug1 f (PLeaf id es))) (1 + length c) →
  ctx_ok 0 (f :: c) → Z.of_nat (length es) < computeCapacity (bt_config t) Leaf / 2 →
  bt_internals t !! f_id f = Some i →
  internal_repr (bt_config t) (f_id f) (f_lks f ++ f_rks f) (pid <$> (f_lcs f ++ PLeaf id es :: f_rcs f)) i →
  (f_lks f = [] ∨ mergeable_left t f id es) → (f_rks f = [] ∨ mergeable_right t f id es) →
  ∃ o t' p' h', (if 0 <? Z.of_nat (length (f_lks f))
      then mergeLeafLeft (f_id f) (Z.of_nat (length (f_lks f))) (fixInternalUnderflow (path_of c) (f_id f))
      else mergeLeafRight (f_id f) (Z.of_nat (length (f_lks f))) (fixInternalUnderflow (path_of c) (f_id f))) t = (o, t') ∧
    holds t' p' h' ∧ bt_config t' = bt_config t ∧ bt_size t' = bt_size t ∧ settled (plug c (plug1 f (PLeaf id es))) p' o.
Proof.
  intros Hh [Hf Hc] Hlt Hi Hr HL HR. pose proof Hf as (Hf1 & Hf2 & Hf3 & Hf4).
  destruct HL as [EL|(k1 & s & c1 & a & ea & EL & Hl1 & Hu1 & Hp & Hle)].
  - replace (0 <? Z.of_nat (length (f_lks f))) with false by (by rewrite EL). unfold mergeLeafRight.
    destruct HR as [ER|(s & k2 & b & eb & c2 & ER & Hl2 & Hu2 & Hp & Hle)].
    + rewrite EL, ER in Hr. rewrite EL in *. rewrite ER in *. destruct (f_lcs f); [|done]. destruct (f_rcs f); [|done].
      exists (Throw "std::out_of_range"), t, (plug c (plug1 f (PLeaf id es))), (1 + length c)%nat.
      split; [exact (proj2 (lone_child t _ _ i Hr Hi _))|]. split_and!; try done. left. split; [right; by right|done].
    + rewrite Hp in *.
      destruct (merge_leaves t c (f_id f) _ _ id es s b eb k2 c2 Hh Hc Hf1 Hl2 Hf3 Hu2 ltac:(lia))
        as (o & t' & p' & h' & E & Ho & Hh' & Hs & He & C1 & C2).
      exists o, t', p', h'. split_and!; try done. by left.
  - rewrite (proj2 (Z.ltb_lt _ _)) by (rewrite EL, length_app; cbn; lia). unfold mergeLeafLeft.
    replace (Z.of_nat (length (f_lks f)) - 1) with (Z.of_nat (length k1)) by (rewrite EL, length_app; cbn; lia). rewrite Hp in *.
    destruct (merge_leaves t c (f_id f) k1 c1 a ea s id es _ _ Hh Hc Hl1 Hf2 Hu1 Hf4 ltac:(lia))
      as (o & t' & p' & h' & E & Ho & Hh' & Hs & He & C1 & C2).
    exists o, t', p', h'. split_and!; try done. by left.
Qed.

Lemma fix_leaf t f c id es : holds t (plug c (plug1 f (PLeaf id es))) (1 + length c) → ctx_ok 0 (f :: c) →
  Z.of_nat (length es) < computeCapacity (bt_config t) Leaf / 2 →
  ∃ o t' p' h', fixLeafUnderflow (path_of (f :: c)) id t = (o, t') ∧ holds t' p' h' ∧
    bt_config t' = bt_config t ∧ bt_size t' = bt_size t ∧ settled (plug c (plug1 f (PLeaf id es))) p' o.
Proof.
  intros Hh Hfc Hlt. pose proof Hfc as [Hf Hc]. pose proof (h_inv _ _ _ Hh) as HI.
  pose proof (computeCapacity_range (bt_config t) Leaf) as Hcr.
  destruct (frame_page t c f _ HI) as (i & Hi & Hr). pose proof Hf as (Hf1 & Hf2 & _).
  assert (HU1 : uniform 1 (plug1 f (PLeaf id es))) by by apply plug1_uniform.
  rewrite fixLeaf_unfold. rewrite (M_step _ _ t i t) by (unfold internal; by rewrite Hi).
  pose proof (probe_left_leaf_spec t c f _ i HI Hf Hr) as HL. pose proof (probe_right_leaf_spec t c f _ i HI Hf Hr) as HR.
  assert (HL' : (probes (probe_left_leaf i (Z.of_nat (length (f_lks f)))) t None ∧ (f_lks f = [] ∨ mergeable_left t f id es)) ∨
    ∃ k1 s c1 a ea lk lr, f_lks f = k1 ++ [s] ∧ length c1 = length k1 ∧
      plug1 f (PLeaf id es) = pair (f_id f) k1 c1 (PLeaf a (ea ++ [(lk, lr)])) s (PLeaf id es) (f_rks f) (f_rcs f) ∧
      probes (probe_left_leaf i (Z.of_nat (length (f_lks f)))) t (Some a)).
  { destruct HL as [[EL P]|(k1 & s & c1 & a & ea & EL & Hl1 & Hu1 & Hp & [[Hle P]|(ea' & lk & lr & -> & P)])];
      [left; by split; [|left]|left; split; [done|right; by exists k1, s, c1, a, ea]|right; by exists k1, s, c1, a, ea', lk, lr]. }
  clear HL. destruct HL' as [[-> HL]|(k1 & s & c1 & a & ea & lk & lr & EL & Hl1 & Hp & ->)].
  2:{ replace (Z.of_nat (length (f_lks f))) with (Z.of_nat (length k1) + 1) by (rewrite EL, length_app; cbn; lia).
      rewrite Hp in *. destruct (borrow_left_leaf t c _ k1 c1 a ea lk lr s id es _ _ HI ltac:(lia)) as (t' & -> & I & M).
      destruct (leaf_rotation c (f_id f) k1 c1 a ea lk lr s id es (f_rks f) (f_rcs f) Hc Hl1 Hf2) as (R1 & R2 & R3 & E & R4 & R5).
      destruct (borrowed t t' c _ _ Hh Hc I) as (p' & h' & Hres); [by apply R1|done|done|by rewrite R2|by eauto 10|].
      by exists (Ok tt), t', p', h'. }
  destruct HR as [[ER ->]|(s & k2 & b & eb & c2 & ER & Hl2 & Hu2 & Hp & [[Hle ->]|(rk & rr & eb' & -> & ->)])].
  - apply (fix_leaf_merge t f c id es i); try done. by left.
  - apply (fix_leaf_merge t f c id es i); try done. right. by exists s, k2, b, eb, c2.
  - rewrite Hp in *. destruct (borrow_right_leaf t c _ (f_lks f) (f_lcs f) id es s rk rr b eb' _ _ HI ltac:(lia)) as (t' & -> & I & M).
    destruct (leaf_rotation c (f_id f) (f_lks f) (f_lcs f) id es s rr rk b eb' k2 c2 Hc Hf1 Hl2) as (R1 & R2 & R3 & E & R4 & R5).
    destruct (borrowed t t' c _ _ Hh Hc I) as (p' & h' & Hres); [by apply R1|done|done|by rewrite R2| |].
    + intros Hs. exists rk, s, rr, E. split; [|done]. rewrite <-R2 in Hs. by apply not_eq_sym, R3.
    + by exists (Ok tt), t', p', h'.
Qed.

(** ** Erasure on every branch *)

(** [erase] of a stored key: the key's entry goes, and what is left is the empty
    tree or has [settled]. *)
Lemma erase_settles t p h key r : holds t p h → (key, r) ∈ entries p →
  ∃ o t', BTree_erase key t = (o, t') ∧ bt_config t' = bt_config t ∧ bt_size t' = u64 (bt_size t - 1) ∧
    ((o = Ok tt ∧ holds_nothing t' ∧ entries p = [(key, r)]) ∨
     ∃ p1 p' h', sorted_lt (inorder p1) ∧ inorder p ≡ₚ key :: inorder p1 ∧ entries p ≡ₚ (key, r) :: entries p1 ∧
       holds t' p' h' ∧ settled p1 p' o ∧ (underflows t key = false → o = Ok tt ∧ p' = p1)).
Proof.
  intros Hh Hin. destruct (erase_core t p h key r Hh Hin)
    as (c & id & es & t1 & Hc & Hlen & Hh1 & K1 & K4 & Pi & Pe & He).
  assert (Hsame : ∀ q, settled q q (Ok tt)) by (intros q; left; split; [by left|done]).
  assert (Hdone : BTree_erase key t = (Ok tt, t1) → ∃ o t', BTree_erase key t = (o, t') ∧
    bt_config t' = bt_config t ∧ bt_size t' = u64 (bt_size t - 1) ∧
    ((o = Ok tt ∧ holds_nothing t' ∧ entries p = [(key, r)]) ∨
     ∃ p1 p' h', sorted_lt (inorder p1) ∧ inorder p ≡ₚ key :: inorder p1 ∧ entries p ≡ₚ (key, r) :: entries p1 ∧
       holds t' p' h' ∧ settled p1 p' o ∧ (underflows t key = false → o = Ok tt ∧ p' = p1))).
  { intros E. exists (Ok tt), t1. split_and!; try done. right.
    exists (plug c (PLeaf id es)), (plug c (PLeaf id es)), h. split_and!; try done. by destruct Hh1. }
  destruct c as [|f c].
  - destruct He as [_ He]. destruct es as [|e es]; [|by apply Hdone].
    destruct (erase_last t1 id h Hh1) as (t2 & E & Hn & C & Z). exists (Ok tt), t2.
    rewrite He. split_and!; [exact E|congruence..|]. left. split_and!; try done. by apply Permutation_singleton_r.
  - destruct He as [Hu He]. destruct (underflows t key) eqn:HU; [|by apply Hdone]. symmetry in Hu.
    apply Z.ltb_lt in Hu. cbn in Hu. rewrite <-K1 in Hu. subst h.
    destruct (fix_leaf t1 f c id es Hh1 Hc Hu) as (o & t' & p' & h' & E & Hh' & C & Z & Hs).
    exists o, t'. split_and!; [congruence..|]. right. exists (plug (f :: c) (PLeaf id es)), p', h'.
    split_and!; try done. by destruct Hh1.
Qed.
End rebalance.
