(* ===== verification/TreeReach.v ===== *)
(** The B-tree as a state machine: every tree built by [insert] and [erase]
    within the stated guards is well formed, and [find], [insert], [erase] and
    [validate] on it. *)
From stdpp Require Import base strings list gmap decidable sorting sets.
From Stdlib Require Import ZArith Lia.
From S2P Require Import Prelude Config PageAlloc FreeSpace SpaceMgr Buffers Keys Nodes NodeFacts Tree TreeShape TreeFacts TreeSearch TreeInsert TreeErase TreeValid TreeRebalance.

Lemma inorder_cases h p k : uniform h p → k ∈ inorder p →
  k ∈ (entries p).*1 ∨ ∃ id ks cs, SNode id ks cs ∈ pnodes p ∧ k ∈ ks.
Proof.
  revert p. induction h as [|h IH]; intros [id es|id ks cs] Hu Hk; cbn in Hu; try done.
  - left. by rewrite entries_leaf.
  - destruct Hu as [Hl Hu]. cbn [inorder] in Hk. apply elem_of_interleave in Hk; [|by rewrite length_fmap].
    destruct Hk as [Hk|(x & Hx & Hk)]; [right; exists id, ks, (pid <$> cs); split; [left|done]|].
    apply list_elem_of_fmap in Hx as (c & -> & Hc). rewrite Forall_forall in Hu.
    destruct (IH c (Hu c Hc) Hk) as [Hin|(id' & ks' & cs' & Hn & Hin)].
    + left. rewrite entries_node. apply list_elem_of_fmap in Hin as (e & -> & He).
      apply list_elem_of_fmap_2, elem_of_concat. exists (entries c). split; [done|]. by apply list_elem_of_fmap_2.
    + right. exists id', ks', cs'. split; [|done]. right. apply elem_of_concat. exists (pnodes c).
      split; [done|]. by apply list_elem_of_fmap_2.
Qed.

Section reach.
Context {S W : Type} `{PageSpace S} `{BTreeWalSink W} `{Fo : ForeignPages}.
Notation BT := (BTree S W).
Implicit Types (t : BT).

(** The key stands in an internal node. *)
Definition is_separator (key : Key) t : bool :=
  existsb (λ '(_, i), bool_decide (key ∈ in_keys i)) (map_to_list (bt_internals t)).

(** An entry of some leaf. *)
Definition stored_in_leaf t (key : Key) (r : PageReference) : Prop :=
  ∃ id l, bt_leaves t !! id = Some l ∧ (key, r) ∈ zip (lf_keys l) (lf_refs l).

(** Every split of an insertion can be given its pages. *)
Definition enough_pages t : Prop := room (Datatypes.S (Z.to_nat (bt_height t))) (bt_space t).

(** The trees without duplicate keys that [insert] and [erase] build, whatever
    the calls return, as long as a key fits the configuration and is not a
    separator when it is inserted and pages do not run out then.  An erasure is
    free to underflow, to rebalance and to fail, and the tree may be cleared.
    Calls outside these guards break the tree: [TreeDemo.btree_reinsert_breaks_validate],
    [TreeDemo.btree_reinsert_hides_key] and [TreeDemo.btree_insert_overflows]. *)
Inductive reach : BT → Prop :=
  | reach_create sp cfg : all_foreign sp → config_ok cfg → allowDuplicates cfg = false → reach (BTree_create sp cfg)
  | reach_insert t key v : reach t → key_fits (bt_config t) key → is_separator key t = false →
      enough_pages t → reach (BTree_insert key v t).2
  | reach_erase t key : reach t → reach (BTree_erase key t).2
  | reach_clear t ord : reach t → (∀ l, ord l ≡ₚ l) → reach (BTree_clear ord t).2.

Definition good t : Prop :=
  config_ok (bt_config t) ∧ allowDuplicates (bt_config t) = false ∧
  (holds_nothing t ∨ ∃ p h, holds t p h).

Lemma separator_spec t p h key : holds t p h → is_separator key t = false → key ∉ (entries p).*1 →
  key ∉ inorder p.
Proof.
  intros Hh Hsep Hn Hin. destruct (inorder_cases h p key (h_uniform _ _ _ Hh) Hin) as [|(id & ks & cs & Hs & Hk)]; [done|].
  destruct (Inv_node _ _ _ _ _ (h_inv _ _ _ Hh) Hs) as (i & Hi & _ & Hks & _).
  apply not_true_iff_false in Hsep. apply Hsep. unfold is_separator. apply existsb_exists.
  exists (id, i). rewrite <-list_elem_of_In, elem_of_map_to_list, bool_decide_eq_true. by rewrite Hks.
Qed.

Lemma stored_entries_spec t p h key r : holds t p h → (key, r) ∈ entries p ↔ stored_in_leaf t key r.
Proof.
  intros Hh. pose proof (h_inv _ _ _ Hh) as HI. unfold entries. rewrite elem_of_stored_entries. split.
  - intros ([id es|id ks cs|id] & Hs & He); cbn in He; [|by apply elem_of_nil in He..].
    destruct (Inv_leaf _ _ _ _ HI Hs) as (l & Hl & _ & Hk & Hr & _). exists id, l. split; [done|].
    by rewrite Hk, Hr, zip_entries.
  - intros (id & l & Hl & Hz). destruct (inv_leaves _ _ HI id ltac:(eauto)) as [es Hs].
    destruct (Inv_leaf _ _ _ _ HI Hs) as (l' & Hl' & _ & Hk & Hr & _). rewrite Hl in Hl'. injection Hl' as <-.
    exists (SLeaf id es). split; [done|]. by rewrite Hk, Hr, zip_entries in Hz.
Qed.

Lemma not_stored_keys t p h key : holds t p h → (∀ r, ¬ stored_in_leaf t key r) → key ∉ (entries p).*1.
Proof.
  intros Hh Hn ([k r] & -> & He)%list_elem_of_fmap. apply (Hn r). by apply (stored_entries_spec t p h).
Qed.

Lemma nothing_stored t key r : holds_nothing t → ¬ stored_in_leaf t key r.
Proof.
  intros [HI _] (id & l & Hl & _). destruct (inv_leaves _ _ HI id ltac:(eauto)) as [es Hin]. by apply elem_of_nil in Hin.
Qed.

Lemma enough_pages_room t p h : holds t p h → enough_pages t → room (Datatypes.S (Datatypes.S h)) (bt_space t).
Proof.
  intros Hh Hr. pose proof (height_pages t p h Hh) as Hb. unfold enough_pages in Hr.
  rewrite (h_height _ _ _ Hh), u32_small, Nat2Z.id in Hr; [done|].
  unfold kMaxPageId, kMaxPageCount in Hb. lia.
Qed.

(** An insertion of a key that is already stored. *)
Lemma insert_duplicate t p h key v : holds t p h → allowDuplicates (bt_config t) = false →
  PageReference_isValid v = true → key ∈ (entries p).*1 →
  BTree_insert key v t = (invalidArgument "BTree: duplicate key", t).
Proof.
  intros Hh Hnd Hv ([k r] & -> & He)%list_elem_of_fmap. cbn [fst].
  destruct (descendToLeaf_spec t p h k false Hh)
    as (c & id & es & l & -> & Hc & Hb & Hlen & Hl & Hr & Hs & Hsr & Hd).
  rewrite leaf_entry_iff in He by done.
  assert (Hk : k ∈ es.*1) by (apply list_elem_of_fmap; by exists (k, r)).
  apply (lowerBound_member _ k Hs) in Hk as Hlb.
  unfold BTree_insert. rewrite Hv. cbn [negb]. rewrite (M_step get _ t t t), (holds_nonempty _ _ _ Hh) by done.
  unfold descendForInsert. rewrite Hd. cbn [descend_loop]. rewrite Hl. cbn [mbind outcome_bind]. rewrite Hl, Hnd.
  destruct Hr as ((_ & Hkc & _) & Hks & _). rewrite Hks in Hkc |- *. rewrite Hkc, (proj2 (Z.ltb_lt _ _)).
  2:{ apply lookup_lt_Some in Hlb. lia. }
  cbn. unfold at_. rewrite Hlb. cbn. by rewrite (proj2 (Key_eqb_spec k k)).
Qed.

Lemma insert_invalid t key v : PageReference_isValid v = false →
  BTree_insert key v t = (invalidArgument "BTree: invalid page reference", t).
Proof. intros Hv. unfold BTree_insert. by rewrite Hv. Qed.

Lemma good_insert t key v : good t → key_fits (bt_config t) key → is_separator key t = false →
  enough_pages t → good (BTree_insert key v t).2.
Proof.
  intros Hg Hkf Hsep Hroom. pose proof Hg as (Hcfg & Hnd & Ht).
  destruct (PageReference_isValid v) eqn:Hv; [|by rewrite insert_invalid].
  destruct Ht as [Hn|(p & h & Hh)].
  - destruct (insert_first t key v Hn Hcfg Hv Hkf) as (t' & id & -> & Hh' & Hc & _).
    { by eapply room_le; [|exact Hroom]; lia. }
    cbn. unfold good. rewrite Hc. split; [done|]. split; [done|]. right. eauto.
  - destruct (decide (key ∈ (entries p).*1)) as [Hk|Hk]; [by rewrite (insert_duplicate t p h)|].
    destruct (insert_spec t p h key v Hh Hcfg Hv Hkf) as (o & t' & lost & -> & (_ & p' & h' & Hh' & _ & _ & Hc & _) & _).
    { by eapply separator_spec. } { intros _. by eapply enough_pages_room. }
    cbn. unfold good. rewrite Hc. split; [done|]. split; [done|]. right. eauto.
Qed.

Lemma good_erase t key : good t → good (BTree_erase key t).2.
Proof.
  intros Hg. pose proof Hg as (Hcfg & Hnd & [Hn|(p & h & Hh)]).
  - unfold BTree_erase. by rewrite (M_step get _ t t t), (holds_nothing_empty _ Hn) by done.
  - destruct (decide (key ∈ (entries p).*1)) as [Hk|Hk]; [|by rewrite (erase_absent t p h)].
    apply list_elem_of_fmap in Hk as ([k r] & -> & Hk). cbn [fst] in *.
    destruct (erase_settles t p h k r Hh Hk) as (o & t' & -> & Hc & _ & Hr). cbn. unfold good. rewrite Hc.
    split; [done|]. split; [done|]. destruct Hr as [(_ & ? & _)|(p1 & p' & h' & _ & _ & _ & Hh' & _)]; [by left|right; eauto].
Qed.

(** Freeing pages one after the other. *)
Lemma free_all ids : ∀ sp : S, ps_ok sp →
  let sp' := foldl (λ sp id, (ps_freePage id sp).2) sp ids in
  ps_ok sp' ∧ ∀ x, ps_used sp' x ↔ ps_used sp x ∧ x ∉ ids.
Proof.
  induction ids as [|id ids IH]; intros sp Hok; cbn; [split; [done|]; set_solver|].
  pose proof (ps_free_spec sp id Hok) as Hf. destruct (ps_freePage id sp) as [b sp1]. cbn.
  destruct Hf as (Hok1 & _ & Hu). destruct (IH sp1 Hok1) as [Hok2 Hu2]. split; [done|].
  intros x. rewrite Hu2, Hu, not_elem_of_cons. tauto.
Qed.

(** The pages of the nodes of a tree. *)
Definition node_pages t : gset Z := dom (bt_leaves t) ∪ dom (bt_internals t).

Lemma elem_of_node_pages t id : id ∈ node_pages t ↔ is_Some (bt_leaves t !! id) ∨ is_Some (bt_internals t !! id).
Proof. unfold node_pages. by rewrite elem_of_union, !elem_of_dom. Qed.

Lemma Inv_node_pages t N id : Inv t N → id ∈ node_pages t ↔ id ∈ sid <$> N.
Proof.
  intros HI. rewrite elem_of_node_pages, list_elem_of_fmap. split.
  - intros [Hl|Hi].
    + destruct (inv_leaves _ _ HI id Hl) as [es Hs]. by exists (SLeaf id es).
    + destruct (inv_internals _ _ HI id Hi) as [Hs|(ks & cs & Hs)]; [by exists (SFresh id)|by exists (SNode id ks cs)].
  - intros (s & -> & Hs). pose proof (inv_repr _ _ HI) as Hr. rewrite Forall_forall in Hr. specialize (Hr s Hs).
    destruct s; destruct Hr as (x & Hx & _); [left|right|right]; eauto.
Qed.

Lemma good_Inv t : good t → ∃ N, Inv t N.
Proof.
  intros (_ & _ & [Hn|(p & h & Hh)]); [exists []; apply (hn_inv _ Hn)|exists (pnodes p); apply (h_inv _ _ _ Hh)].
Qed.

Lemma good_pages t : good t → ps_ok (bt_space t) ∧ wal_ready t ∧
  (∀ id, ps_used (bt_space t) id ↔ id ∈ node_pages t ∨ foreign id) ∧ (∀ id, foreign id → id ∉ node_pages t).
Proof.
  intros (N & HI)%good_Inv. split_and!; [apply HI|apply HI|..]; intros id; rewrite (Inv_node_pages t N id HI); apply HI.
Qed.

Lemma clear_nothing t ord : good t → (∀ l, ord l ≡ₚ l) → holds_nothing (BTree_clear ord t).2.
Proof.
  intros Hg Ho. destruct (good_pages t Hg) as (Hok & Hw & Hp & Hf).
  apply nothing_held; [|done..]. cbn [BTree_clear modify bt_space snd].
  destruct (free_all (ord (elements (dom (bt_leaves t)))) (bt_space t) Hok) as [Hok1 Hu1].
  destruct (free_all (ord (elements (dom (bt_internals t)))) _ Hok1) as [Hok2 Hu2].
  split; [done|]. intros id. cbn in Hu1, Hu2. rewrite Hu2, Hu1, Hp, !Ho, !elem_of_elements.
  specialize (Hf id). unfold node_pages in *. rewrite elem_of_union in *. tauto.
Qed.

Lemma good_clear t ord : good t → (∀ l, ord l ≡ₚ l) → good (BTree_clear ord t).2.
Proof.
  intros Hg Ho. pose proof Hg as (Hcfg & Hnd & _). split; [done|]. split; [done|]. left. by apply clear_nothing.
Qed.

Lemma reach_good t : reach t → good t.
Proof.
  induction 1 as [sp cfg Hsp Hcfg Hnd|t key v Hr IH Hkf Hsep Hroom|t key Hr IH|t ord Hr IH Ho].
  - split; [done|]. split; [done|]. left. by apply create_holds_nothing.
  - by apply good_insert.
  - by apply good_erase.
  - by apply good_clear.
Qed.

Lemma find_nothing t key : holds_nothing t → BTree_find key t = invalidArgument "BTree: tree is empty".
Proof. intros Hn. unfold BTree_find, descendToLeaf. by rewrite (holds_nothing_empty _ Hn). Qed.

(** [find] on a reachable tree, in terms of the leaves. *)
Lemma good_find t key : good t →
  (∀ r, BTree_find key t = Ok r ↔ stored_in_leaf t key r) ∧
  ((∀ r, ¬ stored_in_leaf t key r) →
     BTree_find key t = invalidArgument (if empty_ t then "BTree: tree is empty" else "BTree: key not found")).
Proof.
  intros (_ & _ & [Hn|(p & h & Hh)]).
  - rewrite (find_nothing _ _ Hn), (holds_nothing_empty _ Hn). split; [|done]. intros r. split; [done|].
    intros Hs. by apply (nothing_stored t key r) in Hs.
  - destruct (tree_find_spec t p h key Hh) as [F1 F2]. setoid_rewrite <-(stored_entries_spec t p h); [|done..].
    by rewrite (holds_nonempty _ _ _ Hh).
Qed.

(** What [insert] does to the answers of [find], for the entries [lost]. *)
Lemma insert_answers t p h key v t' p' h' lost : holds t p h → holds t' p' h' →
  (key, v) :: entries p ≡ₚ lost ++ entries p' → key ∉ (entries p).*1 →
  ∀ k r, k ∉ lost.*1 → BTree_find k t' = Ok r ↔ (if decide (k = key) then r = v else BTree_find k t = Ok r).
Proof.
  intros Hh Hh' He Hn k r Hk. pose proof (proj1 (tree_find_spec t p h k Hh) r) as Hold.
  rewrite (proj1 (tree_find_spec t' p' h' k Hh')).
  assert (Hin : (k, r) ∈ (key, v) :: entries p ↔ (k, r) ∈ entries p').
  { rewrite He, elem_of_app. split; [intros [Hl|]; [|done]|by right]. destruct Hk.
    apply list_elem_of_fmap. by exists (k, r). }
  rewrite <-Hin, elem_of_cons. destruct (decide (k = key)) as [->|Hne]; [|naive_solver].
  split; [|intros ->; by left]. intros [[= ->]|Hi]; [done|]. destruct Hn. apply list_elem_of_fmap. by exists (key, r).
Qed.

Lemma stored_of_find t p h key : holds t p h → (∀ r, BTree_find key t ≠ Ok r) → key ∉ (entries p).*1.
Proof.
  intros Hh Hn ([k r] & -> & He)%list_elem_of_fmap. apply (Hn r). by apply (tree_find_spec t p h).
Qed.

(** An insertion with room and an erasure without underflow, by the answers of
    [find]. *)
Lemma insert_binds t key v : reach t → PageReference_isValid v = true → key_fits (bt_config t) key →
  is_separator key t = false → (∀ r, BTree_find key t ≠ Ok r) → enough_pages t → leaf_full t key = false →
  ∃ t', BTree_insert key v t = (Ok tt, t') ∧ reach t' ∧ bt_size t' = u64 (bt_size t + 1) ∧
    ∀ k r, BTree_find k t' = Ok r ↔ (if decide (k = key) then r = v else BTree_find k t = Ok r).
Proof.
  intros Hr Hv Hkf Hsep Hn Hroom Hfull. pose proof (reach_insert t key v Hr Hkf Hsep Hroom) as Hr'.
  destruct (reach_good t Hr) as (Hcfg & Hnd & [Ht|(p & h & Hh)]).
  - destruct (insert_first t key v Ht Hcfg Hv Hkf) as (t' & id & He & Hh' & _ & Hsz).
    { by eapply room_le; [|exact Hroom]; lia. }
    rewrite He in Hr'. exists t'. do 3 (split; [done|]). intros k r.
    rewrite (proj1 (tree_find_spec t' _ _ k Hh')), (find_nothing t k Ht), entries_leaf, list_elem_of_singleton.
    destruct (decide (k = key)); naive_solver.
  - pose proof (stored_of_find t p h key Hh Hn) as Hk.
    destruct (insert_spec t p h key v Hh Hcfg Hv Hkf) as (o & t' & lost & He & (-> & p' & h' & Hh' & _ & Hent & _ & Hsz) & Hl).
    { by eapply separator_spec. } { by rewrite Hfull. }
    rewrite Hfull in Hl. destruct lost; [|done]. rewrite He in Hr'. exists t'. do 3 (split; [done|]).
    intros k r. apply (insert_answers t p h key v t' p' h' []); try done. set_solver.
Qed.

Lemma erase_removes t key : reach t → underflows t key = false →
  (∀ r, BTree_find key t = Ok r →
     ∃ t', BTree_erase key t = (Ok tt, t') ∧ reach t' ∧ bt_size t' = u64 (bt_size t - 1) ∧
       ∀ k r', BTree_find k t' = Ok r' ↔ k ≠ key ∧ BTree_find k t = Ok r') ∧
  ((∀ r, BTree_find key t ≠ Ok r) → BTree_erase key t = (invalidArgument "BTree: key not found", t)).
Proof.
  intros Hr Hu. pose proof (reach_erase t key Hr) as Hr'.
  destruct (reach_good t Hr) as (Hcfg & Hnd & [Ht|(p & h & Hh)]).
  { split; [intros r Hf; by rewrite (find_nothing t key Ht) in Hf|]. intros _. unfold BTree_erase.
    by rewrite (M_step get _ t t t), (holds_nothing_empty _ Ht) by done. }
  split; [|intros Hn; by eapply (erase_absent t p h), stored_of_find].
  intros r Hf. apply (tree_find_spec t p h key Hh) in Hf.
  destruct (erase_spec t p h key r Hh Hf Hu) as (t' & He & _ & Hsz & Hres). rewrite He in Hr'.
  exists t'. do 3 (split; [done|]). intros k r'. rewrite (proj1 (tree_find_spec t p h k Hh)).
  destruct Hres as [[Ht' Hent]|(p' & Hh' & _ & Hent)].
  - rewrite (find_nothing t' k Ht'), Hent, list_elem_of_singleton. naive_solver.
  - rewrite (proj1 (tree_find_spec t' p' h k Hh')), Hent, elem_of_cons.
    pose proof (entries_keys_NoDup t p h Hh) as Hndk. rewrite Hent in Hndk. cbn in Hndk.
    apply NoDup_cons in Hndk as [Hni _]. split; [|naive_solver]. intros Hin. split; [|by right].
    intros ->. apply Hni, list_elem_of_fmap. by exists (key, r').
Qed.

(** The entries of a tree with the key's entry removed, by the answers of
    [find]. *)
Lemma removed_answers t p h key r es : holds t p h → entries p ≡ₚ (key, r) :: es →
  ∀ k r', (k, r') ∈ es ↔ k ≠ key ∧ BTree_find k t = Ok r'.
Proof.
  intros Hh Hent k r'. rewrite (proj1 (tree_find_spec t p h k Hh)), Hent, elem_of_cons.
  pose proof (entries_keys_NoDup t p h Hh) as Hnd. rewrite Hent in Hnd. cbn in Hnd.
  apply NoDup_cons in Hnd as [Hni _]. split; [|naive_solver]. intros Hin. split; [|by right].
  intros ->. apply Hni, list_elem_of_fmap. by exists (key, r').
Qed.

(** A key of the tree that no leaf stores stands in an internal node. *)
Lemma unstored_separator t p h k : holds t p h → k ∈ inorder p → k ∉ (entries p).*1 → is_separator k t = true.
Proof.
  intros Hh Hk Hn. destruct (is_separator k t) eqn:E; [done|]. by destruct (separator_spec t p h k Hh E Hn).
Qed.

Lemma erase_effect t key r : reach t → BTree_find key t = Ok r →
  ∃ o t', BTree_erase key t = (o, t') ∧ reach t' ∧ bt_size t' = u64 (bt_size t - 1) ∧
    (((o = Ok tt ∨ fix_error o) ∧ ∀ k r', BTree_find k t' = Ok r' ↔ k ≠ key ∧ BTree_find k t = Ok r') ∨
     (o = Ok tt ∧ ∃ lent sep r0,
        lent ≠ key ∧ BTree_find lent t = Ok r0 ∧ is_separator lent t' = true ∧
        sep ≠ key ∧ (∀ r', BTree_find sep t ≠ Ok r') ∧ is_separator sep t = true ∧
        ∀ k r', BTree_find k t' = Ok r' ↔
          (if decide (k = sep) then r' = r0 else k ≠ key ∧ k ≠ lent ∧ BTree_find k t = Ok r'))).
Proof.
  intros Hr Hf. pose proof (reach_erase t key Hr) as Hr'.
  destruct (reach_good t Hr) as (Hcfg & Hnd & [Ht|(p & h & Hh)]); [by rewrite (find_nothing t key Ht) in Hf|].
  apply (tree_find_spec t p h key Hh) in Hf.
  destruct (erase_settles t p h key r Hh Hf) as (o & t' & He & _ & Hsz & Hres). rewrite He in Hr'.
  exists o, t'. do 3 (split; [done|]).
  destruct Hres as [(-> & Ht' & Hent)|(p1 & p' & h' & Hso & Hio & Hent & Hh' & Hset & _)].
  { left. split; [by left|]. intros k r'.
    rewrite (find_nothing t' k Ht'), <-(removed_answers t p h key r [] Hh); [|by rewrite Hent].
    split; [done|]. by intros ?%elem_of_nil. }
  pose proof (removed_answers t p h key r (entries p1) Hh Hent) as Hans.
  destruct Hset as [(Ho & _ & Hp')|(-> & Hi' & lent & sep & r0 & E & Hne & E1 & E2)]; [left|right]; (split; [done|]).
  { intros k r'. by rewrite (proj1 (tree_find_spec t' p' h' k Hh')), Hp'. }
  pose proof (entries_keys_NoDup t p h Hh) as Hk. rewrite Hent in Hk. cbn in Hk. apply NoDup_cons in Hk as [Hkey Hk].
  pose proof (entries_keys_NoDup t' p' h' Hh') as Hk'.
  rewrite E2 in Hk'. cbn in Hk'. apply NoDup_cons in Hk' as [Hsep _].
  rewrite E1 in Hk, Hkey. cbn in Hk. apply NoDup_cons in Hk as [Hlent _].
  pose proof (sorted_lt_NoDup _ (h_sorted _ _ _ Hh)) as Hu. rewrite Hio in Hu. apply NoDup_cons in Hu as [Hukey _].
  assert (Hsin : sep ∈ inorder p1).
  { rewrite <-Hi'. apply (entries_inorder h' p' (sep, r0) (h_uniform _ _ _ Hh')). rewrite E2. left. }
  assert (Hskey : sep ≠ key) by (by intros ->).
  assert (Hlkey : lent ≠ key) by (intros ->; apply Hkey; left).
  assert (Hsp : sep ∉ (entries p).*1).
  { rewrite Hent, E1. cbn. rewrite !elem_of_cons. naive_solver. }
  exists lent, sep, r0. split; [done|]. split; [|split; [|split; [done|split; [|split]]]].
  - apply Hans. rewrite E1. left.
  - apply (unstored_separator t' p' h'); [done| |].
    + assert (Hl : lent ∈ inorder p).
      { apply (entries_inorder h p (lent, r0) (h_uniform _ _ _ Hh)). rewrite Hent, E1. right. left. }
      rewrite Hio in Hl. rewrite Hi'. by apply elem_of_cons in Hl as [|].
    + rewrite E2. cbn. by intros [? | ?]%elem_of_cons.
  - intros r' Hfs. apply Hsp, list_elem_of_fmap. exists (sep, r'). split; [done|]. by apply (tree_find_spec t p h).
  - apply (unstored_separator t p h); [done| |done]. rewrite Hio. by right.
  - intros k r'. rewrite (proj1 (tree_find_spec t' p' h' k Hh')), E2, elem_of_cons.
    destruct (decide (k = sep)) as [->|Hks].
    + split; [|intros ->; by left]. intros [[= ->]|Hin]; [done|]. destruct Hsep. apply list_elem_of_fmap. by exists (sep, r').
    + assert (Hin : (k, r') ∈ (sep, r0) :: E ↔ k ≠ lent ∧ (k, r') ∈ (lent, r0) :: E).
      { rewrite !elem_of_cons. split; [|naive_solver]. intros [|Hin]; [congruence|]. split; [|by right].
        intros ->. apply Hlent, list_elem_of_fmap. by exists (lent, r'). }
      rewrite <-elem_of_cons, Hin, <-E1, Hans. tauto.
Qed.

Lemma reach_validates t : reach t → BTree_validate t = Ok tt.
Proof.
  intros Hr. destruct (reach_good t Hr) as (Hcfg & _ & [Ht|(p & h & Hh)]).
  - unfold BTree_validate. by rewrite (holds_nothing_empty _ Ht).
  - by eapply holds_validates.
Qed.

Lemma empty_no_separator t key : reach t → empty_ t = true → is_separator key t = false.
Proof.
  intros Hr He. destruct (reach_good t Hr) as (_ & _ & [Ht|(p & h & Hh)]); [|by rewrite (holds_nonempty _ _ _ Hh) in He].
  apply not_true_iff_false. intros Hs. apply existsb_exists in Hs as ([id i] & Hin & _).
  rewrite <-list_elem_of_In, elem_of_map_to_list in Hin.
  destruct (inv_internals _ _ (hn_inv _ Ht) id ltac:(eauto)) as [Hs|(ks & cs & Hs)]; by apply elem_of_nil in Hs.
Qed.

Lemma insert_splits t key v : reach t → PageReference_isValid v = true → key_fits (bt_config t) key →
  is_separator key t = false → (∀ r, BTree_find key t ≠ Ok r) → enough_pages t → leaf_full t key = true →
  ∃ t' x, BTree_insert key v t = (Ok tt, t') ∧ reach t' ∧ bt_size t' = u64 (bt_size t + 1) ∧
    (x = key ∨ ∃ r, BTree_find x t = Ok r) ∧
    BTree_find x t' = invalidArgument "BTree: key not found" ∧ is_separator x t' = true ∧
    ∀ k r, k ≠ x → BTree_find k t' = Ok r ↔ (if decide (k = key) then r = v else BTree_find k t = Ok r).
Proof.
  intros Hr Hv Hkf Hsep Hn Hroom Hfull. pose proof (reach_insert t key v Hr Hkf Hsep Hroom) as Hr'.
  destruct (reach_good t Hr) as (Hcfg & Hnd & [Ht|(p & h & Hh)]).
  { unfold leaf_full, descendToLeaf in Hfull. by rewrite (holds_nothing_empty _ Ht) in Hfull. }
  pose proof (stored_of_find t p h key Hh Hn) as Hk.
  destruct (insert_spec t p h key v Hh Hcfg Hv Hkf) as (o & t' & lost & He & (-> & p' & h' & Hh' & Hio & Hent & _ & Hsz) & Hl).
  { by eapply separator_spec. } { intros _. by eapply enough_pages_room. }
  rewrite Hfull in Hl. destruct lost as [|[x rx] [|? ?]]; [done| |done]. cbn [app] in Hent.
  assert (Hx : x ∉ (entries p').*1).
  { assert (Hnd' : NoDup ((key, v) :: entries p).*1) by (cbn; constructor; [done|by eapply entries_keys_NoDup]).
    rewrite Hent in Hnd'. cbn in Hnd'. by apply NoDup_cons in Hnd' as [? _]. }
  assert (Hxin : (x, rx) ∈ (key, v) :: entries p) by (rewrite Hent; left).
  rewrite He in Hr'. exists t', x. do 3 (split; [done|]). split; [|split; [|split]].
  - apply elem_of_cons in Hxin as [[= -> ->]|Hxin]; [by left|right]. exists rx. by apply (tree_find_spec t p h).
  - by eapply find_absent.
  - destruct (is_separator x t') eqn:Hxs; [done|]. destruct (separator_spec t' p' h' x Hh' Hxs Hx).
    rewrite Hio. apply elem_of_cons in Hxin as [[= -> ->]|Hxin]; [left|right].
    by apply (entries_inorder h p (x, rx) (h_uniform _ _ _ Hh)).
  - intros k r Hne. apply (insert_answers t p h key v t' p' h' [(x, rx)]); try done. cbn. set_solver.
Qed.

(** ** Claims *)




(** [insert] of a key that is found, or with an invalid reference, is refused
    and leaves the tree as it was. *)
Theorem btree_insert_refused t key v : reach t →
  (PageReference_isValid v = false →
     BTree_insert key v t = (invalidArgument "BTree: invalid page reference", t)) ∧
  (PageReference_isValid v = true → ∀ r, BTree_find key t = Ok r →
     BTree_insert key v t = (invalidArgument "BTree: duplicate key", t)).
Proof.
  intros Hr. split; [apply insert_invalid|]. intros Hv r Hf.
  destruct (reach_good t Hr) as (Hcfg & Hnd & [Ht|(p & h & Hh)]); [by rewrite (find_nothing t key Ht) in Hf|].
  apply (insert_duplicate t p h); try done. apply (tree_find_spec t p h key Hh) in Hf.
  apply list_elem_of_fmap. by exists (key, r).
Qed.

(** [erase] of a key that is found, in a leaf that stays at least half full or
    is the root, removes that key and nothing else; [erase] of a key that is not
    found fails and leaves the tree as it was. *)
Theorem btree_erase_removes t key : reach t → underflows t key = false →
  (∀ r, BTree_find key t = Ok r →
     ∃ t', BTree_erase key t = (Ok tt, t') ∧ reach t' ∧ bt_size t' = u64 (bt_size t - 1) ∧
       ∀ k r', BTree_find k t' = Ok r' ↔ k ≠ key ∧ BTree_find k t = Ok r') ∧
  ((∀ r, BTree_find key t ≠ Ok r) → BTree_erase key t = (invalidArgument "BTree: key not found", t)).
Proof. apply erase_removes. Qed.


(** C6: the validator accepts every reachable tree, also the ones that lost
    entries to splits. *)
Theorem btree_reachable_validates t : reach t → BTree_validate t = Ok tt.
Proof. apply reach_validates. Qed.

(** C7: No page leaks and none is held twice.  In every reachable tree the pages
    in use are exactly the pages of the tree's nodes and the pages that others
    held when it was created; no page is a leaf and an internal node at once, nor
    one of the others' pages; and clearing the tree gives all its pages back. *)
Theorem btree_owns_its_pages t : reach t →
  (∀ id, ps_used (bt_space t) id ↔ id ∈ node_pages t ∨ foreign id) ∧
  (∀ id, foreign id → id ∉ node_pages t) ∧ dom (bt_leaves t) ## dom (bt_internals t) ∧
  ∀ ord, (∀ l, ord l ≡ₚ l) →
    node_pages (BTree_clear ord t).2 = ∅ ∧ ∀ id, ps_used (bt_space (BTree_clear ord t).2) id ↔ foreign id.
Proof.
  intros Hr. pose proof (reach_good t Hr) as Hg. destruct (good_pages t Hg) as (_ & _ & Hp & Hf).
  split_and!; [done..| |].
  - destruct (good_Inv t Hg) as [N HI]. intros id [l Hl]%elem_of_dom [i Hi]%elem_of_dom.
    by destruct (Inv_one_kind t N id l i HI).
  - intros ord Ho. destruct (good_pages _ (good_clear t ord Hg Ho)) as (_ & _ & Hp' & _).
    assert (He : node_pages (BTree_clear ord t).2 = ∅) by (unfold node_pages; cbn; by rewrite !dom_empty_L, union_empty_l_L).
    split; [done|]. intros id. rewrite Hp', He. set_solver.
Qed.
End reach.
