(* ===== verification/TreeDemo.v ===== *)
(** Concrete trees: the theorems of the tree at small trees with nodes of two
    keys, and what a re-inserted separator and a borrowed entry do. *)
From stdpp Require Import base strings list gmap decidable sorting sets.
From Stdlib Require Import ZArith Lia.
From S2P Require Import Prelude Config PageAlloc FreeSpace SpaceMgr Buffers Keys Nodes NodeFacts Tree TreeShape TreeFacts TreeSearch TreeInsert TreeErase TreeValid TreeReach.

(** A sink that records nothing. *)
#[global] Program Instance silent_sink : BTreeWalSink unit := {
  onInsert _ _ := mret tt; onErase _ := mret tt; onPageAllocate _ := mret tt;
  onPageDeallocate _ := mret tt; onNodeSplit _ _ _ := mret tt; onNodeMerge _ _ := mret tt;
  sink_ready _ := True }.
Next Obligation. intros m [] _ Hm. exists tt. split; [|done]. naive_solver. Qed.

(** The trees below have their space for themselves. *)
#[global] Instance no_foreign : ForeignPages := λ _, False.

Lemma new_space policy : all_foreign (SpaceManager_make policy).
Proof.
  split; [apply SM_ok_make|]. intros id. split; [|done]. unfold ps_used. cbn. unfold PA_used. cbn.
  intros [Hr _]. lia.
Qed.

Definition demo_config : BTreeNodeConfig := mkNodeConfig KT_Binary 1900 false 0.
Definition demo_key (n : Z) : Key := KeyBinary [n].
Definition demo_ref (n : Z) : PageReference := PageReference_make n 1 4.
Definition demo_empty : BTree SpaceManager unit :=
  BTree_create (SpaceManager_make FirstFitPolicy) demo_config.
Definition demo_insert (t : BTree SpaceManager unit) (n : Z) : BTree SpaceManager unit :=
  (BTree_insert (demo_key n) (demo_ref n) t).2.
Definition demo_tree (ns : list Z) : BTree SpaceManager unit := foldl demo_insert demo_empty ns.

Lemma room_next n (sm : SpaceManager) : PA_ok (pageAllocator_ sm) →
  nextPageId (pageAllocator_ sm) + Z.of_nat n <= kMaxPageId + 1 → room n sm.
Proof.
  intros (Hn & _) Hle. exists (seqZ (nextPageId (pageAllocator_ sm)) (Z.of_nat n)).
  split; [apply NoDup_seqZ|]. split; [rewrite length_seqZ; lia|]. intros x Hx%elem_of_seqZ.
  split; [consts; lia|]. cbn. unfold PA_used. lia.
Qed.

Lemma reach_pages (t : BTree SpaceManager unit) : reach t → PA_ok (pageAllocator_ (bt_space t)).
Proof.
  intros Hr. destruct (reach_good t Hr) as (_ & _ & [Hn|(p & h & Hh)]).
  - apply (inv_space _ _ (hn_inv _ Hn)).
  - apply (inv_space _ _ (h_inv _ _ _ Hh)).
Qed.

Lemma demo_enough (t : BTree SpaceManager unit) : reach t →
  nextPageId (pageAllocator_ (bt_space t)) + Z.of_nat (S (Z.to_nat (bt_height t))) <= kMaxPageId + 1 →
  enough_pages t.
Proof. intros Hr Hle. apply room_next; [by apply reach_pages|done]. Qed.

Lemma demo_empty_reach : reach demo_empty.
Proof. apply reach_create; [apply new_space|split; by vm_compute|done]. Qed.

Lemma demo_insert_reach t n : reach t → bt_config t = demo_config →
  serializedSize (demo_key n) <= keyWireSize demo_config → is_separator (demo_key n) t = false →
  nextPageId (pageAllocator_ (bt_space t)) + Z.of_nat (S (Z.to_nat (bt_height t))) <= kMaxPageId + 1 →
  reach (demo_insert t n).
Proof.
  intros Hr Hc Hk Hs Hp. apply reach_insert; [done|by rewrite Hc|done|by apply demo_enough].
Qed.

Lemma demo_12_reach : reach (demo_tree [1; 2]).
Proof.
  change (demo_tree [1; 2]) with (demo_insert (demo_insert demo_empty 1) 2).
  repeat (apply demo_insert_reach; [|vm_compute; first [reflexivity|discriminate]..]).
  apply demo_empty_reach.
Qed.

Lemma demo_124_reach : reach (demo_tree [1; 2; 3; 4]).
Proof.
  change (demo_tree [1; 2; 3; 4]) with (demo_insert (demo_insert (demo_tree [1; 2]) 3) 4).
  repeat (apply demo_insert_reach; [|vm_compute; first [reflexivity|discriminate]..]).
  apply demo_empty_reach.
Qed.

(** ** The theorems at these trees *)




Lemma btree_insert_refused_witness :
  BTree_insert (demo_key 2) (demo_ref 7) (demo_tree [1; 2]) =
    (invalidArgument "BTree: duplicate key", demo_tree [1; 2]).
Proof.
  apply (proj2 (btree_insert_refused (demo_tree [1; 2]) (demo_key 2) (demo_ref 7) demo_12_reach)) with (r := demo_ref 2);
    vm_compute; reflexivity.
Defined.

Lemma btree_erase_removes_witness :
  underflows (demo_tree [1; 2; 3; 4]) (demo_key 4) = false ∧
  ∃ t', BTree_erase (demo_key 4) (demo_tree [1; 2; 3; 4]) = (Ok tt, t') ∧
    BTree_find (demo_key 3) t' = Ok (demo_ref 3).
Proof.
  assert (Hu : underflows (demo_tree [1; 2; 3; 4]) (demo_key 4) = false) by (vm_compute; reflexivity).
  split; [exact Hu|].
  destruct (proj1 (btree_erase_removes (demo_tree [1; 2; 3; 4]) (demo_key 4) demo_124_reach Hu) (demo_ref 4))
    as (t' & He & _ & _ & Hf); [vm_compute; reflexivity|].
  exists t'. split; [exact He|]. apply Hf. split; [discriminate|vm_compute; reflexivity].
Defined.


Lemma btree_reachable_validates_witness : BTree_validate (demo_tree [1; 2; 3; 4]) = Ok tt.
Proof. apply (btree_reachable_validates (demo_tree [1; 2; 3; 4]) demo_124_reach). Defined.

(** Three pages in use, and none after clearing. *)
Lemma btree_owns_its_pages_witness :
  size (node_pages (demo_tree [1; 2; 3; 4])) = 3%nat ∧
  (∀ id, ps_used (bt_space (demo_tree [1; 2; 3; 4])) id → id ∈ node_pages (demo_tree [1; 2; 3; 4])) ∧
  (∀ id, ¬ ps_used (bt_space (BTree_clear (λ l, l) (demo_tree [1; 2; 3; 4])).2) id).
Proof.
  destruct (btree_owns_its_pages (demo_tree [1; 2; 3; 4]) demo_124_reach) as (Hp & _ & _ & Hc).
  split; [vm_compute; reflexivity|]. split.
  - intros id Hu. destruct (proj1 (Hp id) Hu) as [Hin|[]]. exact Hin.
  - intros id Hu. exact (proj1 (proj2 (Hc (λ l, l) (λ l, Permutation_refl l)) id) Hu).
Defined.

Ltac internal_wf_now :=
  split; [repeat split; vm_compute; reflexivity|]; split; [vm_compute; reflexivity|];
  split; [vm_compute; reflexivity|]; split; [vm_compute; discriminate|];
  cbn [in_keys]; repeat constructor; vm_compute; discriminate.

Definition demo_deep : BTree SpaceManager unit := Eval vm_compute in demo_tree [1; 2; 3; 4; 5; 6; 7; 8; 9].

Lemma merge_internals_refused_witness :
  mergeInternals (bt_rootId demo_deep) 0 (mret tt) demo_deep =
    (invalidArgument "InternalNode: child count mismatch", demo_deep).
Proof.
  apply merge_internals_refused. do 6 eexists. do 6 (split; [vm_compute; reflexivity|]).
  split; internal_wf_now.
Defined.

(** ** Separators re-inserted, entries borrowed *)

(** The calls the guards of [reach] exclude.  After a split the promoted key can
    be inserted again, since no leaf has it any more; [insert] reports success,
    whether its leaf has room or is full, and the validator rejects the tree from
    then on.  The key is found and a separator at once; and when the neighbouring
    leaf then lends it away, a leaf stores it while [find] does not find it. *)
Theorem btree_reinsert_breaks_validate :
  BTree_find (demo_key 2) (demo_tree [1; 2; 3]) = invalidArgument "BTree: key not found" ∧
  (BTree_insert (demo_key 2) (demo_ref 2) (demo_tree [1; 2; 3])).1 = Ok tt ∧
  BTree_validate (demo_tree [1; 2; 3]) = Ok tt ∧
  BTree_validate (demo_tree [1; 2; 3; 2]) =
    corruption "TreeValidator: leaf key at or above upper separator" ∧
  BTree_find (demo_key 2) (demo_tree [1; 2; 3; 2]) = Ok (demo_ref 2) ∧
  is_separator (demo_key 2) (demo_tree [1; 2; 3; 2]) = true.
Proof. vm_compute. repeat split; reflexivity. Qed.

Definition demo_erase (t : BTree SpaceManager unit) (n : Z) : BTree SpaceManager unit := (BTree_erase (demo_key n) t).2.
Definition stored_keys (t : BTree SpaceManager unit) : list (list Key) :=
  (λ '(_, l), lf_keys l) <$> map_to_list (bt_leaves t).

Theorem btree_reinsert_hides_key :
  let t := demo_erase (demo_tree [1; 2; 3; 2]) 3 in
  [demo_key 2] ∈ stored_keys t ∧ BTree_find (demo_key 2) t = invalidArgument "BTree: key not found".
Proof.
  split; [|vm_compute; reflexivity]. apply (bool_decide_unpack ([demo_key 2] ∈ _)). vm_compute. exact I.
Qed.

Theorem btree_reinsert_full_leaf :
  (BTree_insert (demo_key 2) (demo_ref 2) (demo_tree [1; 2; 3; 0])).1 = Ok tt ∧
  BTree_validate (demo_tree [1; 2; 3; 0; 2]) = corruption "TreeValidator: leaf key at or above upper separator".
Proof. vm_compute. repeat split; reflexivity. Qed.

(** An erasure can leave [erase] with an exception: after the merge of two leaves
    was followed by the refused merge of two internal nodes, a parent has a single
    child, and the next leaf to underflow below it has no neighbour; the code asks
    [at] for one. *)
Theorem btree_erase_throws :
  let t := demo_erase (demo_erase (demo_tree [1; 2; 3; 4; 5; 6; 7; 8; 9]) 1) 3 in
  (BTree_erase (demo_key 5) t).1 = Throw "std::out_of_range" ∧ reach t.
Proof.
  split; [vm_compute; reflexivity|]. do 2 apply reach_erase.
  change (demo_tree [1; 2; 3; 4; 5; 6; 7; 8; 9]) with
    (foldl demo_insert (demo_tree [1; 2; 3; 4]) [5; 6; 7; 8; 9]). cbn [foldl].
  repeat (apply demo_insert_reach; [|vm_compute; first [reflexivity|discriminate]..]). apply demo_empty_reach.
Qed.

(** Keys longer than the configuration counts on: in a tree of one leaf that has
    room for another entry by its capacity, an insertion that the page has no
    room for reports corruption, and neither the size nor the log hears of it, but
    the key is found from then on. *)
Theorem btree_insert_overflows {S W : Type} `{PageSpace S} `{BTreeWalSink W} (t : BTree S W) l key v :
  bt_rootId t ≠ kInvalidPageId → bt_leaves t !! bt_rootId t = Some l →
  leaf_sound l → sorted_lt (lf_keys l) → allowDuplicates (bt_config t) = false →
  PageReference_isValid v = true → Key_ok key → key ∉ lf_keys l →
  Z.of_nat (length (lf_keys l)) < capacity (lf_node l) → entryAreaSize < entries_size (key :: lf_keys l) →
  ∃ t', BTree_insert key v t = (corruption "LeafNode: entry data exceeds page capacity", t') ∧
    bt_size t' = bt_size t ∧ bt_wal t' = bt_wal t ∧
    ∃ l', bt_leaves t' !! bt_rootId t' = Some l' ∧ leaf_lookup l' key = Some v.
Proof.
  intros Hr Hl Hs Hso Hd Hv Hok Hn Hroom Hover. pose proof Hs as (_ & Hkc & Hlen & _).
  destruct (LeafNode_insert_any key v l Hs Hso Hok Hv Hroom Hn) as (l' & E & H1 & H2 & _).
  destruct (leaf_insert_binds l key v l' Hlen Hso Hn H1 H2) as [_ Hbind].
  rewrite (proj2 (Z.ltb_lt _ _)) in E by done.
  assert (Hdesc : descendForInsert key t = Ok ([], bt_rootId t, lowerBound (lf_keys l) key)).
  { unfold descendForInsert, descendToLeaf, empty_. rewrite (proj2 (Z.eqb_neq _ _)) by done.
    assert (Hdl : ∀ n, descend_loop n t key false [] (bt_rootId t) = Ok ([], bt_rootId t, lowerBound (lf_keys l) key))
      by (intros [|n]; cbn [descend_loop]; by rewrite Hl).
    rewrite Hdl. cbn [mbind outcome_bind]. rewrite Hl, Hd, Hkc. cbn [negb andb].
    destruct (Z.ltb_spec (Z.of_nat (lowerBound (lf_keys l) key)) (Z.of_nat (length (lf_keys l)))) as [Hlt|]; [|done].
    destruct (lookup_lt_is_Some_2 (lf_keys l) (lowerBound (lf_keys l) key)) as [k Hk]; [lia|].
    unfold at_. rewrite Hk. cbn [mbind outcome_bind]. destruct (Key_eqb k key) eqn:He; [|done].
    apply Key_eqb_spec in He as ->. by apply list_elem_of_lookup_2 in Hk. }
  exists (set_leaves (<[bt_rootId t := l']> (bt_leaves t)) t). split.
  - unfold BTree_insert. rewrite Hv. cbn [negb]. unfold mbind, M_bind, get, lift. unfold empty_ at 1.
    rewrite (proj2 (Z.eqb_neq _ _)) by done. rewrite Hdesc. cbv beta iota. unfold leaf. rewrite Hl. cbv beta iota.
    rewrite Hkc, (proj2 (Z.ltb_lt _ _)) by done. unfold on_leaf. rewrite Hl, E. reflexivity.
  - do 2 (split; [done|]). exists l'. split; [apply lookup_insert_eq|]. rewrite Hbind. by rewrite decide_True.
Qed.

(** Fourteen keys of 256 bytes in a leaf made for 158 entries of four-byte keys. *)
Definition long_key (n : Z) : Key := KeyBinary (n :: zeros 255).
Definition long_leaf : LeafNode :=
  let n := lf_node (LeafNode_create 8 BTreeNodeConfig_default) in
  mkLeafNode (set_page (setKeyCount 14 (page_ n)) n) (long_key <$> seqZ 1 14) (demo_ref <$> seqZ 1 14).
Definition long_tree : BTree SpaceManager unit :=
  set_leaves {[8 := long_leaf]} (setHeight 1 (setRoot 8
    (BTree_create (SpaceManager_make FirstFitPolicy) BTreeNodeConfig_default))).

Example btree_insert_overflows_long :
  capacity (lf_node long_leaf) = 158 ∧
  ∃ t', BTree_insert (long_key 15) (demo_ref 15) long_tree =
    (corruption "LeafNode: entry data exceeds page capacity", t').
Proof.
  split; [vm_compute; reflexivity|].
  destruct (btree_insert_overflows long_tree long_leaf (long_key 15) (demo_ref 15)) as (t' & E & _).
  - vm_compute. discriminate.
  - reflexivity.
  - repeat split; vm_compute; first [reflexivity|discriminate].
  - repeat constructor.
  - reflexivity.
  - reflexivity.
  - split; [vm_compute; discriminate|]. repeat constructor; vm_compute; first [reflexivity|discriminate].
  - apply (bool_decide_unpack (long_key 15 ∉ _)). vm_compute. exact I.
  - vm_compute. reflexivity.
  - vm_compute. reflexivity.
  - exists t'. exact E.
Qed.

(** an erasure that borrows from the right sibling leaf reports success but
    changes two other keys: the separator comes back, bound to the reference of
    the lent key, and the lent key is no longer found. *)
Theorem btree_borrow_corrupts :
  let t := demo_tree [1; 2; 3; 4] in
  let '(o, t') := BTree_erase (demo_key 1) t in
  o = Ok tt ∧
  BTree_find (demo_key 3) t = Ok (demo_ref 3) ∧
  BTree_find (demo_key 3) t' = invalidArgument "BTree: key not found" ∧
  BTree_find (demo_key 2) t' = Ok (demo_ref 3).
Proof. vm_compute. repeat split; reflexivity. Qed.
