(* ===== verification/TreeDict.v ===== *)
(** The tree as a dictionary: an abstract machine over a finite map of bindings,
    the set of keys that stand in internal nodes and the entry count, and the
    simulation of that machine by the tree over whole histories of calls. *)
From stdpp Require Import base strings list gmap decidable sorting sets.
From Stdlib Require Import ZArith Lia.
From S2P Require Import Prelude Config PageAlloc FreeSpace SpaceMgr Buffers Keys Nodes NodeFacts Tree TreeShape TreeFacts TreeSearch TreeInsert TreeErase TreeValid TreeRebalance TreeReach TreeDemo.

Definition key_enc (k : Key) : Z + Z + list Z :=
  match k with KeyUInt32 v => inl (inl v) | KeyUInt64 v => inl (inr v) | KeyBinary b => inr b end.
Definition key_dec (c : Z + Z + list Z) : Key :=
  match c with inl (inl v) => KeyUInt32 v | inl (inr v) => KeyUInt64 v | inr b => KeyBinary b end.
#[global] Instance Key_countable : Countable Key.
Proof. refine (inj_countable' key_enc key_dec _). by intros []. Defined.

(** ** The abstract machine *)

Record dict : Type := mkDict { d_map : gmap Key PageReference; d_seps : gset Key; d_size : Z }.
Definition dict_empty : dict := mkDict ∅ ∅ 0.

Inductive tree_op : Type := OpInsert (key : Key) (v : PageReference) | OpErase (key : Key) | OpClear (ord : list Z → list Z).

(** What one operation may answer and do.  A split drops the binding of one key [x]
    and a loan between leaves re-binds one separator; the machine leaves open
    when. *)
Inductive dict_step (d : dict) : tree_op → outcome unit → dict → Prop :=
  | ds_insert_invalid key v : PageReference_isValid v = false →
      dict_step d (OpInsert key v) (invalidArgument "BTree: invalid page reference") d
  | ds_insert_duplicate key v r : PageReference_isValid v = true → d_map d !! key = Some r →
      dict_step d (OpInsert key v) (invalidArgument "BTree: duplicate key") d
  | ds_insert key v : PageReference_isValid v = true → d_map d !! key = None → key ∉ d_seps d →
      dict_step d (OpInsert key v) (Ok tt) (mkDict (<[key:=v]> (d_map d)) (d_seps d) (u64 (d_size d + 1)))
  | ds_insert_split key v x : PageReference_isValid v = true → d_map d !! key = None → key ∉ d_seps d →
      x ∈ dom (<[key:=v]> (d_map d)) →
      dict_step d (OpInsert key v) (Ok tt)
        (mkDict (delete x (<[key:=v]> (d_map d))) ({[x]} ∪ d_seps d) (u64 (d_size d + 1)))
  | ds_erase_absent key : d_map d !! key = None →
      dict_step d (OpErase key) (invalidArgument "BTree: key not found") d
  | ds_erase key r seps o : d_map d !! key = Some r → seps ⊆ d_seps d → o = Ok tt ∨ fix_error o →
      dict_step d (OpErase key) o (mkDict (delete key (d_map d)) seps (u64 (d_size d - 1)))
  | ds_erase_loan key r lent r0 sep : d_map d !! key = Some r → lent ≠ key → d_map d !! lent = Some r0 →
      sep ∈ d_seps d →
      dict_step d (OpErase key) (Ok tt)
        (mkDict (<[sep:=r0]> (delete lent (delete key (d_map d)))) ({[lent]} ∪ d_seps d ∖ {[sep]})
           (u64 (d_size d - 1)))
  | ds_clear ord : dict_step d (OpClear ord) (Ok tt) dict_empty.

Inductive dict_run : dict → list (tree_op * outcome unit) → dict → Prop :=
  | dr_nil d : dict_run d [] d
  | dr_cons d c o d' h d'' : dict_step d c o d' → dict_run d' h d'' → dict_run d ((c, o) :: h) d''.

(** ** The dictionary a tree holds *)

Lemma list_to_map_same (l l' : list (Key * PageReference)) : NoDup l'.*1 → (∀ e, e ∈ l ↔ e ∈ l') →
  (list_to_map l : gmap Key PageReference) = list_to_map l'.
Proof.
  intros Hnd He. apply map_eq. intros k. apply option_eq. intros r.
  assert (Hfun : ∀ a b, (k, a) ∈ l' → (k, b) ∈ l' → a = b).
  { intros a b Ha%(elem_of_list_to_map_1 (M := gmap Key)) Hb%(elem_of_list_to_map_1 (M := gmap Key)); [congruence|done..]. }
  split; intros Hk%elem_of_list_to_map_2; apply elem_of_list_to_map_1'; naive_solver.
Qed.

Lemma interleave_perm {A} (ks : list A) ls : length ls = S (length ks) → interleave ks ls ≡ₚ ks ++ concat ls.
Proof.
  revert ls. induction ks as [|k ks IH]; intros [|l ls] Hl; cbn in *; try lia.
  - destruct ls; [done|cbn in Hl; lia].
  - rewrite IH by lia. rewrite <-Permutation_middle. constructor. by rewrite !app_assoc, (Permutation_app_comm l).
Qed.

Definition skeys (s : shallow) : list Key := match s with SNode _ ks _ => ks | _ => [] end.
Definition node_keys (p : ptree) : list Key := concat (skeys <$> pnodes p).

Lemma concat_perm_app {A B} (f g k : A → list B) l : (∀ x, x ∈ l → f x ≡ₚ g x ++ k x) →
  concat (f <$> l) ≡ₚ concat (g <$> l) ++ concat (k <$> l).
Proof.
  induction l as [|x l IH]; intros Hf; [done|]. cbn. rewrite IH by (intros; apply Hf; by right).
  rewrite (Hf x) by left. rewrite <-!app_assoc. apply Permutation_app_head.
  rewrite !app_assoc. apply Permutation_app_tail, Permutation_app_comm.
Qed.

(** The keys of a tree are those of its entries and those of its nodes. *)
Lemma inorder_split h p : uniform h p → inorder p ≡ₚ (entries p).*1 ++ node_keys p.
Proof.
  revert p. induction h as [|h IH]; intros [id es|id ks cs] Hu; cbn in Hu; try done.
  - rewrite entries_leaf. cbn. by rewrite app_nil_r.
  - destruct Hu as [Hl Hu]. cbn [inorder]. rewrite interleave_perm by (by rewrite length_fmap).
    rewrite (concat_perm_app _ (λ c, (entries c).*1) node_keys) by (rewrite Forall_forall in Hu; auto).
    rewrite entries_node. unfold node_keys at 2. cbn [pnodes fmap list_fmap concat skeys].
    assert (E1 : concat ((λ c, (entries c).*1) <$> cs) = (concat (entries <$> cs)).*1).
    { clear. induction cs as [|c cs IH]; [done|]. cbn. by rewrite IH, fmap_app. }
    assert (E2 : concat (node_keys <$> cs) = concat (skeys <$> concat (pnodes <$> cs))).
    { clear. induction cs as [|c cs IH]; [done|]. cbn. by rewrite IH, fmap_app, concat_app. }
    rewrite E1, E2, !app_assoc. apply Permutation_app_tail, Permutation_app_comm.
Qed.

Lemma no_fresh h p id : uniform h p → SFresh id ∉ pnodes p.
Proof.
  revert p. induction h as [|h IH]; intros [i es|i ks cs] Hu; cbn in Hu; try done; cbn [pnodes].
  - by intros ?%list_elem_of_singleton.
  - destruct Hu as [_ Hu]. rewrite Forall_forall in Hu. intros [?|(l & Hin & (c & -> & Hc)%list_elem_of_fmap)%elem_of_concat]%elem_of_cons; [done|].
    by apply (IH c (Hu c Hc)).
Qed.

Section dictionary.
Context {S W : Type} `{PageSpace S} `{BTreeWalSink W} `{Fo : ForeignPages}.
Notation BT := (BTree S W).
Implicit Types (t : BT).

Definition leaf_bindings t : list (Key * PageReference) :=
  concat ((λ '(_, l), zip (lf_keys l) (lf_refs l)) <$> map_to_list (bt_leaves t)).
Definition separators t : list Key := concat ((λ '(_, i), in_keys i) <$> map_to_list (bt_internals t)).

Definition dict_of t : dict :=
  mkDict (list_to_map (leaf_bindings t)) (list_to_set (separators t)) (bt_size t).

(** One operation, the condition under which it is made, and a history of calls. *)
Definition run_op (c : tree_op) : M BT unit :=
  match c with OpInsert key v => BTree_insert key v | OpErase key => BTree_erase key | OpClear ord => BTree_clear ord end.

Definition op_ok (c : tree_op) t : Prop :=
  match c with
  | OpInsert key _ => key_fits (bt_config t) key ∧ is_separator key t = false ∧ enough_pages t
  | OpErase _ => True
  | OpClear ord => ∀ l, ord l ≡ₚ l
  end.

Inductive tree_run : BT → list (tree_op * outcome unit) → BT → Prop :=
  | tr_nil t : tree_run t [] t
  | tr_cons t c o t' h t'' : op_ok c t → run_op c t = (o, t') → tree_run t' h t'' → tree_run t ((c, o) :: h) t''.

Lemma elem_of_leaf_bindings t k r : (k, r) ∈ leaf_bindings t ↔ stored_in_leaf t k r.
Proof.
  unfold leaf_bindings, stored_in_leaf. rewrite elem_of_concat. split.
  - intros (l & Hin & ([id lf] & -> & Hl)%list_elem_of_fmap). apply elem_of_map_to_list in Hl. eauto.
  - intros (id & l & Hl & Hin). eexists. split; [exact Hin|]. apply list_elem_of_fmap.
    exists (id, l). split; [done|]. by apply elem_of_map_to_list.
Qed.

Lemma elem_of_separators t k : k ∈ separators t ↔ is_separator k t = true.
Proof.
  unfold separators, is_separator. rewrite elem_of_concat, existsb_exists. split.
  - intros (l & Hin & ([id i] & -> & Hl)%list_elem_of_fmap). exists (id, i).
    rewrite <-list_elem_of_In, bool_decide_eq_true. done.
  - intros ([id i] & Hin & Hk). apply bool_decide_eq_true in Hk. exists (in_keys i). split; [done|].
    apply list_elem_of_fmap. exists (id, i). by rewrite list_elem_of_In.
Qed.

(** The tree stores the entries [E] and has the keys [I], the separators among
    them being those without an entry. *)
Record shows t (E : list entry) (I : list Key) : Prop := {
  sh_keys : NoDup I; sh_entries : NoDup E.*1; sh_sub : ∀ k, k ∈ E.*1 → k ∈ I;
  sh_dict : dict_of t = mkDict (list_to_map E) (list_to_set I ∖ list_to_set E.*1) (bt_size t) }.

Lemma holds_shows t p h : holds t p h → shows t (entries p) (inorder p).
Proof.
  intros Hh. pose proof (sorted_lt_NoDup _ (h_sorted _ _ _ Hh)) as Hnd.
  pose proof (entries_keys_NoDup t p h Hh) as Hne.
  assert (Hsub : ∀ k, k ∈ (entries p).*1 → k ∈ inorder p).
  { intros k (e & -> & He)%list_elem_of_fmap. by eapply entries_inorder, He; apply (h_uniform _ _ _ Hh). }
  split; [done..|]. unfold dict_of. f_equal.
  - apply list_to_map_same; [done|]. intros [k r]. by rewrite elem_of_leaf_bindings, (stored_entries_spec t p h).
  - apply set_eq. intros k. rewrite elem_of_difference, !elem_of_list_to_set, elem_of_separators.
    split; [|intros [Hk Hn]; by apply (unstored_separator t p h)].
    intros Hk. apply existsb_exists in Hk as ([id i] & Hin & Hk). apply bool_decide_eq_true in Hk.
    rewrite <-list_elem_of_In, elem_of_map_to_list in Hin.
    destruct (inv_internals _ _ (h_inv _ _ _ Hh) id ltac:(eauto)) as [Hs|(ks & cs & Hs)].
    { by destruct (no_fresh h p id (h_uniform _ _ _ Hh)). }
    destruct (Inv_node _ _ _ _ _ (h_inv _ _ _ Hh) Hs) as (i' & Hi & _ & Hks & _).
    rewrite Hin in Hi. injection Hi as <-. rewrite Hks in Hk.
    assert (Hnk : k ∈ node_keys p).
    { apply elem_of_concat. exists ks. split; [done|]. apply list_elem_of_fmap. by exists (SNode id ks cs). }
    rewrite (inorder_split h p (h_uniform _ _ _ Hh)) in Hnd |- *. apply NoDup_app in Hnd as (_ & Hnd & _).
    split; [apply elem_of_app; by right|]. intros Hke. by apply (Hnd k).
Qed.

Lemma nothing_shows t : holds_nothing t → shows t [] [].
Proof.
  intros Hn. split; [constructor|constructor|set_solver|]. unfold dict_of. f_equal.
  - apply (list_to_map_same _ []); [constructor|]. intros [k r]. rewrite elem_of_leaf_bindings. split; [|by intros ?%elem_of_nil].
    intros Hs. by destruct (nothing_stored t k r Hn).
  - apply set_eq. intros k. rewrite elem_of_list_to_set, elem_of_separators. split; [|set_solver].
    intros Hk. apply existsb_exists in Hk as ([id i] & Hin & _). rewrite <-list_elem_of_In, elem_of_map_to_list in Hin.
    destruct (inv_internals _ _ (hn_inv _ Hn) id ltac:(eauto)) as [Hs|(ks & cs & Hs)]; by apply elem_of_nil in Hs.
Qed.

Lemma shows_perm t E I E' I' : shows t E I → E ≡ₚ E' → I ≡ₚ I' → shows t E' I'.
Proof.
  intros [S1 S2 S3 S4] HE HI. rewrite HE in S2. split; [by rewrite <-HI|done|by setoid_rewrite <-HE; setoid_rewrite <-HI|].
  rewrite S4. f_equal.
  - apply list_to_map_same; [done|]. intros e. by rewrite HE.
  - apply set_eq. intros k. by rewrite !elem_of_difference, !elem_of_list_to_set, HE, HI.
Qed.

Lemma shows_lookup t E I k : shows t E I → k ∉ E.*1 → d_map (dict_of t) !! k = None.
Proof. intros [_ _ _ ->] Hk. cbn. by apply not_elem_of_list_to_map_1. Qed.

Lemma shows_found t E I k r : shows t E I → (k, r) ∈ E → d_map (dict_of t) !! k = Some r.
Proof. intros [_ Hn _ ->] Hk. cbn. by apply elem_of_list_to_map_1. Qed.

(** ** One operation *)

Lemma insert_shows t t' E I E' key v lost : shows t E I → shows t' E' (key :: I) → key ∉ I →
  PageReference_isValid v = true → (key, v) :: E ≡ₚ lost ++ E' → (length lost <= 1)%nat →
  bt_size t' = u64 (bt_size t + 1) → dict_step (dict_of t) (OpInsert key v) (Ok tt) (dict_of t').
Proof.
  intros Hs Hs' Hk Hv HE Hl Hz. pose proof (sh_entries _ _ _ Hs) as Hnd. pose proof (sh_entries _ _ _ Hs') as Hnd'.
  assert (Hkn : key ∉ E.*1) by (intros Hin; by apply Hk, (sh_sub _ _ _ Hs)).
  assert (Hks : key ∉ d_seps (dict_of t)) by (rewrite (sh_dict _ _ _ Hs); cbn; set_solver).
  pose proof (shows_lookup t E I key Hs Hkn) as Hlk. rewrite (sh_dict _ _ _ Hs').
  destruct lost as [|[x rx] [|? ?]]; cbn [app length] in HE, Hl; [| |lia].
  - replace (mkDict _ _ _) with (mkDict (<[key:=v]> (d_map (dict_of t))) (d_seps (dict_of t)) (u64 (d_size (dict_of t) + 1)));
      [by apply ds_insert|]. rewrite (sh_dict _ _ _ Hs). cbn. f_equal; [| |done].
    + apply (list_to_map_same ((key, v) :: E)); [done|]. intros e. by rewrite HE.
    + apply set_eq. intros k. rewrite !elem_of_difference, elem_of_union, !elem_of_list_to_set, elem_of_singleton.
      rewrite <-HE. cbn. rewrite elem_of_cons. naive_solver.
  - assert (Hnd2 : NoDup ((key, v) :: E).*1) by (cbn; by constructor).
    pose proof Hnd2 as Hx. rewrite HE in Hx. cbn in Hx. apply NoDup_cons in Hx as [Hx _].
    assert (Hxin : x ∈ ((key, v) :: E).*1) by (rewrite HE; left).
    replace (mkDict _ _ _) with (mkDict (delete x (<[key:=v]> (d_map (dict_of t)))) ({[x]} ∪ d_seps (dict_of t)) (u64 (d_size (dict_of t) + 1))).
    + apply ds_insert_split; [done..|]. rewrite (sh_dict _ _ _ Hs). cbn [d_map].
      change (x ∈ dom (list_to_map ((key, v) :: E) : gmap Key PageReference)). by rewrite dom_list_to_map_L, elem_of_list_to_set.
    + rewrite (sh_dict _ _ _ Hs). cbn [d_map d_seps d_size]. f_equal; [| |done].
      * change (<[key:=v]> (list_to_map E)) with (list_to_map ((key, v) :: E) : gmap Key PageReference).
        rewrite (list_to_map_same ((key, v) :: E) ((x, rx) :: E')); [|cbn; by constructor|intros e; by rewrite HE].
        cbn. rewrite delete_insert_eq. apply delete_id. by apply not_elem_of_list_to_map_1.
      * apply set_eq. intros k. rewrite elem_of_union, !elem_of_difference, elem_of_singleton, !elem_of_list_to_set.
        assert (Hkk : k ∈ ((key, v) :: E).*1 ↔ k ∈ ((x, rx) :: E').*1) by (by rewrite HE).
        cbn in Hkk, Hxin. rewrite !elem_of_cons in *. pose proof (sh_sub _ _ _ Hs x). destruct (decide (k = x)) as [->|]; naive_solver.
Qed.

Lemma erase_shows_kept t t' E E' I1 I' key r o : shows t ((key, r) :: E) (key :: I1) → shows t' E' I' →
  E' ≡ₚ E → (∀ k, k ∈ I' → k ∈ I1) → o = Ok tt ∨ fix_error o →
  bt_size t' = u64 (bt_size t - 1) → dict_step (dict_of t) (OpErase key) o (dict_of t').
Proof.
  intros Hs Hs' HE HI Ho Hz. pose proof (sh_entries _ _ _ Hs) as Hnd. cbn in Hnd. apply NoDup_cons in Hnd as [Hk Hnd].
  pose proof (sh_keys _ _ _ Hs) as Hki. apply NoDup_cons in Hki as [Hki _].
  assert (Hf : d_map (dict_of t) !! key = Some r) by (eapply shows_found; [exact Hs|left]).
  rewrite (sh_dict _ _ _ Hs'), Hz. change (bt_size t) with (d_size (dict_of t)).
  replace (list_to_map E') with (delete key (d_map (dict_of t))).
  - apply (ds_erase _ key r); [done| |done]. rewrite (sh_dict _ _ _ Hs). cbn [d_seps]. intros k.
    rewrite !elem_of_difference, !elem_of_list_to_set, HE. cbn. rewrite !elem_of_cons.
    intros [Hi Hn]. pose proof (HI k Hi). split; [by right|]. naive_solver.
  - rewrite (sh_dict _ _ _ Hs). cbn. rewrite delete_insert_eq, delete_id by (by apply not_elem_of_list_to_map_1).
    apply list_to_map_same; [by rewrite HE|]. intros e. by rewrite HE.
Qed.

Lemma erase_shows_lent t t' E I1 E' key r lent r0 sep : shows t ((key, r) :: (lent, r0) :: E) (key :: I1) →
  shows t' E' I1 → E' ≡ₚ (sep, r0) :: E → lent ≠ sep →
  bt_size t' = u64 (bt_size t - 1) → dict_step (dict_of t) (OpErase key) (Ok tt) (dict_of t').
Proof.
  intros Hs Hs'0 HE Hne Hz.
  assert (Hs' : shows t' ((sep, r0) :: E) I1) by (by eapply shows_perm; [exact Hs'0|..]).
  pose proof (sh_entries _ _ _ Hs) as Hnd. cbn in Hnd. apply NoDup_cons in Hnd as [Hk Hnd]. apply NoDup_cons in Hnd as [Hl Hnd].
  pose proof (sh_entries _ _ _ Hs') as Hnd'. cbn in Hnd'. apply NoDup_cons in Hnd' as [Hsn _].
  pose proof (sh_keys _ _ _ Hs) as Hki. apply NoDup_cons in Hki as [Hki _].
  pose proof (sh_sub _ _ _ Hs lent ltac:(cbn; set_solver)) as Hli. pose proof (sh_sub _ _ _ Hs' sep ltac:(cbn; set_solver)) as Hsi.
  rewrite !elem_of_cons in *. assert (Hlk : lent ≠ key) by naive_solver.
  assert (Hf : d_map (dict_of t) !! key = Some r) by (eapply shows_found; [exact Hs|left]).
  assert (Hf0 : d_map (dict_of t) !! lent = Some r0) by (eapply shows_found; [exact Hs|right; left]).
  assert (Hse : sep ∈ d_seps (dict_of t)).
  { rewrite (sh_dict _ _ _ Hs). cbn [d_seps]. rewrite elem_of_difference, !elem_of_list_to_set. cbn. rewrite !elem_of_cons. naive_solver. }
  pose proof (ds_erase_loan (dict_of t) key r lent r0 sep Hf Hlk Hf0 Hse) as Hstep.
  replace (dict_of t') with (mkDict (<[sep:=r0]> (delete lent (delete key (d_map (dict_of t)))))
    ({[lent]} ∪ d_seps (dict_of t) ∖ {[sep]}) (u64 (d_size (dict_of t) - 1))); [done|].
  rewrite (sh_dict _ _ _ Hs'), (sh_dict _ _ _ Hs). cbn [d_map d_seps d_size]. f_equal; [| |done].
  - cbn. rewrite delete_insert_eq, (delete_id (<[lent:=r0]> _)).
    + by rewrite delete_insert_eq, delete_id by (by apply not_elem_of_list_to_map_1).
    + rewrite lookup_insert_ne by done. apply not_elem_of_list_to_map_1. naive_solver.
  - apply set_eq. intros k. rewrite elem_of_union, !elem_of_difference, !elem_of_singleton, !elem_of_list_to_set.
    cbn. rewrite !elem_of_cons. destruct (decide (k = lent)) as [->|]; naive_solver.
Qed.

Lemma insert_step t key v o t' : reach t → op_ok (OpInsert key v) t → BTree_insert key v t = (o, t') →
  dict_step (dict_of t) (OpInsert key v) o (dict_of t').
Proof.
  intros Hr (Hkf & Hsep & Hroom) He. destruct (reach_good t Hr) as (Hcfg & Hnd & Ht).
  destruct (PageReference_isValid v) eqn:Hv.
  2:{ rewrite insert_invalid in He by done. injection He as <- <-. by apply ds_insert_invalid. }
  destruct Ht as [Hn|(p & h & Hh)].
  - destruct (insert_first t key v Hn Hcfg Hv Hkf) as (t1 & id & E1 & Hh' & _ & Hz).
    { by eapply room_le; [|exact Hroom]; lia. }
    rewrite E1 in He. injection He as <- <-.
    apply (insert_shows t t1 [] [] [(key, v)] key v []); try done; [by apply nothing_shows| |set_solver|cbn; lia].
    exact (holds_shows _ _ _ Hh').
  - pose proof (holds_shows t p h Hh) as Hs. destruct (decide (key ∈ (entries p).*1)) as [Hk|Hk].
    + rewrite (insert_duplicate t p h) in He by done. injection He as <- <-.
      apply list_elem_of_fmap in Hk as ([k r] & -> & Hk). apply (ds_insert_duplicate _ _ _ r); [done|].
      by eapply shows_found.
    + assert (Hni : key ∉ inorder p) by (by eapply separator_spec).
      destruct (insert_spec t p h key v Hh Hcfg Hv Hkf Hni) as (o1 & t1 & lost & E1 & (-> & p' & h' & Hh' & Hio & Hent & _ & Hz) & Hl).
      { intros _. by eapply enough_pages_room. }
      rewrite E1 in He. injection He as <- <-.
      apply (insert_shows t t1 (entries p) (inorder p) (entries p') key v lost); try done;
        [|by rewrite Hl; destruct (leaf_full t key); lia].
      eapply shows_perm; [exact (holds_shows _ _ _ Hh')|done|done].
Qed.

Lemma erase_step t key o t' : reach t → BTree_erase key t = (o, t') →
  dict_step (dict_of t) (OpErase key) o (dict_of t').
Proof.
  intros Hr He. destruct (reach_good t Hr) as (Hcfg & Hnd & [Hn|(p & h & Hh)]).
  { unfold BTree_erase in He. rewrite (M_step get _ t t t), (holds_nothing_empty _ Hn) in He by done.
    injection He as <- <-. apply ds_erase_absent. by eapply shows_lookup; [by apply nothing_shows|set_solver]. }
  pose proof (holds_shows t p h Hh) as Hs. destruct (decide (key ∈ (entries p).*1)) as [Hk|Hk].
  2:{ rewrite (erase_absent t p h) in He by done. injection He as <- <-. apply ds_erase_absent. by eapply shows_lookup. }
  apply list_elem_of_fmap in Hk as ([k r] & -> & Hk). cbn [fst] in *.
  destruct (erase_settles t p h k r Hh Hk) as (o1 & t1 & E1 & _ & Hz & Hres). rewrite E1 in He. injection He as <- <-.
  destruct Hres as [(-> & Ht1 & Hent)|(p1 & p' & h' & _ & Hio & Hent & Hh' & Hset & _)].
  - assert (Hin : k ∈ inorder p) by (apply (sh_sub _ _ _ Hs); rewrite Hent; left).
    apply elem_of_Permutation in Hin as [I1 HI1].
    apply (erase_shows_kept t t1 [] [] I1 [] k r); try done; [|by apply nothing_shows|set_solver|by left].
    eapply shows_perm; [exact Hs|by rewrite Hent|done].
  - pose proof (holds_shows t1 p' h' Hh') as Hs'.
    destruct Hset as [(Ho & Hsub & HE)|(-> & Hi & lent & sep & r0 & E & Hne & HE1 & HE2)].
    + apply (erase_shows_kept t t1 (entries p1) (entries p') (inorder p1) (inorder p') k r); try done.
      * by eapply shows_perm.
      * intros x Hx. by eapply elem_of_sublist.
    + apply (erase_shows_lent t t1 E (inorder p1) (entries p') k r lent r0 sep); try done.
      * eapply shows_perm; [exact Hs| |done]. by rewrite Hent, HE1.
      * by rewrite <-Hi.
Qed.

Lemma clear_dict t ord : good t → (∀ l, ord l ≡ₚ l) → dict_of (BTree_clear ord t).2 = dict_empty.
Proof. intros Hg Ho. by rewrite (sh_dict _ _ _ (nothing_shows _ (clear_nothing t ord Hg Ho))). Qed.

Lemma op_reach t c o t' : reach t → op_ok c t → run_op c t = (o, t') → reach t'.
Proof.
  intros Hr Hc He. replace t' with (run_op c t).2 by (by rewrite He).
  destruct c as [key v|key|ord]; [destruct Hc as (? & ? & ?); by apply reach_insert|by apply reach_erase|by apply reach_clear].
Qed.

Lemma run_simulates t h t' : reach t → tree_run t h t' → reach t' ∧ dict_run (dict_of t) h (dict_of t').
Proof.
  intros Hr Hrun. induction Hrun as [t|t c o t1 h t2 Hc He _ IH]; [split; [done|constructor]|].
  destruct (IH (op_reach t c o t1 Hr Hc He)) as [Hr2 IHd]. split; [done|]. eapply dr_cons, IHd.
  destruct c as [key v|key|ord]; [by apply insert_step|by apply erase_step|].
  pose proof (clear_dict t ord (reach_good t Hr) Hc) as Hd. cbn [run_op] in He. rewrite He in Hd. cbn [snd] in Hd.
  injection He as <- <-. rewrite Hd. constructor.
Qed.

Lemma find_lookup t k : reach t → BTree_find k t =
  match d_map (dict_of t) !! k with
  | Some r => Ok r
  | None => invalidArgument (if empty_ t then "BTree: tree is empty" else "BTree: key not found")
  end.
Proof.
  intros Hr. pose proof (good_find t k (reach_good t Hr)) as [F1 F2].
  assert (Hkey : ∀ r, d_map (dict_of t) !! k = Some r ↔ stored_in_leaf t k r).
  { intros r. rewrite <-F1. split.
    - intros Hl%elem_of_list_to_map_2. by apply F1, elem_of_leaf_bindings.
    - intros Hf. apply elem_of_list_to_map_1'; [|by apply elem_of_leaf_bindings, F1].
      intros r' Hr'%elem_of_leaf_bindings%F1. congruence. }
  destruct (d_map (dict_of t) !! k) as [r|] eqn:E; [by apply F1, Hkey|].
  apply F2. intros r Hs%Hkey. congruence.
Qed.

Lemma dict_create sp cfg : all_foreign sp → dict_of (BTree_create sp cfg) = dict_empty.
Proof. intros Hsp. by rewrite (sh_dict _ _ _ (nothing_shows _ (create_holds_nothing sp cfg Hsp))). Qed.
End dictionary.

(** ** Histories of the abstract machine *)

(** The references and the keys the history gave to successful insertions. *)
Definition given (h : list (tree_op * outcome unit)) (key : Key) (v : PageReference) : Prop :=
  (OpInsert key v, Ok tt) ∈ h.

(** Everything the dictionary [d] holds after the calls [h] was given to it, and
    the count covers the bindings. *)
Record accounted (h : list (tree_op * outcome unit)) (d : dict) : Prop := {
  ac_disjoint : dom (d_map d) ## d_seps d;
  ac_refs : ∀ k r, d_map d !! k = Some r → ∃ k', given h k' r;
  ac_keys : ∀ k, k ∈ dom (d_map d) ∨ k ∈ d_seps d → ∃ r, given h k r;
  ac_size : Z.of_nat (size (d_map d)) <= d_size d <= Z.of_nat (length h) }.

Lemma accounted_empty h : accounted h dict_empty.
Proof. split; cbn; [set_solver|set_solver|set_solver|rewrite map_size_empty; lia]. Qed.

Lemma accounted_more h e d : accounted h d → accounted (h ++ [e]) d.
Proof.
  intros [A1 A2 A3 A4]. assert (Hg : ∀ k r, given h k r → given (h ++ [e]) k r) by (intros k r Hin; apply elem_of_app; by left).
  split; [done|naive_solver|naive_solver|rewrite length_app; cbn; lia].
Qed.

Lemma given_last h k r k' r' : given (h ++ [(OpInsert k r, Ok tt)]) k' r' ↔ given h k' r' ∨ (k' = k ∧ r' = r).
Proof. unfold given. rewrite elem_of_app, list_elem_of_singleton. naive_solver. Qed.

Lemma given_before h e k r : given h k r → given (h ++ [e]) k r.
Proof. intros Hg. apply elem_of_app. by left. Qed.
#[local] Hint Resolve given_before : core.

(** A binding more: an insertion that keeps every entry. *)
Lemma accounted_insert h d key v n : accounted h d → d_map d !! key = None → key ∉ d_seps d →
  n = d_size d + 1 → accounted (h ++ [(OpInsert key v, Ok tt)]) (mkDict (<[key:=v]> (d_map d)) (d_seps d) n).
Proof.
  intros [A1 A2 A3 A4] Hn Hs ->. split; cbn [d_map d_seps d_size].
  - rewrite dom_insert. set_solver.
  - intros k r Hk. setoid_rewrite given_last. apply lookup_insert_Some in Hk as [[-> ->]|[_ Hk]]; naive_solver.
  - intros k Hk. setoid_rewrite given_last. rewrite dom_insert in Hk.
    assert (Hk' : k = key ∨ k ∈ dom (d_map d) ∨ k ∈ d_seps d) by set_solver. destruct Hk' as [->|Hk']; [|naive_solver].
    exists v. by right.
  - rewrite map_size_insert_None, length_app by done. cbn. lia.
Qed.

(** A binding that becomes a separator. *)
Lemma accounted_demote h d x seps : accounted h d → x ∈ dom (d_map d) → seps ⊆ {[x]} ∪ d_seps d →
  accounted h (mkDict (delete x (d_map d)) seps (d_size d)).
Proof.
  intros [A1 A2 A3 A4] [r Hx]%elem_of_dom Hs. split; cbn [d_map d_seps d_size].
  - rewrite dom_delete. set_solver.
  - intros k r' [_ Hk]%lookup_delete_Some. eauto.
  - intros k Hk. apply A3. rewrite dom_delete in Hk. destruct Hk as [Hk|Hk]; [set_solver|].
    apply Hs, elem_of_union in Hk as [->%elem_of_singleton|]; [left; by apply elem_of_dom|by right].
  - rewrite map_size_delete_Some by eauto. lia.
Qed.

(** A binding that goes, and possibly some separators with it. *)
Lemma accounted_remove h d key r seps : accounted h d → d_map d !! key = Some r → seps ⊆ d_seps d →
  accounted h (mkDict (delete key (d_map d)) seps (d_size d - 1)).
Proof.
  intros [A1 A2 A3 A4] Hk Hs. pose proof (map_size_ne_0_lookup_2 (d_map d) key (ex_intro _ r Hk)) as Hsz.
  split; cbn [d_map d_seps d_size].
  - rewrite dom_delete. set_solver.
  - intros k r' [_ Hr]%lookup_delete_Some. eauto.
  - intros k Hin. apply A3. rewrite dom_delete in Hin. set_solver.
  - rewrite map_size_delete_Some by eauto. lia.
Qed.

(** A reference that moves from the key [lent] to the separator [sep]. *)
Lemma accounted_loan h d lent sep r0 : accounted h d → d_map d !! lent = Some r0 → sep ∈ d_seps d →
  accounted h (mkDict (<[sep:=r0]> (delete lent (d_map d))) ({[lent]} ∪ d_seps d ∖ {[sep]}) (d_size d)).
Proof.
  intros [A1 A2 A3 A4] Hl Hs. assert (Hld : lent ∈ dom (d_map d)) by (by apply elem_of_dom; exists r0).
  assert (Hne : lent ≠ sep) by set_solver.
  assert (Hsn : d_map d !! sep = None) by (apply not_elem_of_dom; set_solver).
  pose proof (map_size_ne_0_lookup_2 (d_map d) lent (ex_intro _ r0 Hl)) as Hsz.
  split; cbn [d_map d_seps d_size].
  - rewrite dom_insert, dom_delete. set_solver.
  - intros k r. rewrite lookup_insert_Some, lookup_delete_Some. naive_solver.
  - intros k Hk. apply A3. rewrite dom_insert, dom_delete in Hk. destruct (decide (k = sep)) as [->|]; [by right|set_solver].
  - rewrite map_size_insert_None by (by rewrite lookup_delete_ne). rewrite map_size_delete_Some by eauto. lia.
Qed.

Lemma accounted_step h d c o d' : accounted h d → dict_step d c o d' → Z.of_nat (length h) < 2 ^ 64 - 1 →
  accounted (h ++ [(c, o)]) d'.
Proof.
  intros Ha Hst Hb. pose proof Ha as [A1 A2 A3 A4].
  assert (Hdec : ∀ k r, d_map d !! k = Some r → u64 (d_size d - 1) = d_size d - 1).
  { intros k r Hk. pose proof (map_size_ne_0_lookup_2 (d_map d) k (ex_intro _ r Hk)). apply u64_small. lia. }
  destruct Hst as [key v Hv|key v r Hv Hk|key v Hv Hk Hs|key v x Hv Hk Hs Hx|key Hk|key r seps o Hk Hs Ho|key r lent r0 sep Hk Hne Hl Hs|ord].
  - by apply accounted_more.
  - by apply accounted_more.
  - apply accounted_insert; try done. apply u64_small. lia.
  - rewrite u64_small by lia.
    eapply (accounted_insert h d key v) in Ha; [|done..]. by apply (accounted_demote _ _ x ({[x]} ∪ d_seps d)) in Ha.
  - by apply accounted_more.
  - rewrite (Hdec _ _ Hk). by eapply accounted_more, accounted_remove.
  - rewrite (Hdec _ _ Hk).
    apply accounted_more. eapply accounted_remove in Ha; [|exact Hk|reflexivity].
    apply (accounted_loan _ _ lent sep r0) in Ha; [exact Ha|by apply lookup_delete_Some|done].
  - apply accounted_empty.
Qed.

Lemma accounted_run h d h' d' : accounted h d → dict_run d h' d' → Z.of_nat (length (h ++ h')) < 2 ^ 64 →
  accounted (h ++ h') d'.
Proof.
  intros Ha Hr. revert h Ha. induction Hr as [d|d c o d1 h' d2 Hst _ IH]; intros h Ha Hb; [by rewrite app_nil_r|].
  rewrite length_app in Hb. cbn in Hb. rewrite cons_middle, app_assoc. apply IH.
  - apply (accounted_step h d); [done..|lia].
  - rewrite !length_app. cbn. lia.
Qed.

(** ** Claims *)



(** ** Concrete histories *)

(** The history the calls [cs] make, and a check that each is made under its
    condition. *)
Fixpoint demo_run (cs : list tree_op) (t : BTree SpaceManager unit) : list (tree_op * outcome unit) * BTree SpaceManager unit :=
  match cs with
  | [] => ([], t)
  | c :: cs => let '(o, t1) := run_op c t in let '(h, t2) := demo_run cs t1 in ((c, o) :: h, t2)
  end.

Definition demo_ok (c : tree_op) (t : BTree SpaceManager unit) : bool :=
  match c with
  | OpInsert key _ => (serializedSize key <=? keyWireSize (bt_config t)) && negb (is_separator key t) &&
      (nextPageId (pageAllocator_ (bt_space t)) + Z.of_nat (S (Z.to_nat (bt_height t))) <=? kMaxPageId + 1)
  | OpErase _ => true
  | OpClear _ => false
  end.

Fixpoint demo_oks (cs : list tree_op) (t : BTree SpaceManager unit) : bool :=
  match cs with [] => true | c :: cs => demo_ok c t && demo_oks cs (run_op c t).2 end.

Lemma demo_ok_call c t : reach t → demo_ok c t = true → op_ok c t.
Proof.
  destruct c as [key v|key|ord]; [|done..]. cbn. intros Hr ([Hk Hs]%andb_true_iff & Hp)%andb_true_iff.
  apply Z.leb_le in Hk, Hp. split_and!; [done|by destruct (is_separator key t)|by apply demo_enough].
Qed.

Lemma demo_run_ok cs t : reach t → demo_oks cs t = true → tree_run t (demo_run cs t).1 (demo_run cs t).2.
Proof.
  revert t. induction cs as [|c cs IH]; intros t Hr Hok; [constructor|]. cbn in *.
  apply andb_true_iff in Hok as [Hc Hok]. apply demo_ok_call in Hc; [|done].
  destruct (run_op c t) as [o t1] eqn:E. pose proof (op_reach t c o t1 Hr Hc E) as Hr1.
  specialize (IH t1 Hr1 Hok). destruct (demo_run cs t1) as [h t2]. by econstructor.
Qed.

Definition demo_calls : list tree_op :=
  ((λ n, OpInsert (demo_key n) (demo_ref n)) <$> [1; 2; 3; 4; 5; 6; 7; 8; 9]) ++ [OpErase (demo_key 1); OpErase (demo_key 7)].

Lemma reach_config (t : BTree SpaceManager unit) : reach t → config_ok (bt_config t).
Proof. by intros (? & _)%reach_good. Qed.

Lemma demo_calls_run : tree_run demo_empty (demo_run demo_calls demo_empty).1 (demo_run demo_calls demo_empty).2.
Proof. apply demo_run_ok; [apply demo_empty_reach|vm_compute; reflexivity]. Qed.


