(* ===== verification/Cursor.v ===== *)
(** The cursor (src/src/btree/Cursor.cpp, and the cursor operations of
    src/src/btree/BTree.cpp).

    A cursor points to a leaf, an internal node or a tree and keeps a position.
    The object it points to is part of its state here; the cursor never changes
    it, and a scan is meant for an object nobody changes meanwhile. *)
From stdpp Require Import base strings list gmap decidable sorting sets.
From Stdlib Require Import ZArith Lia.
From S2P Require Import Prelude Config PageAlloc FreeSpace SpaceMgr Buffers Keys Nodes NodeFacts Tree TreeShape TreeFacts TreeSearch TreeInsert TreeErase TreeValid TreeReach TreeDemo.

(** [mode_] with the pointer it selects; [None] is a null pointer. *)
Inductive Mode (S W : Type) : Type :=
  | Mode_None
  | Mode_Leaf (leaf_ : option LeafNode)
  | Mode_Internal (internal_ : option InternalNode)
  | Mode_Tree (tree_ : option (BTree S W)).
Arguments Mode_None {S W}.
Arguments Mode_Leaf {S W} _.
Arguments Mode_Internal {S W} _.
Arguments Mode_Tree {S W} _.

Record Cursor (S W : Type) : Type := mkCursor {
  cu_mode : Mode S W; cu_leafId : Z; cu_index : Z; cu_atEnd : bool }.
Arguments mkCursor {S W} _ _ _ _.
Arguments cu_mode {S W} _.
Arguments cu_leafId {S W} _.
Arguments cu_index {S W} _.
Arguments cu_atEnd {S W} _.

Section cursor.
Context {S W : Type} `{PageSpace S} `{BTreeWalSink W} `{Fo : ForeignPages}.
Notation BT := (BTree S W).
Notation Cur := (Cursor S W).

Definition Cursor_reset : Cur := mkCursor Mode_None kInvalidPageId 0 false.
Definition bindLeaf (node : option LeafNode) : Cur := mkCursor (Mode_Leaf node) kInvalidPageId 0 false.
Definition bindInternal (node : option InternalNode) : Cur :=
  mkCursor (Mode_Internal node) kInvalidPageId 0 false.
Definition bindTree (tree : option BT) (atEnd : bool) : Cur := mkCursor (Mode_Tree tree) kInvalidPageId 0 atEnd.

Definition Cursor_valid (c : Cur) : bool :=
  match cu_mode c with
  | Mode_Tree (Some t) =>
      negb (cu_atEnd c) &&
      match bt_leaves t !! cu_leafId c with
      | Some l => cu_index c <? keyCount (lf_node l)
      | None => false
      end
  | Mode_Leaf (Some l) => cu_index c <? Z.of_nat (length (lf_keys l))
  | Mode_Internal (Some i) => cu_index c <? Z.of_nat (length (in_keys i))
  | _ => false
  end.

Definition Cursor_isEnd (c : Cur) : bool :=
  match cu_mode c with Mode_Tree _ => cu_atEnd c | _ => negb (Cursor_valid c) end.

Definition set_index (i : Z) (c : Cur) : Cur := mkCursor (cu_mode c) (cu_leafId c) i (cu_atEnd c).
Definition set_atEnd (b : bool) (c : Cur) : Cur := mkCursor (cu_mode c) (cu_leafId c) (cu_index c) b.
(** [leafId_ = id; index_ = i; atEnd_ = false]. *)
Definition set_position (id i : Z) (c : Cur) : Cur := mkCursor (cu_mode c) id i false.

Definition Cursor_seek (i : Z) : M Cur unit := λ c,
  match cu_mode c with
  | Mode_Leaf (Some l) =>
      if Z.of_nat (length (lf_keys l)) <=? i
      then (invalidArgument "Cursor: leaf index out of range", c) else (Ok tt, set_index i c)
  | Mode_Internal (Some nd) =>
      if Z.of_nat (length (in_keys nd)) <=? i
      then (invalidArgument "Cursor: internal index out of range", c) else (Ok tt, set_index i c)
  | Mode_Tree (Some t) =>
      match bt_leaves t !! cu_leafId c with
      | Some l =>
          if keyCount (lf_node l) <=? i
          then (invalidArgument "Cursor: tree leaf index out of range", c)
          else (Ok tt, set_atEnd false (set_index i c))
      | None => (invalidArgument "Cursor: not bound to a node", c)
      end
  | _ => (invalidArgument "Cursor: not bound to a node", c)
  end.

(** [while (isInternal(id)) id = childAt(pick).pageId], down the first or the
    last children; a tree has fewer levels than internal nodes plus one. *)
Fixpoint edge_loop (fuel : nat) (last : bool) (t : BT) (id : Z) : outcome Z :=
  match bt_internals t !! id with
  | None => Ok id
  | Some node =>
      match fuel with
      | O => Fuel
      | Datatypes.S fuel =>
          ref ← at_ (in_children node) (if last then Z.to_nat (keyCount (in_node node)) else 0%nat);
          edge_loop fuel last t (pr_pageId ref)
      end
  end.
Definition leftmost (t : BT) (id : Z) : outcome Z := edge_loop (size (bt_internals t)) false t id.
Definition rightmost (t : BT) (id : Z) : outcome Z := edge_loop (size (bt_internals t)) true t id.

Definition Cursor_seekBegin : M Cur unit := λ c,
  match cu_mode c with
  | Mode_Tree (Some t) =>
      if empty_ t then (Ok tt, set_atEnd true c)
      else (id ← lift (leftmost t (bt_rootId t)); modify (set_position id 0)) c
  | _ => (invalidArgument "Cursor: tree not bound", c)
  end.
Definition Cursor_seekEnd : M Cur unit := λ c,
  match cu_mode c with
  | Mode_Tree (Some t) => (Ok tt, set_atEnd true c)
  | _ => (invalidArgument "Cursor: tree not bound", c)
  end.

(** The [for] over the children of a node: the first whose page is [leafId], 0
    when there is none; [n] children are looked at. *)
Fixpoint child_index (n : nat) (i : nat) (children : list PageReference) (leafId : Z) : outcome nat :=
  match n with
  | O => Ok 0%nat
  | Datatypes.S n =>
      ref ← at_ children i;
      if pr_pageId ref =? leafId then Ok i else child_index n (Datatypes.S i) children leafId
  end.

(** The path to the leaf: the loop [while (current != leafId_)] sets [current] to
    [leafId_] in its first round, so the path has the root at most. *)
Definition path_to_leaf (t : BT) (leafId : Z) : outcome SearchPath :=
  if bt_rootId t =? leafId then Ok []
  else
    match bt_internals t !! bt_rootId t with
    | None => invalidArgument "Cursor: leaf not reachable"
    | Some node =>
        i ← child_index (Z.to_nat (keyCount (in_node node) + 1)) 0 (in_children node) leafId;
        Ok [mkPathEntry (bt_rootId t) (u32 (Z.of_nat i)) (makeIndexRef (bt_rootId t))]
    end.

(** The [while (!path.empty())] of [advanceToNextLeaf]: the next leaf, if any. *)
Fixpoint next_leaf (t : BT) (path : SearchPath) : outcome (option Z) :=
  match path with
  | [] => Ok None
  | frame :: rest =>
      match bt_internals t !! pe_pageId frame with
      | None => Throw "std::out_of_range"
      | Some parent =>
          let nextChild := u32 (pe_childIndex frame + 1) in
          if nextChild <=? keyCount (in_node parent) then
            ref ← at_ (in_children parent) (Z.to_nat nextChild);
            id ← leftmost t (pr_pageId ref);
            Ok (Some id)
          else next_leaf t rest
      end
  end.

Definition advanceToNextLeaf : M Cur unit := λ c,
  match cu_mode c with
  | Mode_Tree (Some t) =>
      if empty_ t then (invalidArgument "Cursor: cannot advance", set_atEnd true c)
      else
        match path_to_leaf t (cu_leafId c) with
        | Ok path =>
            (found ← lift (next_leaf t path);
             match found with
             | Some id => modify (set_position id 0)
             | None => λ c, (invalidArgument "Cursor: end of tree", set_atEnd true c)
             end) c
        | Err e => (Err e, set_atEnd true c)
        | Throw w => (Throw w, c)
        | UB => (UB, c)
        | Fuel => (Fuel, c)
        end
  | _ => (invalidArgument "Cursor: cannot advance", set_atEnd true c)
  end.

Fixpoint previous_leaf (t : BT) (path : SearchPath) : outcome (option Z) :=
  match path with
  | [] => Ok None
  | frame :: rest =>
      if 0 <? pe_childIndex frame then
        match bt_internals t !! pe_pageId frame with
        | None => Throw "std::out_of_range"
        | Some parent =>
            ref ← at_pred (in_children parent) (pe_childIndex frame);
            id ← rightmost t (pr_pageId ref);
            Ok (Some id)
        end
      else previous_leaf t rest
  end.

(** Position at the last entry of the leaf [id], at 0 when it is empty. *)
Definition to_last (t : BT) (id : Z) : M Cur unit := λ c,
  match bt_leaves t !! id with
  | None => (Throw "std::out_of_range", mkCursor (cu_mode c) id (cu_index c) (cu_atEnd c))
  | Some l => (Ok tt, set_position id (if 0 <? keyCount (lf_node l) then keyCount (lf_node l) - 1 else 0) c)
  end.

Definition retreatToPreviousLeaf : M Cur unit := λ c,
  match cu_mode c with
  | Mode_Tree (Some t) =>
      if empty_ t then (invalidArgument "Cursor: cannot retreat", c)
      else
        (path ← lift (path_to_leaf t (cu_leafId c));
         found ← lift (previous_leaf t path);
         match found with
         | Some id => to_last t id
         | None => lift (invalidArgument "Cursor: beginning of tree")
         end) c
  | _ => (invalidArgument "Cursor: cannot retreat", c)
  end.

Definition Cursor_next : M Cur unit := λ c,
  match cu_mode c with
  | Mode_Tree (Some t) =>
      if cu_atEnd c then (invalidArgument "Cursor: end of tree", c)
      else
        match bt_leaves t !! cu_leafId c with
        | None => (Throw "std::out_of_range", c)
        | Some l =>
            if u64 (cu_index c + 1) <? keyCount (lf_node l) then (Ok tt, set_index (u64 (cu_index c + 1)) c)
            else advanceToNextLeaf c
        end
  | _ =>
      if negb (Cursor_valid c) then (invalidArgument "Cursor: invalid position", c)
      else
        let c := set_index (u64 (cu_index c + 1)) c in
        if negb (Cursor_valid c) then (invalidArgument "Cursor: end of node", c) else (Ok tt, c)
  end.

Definition Cursor_previous : M Cur unit := λ c,
  match cu_mode c with
  | Mode_Tree (Some t) =>
      if cu_atEnd c then
        if empty_ t then (invalidArgument "Cursor: empty tree", c)
        else (id ← lift (rightmost t (bt_rootId t)); to_last t id) c
      else if 0 <? cu_index c then (Ok tt, set_index (cu_index c - 1) c)
      else retreatToPreviousLeaf c
  | Mode_None => (invalidArgument "Cursor: not bound to a node", c)
  | _ =>
      if cu_index c =? 0 then (invalidArgument "Cursor: beginning of node", c)
      else (Ok tt, set_index (cu_index c - 1) c)
  end.

(** [scratchKey_] is never assigned, so it is the default key. *)
Definition currentKey (c : Cur) : outcome Key :=
  let elsewhere := Ok Key_default in
  match cu_mode c with
  | Mode_Tree (Some t) =>
      if cu_atEnd c then elsewhere
      else match bt_leaves t !! cu_leafId c with
           | Some l => index (lf_keys l) (Z.to_nat (cu_index c))
           | None => elsewhere
           end
  | Mode_Leaf (Some l) => match lf_keys l !! Z.to_nat (cu_index c) with Some k => Ok k | None => elsewhere end
  | Mode_Internal (Some i) => match in_keys i !! Z.to_nat (cu_index c) with Some k => Ok k | None => elsewhere end
  | _ => elsewhere
  end.

Definition currentReference (c : Cur) : outcome PageReference :=
  let elsewhere := Ok PageReference_invalid in
  match cu_mode c with
  | Mode_Tree (Some t) =>
      if cu_atEnd c then elsewhere
      else match bt_leaves t !! cu_leafId c with
           | Some l => at_ (lf_refs l) (Z.to_nat (cu_index c))
           | None => elsewhere
           end
  | Mode_Leaf (Some l) => match lf_refs l !! Z.to_nat (cu_index c) with Some r => Ok r | None => elsewhere end
  | Mode_Internal (Some i) => at_ (in_children i) (Z.to_nat (u64 (cu_index c + 1)))
  | _ => elsewhere
  end.

(** ** Positioning a cursor by key *)

(** [BTree::lowerBound]; the cursor given is rebound. *)
Definition BTree_lowerBound (key : Key) (t : BT) : M Cur unit := λ _,
  if empty_ t then (Ok tt, bindTree (Some t) true)
  else
    let c := bindTree (Some t) false in
    match descendToLeaf key false t with
    | Ok (_, id, i) =>
        match bt_leaves t !! id with
        | None => (Throw "std::out_of_range", c)
        | Some l =>
            let c := set_position (ip_id (page_ (lf_node l))) (Z.of_nat i) c in
            if keyCount (lf_node l) <=? Z.of_nat i then advanceToNextLeaf c else (Ok tt, c)
        end
    | Err e => (Err e, c)
    | Throw w => (Throw w, c)
    | UB => (UB, c)
    | Fuel => (Fuel, c)
    end.

(** [BTree::upperBound]: the same with the position after the key's equals. *)
Definition BTree_upperBound (key : Key) (t : BT) : M Cur unit := λ _,
  if empty_ t then (Ok tt, bindTree (Some t) true)
  else
    let c := bindTree (Some t) false in
    match descendToLeaf key false t with
    | Ok (_, id, _) =>
        match bt_leaves t !! id with
        | None => (Throw "std::out_of_range", c)
        | Some l =>
            let i := upperBound (lf_keys l) key in
            let c := set_position (ip_id (page_ (lf_node l))) (Z.of_nat i) c in
            if keyCount (lf_node l) <=? Z.of_nat i then advanceToNextLeaf c else (Ok tt, c)
        end
    | Err e => (Err e, c)
    | Throw w => (Throw w, c)
    | UB => (UB, c)
    | Fuel => (Fuel, c)
    end.

Definition Cursor_seekKey (key : Key) : M Cur unit := λ c,
  match cu_mode c with
  | Mode_Leaf (Some l) =>
      let i := lowerBound (lf_keys l) key in
      let c := set_index (Z.of_nat i) c in
      match lf_keys l !! i with
      | Some k => if Key_eqb k key then (Ok tt, c) else (invalidArgument "Cursor: key not found", c)
      | None => (invalidArgument "Cursor: key not found", c)
      end
  | Mode_Internal (Some nd) =>
      let i := lowerBound (in_keys nd) key in
      let c := set_index (Z.of_nat i) c in
      match in_keys nd !! i with
      | Some k => if Key_eqb k key then (Ok tt, c) else (invalidArgument "Cursor: key not found", c)
      | None => (invalidArgument "Cursor: key not found", c)
      end
  | Mode_Tree (Some t) => BTree_lowerBound key t c
  | _ => (invalidArgument "Cursor: not bound to a node", c)
  end.

(** The status of [seekBegin] is discarded. *)
Definition BTree_begin (t : BT) : outcome Cur :=
  let '(o, c) := ignore Cursor_seekBegin (bindTree (Some t) false) in _ ← o; Ok c.
Definition BTree_end (t : BT) : Cur := bindTree (Some t) true.

(** ** Scans *)

(** [for (c = begin(); c.valid(); c.next())], stopping at the first [next] that
    fails: what a reader of the cursor collects. *)
Fixpoint scan (n : nat) (c : Cur) : outcome (list (Key * PageReference)) :=
  match n with
  | O => Fuel
  | Datatypes.S n =>
      if Cursor_valid c then
        k ← currentKey c;
        r ← currentReference c;
        match Cursor_next c with
        | (Ok _, c') => rest ← scan n c'; Ok ((k, r) :: rest)
        | (Err _, _) => Ok [(k, r)]
        | (Throw w, _) => Throw w
        | (UB, _) => UB
        | (Fuel, _) => Fuel
        end
      else Ok []
  end.

(** [n] successful calls of [next]. *)
Fixpoint nexts (n : nat) (c : Cur) : option Cur :=
  match n with
  | O => Some c
  | Datatypes.S n => match Cursor_next c with (Ok _, c') => nexts n c' | _ => None end
  end.

(** A cursor of [t] at the entry [i] of the leaf [id]. *)
Definition at_entry (t : BT) (id : Z) (i : nat) : Cur := mkCursor (Mode_Tree (Some t)) id (Z.of_nat i) false.

Fixpoint first_leaf (p : ptree) : Z :=
  match p with
  | PLeaf id _ => id
  | PNode id _ [] => id
  | PNode _ _ (c :: _) => first_leaf c
  end.

Lemma leaf_not_internal t N id es : Inv t N → SLeaf id es ∈ N → bt_internals t !! id = None.
Proof.
  intros HI Hin. apply eq_None_not_Some. intros Hs.
  assert (Hdis : ∀ s, s ∈ N → sid s = id → s = SLeaf id es).
  { intros s Hsn Hid. pose proof (inv_nodup _ _ HI) as Hnd.
    apply list_elem_of_lookup in Hsn as [i Hi], Hin as [j Hj].
    assert (i = j) as <-; [|congruence].
    eapply (NoDup_lookup (sid <$> N)); [done|by rewrite list_lookup_fmap, Hi|rewrite list_lookup_fmap, Hj].
    cbn. by rewrite Hid. }
  destruct (inv_internals _ _ HI id Hs) as [Hn|(ks & cs & Hn)]; by specialize (Hdis _ Hn eq_refl).
Qed.

Lemma child_nodes id ks c cs s : s ∈ pnodes c → s ∈ pnodes (PNode id ks (c :: cs)).
Proof.
  intros Hs. cbn [pnodes]. apply elem_of_cons. right. apply elem_of_concat. exists (pnodes c).
  split; [done|]. apply list_elem_of_fmap_2. apply elem_of_cons. by left.
Qed.

Lemma edge_first t N : Inv t N → ∀ h p fuel, pnodes p ⊆ N → uniform h p → (h <= fuel)%nat →
  edge_loop fuel false t (pid p) = Ok (first_leaf p) ∧ ∃ es, SLeaf (first_leaf p) es ∈ pnodes p.
Proof.
  intros HI. induction h as [|h IH]; intros [id es|id ks cs] fuel Hsub Hu Hf; try done; cbn [pid first_leaf].
  - split; [|exists es; left]. assert (Hn := leaf_not_internal t N id es HI (Hsub _ ltac:(left))).
    destruct fuel; cbn [edge_loop]; by rewrite Hn.
  - destruct Hu as [Hl Hu]. destruct cs as [|c cs]; [done|]. apply Forall_cons in Hu as [Hc _].
    destruct (Inv_node t N id ks (pid <$> c :: cs) HI (Hsub _ ltac:(left))) as (i & Hi & Hr).
    destruct fuel as [|fuel]; [lia|]. cbn [edge_loop]. rewrite Hi.
    destruct Hr as (_ & _ & -> & _). cbn.
    destruct (IH c fuel) as [He [es Hes]]; [|done|lia|].
    { intros s Hs. by apply Hsub, child_nodes. }
    split; [done|]. exists es. by apply child_nodes.
Qed.

Lemma leftmost_spec t p h N : Inv t N → pnodes p ⊆ N → uniform h p → (h <= size (bt_internals t))%nat →
  leftmost t (pid p) = Ok (first_leaf p) ∧ ∃ es, SLeaf (first_leaf p) es ∈ N.
Proof.
  intros HI Hsub Hu Hf. destruct (edge_first t N HI h p _ Hsub Hu Hf) as [He [es Hes]].
  split; [done|]. exists es. by apply Hsub.
Qed.

Lemma holds_fuel t p h : holds t p h → (h <= size (bt_internals t))%nat.
Proof.
  intros Hh. etransitivity; [apply node_ids_height, (h_uniform _ _ _ Hh)|apply height_bound, (h_inv _ _ _ Hh)].
Qed.

Lemma begin_spec t p h : holds t p h → BTree_begin t = Ok (at_entry t (first_leaf p) 0).
Proof.
  intros Hh. unfold BTree_begin, ignore, Cursor_seekBegin. cbn [bindTree cu_mode].
  rewrite (holds_nonempty _ _ _ Hh), (h_root _ _ _ Hh).
  destruct (leftmost_spec t p h _ (h_inv _ _ _ Hh)) as [He _];
    [done|apply (h_uniform _ _ _ Hh)|by eapply holds_fuel|].
  unfold mbind, M_bind, lift. by rewrite He.
Qed.

(** ** Inside a leaf *)

Lemma leaf_repr_count c id es l : leaf_repr c id es l →
  keyCount (lf_node l) = Z.of_nat (length es) ∧ Z.of_nat (length es) < 2 ^ 32 ∧
  lf_keys l = es.*1 ∧ lf_refs l = es.*2.
Proof.
  intros ((Hwf & Hkc & _ & Hcap & _) & Hk & Hr & _). destruct Hwf as (_ & Hc & _).
  rewrite Hk, length_fmap in *. pose proof (computeCapacity_range (config_ (lf_node l)) Leaf).
  unfold capacity in *. repeat split; try done; lia.
Qed.

Lemma here t id es l i e : bt_leaves t !! id = Some l → leaf_repr (bt_config t) id es l → es !! i = Some e →
  Cursor_valid (at_entry t id i) = true ∧ currentKey (at_entry t id i) = Ok e.1 ∧
  currentReference (at_entry t id i) = Ok e.2 ∧
  Cursor_next (at_entry t id i) =
    (if (Datatypes.S i <? length es)%nat then (Ok tt, at_entry t id (Datatypes.S i))
     else advanceToNextLeaf (at_entry t id i)).
Proof.
  intros Hl Hr Hi. destruct (leaf_repr_count _ _ _ _ Hr) as (Hkc & Hb & Hk & Hrf).
  pose proof (lookup_lt_Some _ _ _ Hi) as Hlt.
  unfold Cursor_valid, currentKey, currentReference, Cursor_next, at_entry, index, at_.
  cbn [cu_mode cu_leafId cu_index cu_atEnd negb andb]. rewrite Hl, Hkc, Hk, Hrf, Nat2Z.id.
  rewrite !list_lookup_fmap, Hi. split; [by apply Z.ltb_lt; lia|]. do 2 (split; [done|]).
  replace (Z.of_nat i + 1) with (Z.of_nat (Datatypes.S i)) by lia. rewrite u64_small by lia.
  destruct (Nat.ltb_spec (Datatypes.S i) (length es)).
  - by rewrite (proj2 (Z.ltb_lt _ _)) by lia.
  - by rewrite (proj2 (Z.ltb_ge _ _)) by lia.
Qed.

(** What comes after the leaf [id], from whatever entry. *)
Definition leads_to t (id : Z) (next : option Z) : Prop :=
  ∀ i, match next with
       | Some id' => advanceToNextLeaf (at_entry t id i) = (Ok tt, at_entry t id' 0)
       | None => ∃ e c, advanceToNextLeaf (at_entry t id i) = (Err e, c)
       end.

Lemma scan_leaf t id es l i next m : bt_leaves t !! id = Some l → leaf_repr (bt_config t) id es l →
  leads_to t id next → (i < length es)%nat →
  scan (length es - i + m) (at_entry t id i) =
    match next with
    | Some id' => rest ← scan m (at_entry t id' 0); Ok (drop i es ++ rest)
    | None => Ok (drop i es)
    end.
Proof.
  intros Hl Hr Hnext. remember (length es - i)%nat as n eqn:Hn. revert i Hn.
  induction n as [|n IH]; intros i Hn Hi; [lia|]. destruct (lookup_lt_is_Some_2 es i Hi) as [e He].
  destruct (here t id es l i e Hl Hr He) as (Hv & Hk & Hrf & Hx). cbn [Nat.add scan].
  rewrite Hv, Hk, Hrf, Hx. cbn [mbind outcome_bind]. rewrite (drop_S es e i He). destruct e as [k r].
  destruct (Nat.ltb_spec (Datatypes.S i) (length es)) as [Hlt|Hge].
  - rewrite IH by lia. destruct next as [id'|]; [|done]. by destruct (scan m _).
  - rewrite drop_ge by lia. specialize (Hnext i). assert (n = 0%nat) as -> by lia. cbn [Nat.add].
    destruct next as [id'|].
    + rewrite Hnext. by destruct (scan m _).
    + by destruct Hnext as (er & c & ->).
Qed.

(** ** From leaf to leaf below the root *)

Lemma child_index_none n i refs id : (i + n <= length refs)%nat →
  (∀ r, r ∈ refs → pr_pageId r ≠ id) → child_index n i refs id = Ok 0%nat.
Proof.
  revert i. induction n as [|n IH]; intros i Hl Hno; [done|]. cbn [child_index].
  destruct (lookup_lt_is_Some_2 refs i) as [r Hr]; [lia|]. unfold at_. rewrite Hr. cbn [mbind outcome_bind].
  rewrite (proj2 (Z.eqb_neq _ _)); [apply IH; [lia|done]|]. apply Hno. by apply (list_elem_of_lookup_2 _ i).
Qed.

Lemma child_index_found n i refs id j r : (i <= j < i + n)%nat → (i + n <= length refs)%nat →
  NoDup (pr_pageId <$> refs) → refs !! j = Some r → pr_pageId r = id → child_index n i refs id = Ok j.
Proof.
  intros Hj Hl Hnd Hr Hid. revert i Hj Hl. induction n as [|n IH]; intros i Hj Hl; [lia|]. cbn [child_index].
  destruct (lookup_lt_is_Some_2 refs i) as [x Hx]; [lia|]. unfold at_. rewrite Hx. cbn [mbind outcome_bind].
  destruct (Z.eqb_spec (pr_pageId x) id) as [He|Hne].
  - f_equal. eapply (NoDup_lookup (pr_pageId <$> refs)); [done|by rewrite list_lookup_fmap, Hx|].
    rewrite list_lookup_fmap, Hr. cbn. congruence.
  - apply IH; [|lia]. assert (i ≠ j) by congruence. lia.
Qed.

Lemma leads_root_leaf t id es : holds t (PLeaf id es) 0 → leads_to t id None.
Proof.
  intros Hh i. unfold advanceToNextLeaf, at_entry, path_to_leaf. cbn [cu_mode cu_leafId].
  rewrite (holds_nonempty _ _ _ Hh), (h_root _ _ _ Hh). cbn [pid]. rewrite Z.eqb_refl. cbn. eauto.
Qed.

(** The root of a tree with internal nodes. *)
Lemma root_node t rid ks cs h : holds t (PNode rid ks cs) h →
  ∃ i, bt_internals t !! bt_rootId t = Some i ∧ bt_rootId t = rid ∧ in_children i = makeIndexRef <$> (pid <$> cs) ∧
    keyCount (in_node i) = Z.of_nat (length ks) ∧ Z.of_nat (length cs) <= kMaxPageId ∧ length cs = Datatypes.S (length ks) ∧
    NoDup (pid <$> cs) ∧ ∀ c, c ∈ cs → pid c ≠ rid.
Proof.
  intros Hh. pose proof (h_inv _ _ _ Hh) as HI.
  destruct (Inv_node t _ rid ks (pid <$> cs) HI ltac:(left)) as (i & Hi & Hr).
  destruct Hr as ((_ & Hkc & _) & Hks & Hch & _).
  exists i. rewrite (h_root _ _ _ Hh). cbn [pid]. rewrite Hks in Hkc.
  assert (Hlen : length cs = Datatypes.S (length ks)).
  { pose proof (h_uniform _ _ _ Hh) as Hu. destruct h; [done|]. apply Hu. }
  pose proof (inv_nodup _ _ HI) as Hnd. cbn [pnodes] in Hnd. rewrite fmap_cons in Hnd.
  apply NoDup_cons in Hnd as [Hni Hnd]. cbn [sid] in Hni.
  assert (Hsub : ∀ l, (pid <$> l) `sublist_of` (sid <$> concat (pnodes <$> l))).
  { clear. induction l as [|c l IH]; [done|]. rewrite !fmap_cons. cbn [concat]. rewrite fmap_app.
    destruct c; cbn; apply sublist_skip; [done|]. by apply sublist_inserts_l. }
  assert (Hndc : NoDup (pid <$> cs)) by (by eapply sublist_NoDup).
  do 4 (split; [done|]). split; [|split; [done|split; [done|]]].
  { rewrite <-(length_fmap pid). apply (pages_bound t _ _ HI Hndc). intros x Hx. cbn [pnodes].
    rewrite fmap_cons. apply elem_of_cons. right. by eapply elem_of_sublist. }
  intros c Hc Heq. apply Hni. rewrite <-Heq. eapply elem_of_sublist; [|apply Hsub]. by apply list_elem_of_fmap_2.
Qed.

Lemma leads_flat t rid ks cs j c : holds t (PNode rid ks cs) 1 → cs !! j = Some c →
  leads_to t (pid c) (pid <$> cs !! Datatypes.S j).
Proof.
  intros Hh Hj k. destruct (root_node _ _ _ _ _ Hh) as (i & Hi & Hroot & Hch & Hkc & Hb & Hlen & Hnd & Hne).
  unfold kMaxPageId, kMaxPageCount in Hb. pose proof (lookup_lt_Some _ _ _ Hj) as Hlt.
  assert (Hrl : length (in_children i) = Datatypes.S (length ks)) by (rewrite Hch, !length_fmap; done).
  assert (Hpath : path_to_leaf t (pid c) = Ok [mkPathEntry rid (Z.of_nat j) (makeIndexRef rid)]).
  { unfold path_to_leaf. rewrite Hi, Hroot, (proj2 (Z.eqb_neq _ _)).
    2:{ intros Heq. by apply (Hne c); [apply (list_elem_of_lookup_2 _ j)|]. }
    rewrite (child_index_found _ _ _ _ j (makeIndexRef (pid c))).
    - cbn. by rewrite u32_small by lia.
    - rewrite Hkc. lia.
    - rewrite Hkc, Hrl. lia.
    - rewrite Hch, <-list_fmap_compose. erewrite list_fmap_ext; [|intros ???; exact eq_refl]. by rewrite list_fmap_id.
    - by rewrite Hch, !list_lookup_fmap, Hj.
    - done. }
  unfold advanceToNextLeaf, at_entry. cbn [cu_mode cu_leafId].
  rewrite (holds_nonempty _ _ _ Hh), Hpath. cbn [next_leaf pe_pageId pe_childIndex].
  rewrite <-Hroot, Hi, Hkc. replace (Z.of_nat j + 1) with (Z.of_nat (Datatypes.S j)) by lia.
  rewrite u32_small by lia. unfold mbind at 1, M_bind at 1, lift.
  destruct (cs !! Datatypes.S j) as [c'|] eqn:Hj'; cbn [fmap option_fmap option_map].
  - pose proof (lookup_lt_Some _ _ _ Hj'). rewrite (proj2 (Z.leb_le _ _)), Nat2Z.id by lia.
    unfold at_. rewrite Hch, !list_lookup_fmap, Hj'. cbn [fmap option_fmap option_map mbind outcome_bind pr_pageId makeIndexRef PageReference_make].
    pose proof (h_uniform _ _ _ Hh) as [_ Hu]. rewrite Forall_lookup in Hu. specialize (Hu _ _ Hj').
    destruct (leftmost_spec t c' 0 _ (h_inv _ _ _ Hh)) as [He _]; [|done|lia|].
    { intros s Hs. cbn [pnodes]. apply elem_of_cons. right. apply elem_of_concat. exists (pnodes c').
      split; [done|]. apply list_elem_of_fmap_2. by apply (list_elem_of_lookup_2 _ (Datatypes.S j)). }
    rewrite He. destruct c'; [done|done].
  - apply lookup_ge_None in Hj'. rewrite (proj2 (Z.leb_gt _ _)) by lia. cbn. eauto.
Qed.

(** ** Whole scans *)

(** The leaves from the child [j] on. *)
Lemma scan_children t rid ks cs m : holds t (PNode rid ks cs) 1 → Forall (λ c, entries c ≠ []) cs →
  ∀ post j c, drop j cs = c :: post →
  scan (length (concat (entries <$> c :: post)) + m) (at_entry t (pid c) 0) = Ok (concat (entries <$> c :: post)).
Proof.
  intros Hh Hne. induction post as [|c' post IH]; intros j c Hd.
  all: assert (Hj : cs !! j = Some c)
    by (rewrite <-(Nat.add_0_r j), <-lookup_drop, Hd; done).
  all: assert (Hn : cs !! Datatypes.S j = head (drop (Datatypes.S j) cs))
    by (rewrite head_lookup, lookup_drop, Nat.add_0_r; done).
  all: assert (Hd' : drop (Datatypes.S j) cs = tail (drop j cs)) by (by rewrite (drop_S _ _ _ Hj)).
  all: rewrite Hd, Hd' in *; cbn [tail head] in *.
  all: pose proof (leads_flat t rid ks cs j c Hh Hj) as Hl; rewrite Hn in Hl; cbn in Hl.
  all: pose proof (h_uniform _ _ _ Hh) as [_ Hu]; rewrite Forall_lookup in Hu, Hne;
    pose proof (Hu _ _ Hj) as Huc; specialize (Hne _ _ Hj); destruct c as [id es|]; [|done].
  all: destruct (Inv_leaf t _ id es (h_inv _ _ _ Hh)) as (l & Hlk & Hr);
    [cbn [pnodes]; apply elem_of_cons; right; apply elem_of_concat; exists [SLeaf id es]; split; [left|];
     apply (list_elem_of_fmap_2 pnodes _ (PLeaf id es)); by apply (list_elem_of_lookup_2 _ j)|].
  all: assert (Hlen : (0 < length es)%nat) by (rewrite entries_leaf in Hne; destruct es; [done|cbn; lia]).
  all: rewrite !fmap_cons; cbn [concat pid]; rewrite entries_leaf, length_app, <-Nat.add_assoc.
  all: pose proof (λ n, scan_leaf t id es l 0 _ n Hlk Hr Hl Hlen) as Hs; rewrite Nat.sub_0_r in Hs; rewrite Hs, drop_0.
  - cbn. by rewrite app_nil_r.
  - specialize (IH (Datatypes.S j) c'). rewrite fmap_cons in IH. cbn [concat] in IH.
    cbn [option_map]. by rewrite IH.
Qed.

Lemma scan_all t p h : holds t p h → (h <= 1)%nat → Forall (λ s, ∀ id, s ≠ SLeaf id []) (pnodes p) →
  ∃ c, BTree_begin t = Ok c ∧ scan (Datatypes.S (length (entries p))) c = Ok (entries p).
Proof.
  intros Hh Hle Hne. exists (at_entry t (first_leaf p) 0). split; [by eapply begin_spec|].
  destruct p as [id es|rid ks cs].
  - destruct h; [|by destruct (h_uniform _ _ _ Hh)].
    destruct (Inv_leaf t _ id es (h_inv _ _ _ Hh)) as (l & Hl & Hr); [left|].
    assert (Hlen : (0 < length es)%nat).
    { destruct es; [|cbn; lia]. apply Forall_cons in Hne as [Hne _]. by destruct (Hne id). }
    pose proof (scan_leaf t id es l 0 None 1 Hl Hr (leads_root_leaf t id es Hh) Hlen) as Hs.
    rewrite Nat.sub_0_r, Nat.add_1_r, drop_0 in Hs. by rewrite entries_leaf.
  - destruct h as [|[|h]]; [by destruct (h_uniform _ _ _ Hh)| |lia].
    pose proof (h_uniform _ _ _ Hh) as [Hlen Hu]. destruct cs as [|c cs]; [done|].
    assert (Hne' : Forall (λ c, entries c ≠ []) (c :: cs)).
    { rewrite Forall_forall. rewrite Forall_forall in Hu. rewrite Forall_forall in Hne.
      intros c' Hc'. specialize (Hu c' Hc'). destruct c' as [id es|]; [|done].
      rewrite entries_leaf. intros ->. refine (Hne (SLeaf id []) _ id eq_refl).
      cbn [pnodes]. apply elem_of_cons. right. apply elem_of_concat. exists [SLeaf id []]. split; [left|].
      by apply (list_elem_of_fmap_2 pnodes _ (PLeaf id [])). }
    pose proof (scan_children t rid ks (c :: cs) 1 Hh Hne' cs 0 c eq_refl) as Hs.
    rewrite Nat.add_1_r in Hs. rewrite entries_node.
    apply Forall_cons in Hu as [Hu _]. destruct c as [id es|]; [|done]. exact Hs.
Qed.

(** ** Three levels and more *)

Lemma leads_deep t rid k ks c0 c1 cs h id es : holds t (PNode rid (k :: ks) (c0 :: c1 :: cs)) (Datatypes.S (Datatypes.S h)) →
  SLeaf id es ∈ pnodes (PNode rid (k :: ks) (c0 :: c1 :: cs)) →
  leads_to t id (Some (first_leaf c1)) ∧ ∃ es', SLeaf (first_leaf c1) es' ∈ pnodes (PNode rid (k :: ks) (c0 :: c1 :: cs)).
Proof.
  intros Hh Hin. set (ks' := k :: ks) in *. set (cs' := c0 :: c1 :: cs) in *. pose proof (h_inv _ _ _ Hh) as HI.
  destruct (root_node _ _ _ _ _ Hh) as (i & Hi & Hroot & Hch & Hkc & Hb & Hlen & _ & _).
  pose proof (h_uniform _ _ _ Hh) as [_ Hu]. pose proof (leaf_not_internal t _ id es HI Hin) as Hni.
  assert (Hrl : length (in_children i) = length cs') by (by rewrite Hch, !length_fmap).
  assert (Hsub : ∀ c, c ∈ cs' → pnodes c ⊆ pnodes (PNode rid ks' cs')).
  { intros c Hc s Hs. cbn [pnodes]. apply elem_of_cons. right. apply elem_of_concat. exists (pnodes c).
    split; [done|]. by apply list_elem_of_fmap_2. }
  assert (Hpath : path_to_leaf t id = Ok [mkPathEntry rid 0 (makeIndexRef rid)]).
  { unfold path_to_leaf. rewrite Hi, Hroot, (proj2 (Z.eqb_neq _ _)) by congruence.
    rewrite child_index_none; [done|rewrite Hkc, Hrl; lia|]. rewrite Hch.
    intros r (x & -> & (c & -> & Hc)%list_elem_of_fmap)%list_elem_of_fmap Heq. cbn in Heq.
    rewrite Forall_forall in Hu. specialize (Hu c Hc). destruct c as [|cid cks ccs]; [done|].
    destruct (Inv_node t _ cid cks (pid <$> ccs) HI) as (x & Hx & _); [apply (Hsub _ Hc); left|].
    cbn in Heq. congruence. }
  destruct (leftmost_spec t c1 (Datatypes.S h) _ HI) as [He Hl].
  { apply Hsub. set_solver. } { rewrite Forall_forall in Hu. apply Hu. set_solver. }
  { pose proof (holds_fuel _ _ _ Hh). lia. }
  split; [|done]. intros j. unfold advanceToNextLeaf, at_entry. cbn [cu_mode cu_leafId].
  rewrite (holds_nonempty _ _ _ Hh), Hpath. cbn [next_leaf pe_pageId pe_childIndex]. rewrite <-Hroot, Hi, Hkc.
  change (u32 (0 + 1)) with 1. rewrite (proj2 (Z.leb_le _ _)) by (cbn; lia).
  unfold mbind at 1, M_bind at 1, lift, at_. rewrite Hch, !list_lookup_fmap. unfold cs'.
  change (Z.to_nat 1) with 1%nat. cbn [lookup list_lookup fmap option_fmap option_map mbind outcome_bind pr_pageId
    makeIndexRef PageReference_make]. by rewrite He.
Qed.

Lemma nexts_deep t rid k ks c0 c1 cs h n : holds t (PNode rid (k :: ks) (c0 :: c1 :: cs)) (Datatypes.S (Datatypes.S h)) →
  ∀ id es i, SLeaf id es ∈ pnodes (PNode rid (k :: ks) (c0 :: c1 :: cs)) → (i <= length es)%nat →
  ∃ c, nexts n (at_entry t id i) = Some c ∧ Cursor_isEnd c = false.
Proof.
  intros Hh. induction n as [|n IH]; intros id es i Hin Hi; [by eexists|].
  destruct (leads_deep t rid k ks c0 c1 cs h id es Hh Hin) as [Hl [es' Hin']].
  destruct (Inv_leaf t _ id es (h_inv _ _ _ Hh) Hin) as (l & Hlk & Hr).
  destruct (leaf_repr_count _ _ _ _ Hr) as (Hkc & Hb & _).
  cbn [nexts]. unfold Cursor_next at 1. cbn [at_entry cu_mode cu_atEnd cu_leafId cu_index]. rewrite Hlk, Hkc.
  replace (Z.of_nat i + 1) with (Z.of_nat (Datatypes.S i)) by lia. rewrite u64_small by lia.
  destruct (Z.ltb_spec (Z.of_nat (Datatypes.S i)) (Z.of_nat (length es))) as [Hlt|Hge].
  - apply (IH id es (Datatypes.S i)); [done|lia].
  - rewrite (Hl i). apply (IH _ es'); [done|lia].
Qed.

(** ** Claims *)

Definition leaves_filled (t : BT) : Prop := ∀ id l, bt_leaves t !! id = Some l → lf_keys l ≠ [].

(** C13: on a reachable tree of one or two levels all of whose leaves have an
    entry, a scan with the cursor from [begin] visits exactly the stored entries,
    in ascending order of their keys, and ends. *)
Theorem cursor_scan_ordered t : reach t → empty_ t = false → bt_height t <= 2 → leaves_filled t →
  ∃ c es, BTree_begin t = Ok c ∧ scan (Datatypes.S (length es)) c = Ok es ∧ sorted_lt es.*1 ∧
    ∀ k r, (k, r) ∈ es ↔ stored_in_leaf t k r.
Proof.
  intros Hr Hne Hhe Hf. destruct (reach_good t Hr) as (_ & _ & [Ht|(p & h & Hh)]).
  { by rewrite (holds_nothing_empty _ Ht) in Hne. }
  pose proof (height_pages t p h Hh) as Hb. rewrite (h_height _ _ _ Hh), u32_small in Hhe
    by (unfold kMaxPageId, kMaxPageCount in Hb; lia).
  destruct (scan_all t p h Hh) as (c & Hc & Hs); [lia| |].
  - rewrite Forall_forall. intros s Hs id ->. destruct (Inv_leaf t _ id [] (h_inv _ _ _ Hh) Hs) as (l & Hl & _ & Hk & _).
    by apply (Hf id l Hl).
  - exists c, (entries p). do 2 (split; [done|]). split.
    + eapply sorted_sublist; [by eapply entries_sublist, (h_uniform _ _ _ Hh)|apply (h_sorted _ _ _ Hh)].
    + intros k r. by eapply stored_entries_spec.
Qed.

End cursor.

(** The condition on the leaves is needed: with nodes of one key an erasure can
    leave an empty leaf in front, where [begin] puts a cursor that is not valid,
    so that a scan visits nothing although another leaf has an entry. *)
Example cursor_stops_at_empty_leaf :
  let t := demo_erase (foldl demo_insert
    (BTree_create (SpaceManager_make FirstFitPolicy) (mkNodeConfig KT_Binary 3900 false 0)) [1; 2; 3]) 1 in
  BTree_find (demo_key 3) t = Ok (demo_ref 3) ∧ bt_height t = 2 ∧
  (c ← BTree_begin t; scan 9 c) = Ok [].
Proof. vm_compute. repeat split; reflexivity. Qed.

Lemma cursor_scan_ordered_witness :
  ∃ c es, BTree_begin (demo_tree [1; 2; 3; 4]) = Ok c ∧ scan (S (length es)) c = Ok es ∧ sorted_lt es.*1.
Proof.
  destruct (cursor_scan_ordered (demo_tree [1; 2; 3; 4]) demo_124_reach) as (c & es & Hc & Hs & Ho & _).
  - vm_compute. reflexivity.
  - vm_compute. discriminate.
  - assert (Hall : map_Forall (λ _ l, lf_keys l ≠ []) (bt_leaves (demo_tree [1; 2; 3; 4]))).
    { apply (bool_decide_unpack _). vm_compute. exact I. }
    intros id l Hl. exact (Hall id l Hl).
  - exists c, es. split; [exact Hc|]. split; [exact Hs|exact Ho].
Defined.

Lemma demo_deep_reach : reach demo_deep.
Proof.
  change demo_deep with (demo_tree [1; 2; 3; 4; 5; 6; 7; 8; 9]).
  change (demo_tree [1; 2; 3; 4; 5; 6; 7; 8; 9]) with
    (foldl demo_insert demo_empty [1; 2; 3; 4; 5; 6; 7; 8; 9]). cbn [foldl].
  repeat (apply demo_insert_reach; [|vm_compute; first [reflexivity|discriminate]..]).
  apply demo_empty_reach.
Qed.

