(* ===== verification/TreeSnapshot.v ===== *)
(** Whole trees as bytes and as figures (src/src/btree/BTree.cpp: serialize,
    deserialize, statistics; BTreeNode.cpp: serialize, deserialize, statistics;
    BTreeStatistics, TreeStatistics; the [deserializeBody] of the nodes).

    An index page is its 4096 bytes: the packed header followed by the packed
    layout.  [ord] is the order in which a hash map is traversed. *)
From stdpp Require Import base strings list gmap.
From Stdlib Require Import ZArith Lia.
From S2P Require Import Prelude Config Formats Doubles PageAlloc Buffers DbFile Pages PageFacts Keys Nodes NodeFacts Tree.

(** ** The bytes of an index page *)
Definition IndexPage_bytes (p : IndexPage) : list Z :=
  PageHeader_bytes (ip_header p) ++ le_bytes 4 (ip_nodeType p) ++ le_bytes 4 (ip_keyCount p) ++
  le_bytes 4 (ip_capacity p) ++ le_bytes 4 (ip_flags p) ++ concat (le_bytes 8 <$> ip_reserved p) ++ ip_data p.
Definition IndexPage_of (bs : list Z) : IndexPage :=
  mkIndexPage (PageHeader_of bs) (field 64 4 bs) (field 68 4 bs) (field 72 4 bs) (field 76 4 bs)
    [field 80 8 bs; field 88 8 bs; field 96 8 bs] (drop 104 bs).

Definition IndexPage_serialize (p : IndexPage) : M BinaryWriter unit :=
  BinaryWriter_writeBytes (IndexPage_bytes p).
Definition IndexPage_deserialize : M BinaryReader IndexPage :=
  bs ← BinaryReader_readBytes kPageSize; mret (IndexPage_of bs).

(** ** Nodes *)
Definition BTreeNode_serialize (n : BTreeNode) : M BinaryWriter unit := IndexPage_serialize (page_ n).
Definition BTreeNode_deserialize : M (BinaryReader * BTreeNode) unit :=
  p ← zoom fst (λ r s, (r, s.2)) IndexPage_deserialize;
  modify (λ s, (s.1, set_page p s.2));;
  zoom snd (λ n s, (s.1, n)) loadHeader.

(** The loop of [deserializeBody]: an entry is pushed once both parts were read. *)
Fixpoint readBody (n : nat) (bks : Z) : M (BinaryReader * (list Key * list PageReference)) unit :=
  match n with
  | O => mret tt
  | S n =>
      k ← zoom fst (λ r s, (r, s.2)) (Key_deserialize bks);
      ref ← zoom fst (λ r s, (r, s.2)) read_ref;
      modify (λ s, (s.1, (s.2.1 ++ [k], s.2.2 ++ [ref])));;
      readBody n bks
  end.
Definition LeafNode_deserializeBody : M (BinaryReader * LeafNode) unit := λ '(r, l),
  let '(o, (r, (keys, refs))) :=
    readBody (Z.to_nat (keyCount (lf_node l))) (binaryKeySize (config_ (lf_node l))) (r, ([], [])) in
  (o, (r, mkLeafNode (lf_node l) keys refs)).
Definition InternalNode_deserializeBody : M (BinaryReader * InternalNode) unit := λ '(r, i),
  let '(o, (r, (keys, children))) :=
    (leftChild ← zoom fst (λ r s, (r, s.2)) read_ref;
     modify (λ s, (s.1, (s.2.1, s.2.2 ++ [leftChild])));;
     readBody (Z.to_nat (keyCount (in_node i))) (binaryKeySize (config_ (in_node i)))) (r, ([], [])) in
  (o, (r, mkInternalNode (in_node i) keys children)).

Definition occupancyPercent (n : BTreeNode) : double :=
  if capacity n =? 0 then d_of_Z 0
  else d_mul (d_div (d_of_Z (keyCount n)) (d_of_Z (capacity n))) (d_of_Z 100).
(** The node type as the enumeration's underlying value. *)
Definition entry_bytes (n : BTreeNode) : Z := keyWireSize (config_ n) + PageReference_kSize.
Definition freeSpaceBytes (n : BTreeNode) : Z :=
  let used := u64 (keyCount n * entry_bytes n) in
  let total := if kBodyHeaderSize <? maxBodyBytes then maxBodyBytes - kBodyHeaderSize else 0 in
  if used <? total then total - used else 0.

Record BTreeStatistics : Set := mkBTreeStatistics {
  ns_keyCount : Z; ns_capacity : Z; ns_freeSlots : Z; ns_level : Z; ns_occupancyPercent : double;
  ns_estimatedUtilization : double; ns_usedBytes : Z; ns_freeBytes : Z; ns_nodeType : Z }.
Definition BTreeNode_statistics (n : BTreeNode) : BTreeStatistics :=
  let used := u64 (u64 (keyCount n * entry_bytes n) + kBodyHeaderSize) in
  mkBTreeStatistics (keyCount n) (capacity n) (u32 (freeSlots n)) (node_level n) (occupancyPercent n)
    (if 0 <? maxBodyBytes then d_mul (d_div (d_of_Z used) (d_of_Z maxBodyBytes)) (d_of_Z 100) else d_of_Z 0)
    used (freeSpaceBytes n) (ip_nodeType (page_ n)).
Definition computeStatistics (n : BTreeNode) : BTreeStatistics := BTreeNode_statistics n.

(** ** Trees *)
Record TreeStatistics : Set := mkTreeStatistics {
  ts_height : Z; ts_nodeCount : Z; ts_leafCount : Z; ts_internalCount : Z; ts_maxDepth : Z;
  ts_keyCount : Z; ts_averageOccupancy : double; ts_operations : TreeOperationStats }.

(** The wire form of a node configuration in the snapshot. *)
Definition dup_byte (c : BTreeNodeConfig) : Z := if allowDuplicates c then 1 else 0.
Fixpoint each {A S} (f : A → M S unit) (l : list A) : M S unit :=
  match l with [] => mret tt | a :: l => f a;; each f l end.

Section tree.
Context {S W : Type} `{PageSpace S} `{BTreeWalSink W}.
Notation BT := (BTree S W).

(** The entries of a map in the order [ord] gives its keys. *)
Definition traverse {A} (ord : list Z → list Z) (m : gmap Z A) : list A :=
  omap (λ id, m !! id) (ord (elements (dom m))).

Definition BTree_statistics (ord : list Z → list Z) (t : BT) : TreeStatistics :=
  if empty_ t then mkTreeStatistics (bt_height t) 0 0 0 (bt_height t) (bt_size t) (d_of_Z 0) (bt_opStats t)
  else
    let add (st : Z * double) (n : BTreeNode) := (u32 (st.1 + 1), d_add st.2 (occupancyPercent n)) in
    let '(leafCount, sum) := foldl add (0, d_of_Z 0) (lf_node <$> traverse ord (bt_leaves t)) in
    let '(internalCount, sum) := foldl add (0, sum) (in_node <$> traverse ord (bt_internals t)) in
    let nodeCount := u32 (leafCount + internalCount) in
    mkTreeStatistics (bt_height t) nodeCount leafCount internalCount (bt_height t) (bt_size t)
      (if 0 <? nodeCount then d_div sum (d_of_Z nodeCount) else d_of_Z 0) (bt_opStats t).

(** The pages of a tree, leaves first, as [serialize] writes them. *)
Definition tree_pages (ord : list Z → list Z) (t : BT) : list IndexPage :=
  ((λ l, page_ (lf_node l)) <$> traverse ord (bt_leaves t)) ++
  ((λ i, page_ (in_node i)) <$> traverse ord (bt_internals t)).

Definition BTree_serialize (ord : list Z → list Z) (t : BT) : M BinaryWriter unit :=
  BinaryWriter_write 4 (bt_rootId t);;
  BinaryWriter_write 8 (bt_size t);;
  BinaryWriter_write 4 (bt_height t);;
  BinaryWriter_write 1 (KeyType_value (keyType (bt_config t)));;
  BinaryWriter_write 2 (binaryKeySize (bt_config t));;
  BinaryWriter_write 1 (dup_byte (bt_config t));;
  BinaryWriter_write 4 (u32 (Z.of_nat (size (bt_leaves t) + size (bt_internals t))));;
  each (λ l, BTreeNode_serialize (lf_node l)) (traverse ord (bt_leaves t));;
  each (λ i, BTreeNode_serialize (in_node i)) (traverse ord (bt_internals t)).

(** [emplace] keeps the node a map already has under an id. *)
Definition emplace {A} (id : Z) (a : A) (m : gmap Z A) : gmap Z A :=
  match m !! id with Some _ => m | None => <[id := a]> m end.

Definition via_reader {A} (m : M BinaryReader A) : M (BinaryReader * BT) A := zoom fst (λ r s, (r, s.2)) m.
Definition upd_tree (f : BT → BT) : M (BinaryReader * BT) unit := modify (λ s, (s.1, f s.2)).
Definition upd_config (f : BTreeNodeConfig → BTreeNodeConfig) : M (BinaryReader * BT) unit :=
  upd_tree (λ t, mkBTree (bt_space t) (f (bt_config t)) (bt_rootId t) (bt_size t) (bt_height t)
    (bt_opStats t) (bt_wal t) (bt_leaves t) (bt_internals t)).

Definition load_node (p : IndexPage) : M (BinaryReader * BT) unit :=
  if ip_nodeType p =? NodeType_value Leaf
  then upd_tree (λ t, set_leaves (emplace (ip_id p) (LeafNode_fromPage p) (bt_leaves t)) t)
  else if ip_nodeType p =? NodeType_value Internal
  then upd_tree (λ t, set_internals (emplace (ip_id p) (InternalNode_fromPage p) (bt_internals t)) t)
  else lift (corruption "BTree: unknown node type in snapshot").
Fixpoint load_nodes (n : nat) : M (BinaryReader * BT) unit :=
  match n with
  | O => mret tt
  | Datatypes.S n => p ← via_reader IndexPage_deserialize; load_node p;; load_nodes n
  end.

(** [deserialize] after its [clear]. *)
Definition load_tree : M (BinaryReader * BT) unit :=
  rootId ← via_reader (BinaryReader_read 4);
  upd_tree (setRoot rootId);;
  storedSize ← via_reader (BinaryReader_read 8);
  upd_tree (set_size storedSize);;
  height ← via_reader (BinaryReader_read 4);
  upd_tree (setHeight height);;
  kt ← via_reader (BinaryReader_read 1);
  upd_config (λ c, mkNodeConfig (KeyType_cast kt) (binaryKeySize c) (allowDuplicates c) (level c));;
  bks ← via_reader (BinaryReader_read 2);
  upd_config (λ c, mkNodeConfig (keyType c) bks (allowDuplicates c) (level c));;
  dup ← via_reader (BinaryReader_read 1);
  upd_config (λ c, mkNodeConfig (keyType c) (binaryKeySize c) (negb (dup =? 0)) (level c));;
  nodeCount ← via_reader (BinaryReader_read 4);
  load_nodes (Z.to_nat nodeCount).
Definition BTree_deserialize (ord : list Z → list Z) : M (BinaryReader * BT) unit :=
  zoom snd (λ t s, (s.1, t)) (BTree_clear ord);;
  load_tree.
End tree.
