(* ===== verification/SnapshotFacts.v ===== *)
(** What the snapshots of trees are: index pages as bytes, the figures of a tree,
    and a whole tree written and read again. *)
From stdpp Require Import base strings list gmap.
From Stdlib Require Import ZArith Lia.
From S2P Require Import Prelude Config Formats Doubles PageAlloc SpaceMgr Buffers DbFile Pages PageFacts Keys Nodes NodeFacts Tree TreeDemo TreeSnapshot.

(** ** Index pages *)

Record IndexPage_ok (p : IndexPage) : Prop := {
  iok_header : PageHeader_ok (ip_header p);
  iok_nodeType : in_u 32 (ip_nodeType p); iok_keyCount : in_u 32 (ip_keyCount p);
  iok_capacity : in_u 32 (ip_capacity p); iok_flags : in_u 32 (ip_flags p);
  iok_reserved : length (ip_reserved p) = 3%nat; iok_words : Forall (in_u 64) (ip_reserved p);
  iok_data : length (ip_data p) = 3992%nat }.

Lemma length_index_bytes p : IndexPage_ok p → length (IndexPage_bytes p) = 4096%nat.
Proof.
  intros []. unfold IndexPage_bytes. rewrite !length_app, length_header_bytes, !length_le_bytes, iok_data0 by done.
  destruct (ip_reserved p) as [|a [|b [|c []]]]; [discriminate..| |discriminate].
  cbn [fmap list_fmap concat]. by rewrite !length_app, !length_le_bytes.
Qed.

Lemma drop_header h bs k : PageHeader_ok h → drop (64 + k) (PageHeader_bytes h ++ bs) = drop k bs.
Proof. intros H. rewrite <-drop_drop, drop_app_length' by (symmetry; by apply length_header_bytes). done. Qed.

Lemma index_page_roundtrip p : IndexPage_ok p → IndexPage_of (IndexPage_bytes p) = p.
Proof.
  intros [Hh ? ? ? ? Hl Hw Hd]. destruct p as [h ty kc cap fl rs d]. cbn -[IndexPage_of IndexPage_bytes in_u] in *.
  unfold IndexPage_of, IndexPage_bytes. cbn [ip_header ip_nodeType ip_keyCount ip_capacity ip_flags ip_reserved ip_data].
  destruct rs as [|a [|b [|c []]]]; try done. rewrite !Forall_cons in Hw. destruct Hw as (Ha & Hb & Hc & _).
  rewrite header_of_bytes by done. cbn [fmap list_fmap concat]. rewrite <-!app_assoc, app_nil_l.
  assert (F : ∀ k n bs, field (64 + k) n (PageHeader_bytes h ++ bs) = field k n bs).
  { intros. unfold field. by rewrite drop_header. }
  change (field 68) with (field (64 + 4)). change (field 72) with (field (64 + 8)).
  change (field 76) with (field (64 + 12)). change (field 80) with (field (64 + 16)).
  change (field 88) with (field (64 + 24)). change (field 96) with (field (64 + 32)).
  change (drop 104) with (drop (A:=Z) (64 + 40)). rewrite drop_header by done.
  change (field 64) with (field (64 + 0)). rewrite !F. unfold in_u in *. f_equal; fields; try done.
Qed.

Lemma index_emits p : emits (IndexPage_serialize p) (IndexPage_bytes p).
Proof. apply emits_writeBytes. Qed.
Lemma index_parses p : IndexPage_ok p → parses IndexPage_deserialize (IndexPage_bytes p) p.
Proof.
  intros H. unfold IndexPage_deserialize. rewrite <-(app_nil_r (IndexPage_bytes p)).
  eapply parses_bind.
  - change kPageSize with 4096. replace 4096 with (zlen (IndexPage_bytes p)); [apply parses_readBytes|].
    unfold zlen. by rewrite length_index_bytes.
  - rewrite <-(index_page_roundtrip p H) at 2. apply parses_ret.
Qed.

(** The record of an index page stands for the page class over bytes: a created
    page has the same buffer and header, and getters, [setKeyCount] and [validate]
    agree on any page whose buffer is the record's image. *)
Lemma index_page_refines_bytes id p q : in_u 32 id → IndexPage_ok p → Page_ok q → pg_data q = IndexPage_bytes p →
  IndexPage_bytes (IndexPage_create id) = pg_data (bp_page (page_create C_IndexPage id)) ∧
  ip_header (IndexPage_create id) = pg_header (bp_page (page_create C_IndexPage id)) ∧
  IndexBytes_nodeType q = ip_nodeType p ∧ IndexBytes_keyCount q = ip_keyCount p ∧
  IndexBytes_capacity q = ip_capacity p ∧ IndexBytes_flags q = ip_flags p ∧
  IndexBytes_validate q = IndexPage_validate p ∧
  (∀ c, pg_data (IndexBytes_setKeyCount c q) = IndexPage_bytes (setKeyCount c p)).
Proof.
  intros Hid Hp Hq Hd. pose proof (index_page_roundtrip p Hp) as Hr. rewrite <-Hd in Hr.
  assert (G : IndexBytes_nodeType q = ip_nodeType p ∧ IndexBytes_keyCount q = ip_keyCount p ∧
    IndexBytes_capacity q = ip_capacity p ∧ IndexBytes_flags q = ip_flags p) by (rewrite <-Hr; done).
  clear Hr. destruct G as (G1 & G2 & G3 & G4). split_and!; try done.
  - unfold IndexBytes_validate, IndexPage_validate. by rewrite G2, G3.
  - intros c. cbn [IndexBytes_setKeyCount payload_set payload_put set_pgdata pg_data]. rewrite Hd.
    unfold IndexPage_bytes. cbn [setKeyCount ip_header ip_nodeType ip_keyCount ip_capacity ip_flags ip_reserved ip_data].
    unfold splice. rewrite length_le_bytes, !(app_assoc (PageHeader_bytes _) (le_bytes 4 (ip_nodeType p))).
    assert (Hl : length (PageHeader_bytes (ip_header p) ++ le_bytes 4 (ip_nodeType p)) = 68%nat).
    { rewrite length_app, length_le_bytes, length_header_bytes by apply Hp. done. }
    rewrite take_app_length' by done. f_equal. f_equal.
    change (64 + 4 + 4)%nat with (68 + 4)%nat. rewrite <-drop_drop, (drop_app_length' _ _ 68), (drop_app_length' _ _ 4);
      [done|by rewrite length_le_bytes|done].
Qed.

(** ** The figures of a node *)

(** The used and the free bytes of a node that is not over its capacity add up to
    the body of its page. *)
Lemma node_bytes_add_up n t : node_wf t n → 0 <= binaryKeySize (config_ n) → 0 <= keyCount n <= capacity n →
  ns_usedBytes (BTreeNode_statistics n) + ns_freeBytes (BTreeNode_statistics n) = kIndexDataSize.
Proof.
  intros (_ & Hc & _ & _) Hb Hk. unfold capacity in Hk. rewrite Hc in Hk.
  assert (He : 0 <= entry_bytes n).
  { unfold entry_bytes, keyWireSize, PageReference_kSize. destruct (keyType (config_ n)); lia. }
  assert (Hm : keyCount n * entry_bytes n <= 3960).
  { destruct t; [exact (entries_fit _ _ Hk)|].
    pose proof (internal_entries_fit _ _ Hk) as Hi. change entryAreaSize with 3960 in Hi.
    change (entrySize (config_ n) Internal) with (entry_bytes n) in Hi. unfold PageReference_kSize in Hi. lia. }
  unfold BTreeNode_statistics, freeSpaceBytes. cbn [ns_usedBytes ns_freeBytes].
  change (kBodyHeaderSize <? maxBodyBytes) with true. change kBodyHeaderSize with 32.
  change (maxBodyBytes - 32) with 3960. change kIndexDataSize with 3992.
  rewrite (u64_small (keyCount n * entry_bytes n)) by nia. rewrite u64_small by nia.
  destruct (Z.ltb_spec (keyCount n * entry_bytes n) 3960); lia.
Qed.

(** ** Whole trees *)

Lemma KeyType_cast_value kt : (∀ b, kt = KT_Other b → b ≠ 1 ∧ b ≠ 2 ∧ b ≠ 3) → KeyType_cast (KeyType_value kt) = kt.
Proof.
  destruct kt as [| | |b]; try done. intros H. destruct (H b eq_refl) as (?&?&?). unfold KeyType_cast. cbn.
  by rewrite !(proj2 (Z.eqb_neq _ _)).
Qed.

Section tree.
Context {S W : Type} `{PageSpace S} `{BTreeWalSink W}.
Notation BT := (BTree S W).
Implicit Types t : BT.

Definition tree_wire (ord : list Z → list Z) (t : BT) : list Z :=
  le_bytes 4 (bt_rootId t) ++ le_bytes 8 (bt_size t) ++ le_bytes 4 (bt_height t) ++
  le_bytes 1 (KeyType_value (keyType (bt_config t))) ++ le_bytes 2 (binaryKeySize (bt_config t)) ++
  le_bytes 1 (dup_byte (bt_config t)) ++
  le_bytes 4 (u32 (Z.of_nat (size (bt_leaves t) + size (bt_internals t)))) ++
  concat (IndexPage_bytes <$> tree_pages ord t).

Lemma emits_each {A} (f : A → M BinaryWriter unit) (g : A → list Z) l :
  (∀ a, emits (f a) (g a)) → emits (each f l) (concat (g <$> l)).
Proof. intros Hf. induction l as [|a l IH]; [apply emits_nil|]. by apply emits_bind. Qed.

Lemma serialize_emits ord t : emits (BTree_serialize ord t) (tree_wire ord t).
Proof.
  unfold BTree_serialize, tree_wire, tree_pages. rewrite fmap_app, concat_app.
  do 7 (apply emits_bind; [apply emits_write|]).
  apply emits_bind; rewrite <-list_fmap_compose; apply emits_each; intros; apply index_emits.
Qed.

(** A step of the deserializer: it consumes [bs], answers [a] and changes the tree
    by [f]. *)
Definition stores {A} (m : M (BinaryReader * BT) A) (bs : list Z) (a : A) (f : BT → BT) : Prop :=
  ∀ pre post t, zlen (pre ++ bs ++ post) < 2 ^ 63 →
    m (reading pre (bs ++ post), t) = (Ok a, (reading (pre ++ bs) post, f t)).

Lemma stores_via {A} (m : M BinaryReader A) bs a : parses m bs a → stores (via_reader m) bs a id.
Proof. intros Hm pre post t Hl. unfold via_reader, zoom. cbn [fst snd]. by rewrite Hm. Qed.
Lemma stores_upd f : stores (upd_tree f) [] tt f.
Proof. intros pre post t _. cbn. by rewrite app_nil_r. Qed.
Lemma stores_bind {A B} (m : M (BinaryReader * BT) A) (k : A → M (BinaryReader * BT) B) a b x y f g :
  stores m a x f → stores (k x) b y g → stores (m ≫= k) (a ++ b) y (g ∘ f).
Proof.
  intros Hm Hk pre post t Hl. rewrite <-app_assoc in *. unfold mbind, M_bind. rewrite Hm by done.
  rewrite app_assoc in Hl. rewrite Hk by done. by rewrite <-app_assoc.
Qed.
(** A field that is read and stored in the tree. *)
Lemma stores_field {B} n v (f : Z → M (BinaryReader * BT) unit) (g : BT → BT)
    (k : M (BinaryReader * BT) B) bs y h :
  0 <= v < 256 ^ Z.of_nat n → stores (f v) [] tt g → stores k bs y h →
  stores (x ← via_reader (BinaryReader_read n); f x;; k) (le_bytes n v ++ bs) y (h ∘ g).
Proof.
  intros Hv Hf Hk. apply (stores_bind _ _ _ _ v y id (h ∘ g)).
  - by apply stores_via, parses_read.
  - change bs with ([] ++ bs). by apply stores_bind with tt.
Qed.

Definition add_page (t : BT) (p : IndexPage) : BT :=
  if ip_nodeType p =? NodeType_value Leaf
  then set_leaves (emplace (ip_id p) (LeafNode_fromPage p) (bt_leaves t)) t
  else set_internals (emplace (ip_id p) (InternalNode_fromPage p) (bt_internals t)) t.
Definition node_page (p : IndexPage) : Prop :=
  IndexPage_ok p ∧ (ip_nodeType p = NodeType_value Leaf ∨ ip_nodeType p = NodeType_value Internal).

Lemma load_nodes_stores ps : Forall node_page ps →
  stores (load_nodes (length ps)) (concat (IndexPage_bytes <$> ps)) tt (λ t, foldl add_page t ps).
Proof.
  induction 1 as [|p ps [Hp Ht] _ IH]; [apply (stores_upd id)|].
  cbn [length load_nodes fmap list_fmap concat foldl].
  apply (stores_bind _ _ _ _ p tt id (λ t, foldl add_page (add_page t p) ps)).
  { by apply stores_via, index_parses. }
  change (concat (IndexPage_bytes <$> ps)) with ([] ++ concat (IndexPage_bytes <$> ps)).
  apply (stores_bind _ _ _ _ tt tt (λ t, add_page t p) (λ t, foldl add_page t ps)); [|done].
  unfold load_node, add_page. destruct Ht as [-> | ->]; apply stores_upd.
Qed.

(** *** Traversals *)

Lemma elem_of_traverse {A} ord (m : gmap Z A) x : (∀ l, ord l ≡ₚ l) →
  x ∈ traverse ord m ↔ ∃ id, m !! id = Some x.
Proof.
  intros Hord. unfold traverse. rewrite list_elem_of_omap. split.
  - intros (id & _ & Hx). eauto.
  - intros [id Hx]. exists id. split; [|done]. rewrite Hord. apply elem_of_elements, elem_of_dom. eauto.
Qed.

Lemma length_traverse {A} ord (m : gmap Z A) : (∀ l, ord l ≡ₚ l) → length (traverse ord m) = size m.
Proof.
  intros Hord. unfold traverse.
  assert (Hl : ∀ ids : list Z, Forall (λ id, is_Some (m !! id)) ids → length (omap (λ id, m !! id) ids) = length ids).
  { induction 1 as [|id ids [x Hx] _ IH]; [done|]. cbn. rewrite Hx. cbn. by rewrite IH. }
  rewrite Hl.
  - rewrite (Permutation_length (Hord _)). rewrite <-size_dom. done.
  - apply Forall_forall. intros id Hid. rewrite Hord in Hid. by apply elem_of_elements, elem_of_dom in Hid.
Qed.

(** *** Pages put back into the maps *)

Lemma fold_leaf_other id ps t : (∀ p, p ∈ ps → ip_nodeType p = NodeType_value Leaf → ip_id p ≠ id) →
  bt_leaves (foldl add_page t ps) !! id = bt_leaves t !! id.
Proof.
  revert t. induction ps as [|p ps IH]; intros t Hp; [done|]. cbn [foldl]. rewrite IH by (intros; apply Hp; [by right|done]).
  unfold add_page. destruct (Z.eqb_spec (ip_nodeType p) (NodeType_value Leaf)) as [E|]; [|done].
  cbn [set_leaves bt_leaves]. unfold emplace. case_match; [done|]. apply lookup_insert_ne. apply Hp; [left|done].
Qed.
Lemma fold_internal_other id ps t : (∀ p, p ∈ ps → ip_nodeType p ≠ NodeType_value Leaf → ip_id p ≠ id) →
  bt_internals (foldl add_page t ps) !! id = bt_internals t !! id.
Proof.
  revert t. induction ps as [|p ps IH]; intros t Hp; [done|]. cbn [foldl]. rewrite IH by (intros; apply Hp; [by right|done]).
  unfold add_page. destruct (Z.eqb_spec (ip_nodeType p) (NodeType_value Leaf)) as [E|]; [done|].
  cbn [set_internals bt_internals]. unfold emplace. case_match; [done|]. apply lookup_insert_ne. apply Hp; [left|done].
Qed.

Lemma add_page_leaf p t : ip_nodeType p = NodeType_value Leaf → bt_leaves t !! ip_id p = None →
  bt_leaves (add_page t p) !! ip_id p = Some (LeafNode_fromPage p).
Proof.
  intros Ht Hn. unfold add_page. rewrite Ht. cbn. unfold emplace. rewrite Hn. apply lookup_insert_eq.
Qed.
Lemma add_page_internal p t : ip_nodeType p = NodeType_value Internal → bt_internals t !! ip_id p = None →
  bt_internals (add_page t p) !! ip_id p = Some (InternalNode_fromPage p).
Proof.
  intros Ht Hn. unfold add_page. rewrite Ht. cbn. unfold emplace. rewrite Hn. apply lookup_insert_eq.
Qed.

Lemma add_page_keep p t id :
  (∀ x, bt_leaves t !! id = Some x → bt_leaves (add_page t p) !! id = Some x) ∧
  (∀ x, bt_internals t !! id = Some x → bt_internals (add_page t p) !! id = Some x).
Proof.
  unfold add_page. case_match; cbn; unfold emplace; (split; [|]); intros x Hx; try done;
    case_match; try done; rewrite lookup_insert_ne; congruence.
Qed.
Lemma fold_keep ps t id :
  (∀ x, bt_leaves t !! id = Some x → bt_leaves (foldl add_page t ps) !! id = Some x) ∧
  (∀ x, bt_internals t !! id = Some x → bt_internals (foldl add_page t ps) !! id = Some x).
Proof.
  revert t. induction ps as [|p ps IH]; intros t; [done|]. cbn [foldl].
  destruct (IH (add_page t p)) as [IH1 IH2], (add_page_keep p t id) as [K1 K2]. split; eauto.
Qed.

(** The first page of an id is the one that stays; so if all pages of a kind with
    that id are the same, it is that one. *)
Lemma fold_leaf_found id ps t p : p ∈ ps → ip_nodeType p = NodeType_value Leaf → ip_id p = id →
  bt_leaves t !! id = None → (∀ q, q ∈ ps → ip_nodeType q = NodeType_value Leaf → ip_id q = id → q = p) →
  bt_leaves (foldl add_page t ps) !! id = Some (LeafNode_fromPage p).
Proof.
  revert t. induction ps as [|q ps IH]; intros t Hin Ht Hid Hn Hu; [by apply elem_of_nil in Hin|]. cbn [foldl].
  destruct (decide (ip_nodeType q = NodeType_value Leaf ∧ ip_id q = id)) as [[Hq1 Hq2]|Hq].
  - rewrite (Hu q) in * by (done || left). apply fold_keep. rewrite <-Hid in *. by apply add_page_leaf.
  - apply elem_of_cons in Hin as [->|Hin]; [tauto|]. apply IH; try done; [|intros; apply Hu; [by right|done..]].
    rewrite <-Hn. apply (fold_leaf_other id [q] t). intros ? ->%list_elem_of_singleton ? ?. tauto.
Qed.
Lemma fold_internal_found id ps t p : p ∈ ps → ip_nodeType p = NodeType_value Internal → ip_id p = id →
  bt_internals t !! id = None → (∀ q, q ∈ ps → ip_nodeType q ≠ NodeType_value Leaf → ip_id q = id → q = p) →
  bt_internals (foldl add_page t ps) !! id = Some (InternalNode_fromPage p).
Proof.
  revert t. induction ps as [|q ps IH]; intros t Hin Ht Hid Hn Hu; [by apply elem_of_nil in Hin|]. cbn [foldl].
  destruct (decide (ip_nodeType q ≠ NodeType_value Leaf ∧ ip_id q = id)) as [[Hq1 Hq2]|Hq].
  - rewrite (Hu q) in * by (done || left). apply fold_keep. rewrite <-Hid in *. by apply add_page_internal.
  - apply elem_of_cons in Hin as [->|Hin]; [destruct Hq; split; [by rewrite Ht|done]|].
    apply IH; try done; [|intros; apply Hu; [by right|done..]].
    rewrite <-Hn. apply (fold_internal_other id [q] t). intros ? ->%list_elem_of_singleton ? ?. tauto.
Qed.

(** Everything but the maps is left alone. *)
Lemma fold_meta ps t :
  let t' := foldl add_page t ps in
  bt_space t' = bt_space t ∧ bt_config t' = bt_config t ∧ bt_rootId t' = bt_rootId t ∧ bt_size t' = bt_size t ∧
  bt_height t' = bt_height t ∧ bt_opStats t' = bt_opStats t ∧ bt_wal t' = bt_wal t.
Proof.
  revert t. induction ps as [|p ps IH]; intros t; [done|]. cbn [foldl].
  destruct (IH (add_page t p)) as (?&?&?&?&?&?&?). unfold add_page in *. by case_match.
Qed.

(** A tree whose fields and pages fit their types, and whose maps file each page
    under its own id. *)
Record tree_fits (t : BT) : Prop := {
  tf_root : in_u 32 (bt_rootId t); tf_size : in_u 64 (bt_size t); tf_height : in_u 32 (bt_height t);
  tf_key : KeyType_cast (KeyType_value (keyType (bt_config t))) = keyType (bt_config t) ∧
           in_u 8 (KeyType_value (keyType (bt_config t)));
  tf_bks : in_u 16 (binaryKeySize (bt_config t));
  tf_count : in_u 32 (Z.of_nat (size (bt_leaves t) + size (bt_internals t)));
  tf_leaf : ∀ id l, bt_leaves t !! id = Some l →
    IndexPage_ok (page_ (lf_node l)) ∧ ip_nodeType (page_ (lf_node l)) = NodeType_value Leaf ∧
    ip_id (page_ (lf_node l)) = id;
  tf_internal : ∀ id i, bt_internals t !! id = Some i →
    IndexPage_ok (page_ (in_node i)) ∧ ip_nodeType (page_ (in_node i)) = NodeType_value Internal ∧
    ip_id (page_ (in_node i)) = id }.

Lemma elem_of_pages ord t p : (∀ l, ord l ≡ₚ l) → p ∈ tree_pages ord t ↔
  (∃ id l, bt_leaves t !! id = Some l ∧ p = page_ (lf_node l)) ∨
  (∃ id i, bt_internals t !! id = Some i ∧ p = page_ (in_node i)).
Proof.
  intros Hord. unfold tree_pages. rewrite elem_of_app, !list_elem_of_fmap. setoid_rewrite elem_of_traverse; [|done..].
  naive_solver.
Qed.

(** The page found under an id is the only page of its kind with that id. *)
Lemma tree_pages_leaf ord t q id l : (∀ l, ord l ≡ₚ l) → tree_fits t → bt_leaves t !! id = Some l →
  q ∈ tree_pages ord t → ip_nodeType q = NodeType_value Leaf → ip_id q = id → q = page_ (lf_node l).
Proof.
  intros Hord Ht Hl Hq Hty Hid. apply elem_of_pages in Hq as [(j & l' & Hj & ->)|(j & i & Hj & ->)]; [|..|done].
  - destruct (tf_leaf _ Ht _ _ Hj) as (_ & _ & E). congruence.
  - destruct (tf_internal _ Ht _ _ Hj) as (_ & E & _). rewrite E in Hty. done.
Qed.
Lemma tree_pages_internal ord t q id i : (∀ l, ord l ≡ₚ l) → tree_fits t → bt_internals t !! id = Some i →
  q ∈ tree_pages ord t → ip_nodeType q ≠ NodeType_value Leaf → ip_id q = id → q = page_ (in_node i).
Proof.
  intros Hord Ht Hl Hq Hty Hid. apply elem_of_pages in Hq as [(j & l' & Hj & ->)|(j & i' & Hj & ->)]; [|..|done].
  - destruct (tf_leaf _ Ht _ _ Hj) as (_ & E & _). done.
  - destruct (tf_internal _ Ht _ _ Hj) as (_ & _ & E). congruence.
Qed.

Lemma tree_pages_ok ord t : (∀ l, ord l ≡ₚ l) → tree_fits t → Forall node_page (tree_pages ord t).
Proof.
  intros Hord Ht. apply Forall_forall. intros p Hp.
  apply elem_of_pages in Hp as [(j & l & Hj & ->)|(j & i & Hj & ->)]; [|..|done]; split.
  1,2: destruct (tf_leaf _ Ht _ _ Hj) as (? & ? & _); auto.
  all: destruct (tf_internal _ Ht _ _ Hj) as (? & ? & _); auto.
Qed.

Lemma restored_maps ord t t0 : (∀ l, ord l ≡ₚ l) → tree_fits t → bt_leaves t0 = ∅ → bt_internals t0 = ∅ →
  let t' := foldl add_page t0 (tree_pages ord t) in
  bt_leaves t' = (λ l, LeafNode_fromPage (page_ (lf_node l))) <$> bt_leaves t ∧
  bt_internals t' = (λ i, InternalNode_fromPage (page_ (in_node i))) <$> bt_internals t.
Proof.
  intros Hord Ht H1 H2 t'. split; apply map_eq; intros id; rewrite lookup_fmap.
  - destruct (bt_leaves t !! id) as [l|] eqn:El; cbn [fmap option_fmap option_map].
    + destruct (tf_leaf _ Ht _ _ El) as (_ & Hty & Hid).
      apply fold_leaf_found; try done; [apply elem_of_pages; eauto 10|by rewrite H1|].
      intros q Hq Hq1 Hq2. by eapply tree_pages_leaf.
    + unfold t'. rewrite fold_leaf_other, H1; [done|]. intros p Hp Hty Hid.
      apply elem_of_pages in Hp as [(j & l & Hj & ->)|(j & i & Hj & ->)]; [|..|done].
      * destruct (tf_leaf _ Ht _ _ Hj) as (_ & _ & E). congruence.
      * destruct (tf_internal _ Ht _ _ Hj) as (_ & E & _). rewrite E in Hty. done.
  - destruct (bt_internals t !! id) as [i|] eqn:El; cbn [fmap option_fmap option_map].
    + destruct (tf_internal _ Ht _ _ El) as (_ & Hty & Hid).
      apply fold_internal_found; try done; [apply elem_of_pages; eauto 10|by rewrite H2|].
      intros q Hq Hq1 Hq2. by eapply tree_pages_internal.
    + unfold t'. rewrite fold_internal_other, H2; [done|]. intros p Hp Hty Hid.
      apply elem_of_pages in Hp as [(j & l & Hj & ->)|(j & i & Hj & ->)]; [|..|done].
      * destruct (tf_leaf _ Ht _ _ Hj) as (_ & E & _). done.
      * destruct (tf_internal _ Ht _ _ Hj) as (_ & _ & E). congruence.
Qed.

(** The tree that [deserialize] builds in [t0] from the snapshot of [t]. *)
Definition restored (ord : list Z → list Z) (t t0 : BT) : BT :=
  let c := bt_config t in
  foldl add_page
    (mkBTree (bt_space t0) (mkNodeConfig (keyType c) (binaryKeySize c) (allowDuplicates c) (level (bt_config t0)))
       (bt_rootId t) (bt_size t) (bt_height t) (bt_opStats t0) (bt_wal t0) (bt_leaves t0) (bt_internals t0))
    (tree_pages ord t).

Lemma stores_eq {A} (m : M (BinaryReader * BT) A) bs a f g : (∀ t, f t = g t) → stores m bs a f → stores m bs a g.
Proof. intros Hfg Hm pre post t Hl. by rewrite Hm, Hfg. Qed.

Lemma load_tree_stores ord t : (∀ l, ord l ≡ₚ l) → tree_fits t →
  stores load_tree (tree_wire ord t) tt (restored ord t).
Proof.
  intros Hord Ht. pose proof Ht as [Hr Hs Hh [Hk1 Hk2] Hb Hc _ _].
  assert (Hd : 0 <= dup_byte (bt_config t) < 256 ^ Z.of_nat 1) by (unfold dup_byte; case_match; cbn; lia).
  assert (Hn : length (tree_pages ord t) = (size (bt_leaves t) + size (bt_internals t))%nat).
  { unfold tree_pages. rewrite length_app, !length_fmap, !length_traverse; done. }
  eapply stores_eq; [|unfold load_tree, tree_wire;
    do 6 (eapply stores_field; [done|apply stores_upd|]);
    eapply stores_bind; [apply stores_via, parses_read; by apply (wrap_range 32)|]].
  2:{ unfold u32. rewrite wrap_small, Nat2Z.id by done. rewrite <-Hn. apply load_nodes_stores.
      by apply tree_pages_ok. }
  intros t0. unfold restored. cbn. f_equal. f_equal. rewrite Hk1. f_equal. unfold dup_byte. by case_match.
Qed.

(** C20: The snapshot of a tree is complete: [serialize] over storage that is
    already there, followed by [deserialize] into any tree, succeeds, consumes
    exactly the bytes written and rebuilds the root, the size, the height and the
    key configuration, and under the same ids the same pages; each node is what
    its page holds.  The order in which the hash maps are traversed does not
    matter. *)
Theorem tree_snapshot_roundtrip ord ord' t t0 w pre old post :
  (∀ l, ord l ≡ₚ l) → tree_fits t → Writer_ok w →
  buf_bytes (w_buffer w) = pre ++ old ++ post → w_offset w = zlen pre →
  length old = length (tree_wire ord t) →
  ∃ w' bytes t',
    BTree_serialize ord t w = (Ok tt, w') ∧
    buf_bytes (w_buffer w') = pre ++ bytes ++ post ∧ length bytes = length old ∧
    BTree_deserialize ord' (reading pre (bytes ++ post), t0) = (Ok tt, (reading (pre ++ bytes) post, t')) ∧
    bt_rootId t' = bt_rootId t ∧ bt_size t' = bt_size t ∧ bt_height t' = bt_height t ∧
    keyType (bt_config t') = keyType (bt_config t) ∧
    binaryKeySize (bt_config t') = binaryKeySize (bt_config t) ∧
    allowDuplicates (bt_config t') = allowDuplicates (bt_config t) ∧
    bt_leaves t' = (λ l, LeafNode_fromPage (page_ (lf_node l))) <$> bt_leaves t ∧
    bt_internals t' = (λ i, InternalNode_fromPage (page_ (in_node i))) <$> bt_internals t.
Proof.
  intros Hord Ht Hw Hbuf Hoff Hlen.
  destruct (in_place_roundtrip (BTree_serialize ord t) (BinaryReader_readBytes (zlen (tree_wire ord t)))
    (tree_wire ord t) (tree_wire ord t) w pre old post) as (w' & E1 & E2 & _ & _); try done.
  { apply serialize_emits. } { apply parses_readBytes. }
  set (t1 := (BTree_clear ord' t0).2).
  exists w', (tree_wire ord t), (restored ord t t1). do 3 (split; [done|]). split.
  { unfold BTree_deserialize, mbind, M_bind, zoom. cbn [fst snd].
    change (BTree_clear ord' t0) with (Ok tt, t1). apply load_tree_stores; try done.
    destruct Hw as (_ & Hs & _). unfold Buffer_size in Hs. rewrite Hbuf in Hs.
    unfold zlen in *. rewrite !length_app in *. lia. }
  unfold restored. set (m := mkBTree _ _ _ _ _ _ _ _ _).
  destruct (fold_meta (tree_pages ord t) m) as (_ & Hc & -> & -> & -> & _). rewrite Hc. split_and!; [done..| |];
    by apply (restored_maps ord t m).
Qed.
End tree.

(** A tree of one empty leaf. *)
Definition one_leaf : BTree SpaceManager unit :=
  mkBTree (SpaceManager_make FirstFitPolicy) BTreeNodeConfig_default 8 0 1 TreeOperationStats_default None
    {[8 := LeafNode_create 8 BTreeNodeConfig_default]} ∅.

Lemma created_leaf_page id c : in_u 32 id → in_u 32 (level c) →
  IndexPage_ok (page_ (lf_node (LeafNode_create id c))).
Proof.
  intros Hid Hlv. destruct (fresh_leaf id) as (_ & _ & H3). unfold LeafNode_create, on_leaf_node, zoom.
  set (l0 := LeafNode_fromPage (IndexPage_create id)) in *.
  pose proof (create_header Leaf c (lf_node l0)) as E. destruct (initializeHeader Leaf c (lf_node l0)) as [o n].
  cbn [snd lf_node] in *. rewrite E, H3. clear E H3. clearbody l0. split.
  - by apply header_make_ok.
  - done.
  - done.
  - apply (computeCapacity_range c Leaf).
  - cbn. by case_match.
  - done.
  - cbn. unfold in_u in *. repeat constructor; lia.
  - rewrite length_header_synced; [|by vm_compute]. cbn [page_ ip_data]. unfold zeros. by rewrite length_replicate.
Qed.

Lemma one_leaf_fits : tree_fits one_leaf.
Proof.
  split; try done. intros id l Hl. unfold one_leaf in Hl. cbn [bt_leaves] in Hl.
  apply lookup_singleton_Some in Hl as [<- <-].
  split; [by apply created_leaf_page|].
  destruct (LeafNode_create_spec 8 BTreeNodeConfig_default) as (((Hty & _) & _) & _ & _ & _ & Hid).
  split; assumption.
Qed.

Lemma tree_snapshot_roundtrip_witness :
  ∃ w' bytes t',
    BTree_serialize id one_leaf (mkWriter (mkBuffer (zeros (length (tree_wire id one_leaf))) 8192) 0) = (Ok tt, w') ∧
    buf_bytes (w_buffer w') = [] ++ bytes ++ [] ∧
    BTree_deserialize id (reading [] (bytes ++ []), one_leaf) = (Ok tt, (reading ([] ++ bytes) [], t')) ∧
    bt_rootId t' = 8 ∧ bt_height t' = 1 ∧
    bt_leaves t' = (λ l, LeafNode_fromPage (page_ (lf_node l))) <$> bt_leaves one_leaf.
Proof.
  destruct (tree_snapshot_roundtrip id id one_leaf one_leaf
    (mkWriter (mkBuffer (zeros (length (tree_wire id one_leaf))) 8192) 0) [] (zeros (length (tree_wire id one_leaf))) [])
    as (w' & bytes & t' & H1 & H2 & _ & H3 & H4 & _ & H5 & _ & _ & _ & H6 & _).
  - done.
  - exact one_leaf_fits.
  - by vm_compute.
  - by rewrite app_nil_r.
  - done.
  - unfold zeros. by rewrite length_replicate.
  - exists w', bytes, t'. exact (conj H1 (conj H2 (conj H3 (conj H4 (conj H5 H6))))).
Defined.
