(* ===== verification/Wal.v ===== *)
(** The write-ahead log, below its manager (src/include/quartz/wal/LogTypes.h,
    src/src/wal/LogSequenceNumber.cpp, LogRecord.cpp, LogValidator.cpp,
    LogStatistics.cpp, LogBuffer.cpp, LogFile.cpp).

    A sequence number is its 64-bit value.  The type of a record is its byte: the
    enumeration has a fixed underlying type and a deserialized record keeps any
    byte.  The payload of a record is the bytes of its buffer.  A log file owns
    its database file; [lf_attached] is [file_ != nullptr]. *)
From stdpp Require Import base strings list gmap sets pretty.
From Stdlib Require Import ZArith Lia.
From S2P Require Import Prelude Config Formats Doubles Buffers DbFile.

(** ** Types and sequence numbers *)
Definition kWalFormatVersion : Z := 1.
Definition kLogRecordAlignment : Z := 8.

Definition LogRecordType : Set := Z.
Definition LRT_Invalid : LogRecordType := 0.
Definition LRT_PageCreate : LogRecordType := 1.
Definition LRT_PageUpdate : LogRecordType := 2.
Definition LRT_PageDelete : LogRecordType := 3.
Definition LRT_NodeSplit : LogRecordType := 4.
Definition LRT_NodeMerge : LogRecordType := 5.
Definition LRT_Allocation : LogRecordType := 6.
Definition LRT_Deallocation : LogRecordType := 7.
Definition LRT_MetadataUpdate : LogRecordType := 8.
Definition LRT_CheckpointMarker : LogRecordType := 9.
Definition isValidRecordType (type : LogRecordType) : bool :=
  (LRT_Invalid <? type) && (type <=? LRT_CheckpointMarker).

Definition LSN : Set := Z.
Definition LSN_invalid : LSN := 0.
Definition LSN_initial : LSN := 1.
Definition LSN_isValid (l : LSN) : bool := negb (l =? LSN_invalid).
Definition LSN_next (l : LSN) : LSN := u64 (l + 1).
Definition LSN_serialize (l : LSN) : M BinaryWriter unit := BinaryWriter_write 8 l.
Definition LSN_deserialize : M BinaryReader LSN := BinaryReader_read 8.
Definition LSN_toString (l : LSN) : string :=
  if LSN_isValid l then "LSN(" +:+ pretty l +:+ ")" else "LSN(invalid)".

(** ** LogRecord *)
Record LogRecord : Set := mkLogRecord {
  lr_type : LogRecordType; lr_lsn : LSN; lr_timestamp : Z; lr_pageId : Z; lr_transactionId : Z;
  lr_checksum : Z; lr_reserved0 : Z; lr_reserved1 : Z; lr_payload : list Z }.
Definition LogRecord_default : LogRecord :=
  mkLogRecord LRT_Invalid LSN_invalid 0 kInvalidPageId 0 0 0 0 [].

(** [now] is the reading of the steady clock. *)
Definition LogRecord_make (now : Z) (type : LogRecordType) (pageId transactionId : Z) : LogRecord :=
  mkLogRecord type LSN_invalid now pageId transactionId 0 0 0 [].
Definition setLsn (l : LSN) (r : LogRecord) : LogRecord :=
  mkLogRecord (lr_type r) l (lr_timestamp r) (lr_pageId r) (lr_transactionId r) (lr_checksum r)
    (lr_reserved0 r) (lr_reserved1 r) (lr_payload r).
Definition LogRecord_setType (t : LogRecordType) (r : LogRecord) : LogRecord :=
  mkLogRecord t (lr_lsn r) (lr_timestamp r) (lr_pageId r) (lr_transactionId r) (lr_checksum r)
    (lr_reserved0 r) (lr_reserved1 r) (lr_payload r).
Definition LogRecord_setTimestamp (ts : Z) (r : LogRecord) : LogRecord :=
  mkLogRecord (lr_type r) (lr_lsn r) ts (lr_pageId r) (lr_transactionId r) (lr_checksum r)
    (lr_reserved0 r) (lr_reserved1 r) (lr_payload r).
Definition LogRecord_setPageId (id : Z) (r : LogRecord) : LogRecord :=
  mkLogRecord (lr_type r) (lr_lsn r) (lr_timestamp r) id (lr_transactionId r) (lr_checksum r)
    (lr_reserved0 r) (lr_reserved1 r) (lr_payload r).
Definition LogRecord_setTransactionId (id : Z) (r : LogRecord) : LogRecord :=
  mkLogRecord (lr_type r) (lr_lsn r) (lr_timestamp r) (lr_pageId r) id (lr_checksum r)
    (lr_reserved0 r) (lr_reserved1 r) (lr_payload r).
Definition LogRecord_setChecksum (c : Z) (r : LogRecord) : LogRecord :=
  mkLogRecord (lr_type r) (lr_lsn r) (lr_timestamp r) (lr_pageId r) (lr_transactionId r) c
    (lr_reserved0 r) (lr_reserved1 r) (lr_payload r).
Definition set_payload (bs : list Z) (r : LogRecord) : LogRecord :=
  mkLogRecord (lr_type r) (lr_lsn r) (lr_timestamp r) (lr_pageId r) (lr_transactionId r) (lr_checksum r)
    (lr_reserved0 r) (lr_reserved1 r) bs.

Definition LogRecord_toString (r : LogRecord) : string :=
  "LogRecord(type=" +:+ pretty (lr_type r) +:+ ", lsn=" +:+ LSN_toString (lr_lsn r) +:+
  ", pageId=" +:+ pretty (lr_pageId r) +:+ ", txn=" +:+ pretty (lr_transactionId r) +:+
  ", payload=" +:+ pretty (zlen (lr_payload r)) +:+ " bytes)".

Definition wireSize (r : LogRecord) : Z := 1 + 4 + 8 * 2 + 4 + 8 + 4 * 3 + zlen (lr_payload r).

Definition LogRecord_serialize (r : LogRecord) : M BinaryWriter unit :=
  _ ← BinaryWriter_write 1 (lr_type r);
  _ ← LSN_serialize (lr_lsn r);
  _ ← BinaryWriter_write 8 (lr_timestamp r);
  _ ← BinaryWriter_write 4 (lr_pageId r);
  _ ← BinaryWriter_write 8 (lr_transactionId r);
  let payloadLen := u32 (zlen (lr_payload r)) in
  _ ← BinaryWriter_write 4 payloadLen;
  _ ← BinaryWriter_write 4 (lr_checksum r);
  _ ← BinaryWriter_write 4 (lr_reserved0 r);
  _ ← BinaryWriter_write 4 (lr_reserved1 r);
  if 0 <? payloadLen then BinaryWriter_writeBytes (lr_payload r) else mret tt.

(** The payload vector is resized to the length read before the bytes are known
    to be there; that this takes memory, up to 4 GiB, is not part of the model
    here (but see the fuzz target in Tools). *)
Definition LogRecord_deserialize : M BinaryReader LogRecord :=
  typeByte ← BinaryReader_read 1;
  lsn ← LSN_deserialize;
  timestamp ← BinaryReader_read 8;
  pageId ← BinaryReader_read 4;
  transactionId ← BinaryReader_read 8;
  payloadLen ← BinaryReader_read 4;
  checksum ← BinaryReader_read 4;
  reserved0 ← BinaryReader_read 4;
  reserved1 ← BinaryReader_read 4;
  payload ← (if 0 <? payloadLen then BinaryReader_readBytes payloadLen else mret []);
  mret (mkLogRecord typeByte lsn timestamp pageId transactionId checksum reserved0 reserved1 payload).

(** ** LogValidator *)
Definition validateReservedFields (r : LogRecord) : outcome unit := Ok tt.
Definition validateRecordHeader (r : LogRecord) : outcome unit :=
  if negb (isValidRecordType (lr_type r)) then corruption "LogValidator: invalid record type"
  else if negb (LSN_isValid (lr_lsn r)) then corruption "LogValidator: invalid LSN"
  else if lr_timestamp r =? 0 then corruption "LogValidator: missing timestamp"
  else Ok tt.
Definition validateRecord (r : LogRecord) : outcome unit :=
  _ ← validateRecordHeader r; validateReservedFields r.
Definition validateLsnOrdering (previous current : LSN) : outcome unit :=
  if negb (LSN_isValid current) then corruption "LogValidator: invalid LSN in sequence"
  else if LSN_isValid previous && (current <=? previous)
  then corruption "LogValidator: LSN not strictly increasing"
  else Ok tt.

(** ** LogStatistics *)
Record LogStatistics : Set := mkLogStatistics {
  ls_recordCount : Z; ls_bytesWritten : Z; ls_bytesRead : Z; ls_flushCount : Z; ls_bufferUsage : Z;
  ls_largestRecord : Z; ls_averageRecordSize : double; ls_currentLsn : LSN; ls_lastFlushedLsn : LSN }.
Definition LogStatistics_default : LogStatistics :=
  mkLogStatistics 0 0 0 0 0 0 (d_of_Z 0) LSN_invalid LSN_invalid.
Definition log_recordWrite (bytes recordCount : Z) (s : LogStatistics) : LogStatistics :=
  let count := u64 (ls_recordCount s + recordCount) in
  let written := u64 (ls_bytesWritten s + bytes) in
  mkLogStatistics count written (ls_bytesRead s) (ls_flushCount s) (ls_bufferUsage s) (ls_largestRecord s)
    (if 0 <? count then d_div (d_of_Z written) (d_of_Z count) else ls_averageRecordSize s)
    (ls_currentLsn s) (ls_lastFlushedLsn s).
Definition log_recordRead (bytes : Z) (s : LogStatistics) : LogStatistics :=
  mkLogStatistics (ls_recordCount s) (ls_bytesWritten s) (u64 (ls_bytesRead s + bytes)) (ls_flushCount s)
    (ls_bufferUsage s) (ls_largestRecord s) (ls_averageRecordSize s) (ls_currentLsn s) (ls_lastFlushedLsn s).
Definition log_recordFlush (s : LogStatistics) : LogStatistics :=
  mkLogStatistics (ls_recordCount s) (ls_bytesWritten s) (ls_bytesRead s) (u64 (ls_flushCount s + 1))
    (ls_bufferUsage s) (ls_largestRecord s) (ls_averageRecordSize s) (ls_currentLsn s) (ls_lastFlushedLsn s).
Definition updateBufferUsage (usage : Z) (s : LogStatistics) : LogStatistics :=
  mkLogStatistics (ls_recordCount s) (ls_bytesWritten s) (ls_bytesRead s) (ls_flushCount s)
    usage (ls_largestRecord s) (ls_averageRecordSize s) (ls_currentLsn s) (ls_lastFlushedLsn s).
Definition updateLargestRecord (size : Z) (s : LogStatistics) : LogStatistics :=
  if ls_largestRecord s <? size then
    mkLogStatistics (ls_recordCount s) (ls_bytesWritten s) (ls_bytesRead s) (ls_flushCount s)
      (ls_bufferUsage s) size (ls_averageRecordSize s) (ls_currentLsn s) (ls_lastFlushedLsn s)
  else s.
Definition log_setCurrentLsn (l : LSN) (s : LogStatistics) : LogStatistics :=
  mkLogStatistics (ls_recordCount s) (ls_bytesWritten s) (ls_bytesRead s) (ls_flushCount s)
    (ls_bufferUsage s) (ls_largestRecord s) (ls_averageRecordSize s) l (ls_lastFlushedLsn s).
Definition log_setLastFlushedLsn (l : LSN) (s : LogStatistics) : LogStatistics :=
  mkLogStatistics (ls_recordCount s) (ls_bytesWritten s) (ls_bytesRead s) (ls_flushCount s)
    (ls_bufferUsage s) (ls_largestRecord s) (ls_averageRecordSize s) (ls_currentLsn s) l.
Definition log_reset (s : LogStatistics) : LogStatistics := LogStatistics_default.

(** ** LogBuffer *)
Record LogBuffer : Set := mkLogBuffer { lb_buffer : Buffer; lb_capacity : Z }.
Definition LogBuffer_make (capacity : Z) : LogBuffer :=
  let cap := if 0 <? capacity then capacity else 64 * 1024 in
  mkLogBuffer (Buffer_reserve cap Buffer_empty) cap.
Definition LogBuffer_size (b : LogBuffer) : Z := Buffer_size (lb_buffer b).
Definition LogBuffer_remainingCapacity (b : LogBuffer) : Z :=
  if LogBuffer_size b <? lb_capacity b then lb_capacity b - LogBuffer_size b else 0.
Definition LogBuffer_append (data : list Z) : M LogBuffer unit := λ b,
  if lb_capacity b <? u64 (LogBuffer_size b + zlen data)
  then (outOfMemory "LogBuffer: capacity exceeded", b)
  else match Buffer_append data (lb_buffer b) with
       | Ok buf => (Ok tt, mkLogBuffer buf (lb_capacity b))
       | Err e => (Err e, b)
       | Throw s => (Throw s, b)
       | UB => (UB, b)
       | Fuel => (Fuel, b)
       end.
Definition LogBuffer_reserve (additionalBytes : Z) : M LogBuffer unit := λ b,
  if lb_capacity b <? u64 (LogBuffer_size b + additionalBytes)
  then (outOfMemory "LogBuffer: reserve exceeds capacity", b)
  else (Ok tt, mkLogBuffer (Buffer_reserve (u64 (LogBuffer_size b + additionalBytes)) (lb_buffer b)) (lb_capacity b)).
Definition LogBuffer_clear (b : LogBuffer) : LogBuffer := mkLogBuffer (Buffer_clear (lb_buffer b)) (lb_capacity b).

(** [flush(sink)]: the sink runs on a state of its own, beside the buffer. *)
Definition LogBuffer_flush {S} (sink : list Z → M S unit) : M (LogBuffer * S) unit := λ '(b, s),
  if LogBuffer_size b =? 0 then (Ok tt, (b, s))
  else match sink (buf_bytes (lb_buffer b)) s with
       | (Ok _, s) => (Ok tt, (LogBuffer_clear b, s))
       | (Err e, s) => (Err e, (b, s))
       | (Throw w, s) => (Throw w, (b, s))
       | (UB, s) => (UB, (b, s))
       | (Fuel, s) => (Fuel, (b, s))
       end.

(** ** LogFile *)
Definition WalFileHeader_kSize : Z := 16.
Record WalFileHeader : Set := mkWalHeader { wh_magic : Z; wh_version : Z; wh_pageSize : Z; wh_reserved : Z }.
Definition wal_header_bytes (h : WalFileHeader) : list Z :=
  le_bytes 4 (wh_magic h) ++ le_bytes 4 (wh_version h) ++ le_bytes 4 (wh_pageSize h) ++ le_bytes 4 (wh_reserved h).
Definition wal_header_of_bytes (bs : list Z) : WalFileHeader :=
  mkWalHeader (le_value (take 4 bs)) (le_value (take 4 (drop 4 bs))) (le_value (take 4 (drop 8 bs)))
    (le_value (take 4 (drop 12 bs))).

Record LogFile : Type := mkLogFile {
  lf_file : DatabaseFile; lf_attached : bool; lf_ownsFile : bool; lf_appendOffset : Z }.
Definition LogFile_make (fs : FileSystem) : LogFile :=
  mkLogFile (DatabaseFile_make fs) true false WalFileHeader_kSize.
(** [LogFile(DatabaseFile&)]. *)
Definition LogFile_over (d : DatabaseFile) : LogFile :=
  mkLogFile d true false
    (if WalFileHeader_kSize <? df_fileSize d then df_fileSize d else WalFileHeader_kSize).

Definition on_file {A} (m : M DatabaseFile A) : M LogFile A :=
  zoom lf_file (λ d f, mkLogFile d (lf_attached f) (lf_ownsFile f) (lf_appendOffset f)) m.
Definition set_appendOffset (n : Z) (f : LogFile) : LogFile :=
  mkLogFile (lf_file f) (lf_attached f) (lf_ownsFile f) n.
Definition LogFile_isOpen (f : LogFile) : bool := lf_attached f && df_isOpen (lf_file f).
Definition LogFile_fileSize (f : LogFile) : Z := if lf_attached f then df_fileSize (lf_file f) else 0.
(** [if (file_ == nullptr || !file_->isOpen()) return ioError(...)]. *)
Definition guard_open {A} (m : M LogFile A) : M LogFile A := λ f,
  if LogFile_isOpen f then m f else (ioError "LogFile: file not open", f).

Definition writeHeader : M LogFile unit :=
  let header := mkWalHeader kJournalMagic kWalFormatVersion (u32 kPageSize) 0 in
  _ ← on_file (DatabaseFile_seek 0);
  on_file (DatabaseFile_writeBytes (wal_header_bytes header)).

(** The bytes read are stored over a zeroed header. *)
Definition readHeader : M LogFile WalFileHeader :=
  guard_open (λ f,
    if df_fileSize (lf_file f) <? WalFileHeader_kSize
    then (corruption "LogFile: file too small for header", f)
    else
      (_ ← on_file (DatabaseFile_seek 0);
       got ← on_file (DatabaseFile_readBytes WalFileHeader_kSize);
       mret (wal_header_of_bytes (got ++ zeros (16 - length got)))) f).

Definition alignAppendOffset : M LogFile unit := λ f,
  let remainder := lf_appendOffset f mod kLogRecordAlignment in
  if remainder =? 0 then (Ok tt, f)
  else
    let padding := kLogRecordAlignment - remainder in
    (_ ← on_file (DatabaseFile_writeBytes (zeros (Z.to_nat padding)));
     modify (λ f, set_appendOffset (u64 (lf_appendOffset f + padding)) f)) f.

Definition own_file (f : LogFile) : LogFile := mkLogFile (lf_file f) true true (lf_appendOffset f).
Definition LogFile_create (path : string) : M LogFile unit :=
  _ ← modify own_file;
  _ ← on_file (DatabaseFile_open path true);
  _ ← modify (set_appendOffset WalFileHeader_kSize);
  writeHeader.

(** A header that cannot be read is replaced when the file may be created. *)
Definition adopt_header (createIfMissing : bool) : M LogFile unit := λ f,
  match readHeader f with
  | (Ok _, f) => (Ok tt, set_appendOffset (df_fileSize (lf_file f)) f)
  | (Err e, f) =>
      if negb createIfMissing then (Err e, f)
      else writeHeader (set_appendOffset WalFileHeader_kSize f)
  | (Throw w, f) => (Throw w, f)
  | (UB, f) => (UB, f)
  | (Fuel, f) => (Fuel, f)
  end.
Definition LogFile_open (path : string) (createIfMissing : bool) : M LogFile unit :=
  _ ← modify own_file;
  _ ← on_file (DatabaseFile_open path createIfMissing);
  adopt_header createIfMissing.

(** The pointer is dropped and the offset reset whatever [close] returned. *)
Definition LogFile_close : M LogFile unit := λ f,
  if lf_attached f then
    let '(st, d) := DatabaseFile_close (lf_file f) in
    (st, mkLogFile d false (lf_ownsFile f) WalFileHeader_kSize)
  else (Ok tt, f).

Definition LogFile_append (data : list Z) : M LogFile unit :=
  guard_open (
    off ← gets lf_appendOffset;
    _ ← on_file (DatabaseFile_seek off);
    _ ← on_file (DatabaseFile_writeBytes data);
    _ ← modify (λ f, set_appendOffset (u64 (lf_appendOffset f + zlen data)) f);
    alignAppendOffset).

(** The framing shared by [LogFile::appendRecord] and
    [LogWriter::writeRecordToBuffer]: a size, written first as zero and
    overwritten when the record has been serialized. *)
Definition frame_record (r : LogRecord) : outcome (list Z) :=
  match (_ ← BinaryWriter_write 4 0;
         start ← gets w_offset;
         _ ← LogRecord_serialize r;
         now ← gets w_offset;
         let recordSize := u32 (now - start) in
         BinaryWriter_overwriteAt 0 (le_bytes 4 recordSize)) (BinaryWriter_make Buffer_empty) with
  | (Ok _, w) => Ok (buf_bytes (w_buffer w))
  | (Err e, _) => Err e
  | (Throw s, _) => Throw s
  | (UB, _) => UB
  | (Fuel, _) => Fuel
  end.

Definition LogFile_appendRecord (r : LogRecord) : M LogFile unit :=
  buf ← lift (frame_record r); LogFile_append buf.

(** The bytes stored at the start of the caller's buffer. *)
Definition LogFile_readBytes (offset count : Z) : M LogFile (list Z) :=
  guard_open (
    _ ← on_file (DatabaseFile_seek offset);
    on_file (DatabaseFile_readBytes count)).

(** What is not read stays zero, in the size and in the resized buffer, which the
    code allocates with the size read from the file. *)
Definition LogFile_readRecord (offset : Z) : M LogFile (LogRecord * Z) :=
  guard_open (
    got ← LogFile_readBytes offset 4;
    let recordSize := le_value (got ++ zeros (4 - length got)) in
    if recordSize =? 0 then lift (corruption "LogFile: zero-length record")
    else
      body ← LogFile_readBytes (u64 (offset + 4)) recordSize;
      let buf := le_bytes 4 recordSize ++ body ++ zeros (Z.to_nat recordSize - length body) in
      '(record, _) ← local (BinaryReader_make buf) (_ ← BinaryReader_skip 4; LogRecord_deserialize);
      let bytesRead := 4 + recordSize in
      let remainder := bytesRead mod kLogRecordAlignment in
      mret (record, if negb (remainder =? 0) then bytesRead + (kLogRecordAlignment - remainder) else bytesRead)).

Definition LogFile_flush : M LogFile unit := λ f,
  if lf_attached f then on_file DatabaseFile_flush f else (ioError "LogFile: file not open", f).

Definition LogFile_truncate (newSize : Z) : M LogFile unit := λ f,
  if negb (lf_attached f) then (ioError "LogFile: file not open", f)
  else if newSize <? WalFileHeader_kSize then (invalidArgument "LogFile: truncate below header size", f)
  else (_ ← on_file (DatabaseFile_resize newSize); modify (set_appendOffset newSize)) f.

Definition LogFile_validate : M LogFile unit :=
  guard_open (
    header ← readHeader;
    if negb (wh_magic header =? kJournalMagic) then lift (corruption "LogFile: invalid WAL magic")
    else if negb (wh_version header =? kWalFormatVersion) then lift (corruption "LogFile: unsupported WAL version")
    else mret tt).
