(* ===== verification/Utilities.v ===== *)
(** The common utilities and the operators of the small value types:
    build options (common/BuildOptions.h), assertions (common/Assertions.h, .cpp),
    scope guards (common/ScopeGuard.h), file helpers (util/FileUtils.cpp), the
    flag sets of storage/StorageTypes.h and btree/BTreeTypes.h, the operators of
    keys, object ids and sequence numbers, and the moves of a database file.

    Compiler macros are a record of what is defined; a process that aborts ends
    with the text it printed. *)
From stdpp Require Import base strings list gmap sets pretty.
From Stdlib Require Import ZArith Lia.
From S2P Require Import Prelude Config Formats Buffers DbFile Instruments Pages PageFacts Keys Wal.

(** ** BuildOptions *)

(** A macro that expands to a value is an option; [m_msc_ver] and the versions
    of the compilers are integers. *)
Record Macros : Set := mkMacros {
  m_quartzdb_debug : bool; m_ndebug : bool; m_sanitize_address : bool; m_sanitize_undefined : bool;
  m_clang : option (Z * Z * string); m_gnuc : option (Z * Z * string); m_gnug : bool; m_msc_ver : option Z;
  m_win32 : bool; m_win64 : bool; m_linux : bool; m_apple : bool;
  m_x86_64 : bool; m_x64 : bool; m_i386 : bool; m_ix86 : bool;
  m_aarch64 : bool; m_arm64 : bool; m_arm : bool; m_m_arm : bool; m_cplusplus : Z }.

Definition kDebugBuild (m : Macros) : bool :=
  if m_quartzdb_debug m then true else if m_ndebug m then false else false.
Definition kReleaseBuild (m : Macros) : bool :=
  if m_quartzdb_debug m then false else if m_ndebug m then true else false.
Definition kAssertionsEnabled (m : Macros) : bool := if m_quartzdb_debug m then true else false.
Definition kAddressSanitizerEnabled (m : Macros) : bool := if m_sanitize_address m then true else false.
Definition kUndefinedBehaviorSanitizerEnabled (m : Macros) : bool := if m_sanitize_undefined m then true else false.

(** The versions of GCC are read where [__GNUC__] or [__GNUG__] is defined; GCC
    defines both, and a compiler with the second alone has no version to give. *)
Definition kCompiler (m : Macros) : option (string * Z * Z) :=
  match m_clang m, m_gnuc m, m_gnug m, m_msc_ver m with
  | Some (major, minor, _), _, _, _ => Some ("Clang", major, minor)
  | None, Some (major, minor, _), _, _ => Some ("GCC", major, minor)
  | None, None, true, _ => None
  | None, None, false, Some v => Some ("MSVC", Z.quot v 100, Z.rem v 100)
  | None, None, false, None => Some ("Unknown", 0, 0)
  end%string.
(** Outside a macro definition [##] pastes nothing: with the third compiler the
    initialiser is a syntax error and there is no program. *)
Definition kCompilerVersionString (m : Macros) : option string :=
  match m_clang m, m_gnuc m, m_gnug m, m_msc_ver m with
  | Some (_, _, v), _, _, _ => Some v
  | None, Some (_, _, v), _, _ => Some v
  | None, None, true, _ => None
  | None, None, false, Some _ => None
  | None, None, false, None => Some "Unknown"%string
  end.

Definition kPlatform (m : Macros) : string * bool * bool * bool :=
  (if m_win32 m || m_win64 m then ("Windows", true, false, false)
   else if m_linux m then ("Linux", false, true, false)
   else if m_apple m then ("macOS", false, false, true)
   else ("Unknown", false, false, false))%string.
Definition kArchitecture (m : Macros) : string :=
  (if m_x86_64 m || m_x64 m then "x86_64"
   else if m_i386 m || m_ix86 m then "x86"
   else if m_aarch64 m || m_arm64 m then "ARM64"
   else if m_arm m || m_m_arm m then "ARM"
   else "Unknown")%string.
Definition kCppStandard (m : Macros) : Z := m_cplusplus m.

(** ** Assertions *)
Definition assertionFail (expr msg file : string) (ln : Z) (func : string) : string :=
  "QUARTZ_ASSERT(" +:+ expr +:+ ") failed in " +:+ func +:+ " at " +:+ file +:+ ":" +:+ pretty ln +:+ ": " +:+ msg +:+ newline.
(** [QUARTZ_ASSERT]: the text of the process that aborts; outside a debug build
    the expression is not evaluated. *)
Definition QUARTZ_ASSERT (m : Macros) (holds : unit → bool) (expr msg file : string) (ln : Z) (func : string) : option string :=
  if m_quartzdb_debug m then
    if negb (holds tt) then Some (assertionFail expr msg file ln func) else None
  else None.

(** ** ScopeGuard: a callable over the state it captures *)
Section guards.
Context {St : Type}.
Record ScopeGuard : Type := mkScopeGuard { sg_func : St → St; sg_active : bool }.
Definition makeScopeGuard (func : St → St) : ScopeGuard := mkScopeGuard func true.
Definition ScopeGuard_dismiss (g : ScopeGuard) : ScopeGuard := mkScopeGuard (sg_func g) false.
Definition ScopeGuard_destroy (g : ScopeGuard) (s : St) : St := if sg_active g then sg_func g s else s.
(** The end of a scope destroys its objects, the last constructed first. *)
Definition leave_scope (guards : list ScopeGuard) (s : St) : St := foldr ScopeGuard_destroy s guards.

(** Every guard that was not dismissed runs, once, in reverse order. *)
Lemma leave_scope_runs guards s :
  leave_scope guards s = foldl (λ s f, f s) s (rev (sg_func <$> filter (λ g, sg_active g = true) guards)).
Proof.
  induction guards as [|g guards IH]; [done|]. cbn [leave_scope foldr]. change (foldr ScopeGuard_destroy s guards) with (leave_scope guards s).
  rewrite IH, filter_cons. unfold ScopeGuard_destroy. destruct (sg_active g) eqn:E.
  - rewrite decide_True by done. cbn [fmap list_fmap rev]. by rewrite foldl_app.
  - by rewrite decide_False by congruence.
Qed.
End guards.
Arguments ScopeGuard : clear implicits.

(** ** FileUtils: the first four on files only *)
Definition file_exists (path : string) (fs : FileSystem) : bool := bool_decide (is_Some (fs_files fs !! path)).
Definition file_size (path : string) (fs : FileSystem) : Z :=
  match fs_files fs !! path with Some c => zlen c | None => 0 end.
(** False when there was nothing to remove and when the system refuses. *)
Definition file_remove (path : string) : FileSystem → bool * FileSystem := λ fs,
  if bool_decide (path ∈ fs_denied fs) then (false, fs)
  else (file_exists path fs, mkFileSystem (delete path (fs_files fs)) (fs_denied fs) (fs_what fs)).
Definition file_rename (oldPath newPath : string) : FileSystem → bool * FileSystem := λ fs,
  if bool_decide (oldPath ∈ fs_denied fs ∨ newPath ∈ fs_denied fs) then (false, fs)
  else match fs_files fs !! oldPath with
       | None => (false, fs)
       | Some c => (true, mkFileSystem (<[newPath := c]> (delete oldPath (fs_files fs))) (fs_denied fs) (fs_what fs))
       end.

(** [createDirectory] needs directories, a set beside the files; a path names
    what it spells.  [path_prefixes] lists the directories on the way to a path
    and then the path itself, the outermost first: what stands before each
    separator that has a name before it. *)
Record Volume : Type := mkVolume { v_fs : FileSystem; v_dirs : gset string }.
Definition is_slash (c : Ascii.ascii) : bool := Ascii.eqb c (Ascii.ascii_of_nat 47).
Fixpoint prefixes_from (before : string) (named : bool) (path : string) : list string :=
  match path with
  | EmptyString => if named then [before] else []
  | String c rest =>
      if is_slash c then (if named then [before] else []) ++ prefixes_from (before +:+ String c EmptyString) false rest
      else prefixes_from (before +:+ String c EmptyString) true rest
  end.
Definition path_prefixes (path : string) : list string := prefixes_from EmptyString false path.

(** [fs::create_directory] of each missing one, up to the first error: a file of
    that name, or a refusal.  The answer is whether the last was created. *)
Fixpoint create_directories (ps : list string) (created : bool) (v : Volume) : bool * Volume :=
  match ps with
  | [] => (created, v)
  | q :: ps =>
      if bool_decide (q ∈ v_dirs v) then create_directories ps false v
      else if file_exists q (v_fs v) || bool_decide (q ∈ fs_denied (v_fs v)) then (false, v)
      else create_directories ps true (mkVolume (v_fs v) ({[q]} ∪ v_dirs v))
  end.
Definition createDirectory (path : string) (v : Volume) : bool * Volume := create_directories (path_prefixes path) false v.

(** A rename that succeeds moves the file, over one that was there, and touches
    no other; one that fails changes nothing. *)
Lemma file_rename_moves oldPath newPath fs :
  let '(ok, fs') := file_rename oldPath newPath fs in
  if ok then
    file_exists oldPath fs = true ∧ file_exists newPath fs' = true ∧
    fs_files fs' !! newPath = fs_files fs !! oldPath ∧ file_size newPath fs' = file_size oldPath fs ∧
    (oldPath ≠ newPath → file_exists oldPath fs' = false) ∧
    ∀ p, p ≠ oldPath → p ≠ newPath → fs_files fs' !! p = fs_files fs !! p
  else fs' = fs.
Proof.
  unfold file_rename. case_bool_decide; [done|]. destruct (fs_files fs !! oldPath) as [c|] eqn:E; [|done].
  unfold file_exists, file_size. cbn [fs_files]. rewrite E, lookup_insert_eq. split_and!; try done.
  - intros Hne. by rewrite lookup_insert_ne, lookup_delete_eq by congruence.
  - intros p H1 H2. by rewrite lookup_insert_ne, lookup_delete_ne by congruence.
Qed.

Example path_prefixes_nested : path_prefixes "/tmp/a//b/" = ["/tmp"; "/tmp/a"; "/tmp/a//b"] ∧ path_prefixes "a" = ["a"] ∧
  path_prefixes "/" = [].
Proof. split_and!; reflexivity. Qed.

(** Directories are only added, those on the path, and files never touched. *)
Lemma create_directories_grows ps : ∀ b v, let v' := (create_directories ps b v).2 in
  v_fs v' = v_fs v ∧ v_dirs v ⊆ v_dirs v' ∧ v_dirs v' ⊆ v_dirs v ∪ list_to_set ps.
Proof.
  induction ps as [|q ps IH]; intros b v; cbn [create_directories list_to_set]; [split_and!; set_solver|].
  case_bool_decide; [destruct (IH false v) as (? & ? & ?); split_and!; set_solver|].
  case_match; [split_and!; set_solver|].
  destruct (IH true (mkVolume (v_fs v) ({[q]} ∪ v_dirs v))) as (? & ? & ?). cbn [v_fs v_dirs] in *. split_and!; set_solver.
Qed.
Lemma create_directories_there ps : ∀ b v, Forall (λ q, q ∈ v_dirs v) ps →
  create_directories ps b v = (match ps with [] => b | _ => false end, v).
Proof.
  induction ps as [|q ps IH]; intros b v Hp; [done|]. apply Forall_cons in Hp as [Hq Hp]. cbn [create_directories].
  rewrite bool_decide_eq_true_2 by done. rewrite IH by done. by destruct ps.
Qed.
(** Where no file and no refusal is in the way the directories exist afterwards. *)
Lemma create_directories_done ps : ∀ b v,
  (create_directories ps b v).1 = true ∨ Forall (λ q, file_exists q (v_fs v) = false ∧ q ∉ fs_denied (v_fs v)) ps →
  Forall (λ q, q ∈ v_dirs (create_directories ps b v).2) ps.
Proof.
  induction ps as [|q ps IH]; intros b v Hv; [constructor|]. cbn [create_directories] in *.
  assert (Hgo : ∀ b' w, v_fs w = v_fs v → q ∈ v_dirs w → (create_directories ps b' w).1 = true ∨
      Forall (λ q, file_exists q (v_fs v) = false ∧ q ∉ fs_denied (v_fs v)) (q :: ps) →
    Forall (λ q, q ∈ v_dirs (create_directories ps b' w).2) (q :: ps)).
  { intros b' w Hw Hq Hor. constructor.
    - destruct (create_directories_grows ps b' w) as (_ & Hs & _). by apply Hs.
    - apply IH. rewrite Hw. destruct Hor as [|Hall]; [by left|right]. by apply Forall_cons in Hall as [_ ?]. }
  case_bool_decide as Hin; [by apply Hgo|]. destruct (file_exists q (v_fs v) || _) eqn:E.
  - destruct Hv as [|[[Hf Hd] _]%Forall_cons]; [done|]. rewrite Hf, bool_decide_eq_false_2 in E by done. done.
  - apply Hgo; [done|cbn; set_solver|done].
Qed.

(** [createDirectory] makes every directory on the way: after the answer [true],
    and whenever neither a file nor a refusal is in the way, they all exist and
    asking again changes nothing.  It then answers [false], as it does when it
    fails. *)
Lemma createDirectory_once path v :
  let '(created, v') := createDirectory path v in
  v_fs v' = v_fs v ∧ v_dirs v ⊆ v_dirs v' ∧
  (created = true ∨ Forall (λ q, file_exists q (v_fs v) = false ∧ q ∉ fs_denied (v_fs v)) (path_prefixes path) →
   Forall (λ q, q ∈ v_dirs v') (path_prefixes path) ∧ createDirectory path v' = (false, v')).
Proof.
  unfold createDirectory. destruct (create_directories_grows (path_prefixes path) false v) as (H1 & H2 & _).
  pose proof (create_directories_done (path_prefixes path) false v) as H3.
  destruct (create_directories (path_prefixes path) false v) as [created v']. cbn [fst snd] in *. split_and!; [done..|].
  intros Hv. specialize (H3 Hv). split; [done|]. rewrite create_directories_there by done. by destruct (path_prefixes path).
Qed.

(** ** Flag sets *)
Definition PageFlag : Set := Z.
Definition PF_None : PageFlag := 0.
Definition PF_Dirty : PageFlag := 1.
Definition PF_Free : PageFlag := 2.
Definition PF_Allocated : PageFlag := 4.
Definition PF_Immutable : PageFlag := 8.
Definition PF_Compressed : PageFlag := 16.
Definition PF_Encrypted : PageFlag := 32.
Definition PageFlag_or (a b : PageFlag) : PageFlag := Z.lor a b.
Definition PageFlag_and (a b : PageFlag) : PageFlag := Z.land a b.
Definition PageFlag_has (value flag : PageFlag) : bool := negb (Z.land value flag =? 0).

Definition NodeFlags : Set := Z.
Definition NF_None : NodeFlags := 0.
Definition NF_AllowDuplicates : NodeFlags := 1.
Definition NodeFlags_or (a b : NodeFlags) : NodeFlags := Z.lor a b.
Definition NodeFlags_and (a b : NodeFlags) : NodeFlags := Z.land a b.
Definition NodeFlags_has (flags bit : NodeFlags) : bool := NodeFlags_and flags bit =? bit.

(** The two [hasFlag]s ask different things of more than one bit: any for a page,
    all for a node.  On a single bit they agree. *)
Lemma hasFlag_single value n : 0 <= n → PageFlag_has value (2 ^ n) = Z.testbit value n ∧ NodeFlags_has value (2 ^ n) = Z.testbit value n.
Proof.
  intros Hn. assert (E : Z.land value (2 ^ n) = if Z.testbit value n then 2 ^ n else 0).
  { apply Z.bits_inj'. intros i Hi. rewrite Z.land_spec, Z.pow2_bits_eqb by done.
    destruct (Z.eqb_spec n i) as [<- | Hne]; destruct (Z.testbit value n) eqn:Ev; cbn;
      rewrite ?Z.pow2_bits_eqb, ?Z.bits_0, ?Z.eqb_refl, ?andb_false_r by done; try done.
    by rewrite (proj2 (Z.eqb_neq _ _)). }
  unfold PageFlag_has, NodeFlags_has, NodeFlags_and. rewrite E. pose proof (Z.pow_pos_nonneg 2 n).
  destruct (Z.testbit value n).
  - rewrite (proj2 (Z.eqb_neq _ _)), Z.eqb_refl by lia. done.
  - rewrite (proj2 (Z.eqb_neq 0 (2 ^ n))) by lia. done.
Qed.
Example hasFlag_disagree :
  (PageFlag_has PF_Dirty (PageFlag_or PF_Dirty PF_Free) = true ∧ NodeFlags_has PF_Dirty (PageFlag_or PF_Dirty PF_Free) = false) ∧
  (PageFlag_has PF_Dirty PF_None = false ∧ NodeFlags_has PF_Dirty NF_None = true).
Proof. done. Qed.

(** ** Constants nothing else uses

    The configuration places a checksum in the last four bytes of the page
    header; the structure has its field at byte 22, and padding at the end. *)
Definition kDefaultAlignment : Z := 8.
Definition kPageAlignment : Z := 4096.
Definition kFileExtension : string := ".qdb".
Definition kChecksumSize : Z := 4.
Definition kChecksumFieldOffset : Z := kPageHeaderSize - kChecksumSize.
Lemma checksum_field_elsewhere h : PageHeader_ok h →
  take 4 (drop 22 (PageHeader_bytes h)) = le_bytes 4 (ph_checksum h) ∧
  kChecksumFieldOffset = 60 ∧
  drop 62 (PageHeader_bytes h) = le_bytes 2 (ph_reservedPad h).
Proof.
  intros H. split_and!; [done|done|]. unfold PageHeader_bytes. rewrite !app_assoc. rewrite drop_app_length'; [done|].
  destruct H as [? H]. rewrite !length_app, !length_le_bytes. naive_solver lia.
Qed.

(** ** Operators of the value types *)
Definition Key_fromUInt32 (v : Z) : Key := KeyUInt32 v.
Definition Key_fromUInt64 (v : Z) : Key := KeyUInt64 v.
(** The members of the union: one that was not stored is not read. *)
Definition Key_asUInt32 (k : Key) : outcome Z := match k with KeyUInt32 v => Ok v | _ => UB end.
Definition Key_asUInt64 (k : Key) : outcome Z := match k with KeyUInt64 v => Ok v | _ => UB end.
Definition Key_binaryCopy (k : Key) : outcome (list Z) := match k with KeyBinary bs => Ok bs | _ => Ok [] end.
Definition Key_neb (a b : Key) : bool := negb (Key_eqb a b).
(** [std::hash<Key>], and the functions of KeyComparator over one pair. *)
Definition std_hash (k : Key) : Z := Key_hash k.
Definition KeyComparator_compare (a b : Key) : Z := Key_compare a b.
Definition KeyComparator_equal (a b : Key) : bool := Key_eqb a b.
Definition KeyComparator_less (a b : Key) : bool := Key_ltb a b.
Definition KeyComparator_lessEqual (a b : Key) : bool := Key_leb a b.
Definition KeyComparator_greater (a b : Key) : bool := Key_gtb a b.
Definition KeyComparator_greaterEqual (a b : Key) : bool := Key_geb a b.

(** What an unordered container asks of the two operators. *)
Lemma std_hash_law a b : KeyComparator_equal a b = true → std_hash a = std_hash b.
Proof. intros E. apply Key_eqb_spec in E. by subst. Qed.

Definition ObjectId_neb (a b : ObjectId) : bool := negb (ObjectId_eqb a b).
Definition ObjectId_gtb (a b : ObjectId) : bool := ObjectId_ltb b a.
Definition ObjectId_leb (a b : ObjectId) : bool := negb (ObjectId_ltb b a).
Definition ObjectId_geb (a b : ObjectId) : bool := negb (ObjectId_ltb a b).

(** The operators and [compare] describe one total order. *)
Lemma objectid_order a b : 
  ObjectId_eqb a b = (ObjectId_compare a b =? 0) ∧ ObjectId_ltb a b = (ObjectId_compare a b <? 0) ∧
  ObjectId_leb a b = (ObjectId_compare a b <=? 0) ∧ ObjectId_compare b a = - ObjectId_compare a b.
Proof.
  unfold ObjectId_leb, ObjectId_eqb, ObjectId_ltb, ObjectId_compare.
  destruct (Z.eqb_spec (oid_high a) (oid_high b)) as [E1|E1]; rewrite ?E1, ?Z.eqb_refl;
    rewrite ?(proj2 (Z.eqb_neq (oid_high b) (oid_high a))) by congruence; cbn [negb andb].
  - destruct (Z.eqb_spec (oid_low a) (oid_low b)) as [E2|E2]; rewrite ?E2, ?Z.eqb_refl, ?Z.ltb_irrefl; [done|].
    rewrite (proj2 (Z.eqb_neq (oid_low b) (oid_low a))) by congruence. cbn [negb].
    destruct (Z.ltb_spec (oid_low a) (oid_low b)), (Z.ltb_spec (oid_low b) (oid_low a)); try lia; done.
  - destruct (Z.ltb_spec (oid_high a) (oid_high b)), (Z.ltb_spec (oid_high b) (oid_high a)); try lia; done.
Qed.
Lemma objectid_order_trans a b c : ObjectId_leb a b = true → ObjectId_leb b c = true → ObjectId_leb a c = true.
Proof.
  unfold ObjectId_leb, ObjectId_ltb.
  destruct (Z.eqb_spec (oid_high b) (oid_high a)), (Z.eqb_spec (oid_high c) (oid_high b)), (Z.eqb_spec (oid_high c) (oid_high a));
    cbn [negb]; rewrite ?negb_true_iff, ?Z.ltb_ge; lia.
Qed.

Definition LSN_eqb (a b : LSN) : bool := Z.eqb a b.
Definition LSN_neb (a b : LSN) : bool := negb (LSN_eqb a b).
Definition LSN_ltb (a b : LSN) : bool := Z.ltb a b.
Definition LSN_leb (a b : LSN) : bool := Z.leb a b.
Definition LSN_gtb (a b : LSN) : bool := Z.ltb b a.
Definition LSN_geb (a b : LSN) : bool := Z.leb b a.
(** The next number is greater, except after the last, where it is the invalid one. *)
Lemma LSN_next_order l : in_u 64 l →
  if LSN_eqb l (2 ^ 64 - 1) then LSN_isValid (LSN_next l) = false else LSN_gtb (LSN_next l) l = true ∧ LSN_isValid (LSN_next l) = true.
Proof.
  unfold in_u, LSN_eqb, LSN_gtb, LSN_next, LSN_isValid, LSN_invalid. intros Hl.
  destruct (Z.eqb_spec l (2 ^ 64 - 1)) as [-> | Hne]; [done|]. rewrite u64_small by lia.
  split; [lia|]. rewrite negb_true_iff, Z.eqb_neq. lia.
Qed.

Definition FF_setValue (v : Z) (f : FeatureFlags) : FeatureFlags := v.
Definition FF_eqb (a b : FeatureFlags) : bool := Z.eqb a b.
Definition Buffer_eqb (a b : Buffer) : bool := bool_decide (buf_bytes a = buf_bytes b).
Definition Buffer_appendBuffer (other b : Buffer) : outcome Buffer := Buffer_append (buf_bytes other) b.
(** Equal pointers are equal contents, of one size. *)
Definition BufferView_eqb (a b : list Z) : bool :=
  if negb (zlen a =? zlen b) then false else bool_decide (a = b).

(** ** The moves of a database file *)

(** [husk] is the path and the stream the library leaves in an object it has
    moved from, of which it says only that the stream is closed. *)
Definition moved_file (husk : string * fstream) (fs : FileSystem) : DatabaseFile :=
  mkDatabaseFile fs husk.1 (mkStream None (s_pos husk.2) (s_fail husk.2) (s_eof husk.2)) 0.
(** [DatabaseFile x(std::move(other))]: the new object and what is left of the old. *)
Definition DatabaseFile_move (husk : string * fstream) (other : DatabaseFile) : DatabaseFile * DatabaseFile :=
  (other, moved_file husk (df_fs other)).
(** [x = std::move(other)] of two objects over one file system. *)
Definition DatabaseFile_moveAssign (husk : string * fstream) (this other : DatabaseFile) : DatabaseFile * DatabaseFile :=
  let this := if df_isOpen this then (DatabaseFile_close this).2 else this in
  (mkDatabaseFile (df_fs this) (df_path other) (df_stream other) (df_size other), moved_file husk (df_fs this)).
Definition DatabaseFile_ensureOpen (d : DatabaseFile) : outcome unit :=
  if negb (df_isOpen d) then ioError "File not open" else Ok tt.

(** The object assigned to works on the file of the other; the one moved from is
    closed, refuses to be used, and its destruction closes nothing. *)
Lemma file_move_assign husk this other : df_fs this = df_fs other →
  let '(x, y) := DatabaseFile_moveAssign husk this other in
  x = other ∧ DatabaseFile_ensureOpen y = ioError "File not open" ∧ DatabaseFile_destroy y = df_fs other.
Proof.
  intros E. unfold DatabaseFile_moveAssign, DatabaseFile_close. destruct other as [fs p s n]. cbn in *.
  destruct (df_isOpen this) eqn:Eo; rewrite ?Eo; cbn; unfold stream_close; rewrite ?E; done.
Qed.
