(* ===== verification/WalManager.v ===== *)
(** The write-ahead log's writer, reader and manager, and the adapter the tree
    reports to (src/src/wal/LogWriter.cpp, LogReader.cpp, LogManager.cpp,
    BTreeWalAdapter.cpp).

    The writer and the reader hold references to the file and the statistics of
    the manager that owns them; their operations run on the manager's state.  The
    steady clock is a sequence of readings, taken in order by the adapter.  The
    three loops over the log advance by at least one byte a round, so the size of
    the file is enough fuel. *)
From stdpp Require Import base strings list gmap sets.
From Stdlib Require Import ZArith Lia.
From S2P Require Import Prelude Config Doubles Buffers DbFile Keys Nodes Tree Wal.

Record LogWriter : Set := mkLogWriter {
  lw_buffer : LogBuffer; lw_nextLsn : LSN; lw_currentLsn : LSN; lw_lastFlushedLsn : LSN }.
Definition LogWriter_make (bufferCapacity : Z) : LogWriter :=
  mkLogWriter (LogBuffer_make bufferCapacity) LSN_initial LSN_invalid LSN_invalid.

Record LogReader : Set := mkLogReader { rd_offset : Z; rd_lastLsn : LSN; rd_endOfLog : bool }.
Definition LogReader_make : LogReader := mkLogReader WalFileHeader_kSize LSN_invalid false.

Record LogManager : Type := mkLogManager {
  lm_initialized : bool; lm_file : LogFile; lm_stats : LogStatistics; lm_writer : LogWriter; lm_reader : LogReader }.
Definition LogManager_make (fs : FileSystem) : LogManager :=
  mkLogManager false (LogFile_make fs) LogStatistics_default (LogWriter_make (64 * 1024)) LogReader_make.

Definition set_initialized (b : bool) (m : LogManager) : LogManager :=
  mkLogManager b (lm_file m) (lm_stats m) (lm_writer m) (lm_reader m).
Definition set_lmfile (f : LogFile) (m : LogManager) : LogManager :=
  mkLogManager (lm_initialized m) f (lm_stats m) (lm_writer m) (lm_reader m).
Definition upd_logstats (g : LogStatistics → LogStatistics) (m : LogManager) : LogManager :=
  mkLogManager (lm_initialized m) (lm_file m) (g (lm_stats m)) (lm_writer m) (lm_reader m).
Definition set_writer (w : LogWriter) (m : LogManager) : LogManager :=
  mkLogManager (lm_initialized m) (lm_file m) (lm_stats m) w (lm_reader m).
Definition set_reader (r : LogReader) (m : LogManager) : LogManager :=
  mkLogManager (lm_initialized m) (lm_file m) (lm_stats m) (lm_writer m) r.
Definition set_lsns (next current flushed : LSN) (m : LogManager) : LogManager :=
  set_writer (mkLogWriter (lw_buffer (lm_writer m)) next current flushed) m.
Definition set_logbuffer (b : LogBuffer) (m : LogManager) : LogManager :=
  set_writer (mkLogWriter b (lw_nextLsn (lm_writer m)) (lw_currentLsn (lm_writer m))
    (lw_lastFlushedLsn (lm_writer m))) m.
Definition on_logfile {A} (x : M LogFile A) : M LogManager A := zoom lm_file set_lmfile x.
Definition on_logbuffer {A} (x : M LogBuffer A) : M LogManager A :=
  zoom (λ m, lw_buffer (lm_writer m)) set_logbuffer x.

(** ** LogWriter *)
Definition writeRecordToBuffer (r : LogRecord) : M LogManager unit :=
  buf ← lift (frame_record r); on_logbuffer (LogBuffer_append buf).

(** The sequence number is taken before the record is checked. *)
Definition LogWriter_appendRecord (record : LogRecord) : M LogManager unit :=
  next ← gets (λ m, lw_nextLsn (lm_writer m));
  let record := setLsn next record in
  _ ← modify (λ m, set_lsns (LSN_next next) next (lw_lastFlushedLsn (lm_writer m)) m);
  _ ← lift (validateRecordHeader record);
  _ ← writeRecordToBuffer record;
  let bytes := wireSize record + 4 in
  _ ← modify (upd_logstats (log_recordWrite bytes 1));
  _ ← modify (upd_logstats (updateLargestRecord bytes));
  _ ← modify (λ m, upd_logstats (updateBufferUsage (LogBuffer_size (lw_buffer (lm_writer m)))) m);
  modify (λ m, upd_logstats (log_setCurrentLsn (lw_currentLsn (lm_writer m))) m).

Fixpoint LogWriter_appendBatch (records : list LogRecord) : M LogManager unit :=
  match records with
  | [] => mret tt
  | record :: records => _ ← LogWriter_appendRecord record; LogWriter_appendBatch records
  end.

Definition flushBufferToFile : M LogManager unit :=
  zoom (λ m, (lw_buffer (lm_writer m), lm_file m)) (λ '(b, f) m, set_lmfile f (set_logbuffer b m))
    (LogBuffer_flush LogFile_append).

Definition LogWriter_flush : M LogManager unit :=
  _ ← flushBufferToFile;
  _ ← on_logfile LogFile_flush;
  _ ← modify (upd_logstats log_recordFlush);
  _ ← modify (λ m, set_lsns (lw_nextLsn (lm_writer m)) (lw_currentLsn (lm_writer m)) (lw_currentLsn (lm_writer m)) m);
  modify (λ m, upd_logstats (log_setLastFlushedLsn (lw_lastFlushedLsn (lm_writer m))) m).

(** The scan ends quietly at the first record that cannot be read. *)
Fixpoint restore_loop (fuel : nat) (offset : Z) (maxLsn : LSN) : M LogManager LSN := λ m,
  if offset <? LogFile_fileSize (lm_file m) then
    match fuel with
    | O => (Fuel, m)
    | S fuel =>
        match on_logfile (LogFile_readRecord offset) m with
        | (Ok (record, bytesRead), m) => restore_loop fuel (u64 (offset + bytesRead)) (lr_lsn record) m
        | (Err _, m) => (Ok maxLsn, m)
        | (Throw w, m) => (Throw w, m)
        | (UB, m) => (UB, m)
        | (Fuel, m) => (Fuel, m)
        end
    end
  else (Ok maxLsn, m).
Definition log_fuel (m : LogManager) : nat := S (Z.to_nat (LogFile_fileSize (lm_file m))).

Definition LogWriter_restoreFromFile : M LogManager unit :=
  fuel ← gets log_fuel;
  maxLsn ← restore_loop fuel WalFileHeader_kSize LSN_invalid;
  if LSN_isValid maxLsn then
    _ ← modify (set_lsns (LSN_next maxLsn) maxLsn maxLsn);
    _ ← modify (upd_logstats (log_setCurrentLsn maxLsn));
    modify (upd_logstats (log_setLastFlushedLsn maxLsn))
  else mret tt.

(** ** LogReader *)
Definition LogReader_rewind : M LogManager unit := modify (set_reader LogReader_make).
Definition end_log (m : LogManager) : LogManager :=
  set_reader (mkLogReader (rd_offset (lm_reader m)) (rd_lastLsn (lm_reader m)) true) m.

Definition LogReader_accept (record : LogRecord) (bytesRead : Z) : M LogManager LogRecord :=
  last ← gets (λ m, rd_lastLsn (lm_reader m));
  _ ← lift (validateRecord record);
  _ ← lift (validateLsnOrdering last (lr_lsn record));
  _ ← modify (λ m, set_reader (mkLogReader (u64 (rd_offset (lm_reader m) + bytesRead)) (lr_lsn record)
                                 (rd_endOfLog (lm_reader m))) m);
  _ ← modify (upd_logstats (log_recordRead bytesRead));
  mret record.

Definition LogReader_readNext : M LogManager LogRecord := λ m,
  if rd_endOfLog (lm_reader m) then (invalidArgument "LogReader: end of log", m)
  else if LogFile_fileSize (lm_file m) <=? rd_offset (lm_reader m)
  then (invalidArgument "LogReader: end of log", end_log m)
  else
    match on_logfile (LogFile_readRecord (rd_offset (lm_reader m))) m with
    | (Ok (record, bytesRead), m) => LogReader_accept record bytesRead m
    | (Err e, m) => (Err e, end_log m)
    | (Throw w, m) => (Throw w, m)
    | (UB, m) => (UB, m)
    | (Fuel, m) => (Fuel, m)
    end.

Definition LogReader_endOfLog (m : LogManager) : bool :=
  rd_endOfLog (lm_reader m) || (LogFile_fileSize (lm_file m) <=? rd_offset (lm_reader m)).

Fixpoint seek_loop (fuel : nat) (lsn : LSN) : M LogManager unit := λ m,
  if rd_endOfLog (lm_reader m) then (invalidArgument "LogReader: LSN not found", m)
  else
    match fuel with
    | O => (Fuel, m)
    | S fuel =>
        let recordOffset := rd_offset (lm_reader m) in
        match LogReader_readNext m with
        | (Ok record, m) =>
            if lr_lsn record =? lsn then
              (Ok tt, set_reader (mkLogReader recordOffset (if 1 <? lsn then lsn - 1 else LSN_invalid) false) m)
            else if lsn <? lr_lsn record then (invalidArgument "LogReader: LSN not found", m)
            else seek_loop fuel lsn m
        | (Err e, m) =>
            if rd_endOfLog (lm_reader m) then (invalidArgument "LogReader: LSN not found", m) else (Err e, m)
        | (Throw w, m) => (Throw w, m)
        | (UB, m) => (UB, m)
        | (Fuel, m) => (Fuel, m)
        end
    end.
Definition LogReader_seekLsn (lsn : LSN) : M LogManager unit :=
  _ ← LogReader_rewind;
  fuel ← gets log_fuel;
  seek_loop fuel lsn.

(** ** LogManager *)
Definition when_initialized {A} (x : M LogManager A) : M LogManager A := λ m,
  if lm_initialized m then x m else (invalidArgument "LogManager: not initialized", m).

Definition LogManager_initialize (path : string) (create : bool) : M LogManager unit := λ m,
  if lm_initialized m then (invalidArgument "LogManager: already initialized", m)
  else
    (_ ← on_logfile (if create then LogFile_create path else LogFile_open path true);
     _ ← on_logfile LogFile_validate;
     size ← gets (λ m, LogFile_fileSize (lm_file m));
     _ ← (if negb create && (WalFileHeader_kSize <? size) then LogWriter_restoreFromFile else mret tt);
     _ ← modify (set_initialized true);
     LogReader_rewind) m.

Definition LogManager_append (record : LogRecord) : M LogManager unit :=
  when_initialized (LogWriter_appendRecord record).
Definition LogManager_appendBatch (records : list LogRecord) : M LogManager unit :=
  when_initialized (LogWriter_appendBatch records).
Definition LogManager_flush : M LogManager unit := when_initialized LogWriter_flush.
Definition LogManager_readNext : M LogManager LogRecord := when_initialized LogReader_readNext.
Definition rewindReader : M LogManager unit := when_initialized LogReader_rewind.
Definition seekReader (lsn : LSN) : M LogManager unit := when_initialized (LogReader_seekLsn lsn).
Definition restoreWriterState : M LogManager unit := when_initialized LogWriter_restoreFromFile.

(** [initialized_] is cleared whatever [close] returned. *)
Definition close_log : M LogManager unit := λ m,
  let '(st, m) := on_logfile LogFile_close m in (st, set_initialized false m).
Definition LogManager_shutdown : M LogManager unit := λ m,
  if negb (lm_initialized m) then (Ok tt, m) else (_ ← LogManager_flush; close_log) m.

Definition LogManager_statistics (m : LogManager) : LogStatistics :=
  updateBufferUsage (LogBuffer_size (lw_buffer (lm_writer m)))
    (log_setLastFlushedLsn (lw_lastFlushedLsn (lm_writer m))
       (log_setCurrentLsn (lw_currentLsn (lm_writer m)) (lm_stats m))).

Fixpoint log_validate_loop (fuel : nat) (offset : Z) (previous : LSN) : M LogManager unit := λ m,
  if offset <? LogFile_fileSize (lm_file m) then
    match fuel with
    | O => (Fuel, m)
    | S fuel =>
        ('(record, bytesRead) ← on_logfile (LogFile_readRecord offset);
         _ ← lift (validateRecord record);
         _ ← lift (validateLsnOrdering previous (lr_lsn record));
         log_validate_loop fuel (u64 (offset + bytesRead)) (lr_lsn record)) m
    end
  else (Ok tt, m).
Definition LogManager_validate : M LogManager unit :=
  when_initialized (
    _ ← on_logfile LogFile_validate;
    fuel ← gets log_fuel;
    log_validate_loop fuel WalFileHeader_kSize LSN_invalid).

(** ** BTreeWalAdapter *)
Record BTreeWalAdapter : Type := mkWalAdapter { wa_manager : LogManager; wa_clock : nat → Z; wa_ticks : nat }.
Definition set_manager (m : LogManager) (a : BTreeWalAdapter) : BTreeWalAdapter :=
  mkWalAdapter m (wa_clock a) (wa_ticks a).
Definition on_manager {A} (x : M LogManager A) : M BTreeWalAdapter A := zoom wa_manager set_manager x.
(** [LogRecord::make] reads the clock. *)
Definition make_record (type : LogRecordType) (pageId : Z) : M BTreeWalAdapter LogRecord := λ a,
  (Ok (LogRecord_make (wa_clock a (wa_ticks a)) type pageId 0),
   mkWalAdapter (wa_manager a) (wa_clock a) (S (wa_ticks a))).
(** A payload written to a fresh buffer. *)
Definition build_payload (m : M BinaryWriter unit) : outcome (list Z) :=
  match m (BinaryWriter_make Buffer_empty) with
  | (Ok _, w) => Ok (buf_bytes (w_buffer w))
  | (Err e, _) => Err e
  | (Throw s, _) => Throw s
  | (UB, _) => UB
  | (Fuel, _) => Fuel
  end.

Definition appendKeyRecord (type : LogRecordType) (pageId : Z) (key : Key) (ref : PageReference) : M BTreeWalAdapter unit :=
  record ← make_record type pageId;
  payload ← lift (build_payload (
    _ ← Key_serialize key;
    if PageReference_isValid ref then write_ref ref else mret tt));
  on_manager (LogManager_append (set_payload payload record)).
Definition adapter_onInsert (key : Key) (value : PageReference) : M BTreeWalAdapter unit :=
  appendKeyRecord LRT_PageUpdate (pr_pageId value) key value.
Definition adapter_onErase (key : Key) : M BTreeWalAdapter unit :=
  appendKeyRecord LRT_PageDelete kInvalidPageId key PageReference_invalid.
Definition adapter_onPageAllocate (pageId : Z) : M BTreeWalAdapter unit :=
  record ← make_record LRT_Allocation pageId; on_manager (LogManager_append record).
Definition adapter_onPageDeallocate (pageId : Z) : M BTreeWalAdapter unit :=
  record ← make_record LRT_Deallocation pageId; on_manager (LogManager_append record).
Definition adapter_onNodeSplit (leftId rightId : Z) (promotedKey : Key) : M BTreeWalAdapter unit :=
  record ← make_record LRT_NodeSplit leftId;
  payload ← lift (build_payload (_ ← BinaryWriter_write 4 rightId; Key_serialize promotedKey));
  on_manager (LogManager_append (set_payload payload record)).
Definition adapter_onNodeMerge (survivorId removedId : Z) : M BTreeWalAdapter unit :=
  record ← make_record LRT_NodeMerge survivorId;
  payload ← lift (build_payload (BinaryWriter_write 4 removedId));
  on_manager (LogManager_append (set_payload payload record)).
