(* ===== verification/WalFacts.v ===== *)
(** What the log's records, buffer and file do: the record format round-trips,
    the file stores what it is given and reads it back, and a record framed by
    the writer is a size followed by zeros. *)
From stdpp Require Import base strings list gmap sets.
From Stdlib Require Import ZArith Lia.
From S2P Require Import Prelude Config Formats Doubles Buffers DbFile Wal.

(** ** The record format *)

Definition record_wire (r : LogRecord) : list Z :=
  le_bytes 1 (lr_type r) ++ le_bytes 8 (lr_lsn r) ++ le_bytes 8 (lr_timestamp r) ++ le_bytes 4 (lr_pageId r) ++
  le_bytes 8 (lr_transactionId r) ++ le_bytes 4 (zlen (lr_payload r)) ++ le_bytes 4 (lr_checksum r) ++
  le_bytes 4 (lr_reserved0 r) ++ le_bytes 4 (lr_reserved1 r) ++ lr_payload r.

(** Fields within their widths, and a payload whose record has a 32-bit size. *)
Record Record_ok (r : LogRecord) : Prop := {
  ro_type : in_u 8 (lr_type r); ro_lsn : in_u 64 (lr_lsn r); ro_timestamp : in_u 64 (lr_timestamp r);
  ro_pageId : in_u 32 (lr_pageId r); ro_transactionId : in_u 64 (lr_transactionId r);
  ro_checksum : in_u 32 (lr_checksum r); ro_reserved0 : in_u 32 (lr_reserved0 r);
  ro_reserved1 : in_u 32 (lr_reserved1 r); ro_payload : bytes_ok (lr_payload r);
  ro_size : wireSize r < 2 ^ 32 }.

Lemma zlen_le_bytes n v : zlen (le_bytes n v) = Z.of_nat n.
Proof. unfold zlen. by rewrite length_le_bytes. Qed.

Lemma zlen_record_wire r : zlen (record_wire r) = wireSize r.
Proof. unfold record_wire, wireSize. rewrite !zlen_app, !zlen_le_bytes. lia. Qed.

Lemma wireSize_min r : 45 <= wireSize r.
Proof. unfold wireSize. pose proof (zlen_nonneg (lr_payload r)). lia. Qed.

Lemma LogRecord_serialize_emits r : wireSize r < 2 ^ 32 → emits (LogRecord_serialize r) (record_wire r).
Proof.
  intros Hs. unfold LogRecord_serialize, record_wire, LSN_serialize. pose proof (zlen_nonneg (lr_payload r)).
  unfold wireSize in Hs. cbv zeta. rewrite u32_small by lia.
  repeat (apply emits_bind; [apply emits_write|]).
  destruct (Z.ltb_spec 0 (zlen (lr_payload r))); [apply emits_writeBytes|].
  assert (lr_payload r = []) as -> by (destruct (lr_payload r); [done|unfold zlen in *; cbn in *; lia]).
  apply emits_nil.
Qed.

Lemma LogRecord_deserialize_parses r : Record_ok r → parses LogRecord_deserialize (record_wire r) r.
Proof.
  intros H. destruct H. unfold in_u, wireSize in *. pose proof (zlen_nonneg (lr_payload r)).
  unfold LogRecord_deserialize, record_wire, LSN_deserialize.
  do 9 (eapply parses_bind; [apply parses_read; cbn; lia|]).
  match goal with |- parses ?m _ _ =>
    enough (G : parses m (lr_payload r ++ []) r) by (by rewrite app_nil_r in G) end.
  apply parses_bind with (lr_payload r).
  - destruct (Z.ltb_spec 0 (zlen (lr_payload r))); [apply parses_readBytes|].
    assert (lr_payload r = []) as -> by (destruct (lr_payload r); [done|unfold zlen in *; cbn in *; lia]).
    apply parses_ret.
  - destruct r. apply parses_ret.
Qed.

(** A log record round-trips through storage that is already there:
    [serialize] writes exactly [wireSize] bytes and nothing else, and
    [deserialize] from the same position returns every field, the payload
    included, and stops behind it. *)
Theorem log_record_roundtrip r w pre old post : Record_ok r → Writer_ok w →
  buf_bytes (w_buffer w) = pre ++ old ++ post → w_offset w = zlen pre → zlen old = wireSize r →
  ∃ w' bs, LogRecord_serialize r w = (Ok tt, w') ∧ zlen bs = wireSize r ∧
    buf_bytes (w_buffer w') = pre ++ bs ++ post ∧ w_offset w' = zlen (pre ++ bs) ∧
    LogRecord_deserialize (reading pre (bs ++ post)) = (Ok r, reading (pre ++ bs) post).
Proof.
  intros Hr Hw Hbuf Hoff Hold. pose proof (zlen_record_wire r) as Hz.
  destruct (in_place_roundtrip _ _ _ _ w pre old post (LogRecord_serialize_emits r (ro_size r Hr))
    (LogRecord_deserialize_parses r Hr)) as (w' & H1 & H2 & H3 & H4); [done..|unfold zlen in *; lia|].
  exists w', (record_wire r). auto.
Qed.

Definition demo_record : LogRecord := set_payload [1; 2; 3] (LogRecord_make 77 LRT_PageUpdate 9 0).
Lemma demo_record_ok : Record_ok demo_record.
Proof. split; try (split; by vm_compute); repeat constructor; lia. Qed.

Lemma log_record_roundtrip_witness :
  ∃ w' bs, LogRecord_serialize demo_record (mkWriter (mkBuffer (zeros 50) 64) 1) = (Ok tt, w') ∧
    LogRecord_deserialize (reading [0] (bs ++ [0])) = (Ok demo_record, reading ([0] ++ bs) [0]).
Proof.
  destruct (log_record_roundtrip demo_record (mkWriter (mkBuffer (zeros 50) 64) 1) [0] (zeros 48) [0])
    as (w' & bs & H1 & _ & _ & _ & H2).
  - exact demo_record_ok.
  - repeat split; by vm_compute.
  - reflexivity.
  - reflexivity.
  - reflexivity.
  - exists w', bs. split; [exact H1|exact H2].
Defined.

(** ** Framing *)

(** What reaches the buffer: the right size, then zeros (the serialized fields
    are appended, see [Buffers.writer_append_zeroes]). *)
Definition zero_frame (r : LogRecord) : list Z := le_bytes 4 (wireSize r) ++ zeros (Z.to_nat (wireSize r)).

Lemma zlen_zero_frame r : zlen (zero_frame r) = 4 + wireSize r.
Proof.
  unfold zero_frame. rewrite zlen_app, zlen_le_bytes, zlen_zeros. pose proof (wireSize_min r). lia.
Qed.

Lemma frame_record_spec r : wireSize r < 2 ^ 32 → frame_record r = Ok (zero_frame r).
Proof.
  intros Hs. pose proof (wireSize_min r) as Hmin. pose proof (zlen_record_wire r) as Hz.
  destruct (emits_end _ _ Buffer_empty (emits_write 4 0)) as (w1 & E1 & Hw1 & O1 & B1); [by vm_compute..|].
  cbn [buf_bytes Buffer_empty app] in B1. rewrite length_le_bytes in B1.
  assert (Hz1 : zlen (zeros 4) = 4) by reflexivity.
  destruct (LogRecord_serialize_emits r Hs w1 Hw1) as (cap & E2 & Hc).
  { rewrite Hz, O1. unfold Buffer_size. rewrite B1, Hz1. lia. }
  unfold frame_record. unfold mbind, M_bind, gets. rewrite E1. cbv beta iota. rewrite E2. cbv beta iota.
  cbn [w_offset]. rewrite O1. unfold Buffer_size. rewrite B1, Hz1, Hz.
  replace (4 + wireSize r - 4) with (wireSize r) by lia. rewrite u32_small by lia.
  change (written 4) with (written (zlen (zeros 4))). rewrite written_end.
  assert (Hl : Z.of_nat (length (record_wire r)) = wireSize r) by exact Hz.
  unfold BinaryWriter_overwriteAt. cbn [w_buffer w_offset]. unfold Buffer_size. cbn [buf_bytes].
  rewrite zlen_le_bytes, zlen_app, !zlen_zeros, Hl. rewrite u64_small by lia.
  rewrite !(proj2 (Z.ltb_ge _ _)) by lia. cbn [w_buffer memcpy_into buf_bytes]. f_equal.
  unfold Buffer_size, zero_frame. cbn [buf_bytes]. rewrite zlen_app, !zlen_zeros, Hl.
  unfold ztake. rewrite take_ge by (rewrite length_le_bytes; lia).
  unfold splice. cbn [Z.to_nat take app Nat.add]. rewrite length_le_bytes.
  replace (length (record_wire r)) with (Z.to_nat (wireSize r)) by lia. reflexivity.
Qed.

(** ** The log file *)

(** [log_ready f p c]: the log is open over the file [p], which holds [c], is
    aligned, and appends at its end. *)
Record log_ready (f : LogFile) (p : string) (c : list Z) : Prop := {
  lg_attached : lf_attached f = true;
  lg_opened : opened (lf_file f) p c;
  lg_append : lf_appendOffset f = zlen c;
  lg_aligned : zlen c mod 8 = 0;
  lg_header : 16 <= zlen c < 2 ^ 62
}.

(** What is missing to the next multiple of eight. *)
Definition padding (n : Z) : Z := (- n) mod 8.
Definition padded (data : list Z) : list Z := data ++ zeros (Z.to_nat (padding (zlen data))).

Lemma padding_bounds n : 0 <= padding n < 8 ∧ (n + padding n) mod 8 = 0.
Proof. unfold padding. lia. Qed.

Lemma zlen_padded data : zlen (padded data) = zlen data + padding (zlen data).
Proof. unfold padded. rewrite zlen_app, zlen_zeros. pose proof (padding_bounds (zlen data)). lia. Qed.

Lemma ready_isOpen f p c : log_ready f p c → LogFile_isOpen f = true.
Proof.
  intros H. unfold LogFile_isOpen. rewrite (lg_attached _ _ _ H).
  by rewrite (proj2 (opened_bytes _ _ _ (lg_opened _ _ _ H))).
Qed.

Lemma on_file_eq {A} (m : M DatabaseFile A) f o d : m (lf_file f) = (o, d) →
  on_file m f = (o, mkLogFile d (lf_attached f) (lf_ownsFile f) (lf_appendOffset f)).
Proof. intros E. unfold on_file, zoom. by rewrite E. Qed.

Lemma ready_change f p c d : log_ready f p c → opened d p c →
  log_ready (mkLogFile d (lf_attached f) (lf_ownsFile f) (lf_appendOffset f)) p c.
Proof. intros H Hd. destruct H. by split. Qed.

Lemma append_ready f p c data : log_ready f p c → data ≠ [] → zlen c + zlen data + 8 < 2 ^ 62 →
  ∃ f', LogFile_append data f = (Ok tt, f') ∧ log_ready f' p (c ++ padded data).
Proof.
  intros H Hd Hl. pose proof (zlen_nonneg data). pose proof (padding_bounds (zlen data)) as [Hp1 Hp2].
  destruct H as [Ha Hop Hoff Hal Hh].
  destruct (seek_opened _ _ _ (zlen c) Hop) as (d1 & E1 & O1 & P1 & _); [lia|].
  destruct (write_opened d1 p c data O1) as (d2 & E2 & O2 & P2); [lia|].
  rewrite P1, file_write_end in O2. rewrite P1 in P2.
  unfold LogFile_append, guard_open, LogFile_isOpen. rewrite Ha, (proj2 (opened_bytes _ _ _ Hop)). cbn [andb].
  unfold mbind, M_bind, gets. rewrite Hoff, (on_file_eq _ _ _ _ E1).
  rewrite (on_file_eq (DatabaseFile_writeBytes data) _ (Ok tt) d2) by done.
  unfold modify, set_appendOffset. cbn [lf_file lf_attached lf_ownsFile lf_appendOffset].
  rewrite Hoff, u64_small by lia. unfold alignAppendOffset, kLogRecordAlignment. cbn [lf_appendOffset].
  assert (Hz : zlen (c ++ padded data) = zlen c + zlen data + padding (zlen data))
    by (rewrite zlen_app, zlen_padded; lia).
  destruct (Z.eqb_spec ((zlen c + zlen data) mod 8) 0) as [E|E].
  - assert (padding (zlen data) = 0) as Hp0 by (unfold padding in *; lia).
    eexists. split; [done|]. split; cbn; rewrite ?Ha, ?Hz, ?Hp0; try lia.
    unfold padded. by rewrite Hp0, app_nil_r.
  - assert (Hpe : 8 - (zlen c + zlen data) mod 8 = padding (zlen data)) by (unfold padding in *; lia).
    rewrite Hpe.
    destruct (write_opened d2 p _ (zeros (Z.to_nat (padding (zlen data)))) O2) as (d3 & E3 & O3 & _).
    { rewrite P2, zlen_app. lia. }
    rewrite P2, <-zlen_app, file_write_end, <-app_assoc in O3.
    unfold mbind, M_bind.
    rewrite (on_file_eq (DatabaseFile_writeBytes (zeros (Z.to_nat (padding (zlen data))))) _ (Ok tt) d3) by exact E3.
    unfold modify, set_appendOffset.
    cbn [lf_file lf_attached lf_ownsFile lf_appendOffset]. rewrite u64_small by lia.
    eexists. split; [done|]. by split; cbn; rewrite ?Hz, ?Ha; try lia.
Qed.

Lemma readBytes_open f p pre bs post : lf_attached f = true → opened (lf_file f) p (pre ++ bs ++ post) →
  zlen pre < 2 ^ 63 →
  ∃ d, LogFile_readBytes (zlen pre) (zlen bs) f =
      (Ok bs, mkLogFile d (lf_attached f) (lf_ownsFile f) (lf_appendOffset f)) ∧
    opened d p (pre ++ bs ++ post) ∧ df_fs d = df_fs (lf_file f).
Proof.
  intros Ha H Hl. unfold LogFile_readBytes, guard_open, LogFile_isOpen.
  rewrite Ha, (proj2 (opened_bytes _ _ _ H)). cbn [andb]. pose proof (zlen_nonneg pre).
  destruct (seek_opened _ _ _ (zlen pre) H) as (d1 & E1 & O1 & P1 & F1); [lia|].
  destruct (read_opened d1 p pre bs post O1 P1) as (d2 & E2 & O2 & _ & F2).
  unfold mbind, M_bind. rewrite (on_file_eq _ _ _ _ E1), (on_file_eq _ _ (Ok bs) d2) by done.
  exists d2. cbn [lf_attached lf_ownsFile lf_appendOffset]. rewrite Ha. split; [done|]. split; [done|].
  by rewrite F2, F1.
Qed.

Lemma readBytes_ready f p pre bs post : log_ready f p (pre ++ bs ++ post) →
  ∃ f', LogFile_readBytes (zlen pre) (zlen bs) f = (Ok bs, f') ∧ log_ready f' p (pre ++ bs ++ post) ∧
    df_fs (lf_file f') = df_fs (lf_file f).
Proof.
  intros H. pose proof (lg_header _ _ _ H) as Hh. rewrite !zlen_app in Hh.
  pose proof (zlen_nonneg bs). pose proof (zlen_nonneg post).
  destruct (readBytes_open f p pre bs post (lg_attached _ _ _ H) (lg_opened _ _ _ H)) as (d & E & Hd & Hf); [lia|].
  eexists. split; [exact E|]. split; [exact (ready_change _ _ _ _ H Hd)|done].
Qed.

Lemma skip_size n body :
  BinaryReader_skip 4 (BinaryReader_make (le_bytes 4 n ++ body)) = (Ok tt, reading (le_bytes 4 n) body).
Proof.
  unfold BinaryReader_skip, BinaryReader_make, reading. cbn [r_view r_offset].
  rewrite zlen_app, zlen_le_bytes, u64_small by lia. pose proof (zlen_nonneg body).
  rewrite (proj2 (Z.ltb_ge _ _)) by lia. done.
Qed.

(** Reading a framed body: the body is parsed, and the distance to the next
    record is its padded size. *)
Lemma readRecord_ready f p pre body post r rd :
  log_ready f p (pre ++ (le_bytes 4 (zlen body) ++ body) ++ post) → 0 < zlen body < 2 ^ 32 →
  LogRecord_deserialize (reading (le_bytes 4 (zlen body)) body) = (Ok r, rd) →
  ∃ f', LogFile_readRecord (zlen pre) f = (Ok (r, 4 + zlen body + padding (4 + zlen body)), f') ∧
    log_ready f' p (pre ++ (le_bytes 4 (zlen body) ++ body) ++ post) ∧ df_fs (lf_file f') = df_fs (lf_file f).
Proof.
  intros H Hn Hr. set (n := zlen body) in *. pose proof (zlen_nonneg pre).
  pose proof (zlen_nonneg post). pose proof (lg_header _ _ _ H) as Hh. rewrite !zlen_app, zlen_le_bytes in Hh.
  assert (E1 : pre ++ (le_bytes 4 n ++ body) ++ post = pre ++ le_bytes 4 n ++ (body ++ post)) by by rewrite <-!app_assoc.
  assert (E2 : pre ++ (le_bytes 4 n ++ body) ++ post = (pre ++ le_bytes 4 n) ++ body ++ post) by by rewrite <-!app_assoc.
  unfold LogFile_readRecord, guard_open at 1. rewrite (ready_isOpen _ _ _ H).
  rewrite E1 in H. destruct (readBytes_ready f p _ _ _ H) as (f1 & R1 & G1 & F1).
  rewrite zlen_le_bytes in R1. change (Z.of_nat 4) with 4 in R1. unfold mbind, M_bind. rewrite R1, length_le_bytes.
  cbn [Nat.sub zeros replicate]. rewrite app_nil_r, le_value_small by (cbn; lia).
  destruct (Z.eqb_spec n 0); [lia|]. rewrite u64_small by lia.
  rewrite <-E1, E2 in G1. destruct (readBytes_ready f1 p _ _ _ G1) as (f2 & R2 & G2 & F2).
  rewrite zlen_app, zlen_le_bytes in R2. fold n in R2. change (Z.of_nat 4) with 4 in R2. rewrite R2.
  replace (Z.to_nat n - length body)%nat with 0%nat by (subst n; unfold zlen; lia). cbn [zeros replicate].
  rewrite app_nil_r. unfold local, mbind, M_bind, outcome_bind.
  rewrite skip_size, Hr. cbv beta iota. exists f2. rewrite E2. split; [|split; [done|by rewrite F2, F1]].
  unfold mret, M_ret. do 3 f_equal. unfold kLogRecordAlignment, padding.
  destruct (Z.eqb_spec ((4 + n) mod 8) 0); cbn [negb]; lia.
Qed.

(** ** Properties of the file *)

(** C15: The log file stores a framed record and finds it again: appending a
    record's frame succeeds, puts exactly the frame and zeros up to the next
    multiple of eight behind what the file held, and keeps the log aligned;
    whatever is appended later, [readRecord] at the old end returns the record
    and the distance to the next one. *)
Theorem log_file_append_read f p c r : log_ready f p c → Record_ok r → zlen c + wireSize r + 12 < 2 ^ 62 →
  ∃ f' bytes, LogFile_append (le_bytes 4 (wireSize r) ++ record_wire r) f = (Ok tt, f') ∧
    log_ready f' p (c ++ bytes) ∧ zlen bytes = 4 + wireSize r + padding (4 + wireSize r) ∧
    ∀ g post, log_ready g p (c ++ bytes ++ post) →
      ∃ g', LogFile_readRecord (zlen c) g = (Ok (r, zlen bytes), g') ∧ log_ready g' p (c ++ bytes ++ post).
Proof.
  intros H Hr Hl. pose proof (wireSize_min r). pose proof (zlen_record_wire r) as Hz.
  set (frame := le_bytes 4 (wireSize r) ++ record_wire r).
  assert (Hf : zlen frame = 4 + wireSize r) by (subst frame; rewrite zlen_app, zlen_le_bytes; lia).
  destruct (append_ready f p c frame H) as (f' & E & H'); [|lia|].
  { intros E. rewrite E in Hf. unfold zlen in Hf. cbn in Hf. lia. }
  exists f', (padded frame). split; [done|]. split; [done|]. rewrite zlen_padded, Hf. split; [done|].
  intros g post Hg. unfold padded in *. rewrite <-!app_assoc in Hg |- *.
  rewrite (app_assoc c frame), <-(app_assoc c frame) in Hg |- *. subst frame. rewrite <-Hz in Hg |- *.
  destruct (readRecord_ready g p c (record_wire r)
    (zeros (Z.to_nat (padding (zlen (le_bytes 4 (zlen (record_wire r)) ++ record_wire r)))) ++ post) r
    (reading (le_bytes 4 (zlen (record_wire r)) ++ record_wire r) [])) as (g' & Eg & Hg' & _).
  - done.
  - rewrite Hz. pose proof (ro_size r Hr). lia.
  - rewrite <-(app_nil_r (record_wire r)) at 2. apply LogRecord_deserialize_parses; [done|].
    rewrite app_nil_r, zlen_app, zlen_le_bytes. pose proof (ro_size r Hr). lia.
  - eauto.
Qed.

Definition demo_fs : FileSystem := mkFileSystem ∅ ∅ EmptyString.
Definition demo_log : LogFile := (LogFile_create "wal" (LogFile_make demo_fs)).2.
Definition demo_header : list Z := wal_header_bytes (mkWalHeader kJournalMagic kWalFormatVersion 4096 0).

Lemma demo_log_ready : log_ready demo_log "wal" demo_header.
Proof.
  split; [reflexivity| |reflexivity|reflexivity|by vm_compute].
  split; try reflexivity. cbn. set_solver.
Qed.

Lemma log_file_append_read_witness :
  ∃ f' (bytes : list Z), LogFile_append (le_bytes 4 48 ++ record_wire demo_record) demo_log = (Ok tt, f') ∧
    ∃ g', LogFile_readRecord 16 f' = (Ok (demo_record, zlen bytes), g').
Proof.
  destruct (log_file_append_read demo_log "wal" demo_header demo_record) as (f' & bytes & H1 & H2 & _ & H3).
  - exact demo_log_ready.
  - exact demo_record_ok.
  - by vm_compute.
  - exists f', bytes. split; [exact H1|]. rewrite <-(app_nil_r bytes) in H2.
    destruct (H3 f' [] H2) as (g' & Hg & _). exists g'. exact Hg.
Defined.

(** ** A torn record *)

(** The record whose payload lost everything behind the first [k] bytes of its
    image to zeros. *)
Definition torn (k : Z) (r : LogRecord) : LogRecord :=
  set_payload (ztake (k - 45) (lr_payload r) ++ zeros (Z.to_nat (wireSize r - k))) r.

Definition record_head (r : LogRecord) : list Z :=
  le_bytes 1 (lr_type r) ++ le_bytes 8 (lr_lsn r) ++ le_bytes 8 (lr_timestamp r) ++ le_bytes 4 (lr_pageId r) ++
  le_bytes 8 (lr_transactionId r) ++ le_bytes 4 (zlen (lr_payload r)) ++ le_bytes 4 (lr_checksum r) ++
  le_bytes 4 (lr_reserved0 r) ++ le_bytes 4 (lr_reserved1 r).
Lemma record_wire_head r : record_wire r = record_head r ++ lr_payload r.
Proof. unfold record_wire, record_head. by rewrite <-!app_assoc. Qed.
Lemma length_record_head r : length (record_head r) = 45%nat.
Proof. unfold record_head. rewrite !length_app, !length_le_bytes. reflexivity. Qed.

Lemma torn_size k r : 45 <= k <= wireSize r → zlen (lr_payload (torn k r)) = zlen (lr_payload r).
Proof.
  intros Hk. unfold torn, wireSize in *. cbn [lr_payload set_payload]. rewrite zlen_app, zlen_zeros.
  unfold ztake, zlen in *. rewrite length_take. lia.
Qed.

Lemma torn_wire k r : 45 <= k <= wireSize r →
  ztake k (record_wire r) ++ zeros (Z.to_nat (wireSize r - k)) = record_wire (torn k r).
Proof.
  intros Hk. assert (Hh : record_head (torn k r) = record_head r)
    by (unfold record_head; by rewrite torn_size).
  rewrite !record_wire_head, Hh. unfold ztake. rewrite take_app_ge by (rewrite length_record_head; lia).
  rewrite length_record_head, <-app_assoc. unfold torn, ztake. cbn [lr_payload set_payload]. do 3 f_equal. lia.
Qed.

Lemma torn_ok k r : 45 <= k <= wireSize r → Record_ok r → Record_ok (torn k r).
Proof.
  intros Hk H. pose proof (torn_size k r Hk) as Hs. destruct H. split; try done.
  - unfold torn. cbn [lr_payload set_payload]. apply Forall_app. split.
    + by apply Forall_take.
    + apply Forall_replicate. lia.
  - unfold wireSize in *. by rewrite Hs.
Qed.

Lemma failed_file f : lf_attached f = true → df_isOpen (lf_file f) = true → s_fail (df_stream (lf_file f)) = true →
  (∀ data, ∃ f', LogFile_append data f = (ioError "Failed to seek in file", f') ∧
     df_bytes (lf_file f') = df_bytes (lf_file f)) ∧
  (∀ off, (LogFile_readRecord off f).1 = ioError "Failed to seek in file") ∧
  LogFile_flush f = (ioError "Failed to flush file", f).
Proof.
  intros Ha Ho Hf. destruct (failed_stream _ Ho Hf) as [Hs Hfl].
  unfold LogFile_append, LogFile_readRecord, LogFile_readBytes, LogFile_flush, guard_open, LogFile_isOpen.
  rewrite Ha, Ho. cbn [andb]. unfold mbind, M_bind, gets. repeat split.
  - intros data. destruct (Hs (lf_appendOffset f)) as (d & E & _ & _ & Hb). rewrite (on_file_eq _ _ _ _ E). eauto.
  - intros off. destruct (Hs off) as (d & E & _). cbv beta. rewrite (on_file_eq _ _ _ _ E), Ha, Ho. done.
  - rewrite (on_file_eq _ _ _ _ Hfl). by destruct f.
Qed.

(** A record cut off by the end of the file is not noticed, and reading it
    disables the log: [readBytes] takes a short read at the end of the file for
    a success, so [readRecord] returns the record with the missing payload bytes
    zero; the stream keeps its failure bit, so every later append, read and
    flush of the open log is refused and nothing more is written. *)
Theorem log_torn_record_accepted f p c r k : lf_attached f = true →
  opened (lf_file f) p (c ++ le_bytes 4 (wireSize r) ++ ztake k (record_wire r)) →
  Record_ok r → 45 <= k < wireSize r → zlen c < 2 ^ 62 →
  ∃ n f', LogFile_readRecord (zlen c) f = (Ok (torn k r, n), f') ∧
    (∀ data, ∃ f2, LogFile_append data f' = (ioError "Failed to seek in file", f2) ∧
       df_bytes (lf_file f2) = df_bytes (lf_file f)) ∧
    (∀ off, (LogFile_readRecord off f').1 = ioError "Failed to seek in file") ∧
    LogFile_flush f' = (ioError "Failed to flush file", f').
Proof.
  intros Ha Ho Hr Hk Hc. pose proof (zlen_nonneg c). pose proof (ro_size r Hr). pose proof (zlen_record_wire r) as Hz.
  set (size := le_bytes 4 (wireSize r)) in *. set (body := ztake k (record_wire r)) in *.
  assert (Hzs : zlen size = 4) by apply zlen_le_bytes.
  assert (Hzb : zlen body = k) by (subst body; unfold ztake, zlen in *; rewrite length_take; lia).
  destruct (readBytes_open f p c size body Ha Ho) as (d1 & E1 & O1 & _); [lia|]. rewrite Hzs in E1.
  rewrite Ha in E1. set (f1 := mkLogFile d1 true (lf_ownsFile f) (lf_appendOffset f)) in *.
  assert (E2 : ∃ d2, LogFile_readBytes (zlen c + 4) (wireSize r) f1 =
      (Ok body, mkLogFile d2 true (lf_ownsFile f) (lf_appendOffset f)) ∧ df_isOpen d2 = true ∧
      s_fail (df_stream d2) = true ∧ df_bytes d2 = c ++ size ++ body).
  { destruct (seek_opened d1 p _ (zlen c + 4) O1) as (d2 & S2 & O2 & P2 & _); [lia|].
    destruct (read_short d2 p _ (wireSize r) O2) as (d3 & R3 & I3 & F3 & _ & B3 & _);
      [rewrite P2, !zlen_app; lia|lia|lia|].
    rewrite P2 in R3. unfold zdrop in R3. rewrite app_assoc in R3.
    rewrite drop_app_ge in R3 by (rewrite length_app; unfold zlen in *; lia).
    replace (Z.to_nat (zlen c + 4) - length (c ++ size))%nat with 0%nat in R3
      by (rewrite length_app; unfold zlen in *; lia). rewrite drop_0 in R3.
    exists d3. split; [|done]. unfold LogFile_readBytes, guard_open, LogFile_isOpen.
    subst f1. cbn [lf_attached lf_file]. rewrite (proj2 (opened_bytes _ _ _ O1)). cbn [andb].
    unfold mbind, M_bind. rewrite (on_file_eq _ _ (Ok tt) d2) by done. by rewrite (on_file_eq _ _ (Ok body) d3). }
  destruct E2 as (d2 & E2 & I2 & F2 & B2). eexists _, (mkLogFile d2 true (lf_ownsFile f) (lf_appendOffset f)).
  rewrite (proj1 (opened_bytes _ _ _ Ho)), <-B2. split; [|by apply failed_file].
  unfold LogFile_readRecord, guard_open at 1, LogFile_isOpen.
  rewrite Ha, (proj2 (opened_bytes _ _ _ Ho)). cbn [andb]. unfold mbind at 1, M_bind at 1. rewrite E1.
  assert (Hv : le_value (size ++ zeros (4 - length size)) = wireSize r).
  { subst size. rewrite length_le_bytes, app_nil_r. apply le_value_small. cbn. lia. }
  rewrite Hv. destruct (Z.eqb_spec (wireSize r) 0); [lia|].
  rewrite u64_small by lia. unfold mbind at 1, M_bind at 1. rewrite E2.
  replace (Z.to_nat (wireSize r) - length body)%nat with (Z.to_nat (wireSize r - k)) by (unfold zlen in *; lia).
  subst body. rewrite torn_wire by lia. unfold local, mbind, M_bind, outcome_bind. rewrite skip_size.
  pose proof (LogRecord_deserialize_parses _ (torn_ok k r ltac:(lia) Hr) (le_bytes 4 (wireSize r)) []) as Hp.
  rewrite app_nil_r in Hp. rewrite Hp; [done|].
  rewrite zlen_app, zlen_record_wire, zlen_le_bytes. unfold wireSize at 1. rewrite torn_size by lia.
  unfold wireSize in *. lia.
Qed.

Lemma log_torn_record_accepted_witness :
  ∃ f, (LogFile_readRecord 16 f).1 = Ok (torn 46 demo_record, 56) ∧
    (LogFile_append [1] (LogFile_readRecord 16 f).2).1 = ioError "Failed to seek in file".
Proof.
  set (c := demo_header ++ le_bytes 4 48 ++ ztake 46 (record_wire demo_record)).
  set (f := LogFile_over (mkDatabaseFile (mkFileSystem {[ "wal" := c ]} ∅ EmptyString) "wal"
              (mkStream (Some "wal") 0 false false) 66)).
  exists f. destruct (log_torn_record_accepted f "wal" demo_header demo_record 46) as (n & f' & E & Ha & _).
  - reflexivity.
  - split; try reflexivity. cbn. set_solver.
  - exact demo_record_ok.
  - split; by vm_compute.
  - by vm_compute.
  - destruct (Ha [1]) as (f2 & E2 & _). change (zlen demo_header) with 16 in E.
    split; [vm_compute; reflexivity|]. rewrite E. cbn [snd]. by rewrite E2.
Defined.
