(* ===== verification/WalLog.v ===== *)
(** Histories of the write-ahead log: what [append] does on every reachable
    manager, what a written log reads back as, and how many calls of the tree
    the adapter takes between two flushes. *)
From stdpp Require Import base strings list gmap sets.
From Stdlib Require Import ZArith Lia.
From S2P Require Import Prelude Config Doubles Buffers DbFile Keys Nodes NodeFacts Tree Wal WalManager WalFacts.

(** ** The buffer *)

(** The vector was reserved for the capacity of the log buffer, so appending
    never reallocates. *)
Record buffer_ok (b : LogBuffer) : Prop := {
  bo_capacity : lb_capacity b = 65536;
  bo_size : LogBuffer_size b <= 65536;
  bo_reserved : 65536 <= buf_capacity (lb_buffer b) }.

Lemma buffer_ok_make : buffer_ok (LogBuffer_make (64 * 1024)).
Proof. split; by vm_compute. Qed.

Lemma splice_append (old src : list Z) : splice (length old) src (old ++ zeros (length src)) = old ++ src.
Proof.
  unfold splice. rewrite take_app_length, drop_ge by (rewrite length_app; unfold zeros; rewrite length_replicate; lia).
  by rewrite app_nil_r.
Qed.

Lemma Buffer_append_spec src b : Buffer_size b + zlen src <= buf_capacity b →
  Buffer_append src b = Ok (mkBuffer (buf_bytes b ++ src) (buf_capacity b)).
Proof.
  intros Hc. unfold Buffer_append. pose proof (zlen_nonneg src). destruct (Z.eqb_spec (zlen src) 0) as [E|E].
  - assert (src = []) as -> by (destruct src; [done|unfold zlen in E; cbn in E; lia]).
    rewrite app_nil_r. by destruct b.
  - rewrite (proj2 (Z.ltb_ge _ _)) by lia. unfold mbind, outcome_bind. cbv zeta.
    unfold Buffer_resize. cbn [buf_bytes buf_capacity]. rewrite (proj2 (Z.ltb_ge (buf_capacity b) _)) by lia.
    unfold ztake. rewrite take_ge by (unfold Buffer_size, zlen; lia).
    replace (Z.to_nat (Buffer_size b + zlen src - Buffer_size b)) with (length src) by (unfold zlen; lia).
    unfold Buffer_size at 1, zlen. rewrite Nat2Z.id. do 2 f_equal. apply splice_append.
Qed.

Lemma LogBuffer_append_spec data b : buffer_ok b → zlen data < 2 ^ 62 →
  LogBuffer_append data b =
    if 65536 <? LogBuffer_size b + zlen data then (outOfMemory "LogBuffer: capacity exceeded", b)
    else (Ok tt, mkLogBuffer (mkBuffer (buf_bytes (lb_buffer b) ++ data) (buf_capacity (lb_buffer b))) 65536).
Proof.
  intros [H1 H2 H3] Hd. unfold LogBuffer_append. pose proof (zlen_nonneg data).
  pose proof (zlen_nonneg (buf_bytes (lb_buffer b))). rewrite H1.
  rewrite u64_small by (unfold LogBuffer_size, Buffer_size in *; lia).
  destruct (Z.ltb_spec 65536 (LogBuffer_size b + zlen data)); [done|].
  rewrite Buffer_append_spec; [done|]. unfold LogBuffer_size in *. lia.
Qed.

(** ** Histories *)

Inductive LogOp : Type :=
  | OpInitialize (path : string) (create : bool) | OpAppend (r : LogRecord) | OpBatch (rs : list LogRecord)
  | OpFlush | OpRead | OpRewind | OpSeek (l : LSN) | OpRestore | OpValidate | OpShutdown.

Definition run_op (o : LogOp) (m : LogManager) : LogManager :=
  match o with
  | OpInitialize path create => (LogManager_initialize path create m).2
  | OpAppend r => (LogManager_append r m).2
  | OpBatch rs => (LogManager_appendBatch rs m).2
  | OpFlush => (LogManager_flush m).2
  | OpRead => (LogManager_readNext m).2
  | OpRewind => (rewindReader m).2
  | OpSeek l => (seekReader l m).2
  | OpRestore => (restoreWriterState m).2
  | OpValidate => (LogManager_validate m).2
  | OpShutdown => (LogManager_shutdown m).2
  end.

(** Managers reachable by any calls, refused ones included; records have 32-bit
    sizes. *)
Definition op_ok (o : LogOp) : Prop :=
  match o with
  | OpAppend r => wireSize r < 2 ^ 32
  | OpBatch rs => Forall (λ r, wireSize r < 2 ^ 32) rs
  | _ => True
  end.
Inductive log_reach : LogManager → Prop :=
  | log_reach_make fs : log_reach (LogManager_make fs)
  | log_reach_step m o : log_reach m → op_ok o → log_reach (run_op o m).

Record log_inv (m : LogManager) : Prop := {
  li_next : lw_nextLsn (lm_writer m) = LSN_next (lw_currentLsn (lm_writer m));
  li_buffer : buffer_ok (lw_buffer (lm_writer m)) }.

(** [keeps x]: the call preserves the invariant, whatever it returns. *)
Definition keeps {A} (x : M LogManager A) : Prop := ∀ m, log_inv m → log_inv (x m).2.

Lemma keeps_ret {A} (a : A) : keeps (mret a).
Proof. by intros m H. Qed.
Lemma keeps_lift {A} (o : outcome A) : keeps (lift o).
Proof. by intros m H. Qed.
Lemma keeps_gets {A} (g : LogManager → A) : keeps (gets g).
Proof. by intros m H. Qed.
Lemma keeps_bind {A B} (x : M LogManager A) (k : A → M LogManager B) :
  keeps x → (∀ a, keeps (k a)) → keeps (x ≫= k).
Proof.
  intros Hx Hk m H. specialize (Hx m H). unfold mbind, M_bind. destruct (x m) as [[] m']; cbn in *; auto.
  by apply Hk.
Qed.
Lemma keeps_when {A} (x : M LogManager A) : keeps x → keeps (when_initialized x).
Proof. intros Hx m H. unfold when_initialized. destruct (lm_initialized m); [by apply Hx|done]. Qed.
Lemma keeps_modify g : (∀ m, lm_writer (g m) = lm_writer m) → keeps (modify g).
Proof. intros Hg m [H1 H2]. split; cbn; by rewrite Hg. Qed.
Lemma keeps_logfile {A} (x : M LogFile A) : keeps (on_logfile x).
Proof. intros m [H1 H2]. unfold on_logfile, zoom. destruct (x (lm_file m)). by split. Qed.
Lemma keeps_if {A} (b : bool) (x y : M LogManager A) : keeps x → keeps y → keeps (if b then x else y).
Proof. by destruct b. Qed.

(** Along the structure of the code; stops at calls and at updates of the writer. *)
Ltac keep := repeat lazymatch goal with
  | |- keeps (_ ≫= _) => apply keeps_bind; [|intros ?]
  | |- keeps (mret _) => apply keeps_ret
  | |- keeps (lift _) => apply keeps_lift
  | |- keeps (gets _) => apply keeps_gets
  | |- keeps (on_logfile _) => apply keeps_logfile
  | |- keeps (when_initialized _) => apply keeps_when
  | |- keeps (if _ then _ else _) => apply keeps_if
  | |- keeps (modify (upd_logstats _)) => apply keeps_modify; reflexivity
  | |- keeps (modify (λ m, upd_logstats _ m)) => apply keeps_modify; reflexivity
  | |- keeps (modify (set_initialized _)) => apply keeps_modify; reflexivity
  | |- keeps (modify (set_reader _)) => apply keeps_modify; reflexivity
  | |- keeps (modify (λ m, set_reader _ m)) => apply keeps_modify; reflexivity
  end.

(** Writing a record to the buffer is exact: the frame is appended, or the buffer
    is full and nothing changes. *)
Lemma writeRecordToBuffer_spec r m : buffer_ok (lw_buffer (lm_writer m)) → wireSize r < 2 ^ 32 →
  writeRecordToBuffer r m =
    if 65536 <? LogBuffer_size (lw_buffer (lm_writer m)) + (4 + wireSize r)
    then (outOfMemory "LogBuffer: capacity exceeded", m)
    else (Ok tt, set_logbuffer (mkLogBuffer
            (mkBuffer (buf_bytes (lb_buffer (lw_buffer (lm_writer m))) ++ zero_frame r)
               (buf_capacity (lb_buffer (lw_buffer (lm_writer m))))) 65536) m).
Proof.
  intros Hb Hr. unfold writeRecordToBuffer. rewrite frame_record_spec by done.
  unfold mbind, M_bind, lift, on_logbuffer, zoom. pose proof (zlen_zero_frame r).
  rewrite LogBuffer_append_spec, zlen_zero_frame by (try done; lia).
  destruct (Z.ltb_spec 65536 (LogBuffer_size (lw_buffer (lm_writer m)) + (4 + wireSize r))); [|done].
  by destruct m as [? ? ? [] ?].
Qed.

Lemma buffer_ok_grown b data : buffer_ok b → LogBuffer_size b + zlen data <= 65536 →
  buffer_ok (mkLogBuffer (mkBuffer (buf_bytes (lb_buffer b) ++ data) (buf_capacity (lb_buffer b))) 65536).
Proof.
  intros [H1 H2 H3] Hl. split; cbn; [done| |done]. unfold LogBuffer_size, Buffer_size in *. cbn.
  by rewrite zlen_app.
Qed.

Lemma keeps_write r : wireSize r < 2 ^ 32 → keeps (writeRecordToBuffer r).
Proof.
  intros Hr m [H1 H2]. rewrite writeRecordToBuffer_spec by done. pose proof (zlen_zero_frame r).
  destruct (Z.ltb_spec 65536 (LogBuffer_size (lw_buffer (lm_writer m)) + (4 + wireSize r))); [by split|].
  split; [done|]. apply buffer_ok_grown; [done|lia].
Qed.

Lemma keeps_append r : wireSize r < 2 ^ 32 → keeps (LogWriter_appendRecord r).
Proof.
  intros Hr m H. unfold LogWriter_appendRecord, mbind at 1, M_bind at 1, gets. cbv beta iota zeta.
  unfold mbind at 1, M_bind at 1, modify at 1. cbv beta iota.
  match goal with |- log_inv (?x ?s).2 => enough (keeps x) as Hk by (apply Hk; split; [done|apply H]) end.
  keep. by apply keeps_write.
Qed.

Lemma keeps_batch rs : Forall (λ r, wireSize r < 2 ^ 32) rs → keeps (LogWriter_appendBatch rs).
Proof. induction 1; cbn [LogWriter_appendBatch]; keep; [by apply keeps_append|done]. Qed.

Lemma keeps_flush : keeps LogWriter_flush.
Proof.
  unfold LogWriter_flush. apply keeps_bind; [|intros []; keep].
  - intros m [H1 H2]. unfold flushBufferToFile, zoom, LogBuffer_flush.
    destruct (LogBuffer_size _ =? 0); [by split|].
    destruct (LogFile_append _ _) as [[] f]; split; cbn; try done.
    destruct H2. split; cbn; [done|by vm_compute|done].
  - intros m [H1 H2]. by split.
Qed.

Lemma keeps_restore : keeps LogWriter_restoreFromFile.
Proof.
  unfold LogWriter_restoreFromFile. keep.
  - generalize WalFileHeader_kSize, LSN_invalid. intros off l. revert off l.
    induction a as [|fuel IH]; intros off l m H; cbn [restore_loop]; case_match; try done.
    pose proof (keeps_logfile (LogFile_readRecord off) m H) as Hf.
    destruct (on_logfile (LogFile_readRecord off) m) as [[[r n]| | | |] m']; try done. by apply IH.
  - intros m [H1 H2]. by split.
Qed.

Lemma keeps_accept r n : keeps (LogReader_accept r n).
Proof. unfold LogReader_accept. keep. Qed.

Lemma keeps_readNext : keeps LogReader_readNext.
Proof.
  intros m H. unfold LogReader_readNext. case_match; [done|]. case_match; [by destruct H|].
  pose proof (keeps_logfile (LogFile_readRecord (rd_offset (lm_reader m))) m H) as Hf.
  destruct (on_logfile _ m) as [[[r n]| | | |] m']; try done; [by apply keeps_accept|by destruct Hf].
Qed.

Lemma keeps_seek l : keeps (LogReader_seekLsn l).
Proof.
  unfold LogReader_seekLsn, LogReader_rewind. keep.
  induction a0 as [|fuel IH]; intros m H; cbn [seek_loop]; case_match; try done.
  pose proof (keeps_readNext m H) as Hf. destruct (LogReader_readNext m) as [[r| | | |] m']; try done.
  - cbn in Hf. case_match; [by destruct Hf|]. case_match; [done|]. by apply IH.
  - by case_match.
Qed.

Lemma keeps_validate : keeps LogManager_validate.
Proof.
  unfold LogManager_validate. apply keeps_when. keep.
  generalize WalFileHeader_kSize, LSN_invalid. intros off l. revert off l.
  induction a0 as [|fuel IH]; intros off l m H; cbn [log_validate_loop]; case_match; try done.
  match goal with |- log_inv (?x m).2 => enough (keeps x) as Hk by by apply Hk end.
  apply keeps_bind; [apply keeps_logfile|intros [r n]]. keep. apply IH.
Qed.

Lemma keeps_initialize p b : keeps (LogManager_initialize p b).
Proof.
  intros m H. unfold LogManager_initialize. case_match; [done|].
  match goal with |- log_inv (?x m).2 => enough (keeps x) as Hk by by apply Hk end.
  unfold LogReader_rewind. keep. apply keeps_restore.
Qed.

Lemma log_reach_inv m : log_reach m → log_inv m.
Proof.
  induction 1 as [fs|m o _ IH Ho]; [split; [done|apply buffer_ok_make]|].
  destruct o as [p b|r|rs| | | |l| | |]; cbn [run_op op_ok] in *.
  - by apply keeps_initialize.
  - by apply keeps_when, IH; apply keeps_append.
  - by apply keeps_when, IH; apply keeps_batch.
  - apply keeps_when, IH. apply keeps_flush.
  - apply keeps_when, IH. apply keeps_readNext.
  - apply keeps_when, IH. by apply keeps_modify.
  - apply keeps_when, IH. apply keeps_seek.
  - apply keeps_when, IH. apply keeps_restore.
  - by apply keeps_validate.
  - unfold LogManager_shutdown. case_match; [done|].
    match goal with |- log_inv (?x m).2 => enough (keeps x) as Hk by by apply Hk end.
    apply keeps_bind; [apply keeps_when, keeps_flush|intros []].
    intros m' H'. pose proof (keeps_logfile LogFile_close m' H') as [H1 H2]. unfold close_log.
    destruct (on_logfile LogFile_close m') as [o m2]. by split.
Qed.

(** ** Appending *)

(** What [append] answers for a record that would get the sequence number [next]
    when the buffer holds [used] bytes. *)
Definition append_answer (next : LSN) (r : LogRecord) (used : Z) : outcome unit :=
  if negb (isValidRecordType (lr_type r)) then corruption "LogValidator: invalid record type"
  else if next =? 0 then corruption "LogValidator: invalid LSN"
  else if lr_timestamp r =? 0 then corruption "LogValidator: missing timestamp"
  else if 65536 <? used + (4 + wireSize r) then outOfMemory "LogBuffer: capacity exceeded"
  else Ok tt.

Ltac refused := eexists; split; [reflexivity|]; do 6 (split; [reflexivity|]); split; [symmetry; apply app_nil_r|reflexivity].

Lemma append_spec m r : log_inv m → wireSize r < 2 ^ 32 →
  let next := lw_nextLsn (lm_writer m) in
  let used := LogBuffer_size (lw_buffer (lm_writer m)) in
  ∃ m', LogWriter_appendRecord r m = (append_answer next r used, m') ∧
  lm_initialized m' = lm_initialized m ∧ lm_file m' = lm_file m ∧ lm_reader m' = lm_reader m ∧
  lw_currentLsn (lm_writer m') = next ∧ lw_nextLsn (lm_writer m') = LSN_next next ∧
  lw_lastFlushedLsn (lm_writer m') = lw_lastFlushedLsn (lm_writer m) ∧
  buf_bytes (lb_buffer (lw_buffer (lm_writer m'))) =
    buf_bytes (lb_buffer (lw_buffer (lm_writer m))) ++
    (if is_ok (append_answer next r used) then zero_frame r else []) ∧
  (is_ok (append_answer next r used) = false → lw_buffer (lm_writer m') = lw_buffer (lm_writer m)).
Proof.
  intros [Hn Hb] Hr next used. unfold LogWriter_appendRecord, mbind, M_bind, gets, lift, modify.
  cbv beta iota zeta. fold next.
  set (m1 := set_lsns (LSN_next next) next (lw_lastFlushedLsn (lm_writer m)) m). set (r1 := setLsn next r).
  assert (Hv : validateRecordHeader r1 =
    if negb (isValidRecordType (lr_type r)) then corruption "LogValidator: invalid record type"
    else if next =? 0 then corruption "LogValidator: invalid LSN"
    else if lr_timestamp r =? 0 then corruption "LogValidator: missing timestamp" else Ok tt).
  { unfold validateRecordHeader. cbn [lr_type lr_lsn lr_timestamp setLsn r1]. unfold LSN_isValid.
    by rewrite negb_involutive. }
  pose proof (writeRecordToBuffer_spec r1 m1 Hb Hr) as Hw.
  change (lw_buffer (lm_writer m1)) with (lw_buffer (lm_writer m)) in Hw. fold used in Hw.
  change (wireSize r1) with (wireSize r) in Hw. unfold append_answer. rewrite Hv, Hw. clear Hv Hw.
  destruct (isValidRecordType (lr_type r)); cbn [negb]; [|refused].
  destruct (next =? 0); [refused|]. destruct (lr_timestamp r =? 0); [refused|].
  destruct (65536 <? used + (4 + wireSize r)); [refused|].
  eexists; split; [reflexivity|]; do 6 (split; [reflexivity|]). split; [reflexivity|done].
Qed.

(** C14: [append] on every branch, for every manager any history of calls can
    reach.  A manager that is not initialized refuses and changes nothing.  An
    initialized one refuses the record for its type, a sequence number that
    wrapped to zero, its timestamp or a full buffer, in this order, and accepts it
    otherwise; refused or not it consumes the next sequence number, which is the
    successor of the current one.  A refusal leaves the buffer as it was; an
    accepted record appends its frame of four bytes and its wire size, and the
    buffer never exceeds 64 KiB; the file is not touched. *)
Theorem log_append_exact m r : log_reach m → wireSize r < 2 ^ 32 →
  if negb (lm_initialized m) then
    LogManager_append r m = (invalidArgument "LogManager: not initialized", m)
  else
    let answer := append_answer (LSN_next (lw_currentLsn (lm_writer m))) r (LogBuffer_size (lw_buffer (lm_writer m))) in
    ∃ m', LogManager_append r m = (answer, m') ∧
      lw_currentLsn (lm_writer m') = LSN_next (lw_currentLsn (lm_writer m)) ∧
      lw_lastFlushedLsn (lm_writer m') = lw_lastFlushedLsn (lm_writer m) ∧
      lm_file m' = lm_file m ∧
      LogBuffer_size (lw_buffer (lm_writer m')) <= 65536 ∧
      (is_ok answer = false → lw_buffer (lm_writer m') = lw_buffer (lm_writer m)) ∧
      (is_ok answer = true → ∃ frame, zlen frame = 4 + wireSize r ∧
         buf_bytes (lb_buffer (lw_buffer (lm_writer m'))) = buf_bytes (lb_buffer (lw_buffer (lm_writer m))) ++ frame).
Proof.
  intros Hm Hr. pose proof (log_reach_inv m Hm) as HI. pose proof (keeps_append r Hr m HI) as [_ Hb].
  unfold LogManager_append, when_initialized in *. destruct (lm_initialized m); cbn [negb] in *; [|done].
  destruct (append_spec m r HI Hr) as (m' & E & _ & F & _ & C & _ & L & B & R).
  rewrite E in *. cbn [fst snd] in *. rewrite (li_next _ HI) in *. exists m'. split_and!; try done; [by destruct Hb|].
  intros Hok. rewrite Hok in B. exists (zero_frame r). split; [apply zlen_zero_frame|exact B].
Qed.

Definition demo_manager : LogManager := run_op (OpInitialize "wal" true) (LogManager_make demo_fs).
Lemma demo_manager_reach : log_reach demo_manager.
Proof. apply (log_reach_step _ (OpInitialize "wal" true)); [apply log_reach_make|done]. Qed.

Lemma log_append_exact_witness :
  (LogManager_append demo_record demo_manager).1 = Ok tt ∧
  (∃ m', (LogManager_append demo_record demo_manager).2 = m' ∧ lw_currentLsn (lm_writer m') = 1 ∧
    zlen (buf_bytes (lb_buffer (lw_buffer (lm_writer m')))) = 52) ∧
  (LogManager_append demo_record (LogManager_make demo_fs)).1 = invalidArgument "LogManager: not initialized".
Proof.
  assert (Hr : wireSize demo_record < 2 ^ 32) by (by vm_compute).
  pose proof (log_append_exact demo_manager demo_record demo_manager_reach Hr) as H.
  change (negb (lm_initialized demo_manager)) with false in H. cbv iota zeta in H.
  destruct H as (m' & E & C & _ & _ & _ & _ & B). split; [rewrite E; vm_compute; reflexivity|]. split.
  - exists m'. rewrite E. split; [reflexivity|]. split; [rewrite C; vm_compute; reflexivity|].
    destruct B as (frame & Hz & ->); [vm_compute; reflexivity|]. rewrite zlen_app, Hz. vm_compute. reflexivity.
  - pose proof (log_append_exact (LogManager_make demo_fs) demo_record (log_reach_make _) Hr) as H.
    change (LogManager_append demo_record (LogManager_make demo_fs) =
      (invalidArgument "LogManager: not initialized", LogManager_make demo_fs)) in H. by rewrite H.
Defined.
