(* ===== verification/WalReopen.v ===== *)
(** What a written log is worth: records flushed one at a time, then read,
    validated and reopened. *)
From stdpp Require Import base strings list gmap sets.
From Stdlib Require Import ZArith Lia.
From S2P Require Import Prelude Config Formats Doubles Buffers DbFile Wal WalManager WalFacts WalLog.

Definition wal_header : list Z := wal_header_bytes (mkWalHeader kJournalMagic kWalFormatVersion 4096 0).

(** ** Opening *)

Lemma open_fresh fs p : fs_files fs !! p = None → p ∉ fs_denied fs →
  ∃ d, DatabaseFile_open p true (DatabaseFile_make fs) = (Ok tt, d) ∧ opened d p [].
Proof.
  intros Hn Hd. unfold DatabaseFile_open, DatabaseFile_make. cbn. rewrite Hn. cbn.
  unfold stream_create. cbn. rewrite bool_decide_eq_false_2 by done. cbn.
  eexists. split; [reflexivity|]. split; cbn; try done. apply lookup_insert_eq.
Qed.

Lemma open_existing fs p c : fs_files fs !! p = Some c → p ∉ fs_denied fs →
  ∃ d, DatabaseFile_open p true (DatabaseFile_make fs) = (Ok tt, d) ∧ opened d p c ∧ df_fs d = fs.
Proof.
  intros Hn Hd. unfold DatabaseFile_open, DatabaseFile_make. cbn. rewrite Hn. cbn.
  unfold stream_open. cbn. rewrite bool_decide_eq_false_2, Hn by done. cbn.
  eexists. split; [reflexivity|]. split; [|done]. split; cbn; try done. unfold df_bytes. cbn. by rewrite Hn.
Qed.

Lemma writeHeader_open f p : lf_attached f = true → opened (lf_file f) p [] → lf_appendOffset f = 16 →
  ∃ f', writeHeader f = (Ok tt, f') ∧ log_ready f' p wal_header.
Proof.
  intros Ha Ho Hoff. destruct (seek_opened _ _ _ 0 Ho) as (d1 & E1 & O1 & P1 & _); [lia|].
  destruct (write_opened d1 p [] wal_header O1) as (d2 & E2 & O2 & _); [rewrite P1; unfold zlen; cbn; lia|].
  rewrite P1 in O2. change 0 with (zlen (@nil Z)) in O2. rewrite file_write_end in O2.
  unfold writeHeader, mbind, M_bind. rewrite (on_file_eq _ _ _ _ E1), (on_file_eq _ _ (Ok tt) d2) by done.
  eexists. split; [done|]. split; cbn; try done.
Qed.

Lemma readHeader_open f p rest : lf_attached f = true → opened (lf_file f) p (wal_header ++ rest) →
  ∃ d, readHeader f = (Ok (mkWalHeader kJournalMagic kWalFormatVersion 4096 0),
                       mkLogFile d (lf_attached f) (lf_ownsFile f) (lf_appendOffset f)) ∧
    opened d p (wal_header ++ rest).
Proof.
  intros Ha H. destruct (readBytes_open f p [] wal_header rest Ha H) as (d & E & H' & _); [by vm_compute|].
  exists d. split; [|done]. destruct (opened_bytes _ _ _ H) as [_ Ho].
  unfold LogFile_readBytes, readHeader, guard_open, LogFile_isOpen in *. rewrite Ha, Ho in *. cbn [andb] in *.
  unfold df_fileSize. rewrite (op_size _ _ _ H), zlen_app. change (zlen wal_header) with 16 in *.
  pose proof (zlen_nonneg rest). unfold WalFileHeader_kSize. rewrite (proj2 (Z.ltb_ge _ _)) by lia.
  unfold mbind, M_bind in *. change (zlen (@nil Z)) with 0 in E.
  destruct (on_file (DatabaseFile_seek 0) f) as [[] f1]; try done.
  destruct (on_file (DatabaseFile_readBytes 16) f1) as [[got| | | |] f2]; try done.
  injection E as -> ->. done.
Qed.

Lemma validate_ready f p rest : log_ready f p (wal_header ++ rest) →
  ∃ f', LogFile_validate f = (Ok tt, f') ∧ log_ready f' p (wal_header ++ rest).
Proof.
  intros H. destruct (readHeader_open f p rest (lg_attached _ _ _ H) (lg_opened _ _ _ H)) as (d & E & H').
  eexists. split; [|exact (ready_change _ _ _ _ H H')].
  unfold LogFile_validate, guard_open at 1. rewrite (ready_isOpen _ _ _ H). unfold mbind, M_bind. by rewrite E.
Qed.

(** ** A live log *)

(** An initialized manager with nothing in its buffer, over a file that holds
    [c], about to hand out the sequence number [next]. *)
Record log_live (m : LogManager) (p : string) (c : list Z) (next : LSN) : Prop := {
  ll_initialized : lm_initialized m = true;
  ll_file : log_ready (lm_file m) p c;
  ll_inv : log_inv m;
  ll_empty : buf_bytes (lb_buffer (lw_buffer (lm_writer m))) = [];
  ll_next : lw_nextLsn (lm_writer m) = next;
  ll_reader : lm_reader m = LogReader_make
}.

Lemma on_logfile_eq {A} (x : M LogFile A) m o f : x (lm_file m) = (o, f) → on_logfile x m = (o, set_lmfile f m).
Proof. intros E. unfold on_logfile, zoom. by rewrite E. Qed.

Lemma initialize_fresh fs p : fs_files fs !! p = None → p ∉ fs_denied fs →
  ∃ m, LogManager_initialize p true (LogManager_make fs) = (Ok tt, m) ∧ log_live m p wal_header 1.
Proof.
  intros Hn Hd. destruct (open_fresh fs p Hn Hd) as (d & Ed & Od).
  assert (Hc : ∃ f, LogFile_create p (LogFile_make fs) = (Ok tt, f) ∧ log_ready f p wal_header).
  { unfold LogFile_create, mbind, M_bind, modify. rewrite (on_file_eq _ _ (Ok tt) d) by exact Ed. cbv beta iota.
    by apply writeHeader_open. }
  destruct Hc as (f & Ef & Hf).
  destruct (validate_ready f p []) as (f' & Ev & Hf'); [by rewrite app_nil_r|]. rewrite app_nil_r in Hf'.
  pose proof (keeps_initialize p true (LogManager_make fs) (log_reach_inv _ (log_reach_make fs))) as HI.
  revert HI. unfold LogManager_initialize. cbn [lm_initialized LogManager_make negb andb].
  unfold mbind, M_bind. rewrite (on_logfile_eq _ _ (Ok tt) f) by exact Ef. cbv beta iota.
  rewrite (on_logfile_eq _ _ (Ok tt) f') by exact Ev. unfold gets, mret, M_ret, modify, LogReader_rewind. cbv beta iota.
  intros HI. eexists. split; [reflexivity|]. by split.
Qed.

(** A record the writer accepts, and that fits an empty buffer. *)
Definition loggable (r : LogRecord) : Prop :=
  isValidRecordType (lr_type r) = true ∧ lr_timestamp r ≠ 0 ∧ 4 + wireSize r <= 65536.
Definition stored_frame (r : LogRecord) : list Z := padded (zero_frame r).

Lemma zlen_stored_frame r : zlen (stored_frame r) = 4 + wireSize r + padding (4 + wireSize r).
Proof. unfold stored_frame. by rewrite zlen_padded, zlen_zero_frame. Qed.

Lemma stored_frame_min r : 49 <= zlen (stored_frame r) <= wireSize r + 12.
Proof. rewrite zlen_stored_frame. pose proof (wireSize_min r). pose proof (padding_bounds (4 + wireSize r)). lia. Qed.

Lemma flush_ready m p c next data : lm_initialized m = true → log_ready (lm_file m) p c → log_inv m →
  lm_reader m = LogReader_make → lw_nextLsn (lm_writer m) = next →
  buf_bytes (lb_buffer (lw_buffer (lm_writer m))) = data → zlen c + zlen data + 8 < 2 ^ 62 →
  ∃ m', LogManager_flush m = (Ok tt, m') ∧
    log_live m' p (c ++ match data with [] => [] | _ => padded data end) next ∧
    lw_lastFlushedLsn (lm_writer m') = lw_currentLsn (lm_writer m).
Proof.
  intros Hi Hf HI Hr Hn Hb Hl. pose proof (keeps_flush m HI) as HI'. revert HI'.
  unfold LogManager_flush, when_initialized. rewrite Hi. unfold LogWriter_flush, mbind, M_bind.
  assert (E : ∃ m1, flushBufferToFile m = (Ok tt, m1) ∧ lm_initialized m1 = true ∧ lm_reader m1 = LogReader_make ∧
    log_ready (lm_file m1) p (c ++ match data with [] => [] | _ => padded data end) ∧
    buf_bytes (lb_buffer (lw_buffer (lm_writer m1))) = [] ∧ lw_nextLsn (lm_writer m1) = next ∧
    lw_currentLsn (lm_writer m1) = lw_currentLsn (lm_writer m)).
  { unfold flushBufferToFile, zoom, LogBuffer_flush, LogBuffer_size, Buffer_size. rewrite Hb.
    destruct data as [|x xs].
    - eexists. split; [reflexivity|]. rewrite app_nil_r. by rewrite <-Hb.
    - destruct (append_ready _ p c (x :: xs) Hf) as (f' & Ea & Hf'); [done|done|].
      rewrite (proj2 (Z.eqb_neq _ _)) by (unfold zlen; cbn; lia). rewrite Ea.
      eexists. split; [reflexivity|]. done. }
  destruct E as (m1 & -> & A1 & A2 & A3 & A4 & A5 & A6).
  assert (Ef : LogFile_flush (lm_file m1) = (Ok tt, lm_file m1)).
  { unfold LogFile_flush. rewrite (lg_attached _ _ _ A3). destruct (opened_bytes _ _ _ (lg_opened _ _ _ A3)) as [_ Ho].
    destruct (good_flags _ (op_good _ _ _ (lg_opened _ _ _ A3))) as [Hg _].
    rewrite (on_file_eq _ _ (Ok tt) (lf_file (lm_file m1))).
    - by destruct (lm_file m1).
    - unfold DatabaseFile_flush. by rewrite Ho, Hg. }
  rewrite (on_logfile_eq _ _ _ _ Ef). unfold modify. cbv beta iota. intros HI'.
  eexists. split; [reflexivity|]. by split.
Qed.

Lemma append_flush m p c next r : log_live m p c next → loggable r → 0 < next < 2 ^ 64 - 1 →
  zlen c + zlen (stored_frame r) + 8 < 2 ^ 62 →
  ∃ m', (_ ← LogManager_append r; LogManager_flush) m = (Ok tt, m') ∧ log_live m' p (c ++ stored_frame r) (next + 1).
Proof.
  intros H (Ht & Hts & Hs) Hn Hl. pose proof (stored_frame_min r) as Hz. pose proof (zlen_zero_frame r) as Hzf.
  rewrite zlen_stored_frame in Hz, Hl. pose proof (padding_bounds (4 + wireSize r)).
  assert (Hw : wireSize r < 2 ^ 32) by lia.
  destruct (append_spec m r (ll_inv _ _ _ _ H) Hw) as (m1 & E & A1 & A2 & A3 & _ & A5 & _ & A7 & _).
  pose proof (keeps_append r Hw m (ll_inv _ _ _ _ H)) as HI. rewrite E in HI. cbn [snd] in HI.
  unfold LogBuffer_size, Buffer_size in *. rewrite (ll_empty _ _ _ _ H), (ll_next _ _ _ _ H) in *.
  assert (Ha : append_answer next r (zlen (@nil Z)) = Ok tt).
  { unfold append_answer. rewrite Ht. cbn [negb]. rewrite (proj2 (Z.eqb_neq _ _)) by lia.
    rewrite (proj2 (Z.eqb_neq _ _)) by done. change (zlen (@nil Z)) with 0.
    by rewrite (proj2 (Z.ltb_ge _ _)) by lia. }
  rewrite Ha in *. cbn [is_ok app] in A7. unfold LSN_next in A5. rewrite u64_small in A5 by lia.
  destruct (flush_ready m1 p c (next + 1) (zero_frame r)) as (m2 & E2 & Hm2 & _);
    rewrite ?A1, ?A2, ?A3; try done; try apply H; [lia|].
  exists m2. unfold mbind, M_bind, LogManager_append, when_initialized. rewrite (ll_initialized _ _ _ _ H), E, E2.
  split; [done|]. unfold stored_frame. destruct (zero_frame r) eqn:Ez; [|done].
  unfold zlen in Hzf. cbn in Hzf. pose proof (wireSize_min r). lia.
Qed.

(** ** Many records *)

Fixpoint append_each (rs : list LogRecord) : M LogManager unit :=
  match rs with
  | [] => mret tt
  | r :: rs => _ ← LogManager_append r; _ ← LogManager_flush; append_each rs
  end.
Definition stored_log (rs : list LogRecord) : list Z := concat (map stored_frame rs).

Lemma append_each_spec rs m p c next : log_live m p c next → Forall loggable rs →
  0 < next → next + zlen rs < 2 ^ 64 → zlen c + zlen (stored_log rs) + 8 < 2 ^ 62 →
  ∃ m', append_each rs m = (Ok tt, m') ∧ log_live m' p (c ++ stored_log rs) (next + zlen rs).
Proof.
  revert m c next. induction rs as [|r rs IH]; intros m c next H Hl Hn Hb Hs.
  { exists m. cbn. rewrite app_nil_r. change (zlen (@nil LogRecord)) with 0. by rewrite Z.add_0_r. }
  apply Forall_cons in Hl as [Hr Hl]. pose proof (zlen_nonneg rs). pose proof (zlen_nonneg (stored_log rs)).
  assert (Hz : zlen (r :: rs) = 1 + zlen rs) by (unfold zlen; cbn [length]; lia).
  change (stored_log (r :: rs)) with (stored_frame r ++ stored_log rs) in *. rewrite zlen_app in Hs.
  destruct (append_flush m p c next r H Hr) as (m1 & E1 & G1); [lia|lia|].
  destruct (IH m1 _ _ G1 Hl) as (m2 & E2 & G2); [lia|lia|rewrite zlen_app; lia|].
  exists m2. rewrite Hz, Z.add_assoc, app_assoc. split; [|done]. cbn [append_each].
  unfold mbind, M_bind in E1 |- *. destruct (LogManager_append r m) as [[] ?]; try done. by rewrite E1.
Qed.

(** The record every stored body reads as. *)
Definition zero_record : LogRecord := mkLogRecord 0 0 0 0 0 0 0 0 [].

Lemma zero_body n : 45 <= n → zeros (Z.to_nat n) = record_wire zero_record ++ zeros (Z.to_nat (n - 45)).
Proof.
  intros Hn. change (record_wire zero_record) with (zeros 45). unfold zeros. rewrite <-replicate_add.
  f_equal. lia.
Qed.

Lemma deserialize_zeros n : 45 <= n < 2 ^ 32 → ∃ rd,
  LogRecord_deserialize (reading (le_bytes 4 n) (zeros (Z.to_nat n))) = (Ok zero_record, rd).
Proof.
  intros Hn. rewrite zero_body by lia. eexists. apply LogRecord_deserialize_parses.
  - split; try (split; by vm_compute); constructor.
  - change (record_wire zero_record) with (zeros 45). rewrite !zlen_app, !zlen_zeros, zlen_le_bytes. lia.
Qed.

Lemma read_stored f p pre r post : loggable r → log_ready f p (pre ++ stored_frame r ++ post) →
  ∃ f', LogFile_readRecord (zlen pre) f = (Ok (zero_record, zlen (stored_frame r)), f') ∧
    log_ready f' p (pre ++ stored_frame r ++ post).
Proof.
  intros (_ & _ & Hs) H. pose proof (wireSize_min r).
  assert (Hz : zlen (zeros (Z.to_nat (wireSize r))) = wireSize r) by (rewrite zlen_zeros; lia).
  destruct (deserialize_zeros (wireSize r)) as [rd Hrd]; [lia|].
  assert (Hc : pre ++ stored_frame r ++ post =
    pre ++ (le_bytes 4 (wireSize r) ++ zeros (Z.to_nat (wireSize r))) ++
      zeros (Z.to_nat (padding (zlen (zero_frame r)))) ++ post).
  { unfold stored_frame, padded, zero_frame. by rewrite <-!app_assoc. }
  rewrite Hc in *. rewrite <-Hz in H at 1. rewrite <-Hz in Hrd at 1.
  destruct (readRecord_ready f p pre (zeros (Z.to_nat (wireSize r)))
    (zeros (Z.to_nat (padding (zlen (zero_frame r)))) ++ post) zero_record rd H) as (f' & E & H' & _);
    [rewrite Hz; lia|done|].
  exists f'. rewrite Hz in E, H'. rewrite E, zlen_stored_frame. done.
Qed.

Lemma restore_stored rs : Forall loggable rs → ∀ fuel m p pre, (length rs < fuel)%nat →
  log_ready (lm_file m) p (pre ++ stored_log rs) →
  ∃ f, restore_loop fuel (zlen pre) LSN_invalid m = (Ok LSN_invalid, set_lmfile f m) ∧
    log_ready f p (pre ++ stored_log rs).
Proof.
  induction 1 as [|r rs Hr Hrs IH]; intros fuel m p pre Hfuel H.
  - exists (lm_file m). assert (Hz : LogFile_fileSize (lm_file m) = zlen pre).
    { unfold LogFile_fileSize, df_fileSize. rewrite (lg_attached _ _ _ H), (op_size _ _ _ (lg_opened _ _ _ H)).
      cbn. by rewrite app_nil_r. }
    split; [|done]. destruct fuel; cbn [restore_loop]; rewrite Hz, Z.ltb_irrefl; by destruct m.
  - change (stored_log (r :: rs)) with (stored_frame r ++ stored_log rs) in *. destruct fuel as [|fuel]; [cbn in Hfuel; lia|].
    destruct (read_stored _ p pre r (stored_log rs) Hr H) as (f1 & E1 & H1). cbn [restore_loop].
    pose proof (stored_frame_min r). pose proof (zlen_nonneg (stored_log rs)). pose proof (zlen_nonneg pre).
    pose proof (lg_header _ _ _ H) as Hh. rewrite !zlen_app in Hh.
    assert (Hz : LogFile_fileSize (lm_file m) = zlen pre + (zlen (stored_frame r) + zlen (stored_log rs))).
    { unfold LogFile_fileSize, df_fileSize. rewrite (lg_attached _ _ _ H), (op_size _ _ _ (lg_opened _ _ _ H)).
      by rewrite !zlen_app. }
    rewrite Hz, (proj2 (Z.ltb_lt _ _)) by lia. rewrite (on_logfile_eq _ _ _ _ E1). cbn [lr_lsn zero_record].
    rewrite u64_small, <-zlen_app by lia.
    destruct (IH fuel (set_lmfile f1 m) p (pre ++ stored_frame r)) as (f2 & E2 & G2).
    + cbn [length] in Hfuel. lia.
    + cbn. by rewrite <-app_assoc.
    + exists f2. rewrite <-app_assoc in G2. split; [|done]. exact E2.
Qed.

(** ** Reopening *)

Lemma reopen_ready fs p rest : fs_files fs !! p = Some (wal_header ++ rest) → p ∉ fs_denied fs →
  zlen (wal_header ++ rest) mod 8 = 0 → zlen rest < 2 ^ 61 →
  ∃ f, LogFile_open p true (LogFile_make fs) = (Ok tt, f) ∧ log_ready f p (wal_header ++ rest).
Proof.
  intros Hn Hd Hal Hl. destruct (open_existing fs p _ Hn Hd) as (d & Ed & Od & _).
  unfold LogFile_open, mbind, M_bind, modify. rewrite (on_file_eq _ _ (Ok tt) d) by exact Ed. cbv beta iota.
  unfold adopt_header. cbn [own_file LogFile_make lf_attached lf_ownsFile lf_appendOffset].
  destruct (readHeader_open (mkLogFile d true true WalFileHeader_kSize) p rest) as (d2 & E2 & O2); [done|done|].
  rewrite E2. cbn [lf_file lf_attached lf_ownsFile lf_appendOffset]. eexists. split; [reflexivity|].
  pose proof (zlen_nonneg rest).
  split; cbn [lf_attached lf_file lf_appendOffset set_appendOffset]; try done.
  - apply (op_size _ _ _ O2).
  - rewrite zlen_app in *. change (zlen wal_header) with 16 in *. lia.
Qed.

Lemma reopen_stored fs p rs : fs_files fs !! p = Some (wal_header ++ stored_log rs) → p ∉ fs_denied fs →
  Forall loggable rs → zlen (wal_header ++ stored_log rs) mod 8 = 0 → zlen (stored_log rs) < 2 ^ 61 →
  ∃ m, LogManager_initialize p false (LogManager_make fs) = (Ok tt, m) ∧ log_live m p (wal_header ++ stored_log rs) 1.
Proof.
  intros Hn Hd Hrs Hal Hl. destruct (reopen_ready fs p _ Hn Hd Hal Hl) as (f & Ef & Hf).
  destruct (validate_ready f p _ Hf) as (f1 & Ev & Hf1).
  pose proof (keeps_initialize p false (LogManager_make fs) (log_reach_inv _ (log_reach_make fs))) as HI.
  assert (Hr : ∃ f2, (if negb false && (WalFileHeader_kSize <? LogFile_fileSize f1)
      then LogWriter_restoreFromFile else mret tt) (set_lmfile f1 (set_lmfile f (LogManager_make fs))) =
      (Ok tt, set_lmfile f2 (LogManager_make fs)) ∧ log_ready f2 p (wal_header ++ stored_log rs)).
  { cbn [negb andb]. destruct (Z.ltb_spec WalFileHeader_kSize (LogFile_fileSize f1)); [|by exists f1].
    unfold LogWriter_restoreFromFile, mbind, M_bind, gets.
    destruct (restore_stored rs Hrs (log_fuel (set_lmfile f1 (set_lmfile f (LogManager_make fs))))
      (set_lmfile f1 (set_lmfile f (LogManager_make fs))) p wal_header) as (f2 & E2 & H2).
    - unfold log_fuel. cbn [lm_file set_lmfile]. unfold LogFile_fileSize, df_fileSize.
      rewrite (lg_attached _ _ _ Hf1), (op_size _ _ _ (lg_opened _ _ _ Hf1)).
      enough (Z.of_nat (length rs) <= zlen (stored_log rs)) by (rewrite zlen_app; pose proof (zlen_nonneg wal_header); lia).
      clear. induction rs as [|r rs IH]; [done|].
      change (stored_log (r :: rs)) with (stored_frame r ++ stored_log rs). rewrite zlen_app. pose proof (stored_frame_min r).
      cbn [length]. lia.
    - done.
    - change WalFileHeader_kSize with (zlen wal_header). rewrite E2. exists f2. done. }
  destruct Hr as (f2 & Er & Hf2). revert HI. unfold LogManager_initialize. cbn [lm_initialized LogManager_make].
  unfold mbind, M_bind. rewrite (on_logfile_eq _ _ (Ok tt) f) by exact Ef. cbv beta iota.
  rewrite (on_logfile_eq _ _ (Ok tt) f1) by exact Ev. cbv beta iota. unfold gets. cbv beta iota.
  cbn [lm_file set_lmfile] in Er |- *. change (LogFile_make fs) with (lm_file (LogManager_make fs)) in Er.
  rewrite Er. unfold modify, LogReader_rewind. cbv beta iota. intros HI. eexists. split; [reflexivity|]. by split.
Qed.

Lemma shutdown_live m p c next : log_live m p c next → zlen c + 8 < 2 ^ 62 →
  ∃ m', LogManager_shutdown m = (Ok tt, m') ∧ lm_initialized m' = false ∧
    fs_files (df_fs (lf_file (lm_file m'))) !! p = Some c ∧ p ∉ fs_denied (df_fs (lf_file (lm_file m'))).
Proof.
  intros H Hl. destruct (flush_ready m p c next []) as (m1 & E1 & H1 & _); try apply H;
    [change (zlen (@nil Z)) with 0; lia|].
  rewrite app_nil_r in H1. unfold LogManager_shutdown, mbind, M_bind. rewrite (ll_initialized _ _ _ _ H), E1.
  cbn [negb]. unfold close_log. pose proof (ll_file _ _ _ _ H1) as Hf. pose proof (lg_opened _ _ _ Hf) as Ho.
  assert (Ec : ∃ f, LogFile_close (lm_file m1) = (Ok tt, f) ∧ df_fs (lf_file f) = df_fs (lf_file (lm_file m1))).
  { unfold LogFile_close, DatabaseFile_close. rewrite (lg_attached _ _ _ Hf), (proj2 (opened_bytes _ _ _ Ho)).
    eexists. split; reflexivity. }
  destruct Ec as (f & Ec & Hfs). rewrite (on_logfile_eq _ _ _ _ Ec). eexists. split; [reflexivity|].
  cbn. rewrite Hfs. split; [done|]. destruct Ho. done.
Qed.

Lemma readNext_stored m p r rs next : log_live m p (wal_header ++ stored_log (r :: rs)) next → loggable r →
  (LogManager_readNext m).1 = corruption "LogValidator: invalid record type" ∧
  (LogManager_validate m).1 = corruption "LogValidator: invalid record type".
Proof.
  intros H Hr. change (stored_log (r :: rs)) with (stored_frame r ++ stored_log rs) in H. pose proof (ll_file _ _ _ _ H) as Hf.
  pose proof (stored_frame_min r). pose proof (zlen_nonneg (stored_log rs)).
  assert (Hz : 16 < LogFile_fileSize (lm_file m)).
  { unfold LogFile_fileSize, df_fileSize. rewrite (lg_attached _ _ _ Hf), (op_size _ _ _ (lg_opened _ _ _ Hf)).
    rewrite !zlen_app. change (zlen wal_header) with 16. lia. }
  unfold LogManager_readNext, LogManager_validate, when_initialized. rewrite (ll_initialized _ _ _ _ H). split.
  - unfold LogReader_readNext. rewrite (ll_reader _ _ _ _ H). cbn [rd_endOfLog rd_offset LogReader_make].
    unfold WalFileHeader_kSize. rewrite (proj2 (Z.leb_gt _ _)) by lia.
    destruct (read_stored _ p _ r _ Hr Hf) as (f1 & E1 & _). change (zlen wal_header) with 16 in E1.
    by rewrite (on_logfile_eq _ _ _ _ E1).
  - destruct (validate_ready _ p _ Hf) as (f1 & Ev & Hf1). unfold mbind, M_bind.
    rewrite (on_logfile_eq _ _ _ _ Ev). unfold gets. cbv beta iota. unfold log_fuel. cbn [log_validate_loop].
    destruct (read_stored _ p _ r _ Hr Hf1) as (f2 & E2 & _). change (zlen wal_header) with 16 in E2.
    assert (Hz1 : 16 < LogFile_fileSize (lm_file (set_lmfile f1 m))).
    { cbn. unfold LogFile_fileSize, df_fileSize. rewrite (lg_attached _ _ _ Hf1), (op_size _ _ _ (lg_opened _ _ _ Hf1)).
      rewrite !zlen_app. change (zlen wal_header) with 16. lia. }
    unfold WalFileHeader_kSize. rewrite (proj2 (Z.ltb_lt _ _)) by exact Hz1.
    unfold mbind, M_bind. by rewrite (on_logfile_eq (LogFile_readRecord 16) (set_lmfile f1 m) _ _ E2).
Qed.

(** ** Properties *)

(** A log does not survive being written: records of any content, accepted,
    assigned the sequence numbers 1, 2, ... and flushed one by one without any
    error, cannot be read back ([readNext] and [validate] report an invalid
    record type for the first of them), and a manager that reopens the file
    after a clean shutdown succeeds but recovers nothing and hands out the
    sequence number 1 again. *)
Theorem log_not_recovered fs p r rs :
  fs_files fs !! p = None → p ∉ fs_denied fs → Forall loggable (r :: rs) → zlen (stored_log (r :: rs)) < 2 ^ 61 →
  ∃ m m' m2, (_ ← LogManager_initialize p true; append_each (r :: rs)) (LogManager_make fs) = (Ok tt, m) ∧
    lw_nextLsn (lm_writer m) = 1 + zlen (r :: rs) ∧
    (LogManager_readNext m).1 = corruption "LogValidator: invalid record type" ∧
    (LogManager_validate m).1 = corruption "LogValidator: invalid record type" ∧
    LogManager_shutdown m = (Ok tt, m') ∧
    LogManager_initialize p false (LogManager_make (df_fs (lf_file (lm_file m')))) = (Ok tt, m2) ∧
    lw_nextLsn (lm_writer m2) = 1.
Proof.
  intros Hn Hd Hrs Hl. destruct (initialize_fresh fs p Hn Hd) as (m0 & E0 & H0).
  assert (Hk : zlen (r :: rs) <= zlen (stored_log (r :: rs))).
  { clear. generalize (r :: rs) as l. induction l as [|x l IH]; [done|].
    change (stored_log (x :: l)) with (stored_frame x ++ stored_log l). rewrite zlen_app. pose proof (stored_frame_min x).
    unfold zlen in *. cbn [length]. lia. }
  destruct (append_each_spec (r :: rs) m0 p wal_header 1 H0 Hrs) as (m & E & H); [lia|lia| |].
  { change (zlen wal_header) with 16. lia. }
  destruct (readNext_stored m p r rs _ H) as [R V]; [by apply Forall_cons in Hrs as [? _]|].
  destruct (shutdown_live m p _ _ H) as (m' & Es & _ & Hfs & Hden).
  { rewrite zlen_app. change (zlen wal_header) with 16. lia. }
  destruct (reopen_stored _ p (r :: rs) Hfs Hden Hrs) as (m2 & E2 & H2);
    [apply (lg_aligned _ _ _ (ll_file _ _ _ _ H))|done|].
  exists m, m', m2. unfold mbind, M_bind. rewrite E0, E. split; [done|].
  split; [apply (ll_next _ _ _ _ H)|]. repeat (split; [done|]). apply (ll_next _ _ _ _ H2).
Qed.

Lemma log_not_recovered_witness :
  loggable demo_record ∧
  ∃ m, (_ ← LogManager_initialize "wal" true; append_each [demo_record; demo_record]) (LogManager_make demo_fs) = (Ok tt, m) ∧
    lw_nextLsn (lm_writer m) = 3 ∧
    (LogManager_readNext m).1 = corruption "LogValidator: invalid record type".
Proof.
  assert (Hd : loggable demo_record) by (split; [reflexivity|]; split; [discriminate|by vm_compute]).
  split; [exact Hd|].
  destruct (log_not_recovered demo_fs "wal" demo_record [demo_record]) as (m & m' & m2 & E & N & R & _).
  - reflexivity.
  - cbn. set_solver.
  - repeat constructor; apply Hd.
  - by vm_compute.
  - exists m. split; [exact E|]. split; [exact N|exact R].
Defined.
