(* ===== verification/WalSink.v ===== *)
(** The tree's reports to the log: what each call of the adapter appends, how
    many calls fit between two flushes, and what a refused report leaves in the
    tree. *)
From stdpp Require Import base strings list gmap sets.
From Stdlib Require Import ZArith Lia.
From S2P Require Import Prelude Config PageAlloc SpaceMgr Doubles Buffers DbFile Keys Nodes NodeFacts Tree Wal WalManager WalFacts WalLog.

(** ** The calls of the interface *)
Inductive WalCall : Set :=
  | CallInsert (key : Key) (value : PageReference) | CallErase (key : Key)
  | CallAllocate (pageId : Z) | CallDeallocate (pageId : Z)
  | CallSplit (leftId rightId : Z) (promotedKey : Key) | CallMerge (survivorId removedId : Z).

Definition do_call (c : WalCall) : M BTreeWalAdapter unit :=
  match c with
  | CallInsert key value => adapter_onInsert key value
  | CallErase key => adapter_onErase key
  | CallAllocate pageId => adapter_onPageAllocate pageId
  | CallDeallocate pageId => adapter_onPageDeallocate pageId
  | CallSplit leftId rightId key => adapter_onNodeSplit leftId rightId key
  | CallMerge survivorId removedId => adapter_onNodeMerge survivorId removedId
  end.
Fixpoint run_calls (cs : list WalCall) : M BTreeWalAdapter unit :=
  match cs with [] => mret tt | c :: cs => _ ← do_call c; run_calls cs end.

(** The bytes a call puts in the buffer. *)
Definition payload_size (c : WalCall) : Z :=
  match c with
  | CallInsert key value => serializedSize key + (if PageReference_isValid value then PageReference_kSize else 0)
  | CallErase key => serializedSize key
  | CallAllocate _ | CallDeallocate _ => 0
  | CallSplit _ _ key => 4 + serializedSize key
  | CallMerge _ _ => 4
  end.
Definition call_size (c : WalCall) : Z := 49 + payload_size c.
Fixpoint calls_size (cs : list WalCall) : Z :=
  match cs with [] => 0 | c :: cs => call_size c + calls_size cs end.

Definition call_ok (c : WalCall) : Prop :=
  match c with CallInsert key _ | CallErase key | CallSplit _ _ key => Key_ok key | _ => True end.

Definition adapter_used (a : BTreeWalAdapter) : Z := LogBuffer_size (lw_buffer (lm_writer (wa_manager a))).

Lemma Key_ok_size key : Key_ok key → 0 <= serializedSize key <= 259.
Proof.
  destruct key as [v|v|bs]; cbn; try lia. pose proof (zlen_nonneg bs). unfold kMaxBinaryKeySize. lia.
Qed.

Lemma payload_size_range c : call_ok c → 0 <= payload_size c <= 279.
Proof.
  destruct c; cbn [call_ok payload_size]; try lia; intros H%Key_ok_size; unfold PageReference_kSize; try case_match; lia.
Qed.

Lemma build_payload_spec m bs : emits m bs → zlen bs <= 2 ^ 62 → build_payload m = Ok (zeros (length bs)).
Proof.
  intros Hm Hl. destruct (emits_end m bs Buffer_empty Hm) as (w & E & _ & _ & B); [|by vm_compute|].
  { unfold Buffer_size. cbn [buf_bytes Buffer_empty]. change (zlen (@nil Z)) with 0. lia. }
  unfold build_payload. by rewrite E, B.
Qed.

(** ** One call *)

(** Every call makes one record of the call's type, with a payload of the call's
    size, and appends it. *)
Lemma do_call_record c a : call_ok c → ∃ type pageId payload,
  do_call c a = on_manager (LogManager_append (set_payload payload
      (LogRecord_make (wa_clock a (wa_ticks a)) type pageId 0)))
    (mkWalAdapter (wa_manager a) (wa_clock a) (S (wa_ticks a))) ∧
  isValidRecordType type = true ∧ zlen payload = payload_size c.
Proof.
  intros Hok. pose proof (payload_size_range c Hok) as Hp.
  destruct c as [key value|key|id|id|left right key|sv rm]; cbn [do_call call_ok payload_size] in *;
    unfold adapter_onInsert, adapter_onErase, adapter_onPageAllocate, adapter_onPageDeallocate,
      adapter_onNodeSplit, adapter_onNodeMerge, appendKeyRecord.
  - exists LRT_PageUpdate, (pr_pageId value).
    set (bs := key_wire key ++ (if PageReference_isValid value then ref_wire value else [])).
    assert (Hb : zlen bs = serializedSize key + (if PageReference_isValid value then PageReference_kSize else 0)).
    { subst bs. rewrite zlen_app, zlen_key_wire. case_match; [by rewrite zlen_ref_wire|done]. }
    exists (zeros (length bs)). rewrite zlen_zeros, <-Hb. split; [|done].
    unfold mbind at 1, M_bind at 1, make_record. unfold mbind at 1, M_bind at 1, lift.
    rewrite (build_payload_spec _ bs); [done| |lia]. apply emits_bind; [apply Key_serialize_emits|].
    case_match; [apply emits_write_ref|apply emits_nil].
  - exists LRT_PageDelete, kInvalidPageId, (zeros (length (key_wire key))).
    rewrite zlen_zeros, <-zlen_key_wire. split; [|done].
    unfold mbind at 1, M_bind at 1, make_record. unfold mbind at 1, M_bind at 1, lift.
    rewrite (build_payload_spec _ (key_wire key)); [done| |rewrite zlen_key_wire; lia].
    rewrite <-(app_nil_r (key_wire key)). apply emits_bind; [apply Key_serialize_emits|apply emits_nil].
  - by exists LRT_Allocation, id, [].
  - by exists LRT_Deallocation, id, [].
  - exists LRT_NodeSplit, left, (zeros (length (le_bytes 4 right ++ key_wire key))).
    assert (Hb : zlen (le_bytes 4 right ++ key_wire key) = 4 + serializedSize key)
      by (rewrite zlen_app, zlen_le_bytes, zlen_key_wire; lia).
    rewrite zlen_zeros, <-Hb. split; [|done].
    unfold mbind at 1, M_bind at 1, make_record. unfold mbind at 1, M_bind at 1, lift.
    rewrite (build_payload_spec _ (le_bytes 4 right ++ key_wire key)); [done| |lia].
    apply emits_bind; [apply emits_write|apply Key_serialize_emits].
  - exists LRT_NodeMerge, sv, (zeros (length (le_bytes 4 rm))). rewrite length_le_bytes. split; [|done].
    unfold mbind at 1, M_bind at 1, make_record. unfold mbind at 1, M_bind at 1, lift.
    rewrite (build_payload_spec _ (le_bytes 4 rm)), length_le_bytes; [done|apply emits_write|by vm_compute].
Qed.

Lemma do_call_spec c a : log_inv (wa_manager a) → lm_initialized (wa_manager a) = true → call_ok c →
  wa_clock a (wa_ticks a) ≠ 0 → lw_nextLsn (lm_writer (wa_manager a)) ≠ 0 →
  ∃ a', do_call c a = (if 65536 <? adapter_used a + call_size c
      then outOfMemory "LogBuffer: capacity exceeded" else Ok tt, a') ∧
    log_inv (wa_manager a') ∧ lm_initialized (wa_manager a') = true ∧ wa_clock a' = wa_clock a ∧
    lw_nextLsn (lm_writer (wa_manager a')) = LSN_next (lw_nextLsn (lm_writer (wa_manager a))) ∧
    (adapter_used a + call_size c <= 65536 → adapter_used a' = adapter_used a + call_size c).
Proof.
  intros HI Hi Hc Ht Hn. destruct (do_call_record c a Hc) as (type & id & payload & E & Hty & Hp).
  set (r := set_payload payload (LogRecord_make (wa_clock a (wa_ticks a)) type id 0)) in *.
  assert (Hw : 4 + wireSize r = call_size c)
    by (unfold wireSize, call_size; cbn [lr_payload set_payload r]; lia).
  pose proof (payload_size_range c Hc). assert (Hr : wireSize r < 2 ^ 32) by (unfold call_size in Hw; lia).
  destruct (append_spec (wa_manager a) r HI Hr) as (m & Em & Mi & _ & _ & _ & Mn & _ & Mb & _).
  pose proof (keeps_append r Hr _ HI) as HI'. rewrite Em in HI'. cbn [snd] in HI'.
  assert (Ha : append_answer (lw_nextLsn (lm_writer (wa_manager a))) r (adapter_used a) =
    if 65536 <? adapter_used a + call_size c then outOfMemory "LogBuffer: capacity exceeded" else Ok tt).
  { unfold append_answer. rewrite Hw. cbn [lr_type lr_timestamp r set_payload LogRecord_make]. rewrite Hty.
    cbn [negb]. by rewrite !(proj2 (Z.eqb_neq _ _)) by done. }
  rewrite E. unfold on_manager, zoom, LogManager_append, when_initialized. cbn [wa_manager]. rewrite Hi, Em.
  fold (adapter_used a) in Ha, Mb |- *. rewrite Ha in Mb |- *. eexists. split; [reflexivity|]. cbn [wa_manager set_manager wa_clock].
  rewrite Mi. split; [exact HI'|]. split; [done|]. split; [done|]. split; [exact Mn|]. intros Hfit.
  unfold adapter_used at 1. cbn [wa_manager set_manager]. unfold LogBuffer_size, Buffer_size. rewrite Mb, zlen_app.
  rewrite (proj2 (Z.ltb_ge _ _)) by lia. cbn [is_ok]. rewrite zlen_zero_frame, Hw. done.
Qed.

(** ** The properties *)

Lemma calls_size_min cs : Forall call_ok cs → 49 * zlen cs <= calls_size cs.
Proof.
  induction 1 as [|c cs Hc _ IH]; [done|]. pose proof (payload_size_range c Hc).
  cbn [calls_size]. unfold call_size, zlen in *. cbn [length]. lia.
Qed.

Lemma run_calls_spec cs : Forall call_ok cs → ∀ a,
  log_inv (wa_manager a) → lm_initialized (wa_manager a) = true → (∀ n, wa_clock a n ≠ 0) →
  0 < lw_nextLsn (lm_writer (wa_manager a)) → lw_nextLsn (lm_writer (wa_manager a)) + zlen cs < 2 ^ 64 →
  (run_calls cs a).1 = if adapter_used a + calls_size cs <=? 65536 then Ok tt
                       else outOfMemory "LogBuffer: capacity exceeded".
Proof.
  induction 1 as [|c cs Hc Hcs IH]; intros a HI Hi Ht H0 Hn.
  { cbn. rewrite Z.add_0_r, (proj2 (Z.leb_le _ _)); [done|]. apply (bo_size _ (li_buffer _ HI)). }
  assert (Hz : zlen (c :: cs) = 1 + zlen cs) by (unfold zlen; cbn [length]; lia).
  pose proof (zlen_nonneg cs). pose proof (calls_size_min cs Hcs).
  destruct (do_call_spec c a HI Hi Hc (Ht _) ltac:(lia)) as (a' & E & A1 & A2 & A3 & A4 & A5).
  cbn [run_calls calls_size]. unfold mbind, M_bind. rewrite E.
  destruct (Z.ltb_spec 65536 (adapter_used a + call_size c)) as [L|L].
  - by rewrite (proj2 (Z.leb_gt _ _)) by lia.
  - unfold LSN_next in A4. rewrite u64_small in A4 by lia.
    rewrite IH, A5, Z.add_assoc by (rewrite ?A3, ?A4; try done; lia). done.
Qed.

(** C38: The log takes the tree's reports only up to its buffer: a run of calls
    of the adapter (insertions, erasures, page and node events, in any order)
    succeeds exactly when their records fit in what is left of 64 KiB, and is
    refused as out of memory otherwise; nothing on the way flushes.  Each call
    needs at least 49 bytes, so at most 1337 calls succeed between two flushes. *)
Theorem wal_adapter_fills a cs : log_reach (wa_manager a) → lm_initialized (wa_manager a) = true →
  (∀ n, wa_clock a n ≠ 0) → Forall call_ok cs →
  0 < lw_nextLsn (lm_writer (wa_manager a)) → lw_nextLsn (lm_writer (wa_manager a)) + zlen cs < 2 ^ 64 →
  (run_calls cs a).1 = (if adapter_used a + calls_size cs <=? 65536 then Ok tt
                        else outOfMemory "LogBuffer: capacity exceeded") ∧
  (1337 < zlen cs → (run_calls cs a).1 = outOfMemory "LogBuffer: capacity exceeded").
Proof.
  intros Hm Hi Ht Hcs H0 Hn. pose proof (run_calls_spec cs Hcs a (log_reach_inv _ Hm) Hi Ht H0 Hn) as E.
  split; [done|]. intros Hl. rewrite E. pose proof (calls_size_min cs Hcs).
  pose proof (zlen_nonneg (buf_bytes (lb_buffer (lw_buffer (lm_writer (wa_manager a)))))).
  unfold adapter_used, LogBuffer_size, Buffer_size. by rewrite (proj2 (Z.leb_gt _ _)) by lia.
Qed.

Definition demo_adapter : BTreeWalAdapter := mkWalAdapter demo_manager (λ n, Z.of_nat n + 1) 0.

Lemma wal_adapter_fills_witness :
  (run_calls (replicate 2000 (CallAllocate 8)) demo_adapter).1 = outOfMemory "LogBuffer: capacity exceeded".
Proof.
  apply (wal_adapter_fills demo_adapter (replicate 2000 (CallAllocate 8))).
  - exact demo_manager_reach.
  - vm_compute. reflexivity.
  - intros n. cbn. lia.
  - apply Forall_replicate. exact I.
  - by vm_compute.
  - unfold zlen. rewrite length_replicate. by vm_compute.
  - unfold zlen. rewrite length_replicate. by vm_compute.
Defined.

(** ** The adapter under a tree

    No state of the adapter is ready for every later call, so the adapter does
    not keep the promise of [BTreeWalSink], and the theorems of the tree apply
    to it only as long as its buffer lasts. *)
#[global] Program Instance adapter_sink : BTreeWalSink BTreeWalAdapter := {
  onInsert := adapter_onInsert; onErase := adapter_onErase;
  onPageAllocate := adapter_onPageAllocate; onPageDeallocate := adapter_onPageDeallocate;
  onNodeSplit := adapter_onNodeSplit; onNodeMerge := adapter_onNodeMerge; sink_ready _ := False }.
Next Obligation. done. Qed.

(** A log whose buffer has room for one record of 49 bytes and no other. *)
Definition nearly_full : BTreeWalAdapter :=
  mkWalAdapter (set_writer (LogWriter_make 60) demo_manager) (λ n, Z.of_nat n + 1) 0.
Definition logged_tree : BTree SpaceManager BTreeWalAdapter :=
  set_wal (Some nearly_full) (BTree_create (SpaceManager_make FirstFitPolicy) BTreeNodeConfig_default).

(** The page of the first leaf is reported, the insertion itself is refused: the
    caller gets an error for a key that is now in the tree. *)
Example refused_report_is_applied :
  let '(st, t) := BTree_insert (KeyUInt32 5) (PageReference_make 7 1 4) logged_tree in
  st = outOfMemory "LogBuffer: capacity exceeded" ∧
  BTree_find (KeyUInt32 5) t = Ok (PageReference_make 7 1 4) ∧ bt_size t = 1.
Proof. vm_compute. repeat split. Qed.
