(* ===== verification/Recovery.v ===== *)
(** Checkpoints and recovery (src/src/recovery/CheckpointRecord.cpp,
    CheckpointManager.cpp, LogReplayer.cpp, RecoveryManager.cpp,
    RecoveryValidator.cpp).

    The functions take the log manager and the tree by reference: their state is
    the pair, with the out-parameters beside it where a caller looks at them after
    a failure.  [now] is the reading of the clock a record is stamped with, [ord]
    the order in which a hash map is traversed.  The loops over the log stop at the
    first record that cannot be read and advance with every record, so the size of
    the file is enough fuel. *)
From stdpp Require Import base strings list gmap.
From Stdlib Require Import ZArith Lia.
From S2P Require Import Prelude Config Formats Doubles PageAlloc FreeSpace SpaceMgr Buffers DbFile Keys Nodes Tree TreeSnapshot Wal WalManager.

(** ** CheckpointPayload *)
Definition kCheckpointFormatVersion : Z := 1.
Definition kCheckpointMagic : Z := 0x4348504B.

(** [cp_snapshot] is the bytes of [btreeSnapshot]. *)
Record CheckpointPayload : Set := mkCheckpoint {
  cp_magic : Z; cp_version : Z; cp_lsn : LSN; cp_treeSize : Z; cp_treeHeight : Z; cp_snapshot : list Z }.
Definition CheckpointPayload_default : CheckpointPayload :=
  mkCheckpoint kCheckpointMagic kCheckpointFormatVersion LSN_invalid 0 0 [].

Definition CheckpointPayload_serialize (p : CheckpointPayload) : M BinaryWriter unit :=
  BinaryWriter_write 4 (cp_magic p);;
  BinaryWriter_write 4 (cp_version p);;
  LSN_serialize (cp_lsn p);;
  BinaryWriter_write 8 (cp_treeSize p);;
  BinaryWriter_write 4 (cp_treeHeight p);;
  let snapLen := u32 (zlen (cp_snapshot p)) in
  BinaryWriter_write 4 snapLen;;
  if 0 <? snapLen then BinaryWriter_writeBytes (cp_snapshot p) else mret tt.

Definition CheckpointPayload_validate (p : CheckpointPayload) : outcome unit :=
  if negb (cp_magic p =? kCheckpointMagic) then corruption "CheckpointPayload: invalid magic"
  else if negb (cp_version p =? kCheckpointFormatVersion) then corruption "CheckpointPayload: unsupported version"
  else if negb (LSN_isValid (cp_lsn p)) then corruption "CheckpointPayload: invalid LSN"
  else Ok tt.

(** The snapshot vector is resized, up to 4 GiB, before the bounds are checked. *)
Definition CheckpointPayload_deserialize : M BinaryReader CheckpointPayload :=
  magic ← BinaryReader_read 4;
  version ← BinaryReader_read 4;
  lsn ← LSN_deserialize;
  treeSize ← BinaryReader_read 8;
  treeHeight ← BinaryReader_read 4;
  snapLen ← BinaryReader_read 4;
  snapshot ← (if 0 <? snapLen then BinaryReader_readBytes snapLen else mret []);
  let p := mkCheckpoint magic version lsn treeSize treeHeight snapshot in
  lift (CheckpointPayload_validate p);;
  mret p.

(** ** RecoveryResult *)
Record RecoveryResult : Set := mkRecoveryResult {
  rr_recoveredFromCheckpoint : bool; rr_checkpointLsn : LSN; rr_lastReplayedLsn : LSN;
  rr_recordsReplayed : Z; rr_recordsSkipped : Z }.
Definition RecoveryResult_default : RecoveryResult := mkRecoveryResult false LSN_invalid LSN_invalid 0 0.
Definition result_skipped (r : RecoveryResult) : RecoveryResult :=
  mkRecoveryResult (rr_recoveredFromCheckpoint r) (rr_checkpointLsn r) (rr_lastReplayedLsn r)
    (rr_recordsReplayed r) (u64 (rr_recordsSkipped r + 1)).
Definition result_replayed (l : LSN) (r : RecoveryResult) : RecoveryResult :=
  mkRecoveryResult (rr_recoveredFromCheckpoint r) (rr_checkpointLsn r) l
    (u64 (rr_recordsReplayed r + 1)) (rr_recordsSkipped r).
Definition result_checkpoint (l : LSN) (r : RecoveryResult) : RecoveryResult :=
  mkRecoveryResult true l (rr_lastReplayedLsn r) (rr_recordsReplayed r) (rr_recordsSkipped r).

(** ** CheckpointManager: finding and truncating *)

(** The loop of [findLastCheckpoint]; it returns [found]. *)
Fixpoint find_loop (fuel : nat) (found : bool) : M (LogManager * (CheckpointPayload * LSN)) bool := λ '(m, out),
  match fuel with
  | O => (Fuel, (m, out))
  | S fuel =>
      match LogManager_readNext m with
      | (Ok record, m) =>
          if negb (lr_type record =? LRT_CheckpointMarker) then find_loop fuel found (m, out)
          else
            match fst (CheckpointPayload_deserialize (BinaryReader_make (lr_payload record))) with
            | Ok payload => find_loop fuel true (m, (payload, lr_lsn record))
            | Err e => (Err e, (m, out))
            | Throw w => (Throw w, (m, out))
            | UB => (UB, (m, out))
            | Fuel => (Fuel, (m, out))
            end
      | (Err _, m) => (Ok found, (m, out))
      | (Throw w, m) => (Throw w, (m, out))
      | (UB, m) => (UB, (m, out))
      | (Fuel, m) => (Fuel, (m, out))
      end
  end.
Definition on_fst {A B X} (x : M A X) : M (A * B) X := zoom fst (λ a s, (a, s.2)) x.
Definition on_snd {A B X} (x : M B X) : M (A * B) X := zoom snd (λ b s, (s.1, b)) x.

Definition findLastCheckpoint : M (LogManager * (CheckpointPayload * LSN)) unit :=
  modify (λ s, (s.1, (CheckpointPayload_default, LSN_invalid)));;
  on_fst rewindReader;;
  fuel ← gets (λ s, log_fuel s.1);
  found ← find_loop fuel false;
  if negb found then lift (invalidArgument "CheckpointManager: no checkpoint found") else mret tt.

Fixpoint truncate_loop (fuel : nat) (offset : Z) (lsn : LSN) : M LogManager unit := λ m,
  if offset <? LogFile_fileSize (lm_file m) then
    match fuel with
    | O => (Fuel, m)
    | S fuel =>
        match on_logfile (LogFile_readRecord offset) m with
        | (Ok (record, bytesRead), m) =>
            let endOffset := u64 (offset + bytesRead) in
            if lr_lsn record =? lsn then on_logfile (LogFile_truncate endOffset) m
            else truncate_loop fuel endOffset lsn m
        | (Err _, m) => (invalidArgument "CheckpointManager: checkpoint LSN not found for truncation", m)
        | (Throw w, m) => (Throw w, m)
        | (UB, m) => (UB, m)
        | (Fuel, m) => (Fuel, m)
        end
    end
  else (invalidArgument "CheckpointManager: checkpoint LSN not found for truncation", m).
Definition truncateAfterCheckpoint (lsn : LSN) : M LogManager unit :=
  fuel ← gets log_fuel; truncate_loop fuel WalFileHeader_kSize lsn.

Section recovery.
Context {S W : Type} `{PageSpace S} `{BTreeWalSink W}.
Notation BT := (BTree S W).

(** ** CheckpointManager: making and restoring *)
Definition createCheckpoint (now : Z) (ord : list Z → list Z) : M (LogManager * BT) LSN :=
  t ← gets snd;
  current ← gets (λ s, lw_currentLsn (lm_writer s.1));
  snapshot ← lift (build_payload (BTree_serialize ord t));
  let lsn := if LSN_isValid current then LSN_next current else LSN_initial in
  let payload := mkCheckpoint kCheckpointMagic kCheckpointFormatVersion lsn (bt_size t) (bt_height t) snapshot in
  bytes ← lift (build_payload (CheckpointPayload_serialize payload));
  let record := LogRecord_make now LRT_CheckpointMarker kInvalidPageId 0 in
  on_fst (LogManager_append (set_payload bytes record));;
  on_fst LogManager_flush;;
  gets (λ s, lw_currentLsn (lm_writer s.1)).

Definition restoreTree (ord : list Z → list Z) (p : CheckpointPayload) : M BT unit := λ t,
  match CheckpointPayload_validate p with
  | Ok _ =>
      let t := (BTree_clear ord t).2 in
      let '(o, (_, t)) := BTree_deserialize ord (BinaryReader_make (cp_snapshot p), t) in (o, t)
  | Err e => (Err e, t)
  | Throw w => (Throw w, t)
  | UB => (UB, t)
  | Fuel => (Fuel, t)
  end.

(** ** LogReplayer *)
Definition apply_update (key : Key) (ref : PageReference) : M BT unit := λ t,
  if BTree_contains key t then
    match BTree_find key t with
    | Ok existing =>
        if PageReference_eqb existing ref then (Ok tt, t)
        else (BTree_erase key;; BTree_insert key ref) t
    | Err e => (Err e, t)
    | Throw w => (Throw w, t)
    | UB => (UB, t)
    | Fuel => (Fuel, t)
    end
  else BTree_insert key ref t.
Definition apply_delete (key : Key) : M BT unit := λ t,
  if negb (BTree_contains key t) then (Ok tt, t) else BTree_erase key t.

Definition applyRecord (record : LogRecord) : M BT unit :=
  let reader := BinaryReader_make (lr_payload record) in
  if lr_type record =? LRT_PageUpdate then
    '(key, ref) ← lift (fst ((key ← Key_deserialize 0; ref ← read_ref; mret (key, ref)) reader));
    apply_update key ref
  else if lr_type record =? LRT_PageDelete then
    key ← lift (fst (Key_deserialize 0 reader));
    apply_delete key
  else if (lr_type record =? LRT_Allocation) || (lr_type record =? LRT_Deallocation)
       || (lr_type record =? LRT_NodeSplit) || (lr_type record =? LRT_NodeMerge)
       || (lr_type record =? LRT_PageCreate) || (lr_type record =? LRT_MetadataUpdate)
       || (lr_type record =? LRT_CheckpointMarker)
  then mret tt
  else lift (corruption "LogReplayer: invalid record type").

(** The log, the tree and the result. *)
Notation RState := (LogManager * BT * RecoveryResult)%type.
Definition on_wal {A} (x : M LogManager A) : M RState A :=
  zoom (λ s, s.1.1) (λ m s, (m, s.1.2, s.2)) x.
Definition on_rtree {A} (x : M BT A) : M RState A :=
  zoom (λ s, s.1.2) (λ t s, (s.1.1, t, s.2)) x.
Definition upd_result (f : RecoveryResult → RecoveryResult) : M RState unit :=
  modify (λ s, (s.1, f s.2)).

Definition replay_record (afterLsn : LSN) (record : LogRecord) : M RState unit :=
  lift (validateRecord record);;
  if lr_lsn record <=? afterLsn then upd_result result_skipped
  else if lr_type record =? LRT_CheckpointMarker then upd_result result_skipped
  else
    on_rtree (applyRecord record);;
    upd_result (result_replayed (lr_lsn record)).
Fixpoint replay_loop (fuel : nat) (afterLsn : LSN) : M RState unit := λ s,
  match fuel with
  | O => (Fuel, s)
  | Datatypes.S fuel =>
      match on_wal LogManager_readNext s with
      | (Ok record, s) => (replay_record afterLsn record;; replay_loop fuel afterLsn) s
      | (Err _, s) => (Ok tt, s)
      | (Throw w, s) => (Throw w, s)
      | (UB, s) => (UB, s)
      | (Fuel, s) => (Fuel, s)
      end
  end.
Definition replay (afterLsn : LSN) : M RState unit :=
  upd_result (λ _, RecoveryResult_default);;
  on_wal rewindReader;;
  fuel ← gets (λ s, log_fuel s.1.1);
  replay_loop fuel afterLsn.

(** ** RecoveryValidator *)
Definition RecoveryValidator_validate : M RState unit :=
  on_wal LogManager_validate;;
  t ← gets (λ s, s.1.2);
  lift (BTree_validate t).

(** ** RecoveryManager *)

(** [recover] up to the replay: the sequence number to replay after, which the
    search leaves behind whether it succeeds or not. *)
Definition restore_checkpoint (ord : list Z → list Z) : M RState LSN := λ '(m, t, result),
  match findLastCheckpoint (m, (CheckpointPayload_default, LSN_invalid)) with
  | (Ok _, (m, (payload, lsn))) =>
      match restoreTree ord payload t with
      | (Ok _, t) => (Ok lsn, (m, t, result_checkpoint lsn result))
      | (Err e, t) => (Err e, (m, t, result))
      | (Throw w, t) => (Throw w, (m, t, result))
      | (UB, t) => (UB, (m, t, result))
      | (Fuel, t) => (Fuel, (m, t, result))
      end
  | (Err _, (m, (_, lsn))) => (Ok lsn, (m, (BTree_clear ord t).2, result))
  | (Throw w, (m, _)) => (Throw w, (m, t, result))
  | (UB, (m, _)) => (UB, (m, t, result))
  | (Fuel, (m, _)) => (Fuel, (m, t, result))
  end.

Definition recover (ord : list Z → list Z) : M RState unit :=
  upd_result (λ _, RecoveryResult_default);;
  checkpointLsn ← restore_checkpoint ord;
  replay checkpointLsn;;
  on_wal restoreWriterState;;
  on_wal rewindReader;;
  RecoveryValidator_validate.

Definition RecoveryManager_checkpoint (now : Z) (ord : list Z → list Z) (truncateWal : bool)
    : M (LogManager * BT) LSN :=
  outLsn ← createCheckpoint now ord;
  if truncateWal then
    on_fst (truncateAfterCheckpoint outLsn);;
    on_fst restoreWriterState;;
    on_fst rewindReader;;
    mret outLsn
  else mret outLsn.
End recovery.

(** [verifyLogicalConsistency]: the log is replayed into a tree of its own over a
    new space manager. *)
Definition verifyLogicalConsistency {S W} `{BTreeWalSink W} (ord : list Z → list Z) (tree : BTree S W)
    : M LogManager unit := λ m,
  let scratch := BTree_create (S:=SpaceManager) (W:=W) (SpaceManager_make FirstFitPolicy) (bt_config tree) in
  let finish (s : LogManager * BTree SpaceManager W * RecoveryResult) :=
    let '(m, scratch, _) := s in
    if negb (bt_size scratch =? bt_size tree)
    then (corruption "RecoveryValidator: tree size mismatch after replay", m)
    else (lift (BTree_validate scratch);; rewindReader) m in
  let continue (lsn : LSN) (m : LogManager) (scratch : BTree SpaceManager W) :=
    match replay lsn (m, scratch, RecoveryResult_default) with
    | (Ok _, s) => finish s
    | (Err e, s) => (Err e, s.1.1)
    | (Throw w, s) => (Throw w, s.1.1)
    | (UB, s) => (UB, s.1.1)
    | (Fuel, s) => (Fuel, s.1.1)
    end in
  match findLastCheckpoint (m, (CheckpointPayload_default, LSN_invalid)) with
  | (Ok _, (m, (payload, lsn))) =>
      match restoreTree ord payload scratch with
      | (Ok _, scratch) => continue lsn m scratch
      | (Err e, _) => (Err e, m)
      | (Throw w, _) => (Throw w, m)
      | (UB, _) => (UB, m)
      | (Fuel, _) => (Fuel, m)
      end
  | (Err _, (m, (_, lsn))) => continue lsn m scratch
  | (Throw w, (m, _)) => (Throw w, m)
  | (UB, (m, _)) => (UB, m)
  | (Fuel, (m, _)) => (Fuel, m)
  end.
