(* ===== verification/RecoveryFacts.v ===== *)
(** What recovery does: the checkpoint format, the result it reports, the replay of
    single records, and that every loop over a log ends. *)
From stdpp Require Import base strings list gmap.
From Stdlib Require Import ZArith Lia.
From S2P Require Import Prelude Config Formats Doubles PageAlloc FreeSpace SpaceMgr Buffers DbFile Pages PageFacts Keys Nodes NodeFacts Tree TreeShape TreeFacts TreeSearch TreeInsert TreeErase TreeRebalance TreeReach TreeDemo TreeSnapshot Wal WalManager WalFacts WalLog WalReopen Recovery.

(** ** The checkpoint format *)

Record Checkpoint_ok (p : CheckpointPayload) : Prop := {
  ck_lsn : in_u 64 (cp_lsn p); ck_size : in_u 64 (cp_treeSize p); ck_height : in_u 32 (cp_treeHeight p);
  ck_snapshot : zlen (cp_snapshot p) < 2 ^ 32; ck_valid : CheckpointPayload_validate p = Ok tt }.

Definition checkpoint_wire (p : CheckpointPayload) : list Z :=
  le_bytes 4 (cp_magic p) ++ le_bytes 4 (cp_version p) ++ le_bytes 8 (cp_lsn p) ++ le_bytes 8 (cp_treeSize p) ++
  le_bytes 4 (cp_treeHeight p) ++ le_bytes 4 (zlen (cp_snapshot p)) ++ cp_snapshot p.

Lemma checkpoint_valid_iff p : CheckpointPayload_validate p = Ok tt ↔
  cp_magic p = kCheckpointMagic ∧ cp_version p = kCheckpointFormatVersion ∧ cp_lsn p ≠ LSN_invalid.
Proof.
  unfold CheckpointPayload_validate, LSN_isValid.
  destruct (Z.eqb_spec (cp_magic p) kCheckpointMagic); [|split; [done|tauto]].
  destruct (Z.eqb_spec (cp_version p) kCheckpointFormatVersion); [|split; [done|tauto]].
  destruct (Z.eqb_spec (cp_lsn p) LSN_invalid); split; try done; tauto.
Qed.

Lemma checkpoint_emits p : Checkpoint_ok p → emits (CheckpointPayload_serialize p) (checkpoint_wire p).
Proof.
  intros []. unfold CheckpointPayload_serialize, checkpoint_wire. pose proof (zlen_nonneg (cp_snapshot p)).
  rewrite u32_small by lia. do 6 (apply emits_bind; [apply emits_write|]).
  destruct (Z.ltb_spec 0 (zlen (cp_snapshot p))); [apply emits_writeBytes|].
  destruct (cp_snapshot p); [apply emits_nil|]. unfold zlen in *. cbn in *. lia.
Qed.

Lemma checkpoint_parses p : Checkpoint_ok p → parses CheckpointPayload_deserialize (checkpoint_wire p) p.
Proof.
  intros [Hl Hs Hh Hn Hv]. pose proof (zlen_nonneg (cp_snapshot p)).
  destruct (proj1 (checkpoint_valid_iff p) Hv) as (Hm & Hver & _).
  unfold CheckpointPayload_deserialize, checkpoint_wire.
  apply parses_bind with (cp_magic p); [rewrite Hm; by apply parses_read|].
  apply parses_bind with (cp_version p); [rewrite Hver; by apply parses_read|].
  apply parses_bind with (cp_lsn p); [by apply parses_read|].
  apply parses_bind with (cp_treeSize p); [by apply parses_read|].
  apply parses_bind with (cp_treeHeight p); [by apply parses_read|].
  apply parses_bind with (zlen (cp_snapshot p)); [apply parses_read; lia|].
  rewrite <-(app_nil_r (cp_snapshot p)) at 3. apply parses_bind with (cp_snapshot p).
  { destruct (Z.ltb_spec 0 (zlen (cp_snapshot p))); [apply parses_readBytes|].
    destruct (cp_snapshot p); [apply parses_ret|]. unfold zlen in *. cbn in *. lia. }
  assert (E : mkCheckpoint (cp_magic p) (cp_version p) (cp_lsn p) (cp_treeSize p) (cp_treeHeight p) (cp_snapshot p) = p)
    by (by destruct p).
  rewrite E. change [] with ([] ++ [] : list Z). apply parses_bind with tt; [|apply parses_ret].
  intros pre post _. unfold lift. by rewrite Hv, app_nil_r.
Qed.

(** A checkpoint payload written over storage that is already there and read
    back is the same payload: the sequence number, the size and height of the tree
    and every byte of its snapshot; the reader stops right behind it. *)
Theorem checkpoint_roundtrip p w pre old post :
  Checkpoint_ok p → Writer_ok w → buf_bytes (w_buffer w) = pre ++ old ++ post → w_offset w = zlen pre →
  length old = length (checkpoint_wire p) →
  ∃ w' bytes, CheckpointPayload_serialize p w = (Ok tt, w') ∧
    buf_bytes (w_buffer w') = pre ++ bytes ++ post ∧
    CheckpointPayload_deserialize (reading pre (bytes ++ post)) = (Ok p, reading (pre ++ bytes) post).
Proof.
  intros Hp Hw Hbuf Hoff Hlen.
  destruct (in_place_roundtrip _ _ _ _ w pre old post (checkpoint_emits p Hp) (checkpoint_parses p Hp))
    as (w' & E1 & E2 & _ & E3); eauto.
Qed.

Definition demo_checkpoint : CheckpointPayload := mkCheckpoint kCheckpointMagic 1 7 3 1 [1; 2; 3].
Lemma checkpoint_roundtrip_witness :
  ∃ w' bytes, CheckpointPayload_serialize demo_checkpoint (mkWriter (mkBuffer (zeros 35) 64) 0) = (Ok tt, w') ∧
    buf_bytes (w_buffer w') = [] ++ bytes ++ [] ∧
    CheckpointPayload_deserialize (reading [] (bytes ++ [])) = (Ok demo_checkpoint, reading ([] ++ bytes) []).
Proof.
  apply (checkpoint_roundtrip demo_checkpoint (mkWriter (mkBuffer (zeros 35) 64) 0) [] (zeros 35) []); try done.
Defined.

(** ** The result *)

Section result.
Context {S W : Type} `{PageSpace S} `{BTreeWalSink W}.
Notation RState := (LogManager * BTree S W * RecoveryResult)%type.

Lemma replay_record_flag lsn r (s : RState) :
  let s' := (replay_record lsn r s).2 in
  rr_recoveredFromCheckpoint s'.2 = rr_recoveredFromCheckpoint s.2 ∧ rr_checkpointLsn s'.2 = rr_checkpointLsn s.2.
Proof.
  destruct s as [[m t] res]. unfold replay_record, mbind, M_bind, lift. destruct (validateRecord r); try done.
  case_match; [done|]. case_match; [done|]. unfold on_rtree, zoom. cbn [fst snd].
  destruct (applyRecord r t) as [[]]; done.
Qed.

Lemma replay_loop_flag fuel lsn (s : RState) :
  let s' := (replay_loop fuel lsn s).2 in
  rr_recoveredFromCheckpoint s'.2 = rr_recoveredFromCheckpoint s.2 ∧ rr_checkpointLsn s'.2 = rr_checkpointLsn s.2.
Proof.
  revert s. induction fuel as [|fuel IH]; intros s; [done|]. cbn [replay_loop].
  destruct s as [[m t] res]. unfold on_wal, zoom. cbn [fst snd].
  destruct (LogManager_readNext m) as [[r| | | |] m']; try done. unfold mbind, M_bind.
  pose proof (replay_record_flag lsn r (m', t, res)) as Hr.
  destruct (replay_record lsn r (m', t, res)) as [[]s']; try done.
  destruct (IH s') as [I1 I2]. cbn [snd] in *. destruct Hr as [R1 R2]. split; congruence.
Qed.

Lemma replay_flag lsn (s : RState) :
  let s' := (replay lsn s).2 in rr_recoveredFromCheckpoint s'.2 = false ∧ rr_checkpointLsn s'.2 = LSN_invalid.
Proof.
  destruct s as [[m t] res]. unfold replay, mbind, M_bind, upd_result, modify, on_wal, zoom, gets. cbn [fst snd].
  destruct (rewindReader m) as [[] m']; try done.
  apply (replay_loop_flag _ lsn (m', t, RecoveryResult_default)).
Qed.

(** Recovery never reports a checkpoint.  Whatever the log holds and however
    [recover] ends, the result says that no checkpoint was used and names no
    checkpoint: the replay that follows the restoration starts by clearing the
    result. *)
Theorem recover_forgets_checkpoint ord (s : RState) :
  let result := (recover ord s).2.2 in
  rr_recoveredFromCheckpoint result = false ∧ rr_checkpointLsn result = LSN_invalid.
Proof.
  pose (P := λ r, rr_recoveredFromCheckpoint r = false ∧ rr_checkpointLsn r = LSN_invalid).
  change (P (recover ord s).2.2). destruct s as [[m t] res].
  unfold recover, mbind at 1, M_bind at 1, upd_result, modify. cbn [fst snd].
  unfold mbind at 1, M_bind at 1.
  assert (Hr : let '(o, s') := restore_checkpoint ord (m, t, RecoveryResult_default) in
    is_ok o = false → s'.2 = RecoveryResult_default).
  { unfold restore_checkpoint. destruct (findLastCheckpoint _) as [[] [m' [p l]]]; try done.
    by destruct (restoreTree ord p t) as [[] t']. }
  destruct (restore_checkpoint ord (m, t, RecoveryResult_default)) as [o s'].
  destruct o as [lsn| | | |]; try (cbn [snd]; rewrite Hr by done; done). clear Hr.
  unfold mbind at 1, M_bind at 1. pose proof (replay_flag lsn s') as Hf.
  destruct (replay lsn s') as [[] [[m1 t1] r1]]; try done.
  unfold mbind, M_bind, on_wal, zoom, RecoveryValidator_validate, on_wal, zoom, gets, lift. cbn [fst snd] in *.
  unfold mbind, M_bind.
  destruct (restoreWriterState m1) as [[] m2]; try done. cbn [fst snd].
  destruct (rewindReader m2) as [[] m3]; try done. cbn [fst snd].
  destruct (LogManager_validate m3) as [[] m4]; exact Hf.
Qed.
End result.

(** ** Replaying one record *)

Record Ref_ok (r : PageReference) : Prop := {
  ref_id : in_u 32 (pr_pageId r); ref_gen : in_u 64 (pr_generation r); ref_type : in_u 8 (pr_pageType r);
  ref_flags : in_u 8 (pr_flags r); ref_res : in_u 16 (pr_reserved1 r); ref_sum : in_u 32 (pr_checksum r) }.

Lemma ref_parses r : Ref_ok r → parses read_ref (ref_wire r) r.
Proof.
  intros [H1 H2 H3 H4 H5 H6]. unfold read_ref. rewrite <-(app_nil_r (ref_wire r)).
  apply parses_bind with (ref_wire r).
  - replace PageReference_kSize with (zlen (ref_wire r)); [apply parses_readBytes|].
    unfold ref_wire, zlen. by rewrite !length_app, !length_le_bytes.
  - replace (ref_of_bytes (ref_wire r)) with r; [apply parses_ret|]. symmetry.
    change (ref_of_bytes (ref_wire r)) with (mkPageReference (field 0 4 (ref_wire r)) (field 4 8 (ref_wire r))
      (field 12 1 (ref_wire r)) (field 13 1 (ref_wire r)) (field 14 2 (ref_wire r)) (field 16 4 (ref_wire r))).
    unfold ref_wire, in_u in *. destruct r as [a b c d e f]. cbn [pr_pageId pr_generation pr_pageType pr_flags pr_reserved1 pr_checksum] in *.
    rewrite <-(app_nil_r (le_bytes 4 f)). f_equal; fields; done.
Qed.

Lemma PageReference_eqb_refl r : PageReference_eqb r r = true.
Proof. unfold PageReference_eqb. by rewrite !Z.eqb_refl. Qed.

(** The payload of an update as the format has it. *)
Definition update_record (r : LogRecord) (key : Key) (ref : PageReference) : Prop :=
  lr_type r = LRT_PageUpdate ∧ lr_payload r = key_wire key ++ ref_wire ref ∧ Key_ok key ∧ Ref_ok ref.
Definition delete_record (r : LogRecord) (key : Key) : Prop :=
  lr_type r = LRT_PageDelete ∧ lr_payload r = key_wire key ∧ Key_ok key.

Lemma key_wire_short key : Key_ok key → zlen (key_wire key) <= 300.
Proof.
  intros Hk. rewrite zlen_key_wire. unfold serializedSize. destruct key; cbn in *; try lia.
  unfold kMaxBinaryKeySize in Hk. lia.
Qed.

Section replay.
Context {S W : Type} `{PageSpace S} `{BTreeWalSink W} `{Fo : ForeignPages}.
Notation BT := (BTree S W).
Implicit Types t : BT.

Lemma applyRecord_update r key ref t : update_record r key ref → applyRecord r t = apply_update key ref t.
Proof.
  intros (Ht & Hp & Hk & Hr). unfold applyRecord. rewrite Ht, Hp. cbn [Z.eqb].
  change (LRT_PageUpdate =? LRT_PageUpdate) with true. cbv iota.
  pose proof (key_wire_short key Hk). pose proof (zlen_nonneg (key_wire key)).
  assert (Hw : zlen (ref_wire ref) = 20) by (unfold ref_wire, zlen; by rewrite !length_app, !length_le_bytes).
  assert (E : parses (key ← Key_deserialize 0; ref ← read_ref; mret (key, ref)) (key_wire key ++ ref_wire ref) (key, ref)).
  { apply parses_bind with key; [apply Key_deserialize_parses; [done|lia]|].
    rewrite <-(app_nil_r (ref_wire ref)). apply parses_bind with ref; [by apply ref_parses|apply parses_ret]. }
  unfold mbind at 1, M_bind at 1, lift.
  pose proof (E [] [] ltac:(rewrite app_nil_l, app_nil_r, zlen_app; lia)) as E'.
  rewrite app_nil_r in E'. change (reading [] ?b) with (BinaryReader_make b) in E'.
  rewrite E'. done.
Qed.

Lemma applyRecord_delete r key t : delete_record r key → applyRecord r t = apply_delete key t.
Proof.
  intros (Ht & Hp & Hk). unfold applyRecord. rewrite Ht, Hp.
  change (LRT_PageDelete =? LRT_PageUpdate) with false. change (LRT_PageDelete =? LRT_PageDelete) with true. cbv iota.
  pose proof (key_wire_short key Hk).
  pose proof (Key_deserialize_parses 0 key Hk ltac:(lia) [] [] ltac:(rewrite app_nil_l, app_nil_r; lia)) as E.
  rewrite app_nil_r in E. change (reading [] ?b) with (BinaryReader_make b) in E.
  unfold mbind at 1, M_bind at 1, lift. by rewrite E.
Qed.

(** The guards of [insert], a full leaf allowed, and the tree that the insertion
    of a replayed update meets. *)
Definition accepts t (key : Key) : Prop :=
  key_fits (bt_config t) key ∧ is_separator key t = false ∧ enough_pages t.
Definition update_target t (key : Key) : BT := if BTree_contains key t then (BTree_erase key t).2 else t.

(** A key is bound to a reference, up to the fields the comparison looks at. *)
Definition bound_to t (key : Key) (ref : PageReference) : Prop :=
  ∃ r, BTree_find key t = Ok r ∧ PageReference_eqb r ref = true.

Lemma contains_bound t key : BTree_contains key t = true ↔ ∃ r, BTree_find key t = Ok r.
Proof. unfold BTree_contains. destruct (BTree_find key t); naive_solver. Qed.

Lemma apply_update_again t key ref : bound_to t key ref → apply_update key ref t = (Ok tt, t).
Proof.
  intros (r & Hf & He). unfold apply_update. rewrite (proj2 (contains_bound t key)) by eauto. by rewrite Hf, He.
Qed.

(** What an insertion loses: nothing, or the entry a split of the full leaf
    drops, whose key [x] was the inserted one or was found before. *)
Definition lost_entry t t' (key : Key) (full : bool) (lost : option Key) : Prop :=
  match lost with
  | None => full = false
  | Some x => full = true ∧ (x = key ∨ ∃ r, BTree_find x t = Ok r) ∧
      (∀ r, BTree_find x t' ≠ Ok r) ∧ is_separator x t' = true
  end.

Lemma insert_upsert t key ref : reach t → PageReference_isValid ref = true → accepts t key →
  (∀ r, BTree_find key t ≠ Ok r) →
  ∃ t' lost, BTree_insert key ref t = (Ok tt, t') ∧ reach t' ∧ lost_entry t t' key (leaf_full t key) lost ∧
    (lost ≠ Some key → BTree_find key t' = Ok ref) ∧
    ∀ k r, k ≠ key → lost ≠ Some k → BTree_find k t' = Ok r ↔ BTree_find k t = Ok r.
Proof.
  intros Hr Hv (Hk & Hs & Hp) Hn. destruct (leaf_full t key) eqn:Hl.
  - destruct (insert_splits t key ref Hr Hv Hk Hs Hn Hp Hl) as (t' & x & E & R & _ & Hx & Hnf & Hsep & F).
    exists t', (Some x). split_and!; try done.
    + split_and!; try done. intros r. by rewrite Hnf.
    + intros Hne. rewrite F by congruence. by rewrite decide_True.
    + intros k r Hne Hlost. rewrite F by congruence. by rewrite decide_False.
  - destruct (insert_binds t key ref Hr Hv Hk Hs Hn Hp Hl) as (t' & E & R & _ & F).
    exists t', None. split_and!; try done.
    + intros _. rewrite F. by rewrite decide_True.
    + intros k r Hne _. rewrite F. by rewrite decide_False.
Qed.

Lemma apply_update_spec t key ref : reach t → PageReference_isValid ref = true → ¬ bound_to t key ref →
  (BTree_contains key t = true → underflows t key = false) → accepts (update_target t key) key →
  ∃ t' lost, apply_update key ref t = (Ok tt, t') ∧ reach t' ∧
    lost_entry t t' key (leaf_full (update_target t key) key) lost ∧
    (lost ≠ Some key → bound_to t' key ref) ∧
    ∀ k r, k ≠ key → lost ≠ Some k → BTree_find k t' = Ok r ↔ BTree_find k t = Ok r.
Proof.
  intros Hr Hv Hb Hu Ha. unfold apply_update, update_target in *. destruct (BTree_contains key t) eqn:Hc; cbn [negb].
  - apply contains_bound in Hc as [r Hf]. rewrite Hf. destruct (PageReference_eqb r ref) eqn:He; [destruct Hb; by exists r|].
    destruct (proj1 (erase_removes t key Hr (Hu eq_refl)) r Hf) as (t1 & E1 & R1 & _ & F1). rewrite E1 in *. cbn [snd] in *.
    destruct (insert_upsert t1 key ref R1 Hv Ha) as (t2 & lost & E2 & R2 & L & B & F2); [naive_solver|].
    exists t2, lost. unfold mbind, M_bind. rewrite E1, E2. split_and!; try done.
    + destruct lost as [x|]; [|done]. destruct L as (L1 & L2 & L3 & L4). split_and!; try done.
      destruct L2 as [->|[y Hy]]; [by left|right]. apply F1 in Hy as [_ Hy]. eauto.
    + intros Hl. exists ref. split; [by apply B|apply PageReference_eqb_refl].
    + intros k x Hne Hl. rewrite F2, F1 by done. tauto.
  - assert (Hf : ∀ r, BTree_find key t ≠ Ok r).
    { intros r Hf. apply not_true_iff_false in Hc. apply Hc, contains_bound. eauto. }
    destruct (insert_upsert t key ref Hr Hv Ha Hf) as (t2 & lost & E2 & R2 & L & B & F2).
    exists t2, lost. split_and!; try done. intros Hl. exists ref. split; [by apply B|apply PageReference_eqb_refl].
Qed.


(** C22: Replaying a delete record on a reachable tree leaves the key unbound,
    whatever the tree answers and also when the key was not there, and replaying
    it again succeeds and changes nothing; when no leaf is left underfull, it
    succeeds at once and leaves every other key as it was. *)
Theorem replay_delete_idempotent r key t : reach t → delete_record r key →
  ∃ o t', applyRecord r t = (o, t') ∧ reach t' ∧ (o = Ok tt ∨ fix_error o) ∧
    (∀ x, BTree_find key t' ≠ Ok x) ∧ applyRecord r t' = (Ok tt, t') ∧
    (underflows t key = false →
       o = Ok tt ∧ ∀ k x, k ≠ key → BTree_find k t' = Ok x ↔ BTree_find k t = Ok x).
Proof.
  intros Hr Hd. rewrite (applyRecord_delete r key t Hd).
  assert (Hno : ∀ t0, (∀ x, BTree_find key t0 ≠ Ok x) → apply_delete key t0 = (Ok tt, t0)).
  { intros t0 Hn. unfold apply_delete. destruct (BTree_contains key t0) eqn:Hc; [|done].
    apply contains_bound in Hc as [x Hx]. by destruct (Hn x). }
  destruct (BTree_contains key t) eqn:Hc.
  - apply contains_bound in Hc as Hx. destruct Hx as [x Hx]. unfold apply_delete at 1. rewrite Hc. cbn [negb].
    destruct (erase_effect t key x Hr Hx) as (o & t1 & E1 & R1 & _ & Heff).
    assert (Hn1 : ∀ y, BTree_find key t1 ≠ Ok y).
    { intros y Hy. destruct Heff as [[_ F]|(_ & lent & sep & r0 & _ & _ & _ & Hs & _ & _ & F)]; apply F in Hy; [tauto|].
      rewrite decide_False in Hy by done. tauto. }
    exists o, t1. rewrite (applyRecord_delete r key t1 Hd), (Hno t1 Hn1). split_and!; try done.
    + destruct Heff as [[? _]|[? _]]; auto.
    + intros Hu. destruct (proj1 (erase_removes t key Hr Hu) x Hx) as (t2 & E2 & _ & _ & F2).
      rewrite E1 in E2. injection E2 as -> ->. split; [done|]. intros k y Hne. rewrite F2. tauto.
  - assert (Hn : ∀ x, BTree_find key t ≠ Ok x).
    { intros x Hx. apply not_true_iff_false in Hc. apply Hc, contains_bound. eauto. }
    exists (Ok tt), t. rewrite (applyRecord_delete r key t Hd), (Hno t Hn). split_and!; try done. by left.
Qed.
End replay.

Definition demo_update : LogRecord :=
  mkLogRecord LRT_PageUpdate 3 1 2 0 0 0 0 (key_wire (demo_key 2) ++ ref_wire (demo_ref 2)).
Definition demo_delete : LogRecord := mkLogRecord LRT_PageDelete 4 1 kInvalidPageId 0 0 0 0 (key_wire (demo_key 1)).
Definition demo_one : BTree SpaceManager unit := demo_insert demo_empty 1.

Lemma demo_one_reach : reach demo_one.
Proof. apply demo_insert_reach; [apply demo_empty_reach|vm_compute; first [reflexivity|discriminate]..]. Qed.

(** Into the full leaf with the keys 1 and 2. *)
Definition demo_update3 : LogRecord :=
  mkLogRecord LRT_PageUpdate 5 1 3 0 0 0 0 (key_wire (demo_key 3) ++ ref_wire (demo_ref 3)).


Lemma replay_delete_idempotent_witness :
  ∃ t', applyRecord demo_delete demo_one = (Ok tt, t') ∧ (∀ x, BTree_find (demo_key 1) t' ≠ Ok x) ∧
    applyRecord demo_delete t' = (Ok tt, t').
Proof.
  destruct (replay_delete_idempotent demo_delete (demo_key 1) demo_one demo_one_reach) as (o & t' & E1 & _ & _ & E2 & E3 & E4).
  - split_and!; [reflexivity..|]. split; [vm_compute; discriminate|repeat constructor; lia].
  - destruct E4 as [-> _]; [vm_compute; reflexivity|]. exists t'. exact (conj E1 (conj E2 E3)).
Defined.

(** ** Every loop over the log ends *)

(** Computations that never exhaust an iteration bound. *)
Definition ends {St A} (m : M St A) : Prop := ∀ s, (m s).1 ≠ Fuel.

Section ends.
Context {St A B : Type}.
Lemma ends_ret (a : A) : ends (mret a : M St A).
Proof. done. Qed.
Lemma ends_lift (o : outcome A) : o ≠ Fuel → ends (lift o : M St A).
Proof. by intros Ho s. Qed.
Lemma ends_bind (m : M St A) (k : A → M St B) : ends m → (∀ a, ends (k a)) → ends (m ≫= k).
Proof.
  intros Hm Hk s. unfold mbind, M_bind. specialize (Hm s). destruct (m s) as [[a| | | |] s']; try done. apply Hk.
Qed.
Lemma ends_zoom {T} (proj : St → T) upd (m : M T A) : ends m → ends (zoom proj upd m).
Proof. intros Hm s. unfold zoom. specialize (Hm (proj s)). by destruct (m (proj s)). Qed.
Lemma ends_local {T} (t : T) (m : M T A) : ends m → ends (local t m : M St (A * T)).
Proof. intros Hm s. unfold local. specialize (Hm t). by destruct (m t) as [[]]. Qed.
Lemma ends_guard (m : M LogFile A) : ends m → ends (guard_open m).
Proof. intros Hm f. unfold guard_open. destruct (LogFile_isOpen f); [apply Hm|done]. Qed.
End ends.
Create HintDb ends.
#[export] Hint Resolve ends_ret ends_bind ends_zoom ends_local ends_guard : ends.

Lemma ends_readBytes n : ends (BinaryReader_readBytes n).
Proof. intros r. unfold BinaryReader_readBytes. by repeat case_match. Qed.
Lemma ends_read n : ends (BinaryReader_read n).
Proof. apply ends_bind; [apply ends_readBytes|intros; apply ends_ret]. Qed.
Lemma ends_skip n : ends (BinaryReader_skip n).
Proof. intros r. unfold BinaryReader_skip. by repeat case_match. Qed.
Lemma ends_dbseek p : ends (DatabaseFile_seek p).
Proof. intros d. unfold DatabaseFile_seek. by repeat case_match. Qed.
Lemma ends_dbread n : ends (DatabaseFile_readBytes n).
Proof. intros d. unfold DatabaseFile_readBytes. by repeat case_match. Qed.
#[export] Hint Resolve ends_readBytes ends_read ends_skip ends_dbseek ends_dbread : ends.

Lemma ends_record : ends LogRecord_deserialize.
Proof.
  unfold LogRecord_deserialize, LSN_deserialize.
  repeat (apply ends_bind; [auto with ends; try (case_match; auto with ends)|intros]). apply ends_ret.
Qed.
Lemma ends_readRecord off : ends (LogFile_readRecord off).
Proof.
  apply ends_guard, ends_bind; [unfold LogFile_readBytes, on_file; eauto with ends|]. intros got.
  cbv zeta. destruct (_ =? 0); [by apply ends_lift|]. apply ends_bind; [unfold LogFile_readBytes, on_file; eauto with ends|]. intros body.
  apply ends_bind; [|by intros []]. apply ends_local, ends_bind; [apply ends_skip|intros; apply ends_record].
Qed.

(** Reading leaves the bytes of the file and its size alone. *)
Definition same_file (f f' : LogFile) : Prop :=
  df_bytes (lf_file f') = df_bytes (lf_file f) ∧ LogFile_fileSize f' = LogFile_fileSize f.
#[global] Instance same_file_preorder : PreOrder same_file.
Proof. split; [by split|]. intros a b c [] []. split; congruence. Qed.
Definition only_reads {A} (m : M LogFile A) : Prop := ∀ f, same_file f (m f).2.

Lemma reads_bind {A B} (m : M LogFile A) (k : A → M LogFile B) :
  only_reads m → (∀ a, only_reads (k a)) → only_reads (m ≫= k).
Proof.
  intros Hm Hk f. unfold mbind, M_bind. specialize (Hm f). destruct (m f) as [[a| | | |] f']; try done.
  etransitivity; [exact Hm|apply Hk].
Qed.
Lemma reads_guard {A} (m : M LogFile A) : only_reads m → only_reads (guard_open m).
Proof. intros Hm f. unfold guard_open. destruct (LogFile_isOpen f); [apply Hm|done]. Qed.
Lemma reads_pure {A} (m : M LogFile A) : (∀ f, (m f).2 = f) → only_reads m.
Proof. intros Hm f. by rewrite Hm. Qed.

Lemma reads_seek p : only_reads (on_file (DatabaseFile_seek p)).
Proof.
  intros f. unfold on_file, zoom, DatabaseFile_seek, stream_seekp, stream_seekg. by repeat case_match; simplify_eq/=.
Qed.
Lemma reads_bytes n : only_reads (on_file (DatabaseFile_readBytes n)).
Proof. intros f. unfold on_file, zoom, DatabaseFile_readBytes. by repeat case_match; simplify_eq/=. Qed.
Lemma reads_readBytes off n : only_reads (LogFile_readBytes off n).
Proof. apply reads_guard, reads_bind; [apply reads_seek|intros; apply reads_bytes]. Qed.
Lemma reads_record off : only_reads (LogFile_readRecord off).
Proof.
  apply reads_guard, reads_bind; [apply reads_readBytes|]. intros got. cbv zeta.
  destruct (_ =? 0); [by apply reads_pure|]. apply reads_bind; [apply reads_readBytes|]. intros body.
  apply reads_bind; [by apply reads_pure|]. by intros [] f.
Qed.

(** A file of bytes, below the size at which offsets could wrap. *)
Definition file_sane (f : LogFile) : Prop :=
  bytes_ok (df_bytes (lf_file f)) ∧ LogFile_fileSize f < 2 ^ 62.
Lemma sane_same f f' : same_file f f' → file_sane f → file_sane f'.
Proof. unfold file_sane. by intros [-> ->]. Qed.

Lemma readBytes_bytes off n f got f' : file_sane f → 0 <= n → LogFile_readBytes off n f = (Ok got, f') →
  bytes_ok got ∧ zlen got <= n.
Proof.
  intros Hf Hn. unfold LogFile_readBytes, guard_open. destruct (LogFile_isOpen f); [|done].
  unfold mbind, M_bind. pose proof (reads_seek off f) as Hs.
  destruct (on_file (DatabaseFile_seek off) f) as [[[]| | | |] f1]; try done. cbn [snd] in Hs.
  destruct (sane_same _ _ Hs Hf) as [Hb _].
  unfold on_file, zoom, DatabaseFile_readBytes.
  destruct (df_isOpen (lf_file f1)); cbn [negb]; [|done]. destruct (stream_good _); [|repeat case_match; intros ?; simplify_eq; by split; [constructor|]].
  intros [= <- <-]. split; [by apply Forall_take, Forall_drop|]. unfold zlen, ztake. rewrite length_take. lia.
Qed.

(** A record that is read takes at least one byte, and less than 2^33. *)
Lemma readRecord_progress off f r n f' : file_sane f → LogFile_readRecord off f = (Ok (r, n), f') → 0 < n < 2 ^ 33.
Proof.
  intros Hf. unfold LogFile_readRecord, guard_open at 1. destruct (LogFile_isOpen f); [|done].
  unfold mbind at 1, M_bind at 1. destruct (LogFile_readBytes off 4 f) as [[got| | | |] f1] eqn:E1; try done.
  destruct (readBytes_bytes off 4 f got f1 Hf ltac:(lia) E1) as [Hb Hl]. cbv zeta.
  pose proof (le_value_range (got ++ zeros (4 - length got))) as Hr.
  set (size := le_value (got ++ zeros (4 - length got))) in *. destruct (Z.eqb_spec size 0); [done|].
  assert (Hs : 0 < size < 2 ^ 32).
  { destruct Hr as [? Hr]; [apply Forall_app; split; [done|apply zeros_ok]|]. split; [lia|].
    rewrite length_app in Hr. unfold zeros, zlen in *. rewrite length_replicate in Hr.
    replace (length got + (4 - length got))%nat with 4%nat in Hr by lia. exact Hr. }
  unfold mbind at 1, M_bind at 1. destruct (LogFile_readBytes _ size f1) as [[body| | | |] f2]; try done.
  unfold mbind at 1, M_bind at 1.
  match goal with |- context [local ?a ?b f2] => destruct (local a b f2) as [[[rec rd]| | | |] f3] end; try done.
  unfold mret, M_ret, kLogRecordAlignment. intros [= <- <- _]. case_match; lia.
Qed.

Definition log_sane (m : LogManager) : Prop := file_sane (lm_file m).

Lemma on_logfile_record off m : log_sane m →
  match on_logfile (LogFile_readRecord off) m with
  | (Ok (r, n), m') => 0 < n < 2 ^ 33 ∧ log_sane m' ∧ LogFile_fileSize (lm_file m') = LogFile_fileSize (lm_file m) ∧
      lm_reader m' = lm_reader m
  | (o, m') => o ≠ Fuel ∧ log_sane m' ∧ lm_reader m' = lm_reader m
  end.
Proof.
  intros Hm. unfold on_logfile, zoom. pose proof (ends_readRecord off (lm_file m)) as He.
  pose proof (reads_record off (lm_file m)) as Hs.
  destruct (LogFile_readRecord off (lm_file m)) as [[[r n]| | | |] f'] eqn:E; cbn [fst snd] in *;
    pose proof (sane_same _ _ Hs Hm) as Hm'; try done.
  pose proof (readRecord_progress _ _ _ _ _ Hm E). destruct Hs. done.
Qed.

Lemma validateRecord_ends r : validateRecord r ≠ Fuel.
Proof. unfold validateRecord, validateRecordHeader, validateReservedFields, mbind, outcome_bind. by repeat case_match. Qed.
Lemma validateLsnOrdering_ends a b : validateLsnOrdering a b ≠ Fuel.
Proof. unfold validateLsnOrdering. by repeat case_match. Qed.

Lemma restore_loop_ends fuel off l m : log_sane m → 0 <= off →
  LogFile_fileSize (lm_file m) - off < Z.of_nat fuel → (restore_loop fuel off l m).1 ≠ Fuel.
Proof.
  revert off l m. induction fuel as [|fuel IH]; intros off l m Hm Ho Hf; cbn [restore_loop];
    (destruct (Z.ltb_spec off (LogFile_fileSize (lm_file m))); [|done]); [lia|].
  pose proof (on_logfile_record off m Hm) as Hr. destruct (on_logfile _ m) as [[[r n]| | | |] m']; try tauto; try done.
  destruct Hr as (Hn & Hm' & Hsz & _). pose proof (proj2 Hm). rewrite u64_small by lia. apply IH; [done|lia|lia].
Qed.
Lemma validate_loop_ends fuel off l m : log_sane m → 0 <= off →
  LogFile_fileSize (lm_file m) - off < Z.of_nat fuel → (log_validate_loop fuel off l m).1 ≠ Fuel.
Proof.
  revert off l m. induction fuel as [|fuel IH]; intros off l m Hm Ho Hf; cbn [log_validate_loop];
    (destruct (Z.ltb_spec off (LogFile_fileSize (lm_file m))); [|done]); [lia|].
  pose proof (on_logfile_record off m Hm) as Hr. unfold mbind at 1, M_bind at 1.
  destruct (on_logfile _ m) as [[[r n]| | | |] m']; try tauto; try done.
  destruct Hr as (Hn & Hm' & Hsz & _). pose proof (proj2 Hm).
  unfold mbind, M_bind, lift. pose proof (validateRecord_ends r). destruct (validateRecord r); try done.
  pose proof (validateLsnOrdering_ends l (lr_lsn r)). destruct (validateLsnOrdering l (lr_lsn r)); try done.
  rewrite u64_small by lia. apply IH; [done|lia|lia].
Qed.
Lemma ends_truncate n : ends (LogFile_truncate n).
Proof.
  intros f. unfold LogFile_truncate. do 2 (case_match; [done|]). apply ends_bind; [|done].
  apply ends_zoom. intros d. unfold DatabaseFile_resize. by repeat case_match.
Qed.
Lemma truncate_loop_ends fuel off l m : log_sane m → 0 <= off →
  LogFile_fileSize (lm_file m) - off < Z.of_nat fuel → (truncate_loop fuel off l m).1 ≠ Fuel.
Proof.
  revert off m. induction fuel as [|fuel IH]; intros off m Hm Ho Hf; cbn [truncate_loop];
    (destruct (Z.ltb_spec off (LogFile_fileSize (lm_file m))); [|done]); [lia|].
  pose proof (on_logfile_record off m Hm) as Hr. destruct (on_logfile _ m) as [[[r n]| | | |] m']; try tauto; try done.
  destruct Hr as (Hn & Hm' & Hsz & _). pose proof (proj2 Hm). rewrite u64_small by lia. cbv zeta.
  case_match; [|apply IH; [done|lia|lia]]. apply ends_zoom, ends_truncate.
Qed.

(** The reader: a record that is accepted moves it forward. *)
Lemma readNext_progress m : log_sane m → 0 <= rd_offset (lm_reader m) →
  match LogReader_readNext m with
  | (Ok r, m') => rd_offset (lm_reader m) < LogFile_fileSize (lm_file m) ∧
      rd_offset (lm_reader m) < rd_offset (lm_reader m') ∧ log_sane m' ∧
      LogFile_fileSize (lm_file m') = LogFile_fileSize (lm_file m) ∧ lm_initialized m' = lm_initialized m
  | (o, m') => o ≠ Fuel
  end.
Proof.
  intros Hm Ho. unfold LogReader_readNext. destruct (rd_endOfLog (lm_reader m)); [done|].
  destruct (Z.leb_spec (LogFile_fileSize (lm_file m)) (rd_offset (lm_reader m))); [done|].
  pose proof (on_logfile_record (rd_offset (lm_reader m)) m Hm) as Hr.
  assert (Hi : lm_initialized (on_logfile (LogFile_readRecord (rd_offset (lm_reader m))) m).2 = lm_initialized m).
  { unfold on_logfile, zoom. by destruct (LogFile_readRecord _ _). }
  destruct (on_logfile _ m) as [[[r n]| | | |] m']; try tauto; try done. cbn [snd] in Hi.
  destruct Hr as (Hn & Hm' & Hsz & Hrd). pose proof (proj2 Hm).
  unfold LogReader_accept, mbind, M_bind, gets, lift, modify, mret, M_ret.
  pose proof (validateRecord_ends r). destruct (validateRecord r); try done.
  pose proof (validateLsnOrdering_ends (rd_lastLsn (lm_reader m')) (lr_lsn r)).
  destruct (validateLsnOrdering _ _); try done.
  cbn [set_reader lm_reader rd_offset upd_logstats lm_file lm_initialized]. rewrite Hrd, u64_small by lia.
  split_and!; (done || lia).
Qed.

Lemma seek_loop_ends fuel l m : log_sane m → 0 <= rd_offset (lm_reader m) →
  LogFile_fileSize (lm_file m) - rd_offset (lm_reader m) < Z.of_nat fuel → (0 < fuel)%nat →
  (seek_loop fuel l m).1 ≠ Fuel.
Proof.
  revert m. induction fuel as [|fuel IH]; intros m Hm Ho Hf H0; [lia|]. cbn [seek_loop].
  destruct (rd_endOfLog (lm_reader m)); [done|]. cbv zeta.
  pose proof (readNext_progress m Hm Ho) as Hr. destruct (LogReader_readNext m) as [[r| | | |] m']; try done; [|by case_match].
  destruct Hr as (H1 & H2 & Hm' & Hs & _). case_match; [done|]. case_match; [done|]. apply IH; [done|lia..].
Qed.

Lemma ends_checkpoint : ends CheckpointPayload_deserialize.
Proof.
  unfold CheckpointPayload_deserialize, LSN_deserialize.
  repeat (apply ends_bind; [auto with ends; try (case_match; auto with ends)|intros]); try apply ends_ret.
  apply ends_lift. unfold CheckpointPayload_validate. by repeat case_match.
Qed.

Lemma find_loop_ends fuel found m out : log_sane m → 0 <= rd_offset (lm_reader m) →
  LogFile_fileSize (lm_file m) - rd_offset (lm_reader m) < Z.of_nat fuel → (0 < fuel)%nat →
  (find_loop fuel found (m, out)).1 ≠ Fuel.
Proof.
  revert found m out. induction fuel as [|fuel IH]; intros found m out Hm Ho Hf H0; [lia|]. cbn [find_loop].
  unfold LogManager_readNext, when_initialized. destruct (lm_initialized m); [|done].
  pose proof (readNext_progress m Hm Ho) as Hr. destruct (LogReader_readNext m) as [[r| | | |] m']; try done.
  destruct Hr as (H1 & H2 & Hm' & Hs & _). case_match; [apply IH; [done|lia..]|].
  pose proof (ends_checkpoint (BinaryReader_make (lr_payload r))) as He.
  destruct (CheckpointPayload_deserialize _) as [[]]; try done. cbn [fst]. apply IH; [done|lia..].
Qed.

(** The replay adds the tree's operations: it runs out of fuel only where applying
    a record to a tree does, never by its own loop. *)
Section replay_ends.
Context {S W : Type} `{PageSpace S} `{BTreeWalSink W}.
Notation BT := (BTree S W).
Lemma replay_record_log l r (s : LogManager * BT * RecoveryResult) :
  (replay_record l r s).2.1.1 = s.1.1 ∧
  ((replay_record l r s).1 = Fuel → ∃ t, (applyRecord r t).1 = Fuel).
Proof.
  destruct s as [[m t] res]. unfold replay_record, lift, mbind, M_bind, on_rtree, zoom, upd_result, modify. cbn [fst snd].
  destruct (validateRecord r) as [[]|e|w| |] eqn:E; try done.
  - repeat case_match; simplify_eq; try done; cbn [fst snd] in *; split; try done; intros; simplify_eq.
    exists t. by match goal with E : applyRecord _ _ = _ |- _ => rewrite E end.
  - exfalso. revert E. unfold validateRecord, validateRecordHeader, validateReservedFields, mbind, outcome_bind. by repeat case_match.
Qed.
Lemma replay_loop_ends fuel l m (t : BT) res : log_sane m → 0 <= rd_offset (lm_reader m) →
  LogFile_fileSize (lm_file m) - rd_offset (lm_reader m) < Z.of_nat fuel → (0 < fuel)%nat →
  (replay_loop fuel l (m, t, res)).1 = Fuel → ∃ r t', (applyRecord r (t' : BT)).1 = Fuel.
Proof.
  revert m t res. induction fuel as [|fuel IH]; intros m t res Hm Ho Hf H0f; [lia|]. cbn [replay_loop].
  unfold on_wal, zoom. cbn [fst snd]. unfold LogManager_readNext, when_initialized.
  destruct (lm_initialized m); [|done]. pose proof (readNext_progress m Hm Ho) as Hr.
  destruct (LogReader_readNext m) as [[r| | | |] m']; try done. destruct Hr as (Hp1 & Hp2 & Hm' & Hs & _).
  destruct (replay_record_log l r (m', t, res)) as [E1 E2]. unfold mbind, M_bind. cbn [fst snd] in *.
  destruct (replay_record l r (m', t, res)) as [[[]| | | |] [[m1 t1] res1]]; try done; cbn [fst snd] in *; subst m1.
  - apply IH; [done|lia..].
  - intros _. exists r. by apply E2.
Qed.
Lemma replay_ends l m (t : BT) res : log_sane m → 0 <= LogFile_fileSize (lm_file m) →
  (replay l (m, t, res)).1 = Fuel → ∃ r t', (applyRecord r (t' : BT)).1 = Fuel.
Proof.
  intros Hm Hsz. unfold replay, upd_result, on_wal, zoom, rewindReader, when_initialized, LogReader_rewind, mbind, M_bind, gets, modify.
  cbn [fst snd]. destruct (lm_initialized m) eqn:Hi; [|done]. cbn [fst snd].
  apply replay_loop_ends; [done|done|..]; change (log_fuel (set_reader LogReader_make m)) with (log_fuel m);
    cbn [lm_reader set_reader LogReader_make rd_offset lm_file]; unfold log_fuel, WalFileHeader_kSize; lia.
Qed.
End replay_ends.

Lemma readHeader_ends : ends readHeader ∧ only_reads readHeader.
Proof.
  split.
  - apply ends_guard. intros f. case_match; [done|].
    apply (ends_bind (on_file (DatabaseFile_seek 0))); [apply ends_zoom, ends_dbseek|intros].
    apply ends_bind; [apply ends_zoom, ends_dbread|intros; apply ends_ret].
  - apply reads_guard. intros f. case_match; [done|].
    apply (reads_bind (on_file (DatabaseFile_seek 0))); [apply reads_seek|intros].
    apply reads_bind; [apply reads_bytes|intros; by apply reads_pure].
Qed.
Lemma fileValidate_ends : ends LogFile_validate ∧ only_reads LogFile_validate.
Proof.
  destruct readHeader_ends as [H1 H2]. split.
  - apply ends_guard, ends_bind; [done|]. intros h. repeat case_match; done.
  - apply reads_guard, reads_bind; [done|]. intros h. repeat case_match; by apply reads_pure.
Qed.

(** C23: Every scan of a log ends, whatever bytes the file holds: restoring the
    writer's state, seeking the reader, validating the log, looking for the last
    checkpoint and truncating after it.  (The file must be smaller than 2^62
    bytes.)  Each record read moves the scan forward, so the iteration bound of
    the model, the size of the file, is never what stops it. *)
Theorem log_scans_terminate m l out : log_sane m → 0 <= LogFile_fileSize (lm_file m) →
  (LogWriter_restoreFromFile m).1 ≠ Fuel ∧ (LogReader_seekLsn l m).1 ≠ Fuel ∧
  (LogManager_validate m).1 ≠ Fuel ∧ (findLastCheckpoint (m, out)).1 ≠ Fuel ∧
  (truncateAfterCheckpoint l m).1 ≠ Fuel.
Proof.
  intros Hm Hsz. unfold log_fuel.
  assert (Hfuel : LogFile_fileSize (lm_file m) - 16 < Z.of_nat (log_fuel m)) by (unfold log_fuel; lia).
  split_and!.
  - unfold LogWriter_restoreFromFile, mbind, M_bind, gets.
    pose proof (restore_loop_ends (log_fuel m) WalFileHeader_kSize LSN_invalid m Hm ltac:(done) Hfuel) as He.
    destruct (restore_loop _ _ _ m) as [[x| | | |] m']; try done. by case_match.
  - unfold LogReader_seekLsn, LogReader_rewind, mbind, M_bind, gets, modify.
    apply seek_loop_ends; [done|done|exact Hfuel|unfold log_fuel; lia].
  - unfold LogManager_validate, when_initialized. destruct (lm_initialized m); [|done].
    destruct fileValidate_ends as [V1 V2]. specialize (V1 (lm_file m)). specialize (V2 (lm_file m)).
    unfold mbind at 1, M_bind at 1, on_logfile, zoom. destruct (LogFile_validate (lm_file m)) as [[x| | | |] f']; try done.
    unfold mbind, M_bind, gets. cbn [snd] in V2. destruct V2 as [V2 V3].
    apply validate_loop_ends; [by apply (sane_same (lm_file m))|done|].
    unfold log_fuel. cbn [set_lmfile lm_file]. rewrite V3. unfold WalFileHeader_kSize. lia.
  - unfold findLastCheckpoint, on_fst, rewindReader, when_initialized, LogReader_rewind, mbind, M_bind, zoom, gets, modify.
    cbn [fst snd]. destruct (lm_initialized m) eqn:Hi; [|done]. cbn [fst snd].
    pose proof (find_loop_ends (log_fuel m) false (set_reader LogReader_make m) (CheckpointPayload_default, LSN_invalid)
      Hm ltac:(done) Hfuel ltac:(unfold log_fuel; lia)) as He.
    change (log_fuel (set_reader LogReader_make m)) with (log_fuel m).
    destruct (find_loop _ _ _) as [[x| | | |] m']; try done. by case_match.
  - unfold truncateAfterCheckpoint, mbind, M_bind, gets. by apply truncate_loop_ends.
Qed.

Lemma log_scans_terminate_witness :
  (LogManager_validate demo_manager).1 ≠ Fuel ∧
  (findLastCheckpoint (demo_manager, (CheckpointPayload_default, LSN_invalid))).1 ≠ Fuel.
Proof.
  destruct (log_scans_terminate demo_manager 1 (CheckpointPayload_default, LSN_invalid)) as (_ & _ & H1 & H2 & _).
  - split; [|vm_compute; reflexivity].
    apply (bool_decide_unpack (Forall (λ b, 0 <= b < 256) (df_bytes (lf_file (lm_file demo_manager))))).
    vm_compute. exact I.
  - vm_compute. discriminate.
  - exact (conj H1 H2).
Defined.
