(* ===== verification/TreeLog.v ===== *)
(** What the tree hands to its write-ahead-log sink, whatever its operations
    return: an invariant of the sink that every report about a known key keeps
    is kept by [insert] and [erase], and the keys of reports are keys the caller
    has inserted or erased.  Nothing is assumed of the tree, of the space
    manager or of what the sink answers. *)
From stdpp Require Import base strings list gmap.
From Stdlib Require Import ZArith Lia.
From S2P Require Import Prelude Config PageAlloc Buffers Keys Nodes Tree.

(** ** Actions that keep an invariant

    [holds I x Q]: from a state of [I] the action ends in one, whatever it
    returns, and a returned value satisfies [Q]. *)
Definition holds {S A} (I : S → Prop) (x : M S A) (Q : A → Prop) : Prop :=
  ∀ s, I s → I (x s).2 ∧ ∀ a, (x s).1 = Ok a → Q a.

Section holds.
Context {S : Type} (I : S → Prop).

Lemma holds_weaken {A} (x : M S A) (Q R : A → Prop) : holds I x Q → (∀ a, Q a → R a) → holds I x R.
Proof. intros Hx Hq s Hs. destruct (Hx s Hs) as [H1 H2]. split; [done|]. eauto. Qed.
Lemma holds_ret {A} (a : A) (Q : A → Prop) : Q a → holds I (mret a) Q.
Proof. intros Hq s Hs. split; [done|]. by intros ? [= <-]. Qed.
Lemma holds_lift {A} (o : outcome A) (Q : A → Prop) : (∀ a, o = Ok a → Q a) → holds I (lift o) Q.
Proof. intros Hq s Hs. by split. Qed.
Lemma holds_bind {A B} (x : M S A) (k : A → M S B) Q R :
  holds I x Q → (∀ a, Q a → holds I (k a) R) → holds I (x ≫= k) R.
Proof.
  intros Hx Hk s Hs. destruct (Hx s Hs) as [H1 H2]. unfold mbind, M_bind.
  destruct (x s) as [[a|e|w| |] s']; cbn in *; try (by split).
  apply (Hk a (H2 a eq_refl) s' H1).
Qed.
Lemma holds_modify (g : S → S) : (∀ s, I s → I (g s)) → holds I (modify g) (λ _, True).
Proof. intros Hg s Hs. split; [by apply Hg|done]. Qed.
Lemma holds_gets {A} (g : S → A) (Q : A → Prop) : (∀ s, I s → Q (g s)) → holds I (gets g) Q.
Proof. intros Hg s Hs. split; [done|]. intros a [= <-]. by apply Hg. Qed.
Lemma holds_get : holds I get I.
Proof. intros s Hs. split; [done|]. by intros a [= <-]. Qed.
Lemma holds_if {A} (b : bool) (x y : M S A) Q : holds I x Q → holds I y Q → holds I (if b then x else y) Q.
Proof. by destruct b. Qed.
Lemma holds_ignore {A} (x : M S A) (Q : A → Prop) : holds I x Q → holds I (ignore x) (λ _, True).
Proof.
  intros Hx s Hs. destruct (Hx s Hs) as [H1 _]. unfold ignore.
  destruct (x s) as [[a|e|w| |] s']; by split.
Qed.
End holds.

(** ** Keys of nodes *)
Section keys.
Context (K : Key → Prop).
Definition leaf_keys (l : LeafNode) : Prop := Forall K (lf_keys l).
Definition internal_keys (i : InternalNode) : Prop := Forall K (in_keys i).

Lemma Forall_vinsert i k ks : K k → Forall K ks → Forall K (vinsert i k ks).
Proof. intros. unfold vinsert. apply Forall_app. split; [by apply Forall_take|]. constructor; [done|by apply Forall_drop]. Qed.
Lemma Forall_verase i ks : Forall K ks → Forall K (verase i ks).
Proof. intros. unfold verase. apply Forall_app. split; [by apply Forall_take|by apply Forall_drop]. Qed.
Lemma Forall_at ks i k : Forall K ks → at_ ks i = Ok k → K k.
Proof. unfold at_. intros Hk. destruct (ks !! i) eqn:E; [|done]. intros [= <-]. by eapply Forall_lookup_1. Qed.
Lemma Forall_index ks i k : Forall K ks → index ks i = Ok k → K k.
Proof. unfold index. intros Hk. destruct (ks !! i) eqn:E; [|done]. intros [= <-]. by eapply Forall_lookup_1. Qed.
Lemma Forall_at_pred ks i k : Forall K ks → at_pred ks i = Ok k → K k.
Proof. unfold at_pred. case_match; [done|]. apply Forall_at. Qed.
Lemma Forall_collect n ks ks' : Forall K ks → collect n ks = Ok ks' → Forall K ks'.
Proof. unfold collect. case_match; [done|]. intros ? [= <-]. by apply Forall_take. Qed.

(** Writing the entries to the page does not touch the vectors. *)
Lemma leaf_node_keys {A} (x : M BTreeNode A) : holds leaf_keys (on_leaf_node x) (λ _, True).
Proof. intros l Hl. unfold on_leaf_node, zoom. by destruct (x (lf_node l)) as [o n]. Qed.
Lemma internal_node_keys {A} (x : M BTreeNode A) : holds internal_keys (on_internal_node x) (λ _, True).
Proof. intros l Hl. unfold on_internal_node, zoom. by destruct (x (in_node l)) as [o n]. Qed.
Lemma local_holds {S T A} (I : S → Prop) (s0 : T) (x : M T A) : holds I (local s0 x) (λ _, True).
Proof. intros s Hs. unfold local. by destruct (x s0) as [[] ?]. Qed.

Lemma leaf_sync_keys : holds leaf_keys LeafNode_syncEntries (λ _, True).
Proof.
  unfold LeafNode_syncEntries. eapply holds_bind; [apply leaf_node_keys|intros _ _].
  eapply holds_bind; [apply holds_get|intros l Hl].
  eapply holds_bind; [apply local_holds|intros [? w] _].
  apply holds_if; [by apply holds_lift|apply leaf_node_keys].
Qed.
Lemma internal_sync_keys : holds internal_keys InternalNode_syncEntries (λ _, True).
Proof.
  unfold InternalNode_syncEntries. eapply holds_bind; [apply internal_node_keys|intros _ _].
  eapply holds_bind; [apply holds_get|intros l Hl].
  eapply holds_bind; [apply local_holds|intros [? w] _].
  apply holds_if; [by apply holds_lift|apply internal_node_keys].
Qed.
Lemma set_leaf_keys ks rs : Forall K ks → holds leaf_keys (_ ← set_leaf_entries ks rs; LeafNode_syncEntries) (λ _, True).
Proof.
  intros Hk. eapply (holds_bind _ _ _ (λ _, True)); [|intros; apply leaf_sync_keys].
  intros l Hl. by split.
Qed.
Lemma set_internal_keys ks rs : Forall K ks →
  holds internal_keys (_ ← set_internal_entries ks rs; InternalNode_syncEntries) (λ _, True).
Proof.
  intros Hk. eapply (holds_bind _ _ _ (λ _, True)); [|intros; apply internal_sync_keys].
  intros l Hl. by split.
Qed.

Lemma leaf_insert_keys k r : K k → holds leaf_keys (LeafNode_insert k r) (λ _, True).
Proof.
  intros Hk l Hl. unfold LeafNode_insert. do 2 (case_match; [done|]). cbv zeta. case_match; [done|].
  apply set_leaf_keys; [by apply Forall_vinsert|done].
Qed.
Lemma leaf_eraseAt_keys i : holds leaf_keys (LeafNode_eraseAt i) (λ _, True).
Proof.
  intros l Hl. unfold LeafNode_eraseAt. case_match; [done|].
  apply set_leaf_keys; [by apply Forall_verase|done].
Qed.
Lemma leaf_assign_keys ks rs : Forall K ks → holds leaf_keys (LeafNode_assignEntries ks rs) (λ _, True).
Proof. intros Hk l Hl. unfold LeafNode_assignEntries. do 2 (case_match; [done|]). by apply set_leaf_keys. Qed.
Lemma internal_insert_keys i k r : K k → holds internal_keys (InternalNode_insert i k r) (λ _, True).
Proof.
  intros Hk l Hl. unfold InternalNode_insert. do 4 (case_match; [done|]).
  apply set_internal_keys; [by apply Forall_vinsert|done].
Qed.
Lemma internal_eraseAt_keys i : holds internal_keys (InternalNode_eraseAt i) (λ _, True).
Proof.
  intros l Hl. unfold InternalNode_eraseAt. case_match; [done|].
  apply set_internal_keys; [by apply Forall_verase|done].
Qed.
Lemma internal_setKey_keys i k : K k → holds internal_keys (InternalNode_setKeyAt i k) (λ _, True).
Proof.
  intros Hk l Hl. unfold InternalNode_setKeyAt. case_match; [done|].
  apply internal_sync_keys. by apply Forall_insert.
Qed.
Lemma internal_assign_keys ks rs : Forall K ks → holds internal_keys (InternalNode_assignEntries ks rs) (λ _, True).
Proof. intros Hk l Hl. unfold InternalNode_assignEntries. do 2 (case_match; [done|]). by apply set_internal_keys. Qed.
End keys.

(** ** The tree *)
Section tree.
Context {S W : Type} `{PageSpace S} `{BTreeWalSink W}.
Notation BT := (BTree S W).

(** A report about keys of [K]. *)
Inductive report (K : Key → Prop) : M W unit → Prop :=
  | report_insert k r : K k → report K (onInsert k r)
  | report_erase k : K k → report K (onErase k)
  | report_allocate p : report K (onPageAllocate p)
  | report_deallocate p : report K (onPageDeallocate p)
  | report_split l r k : K k → report K (onNodeSplit l r k)
  | report_merge s r : report K (onNodeMerge s r).

Context (K : Key → Prop) (P : W → Prop) (HP : ∀ m w, report K m → P w → P (m w).2).

Record tree_logs (t : BT) : Prop := {
  tl_leaves : ∀ id l, bt_leaves t !! id = Some l → leaf_keys K l;
  tl_internals : ∀ id i, bt_internals t !! id = Some i → internal_keys K i;
  tl_sink : ∃ w, bt_wal t = Some w ∧ P w
}.
Notation keep x Q := (holds tree_logs x Q).

Lemma keep_plain (g : BT → BT) : (∀ t, bt_leaves (g t) = bt_leaves t) → (∀ t, bt_internals (g t) = bt_internals t) →
  (∀ t, bt_wal (g t) = bt_wal t) → keep (modify g) (λ _, True).
Proof. intros H1 H2 H3. apply holds_modify. intros t [A B C]. by split; rewrite ?H1, ?H2, ?H3. Qed.

Lemma keep_leaf id : keep (leaf id) (leaf_keys K).
Proof. intros t Ht. split; [done|]. cbn. case_match eqn:E; [|done]. intros a [= <-]. by eapply tl_leaves. Qed.
Lemma keep_internal id : keep (internal id) (internal_keys K).
Proof. intros t Ht. split; [done|]. cbn. case_match eqn:E; [|done]. intros a [= <-]. by eapply tl_internals. Qed.

Lemma keep_set_leaf id l t : leaf_keys K l → tree_logs t → tree_logs (set_leaves (<[id:=l]> (bt_leaves t)) t).
Proof. intros Hl [A B C]. split; cbn; [|done..]. intros id' l' [[<- <-]|[_ E]]%lookup_insert_Some; [done|by eapply A]. Qed.
Lemma keep_set_internal id l t : internal_keys K l → tree_logs t → tree_logs (set_internals (<[id:=l]> (bt_internals t)) t).
Proof. intros Hl [A B C]. split; cbn; [done| |done]. intros id' l' [[<- <-]|[_ E]]%lookup_insert_Some; [done|by eapply B]. Qed.

Lemma keep_on_leaf {A} id (x : M LeafNode A) Q : holds (leaf_keys K) x Q → keep (on_leaf id x) Q.
Proof.
  intros Hx t Ht. unfold on_leaf. destruct (bt_leaves t !! id) as [l|] eqn:E; [|done].
  destruct (Hx l (tl_leaves _ Ht _ _ E)) as [H1 H2]. destruct (x l) as [o l']. split; [|done]. by apply keep_set_leaf.
Qed.
Lemma keep_on_internal {A} id (x : M InternalNode A) Q : holds (internal_keys K) x Q → keep (on_internal id x) Q.
Proof.
  intros Hx t Ht. unfold on_internal. destruct (bt_internals t !! id) as [l|] eqn:E; [|done].
  destruct (Hx l (tl_internals _ Ht _ _ E)) as [H1 H2]. destruct (x l) as [o l']. split; [|done]. by apply keep_set_internal.
Qed.
Lemma keep_call m : report K m → keep (wal_call m) (λ _, True).
Proof.
  intros Hm t [A B (w & E & Hw)]. unfold wal_call. rewrite E.
  pose proof (HP m w Hm Hw) as Hw'. destruct (m w) as [o w'] eqn:Em. split; [|done].
  split; cbn; [done|done|]. exists w'. by split.
Qed.

(** The new node is empty. *)
Lemma keep_allocateLeaf lvl : keep (allocateLeaf lvl) (λ _, True).
Proof.
  intros t [A B C]. unfold allocateLeaf. destruct (ps_allocatePage (bt_space t)) as [p sp]. cbv zeta.
  case_match; [by split|]. case_match; [by split|].
  apply (holds_bind tree_logs _ _ (λ _, True)); [apply keep_call; constructor|by intros; apply holds_ret|].
  apply keep_set_leaf; [constructor|by split].
Qed.
Lemma keep_allocateInternal lvl : keep (allocateInternal lvl) (λ _, True).
Proof.
  intros t [A B C]. unfold allocateInternal. destruct (ps_allocatePage (bt_space t)) as [p sp]. cbv zeta.
  case_match; [by split|]. case_match; [by split|].
  apply (holds_bind tree_logs _ _ (λ _, True)); [apply keep_call; constructor|by intros; apply holds_ret|].
  apply keep_set_internal; [constructor|by split].
Qed.
Lemma keep_release id : keep (releaseNode id) (λ _, True).
Proof.
  unfold releaseNode. eapply holds_bind; [eapply holds_ignore, keep_call; constructor|intros _ _].
  apply holds_modify. intros t [A B C]. repeat case_match; split; cbn; try done.
  - intros i l [_ E]%lookup_delete_Some. by eapply A.
  - intros i l [_ E]%lookup_delete_Some. by eapply B.
Qed.

(** Any value of a pure call that returns no key. *)
Lemma keep_pure {A} (o : outcome A) : keep (lift o) (λ _, True).
Proof. by apply holds_lift. Qed.
Lemma keep_at ks i : Forall K ks → keep (lift (at_ ks i)) K.
Proof. intros. apply holds_lift. intros a. by apply Forall_at. Qed.
Lemma keep_at_pred ks i : Forall K ks → keep (lift (at_pred ks i)) K.
Proof. intros. apply holds_lift. intros a. by apply Forall_at_pred. Qed.
Lemma keep_index ks i : Forall K ks → keep (lift (index ks i)) K.
Proof. intros. apply holds_lift. intros a. by apply Forall_index. Qed.
Lemma keep_collect n ks : Forall K ks → keep (lift (collect n ks)) (Forall K).
Proof. intros. apply holds_lift. intros a. by apply Forall_collect. Qed.

Ltac known := solve [unfold leaf_keys, internal_keys in *; repeat first
  [ assumption | apply Forall_vinsert | apply Forall_verase | apply Forall_take | apply Forall_drop
  | apply Forall_app_2 | apply Forall_cons_2 | apply Forall_nil_2 ]].
Ltac step_known :=
  match goal with
  | |- holds _ (lift _) _ =>
      first [ apply keep_at; known | apply keep_at_pred; known | apply keep_index; known
            | apply keep_collect; known | apply keep_pure ]
  | |- holds _ (leaf _) _ => apply keep_leaf
  | |- holds _ (internal _) _ => apply keep_internal
  | |- holds _ (allocateLeaf _) _ => apply keep_allocateLeaf
  | |- holds _ (allocateInternal _) _ => apply keep_allocateInternal
  | |- holds _ (releaseNode _) _ => apply keep_release
  | |- holds _ (on_leaf _ _) _ =>
      apply keep_on_leaf; first [apply leaf_insert_keys|apply leaf_eraseAt_keys|apply leaf_assign_keys]; known
  | |- holds _ (on_internal _ _) _ =>
      apply keep_on_internal; first [apply internal_insert_keys|apply internal_eraseAt_keys
        |apply internal_setKey_keys|apply internal_assign_keys]; known
  | |- holds _ (wal_call _) _ => apply keep_call; constructor; known
  | |- holds _ (modify _) _ => apply keep_plain; intros; cbv zeta; repeat case_match; reflexivity
  | |- holds _ get _ => apply holds_get
  | |- holds _ (gets _) _ => by apply (holds_gets _ _ (λ _, True))
  | |- holds _ (mret _) _ => apply (holds_ret _ _ (λ _, True)); exact I
  | H : holds _ ?x _ |- holds _ ?x _ => exact H
  end.
Ltac hold := repeat first
  [ progress step_known
  | match goal with
    | |- holds _ (_ ≫= _) _ => eapply holds_bind; [hold|intros ? ?]
    | |- holds _ (if _ then _ else _) _ => apply holds_if
    | |- holds _ (let _ := _ in _) _ => cbv zeta
    | |- holds _ (match ?x with _ => _ end) _ => destruct x
    end ].

Lemma keep_insertIntoParent path k l r : K k → keep (insertIntoParent path k l r) (λ _, True).
Proof.
  revert k l r. induction path as [|frame rest IH]; intros k l r Hk; cbn [insertIntoParent]; [hold|].
  hold. unfold splitAndInsertInternal. hold. by apply IH.
Qed.
Lemma keep_splitLeaf id path k v : K k → keep (splitAndInsertLeaf id path k v) (λ _, True).
Proof. intros Hk. unfold splitAndInsertLeaf. hold. by apply keep_insertIntoParent. Qed.
Lemma keep_insert k v : K k → keep (BTree_insert k v) (λ _, True).
Proof. intros Hk. unfold BTree_insert. hold. by apply keep_splitLeaf. Qed.

Lemma keep_finish pid e sv rm fixUp : keep fixUp (λ _, True) → keep (finish_merge pid e sv rm fixUp) (λ _, True).
Proof. intros Hf. unfold finish_merge. hold. Qed.
Lemma keep_mergeLeaves pid li fixUp : keep fixUp (λ _, True) → keep (mergeLeaves pid li fixUp) (λ _, True).
Proof. intros Hf. unfold mergeLeaves. hold. by apply keep_finish. Qed.
Lemma keep_mergeInternals pid li fixUp : keep fixUp (λ _, True) → keep (mergeInternals pid li fixUp) (λ _, True).
Proof. intros Hf. unfold mergeInternals. hold. by apply keep_finish. Qed.
Lemma keep_borrowLeftLeaf pid ci a b : keep (borrowFromLeftLeaf pid ci a b) (λ _, True).
Proof. unfold borrowFromLeftLeaf. hold. Qed.
Lemma keep_borrowRightLeaf pid ci a b : keep (borrowFromRightLeaf pid ci a b) (λ _, True).
Proof. unfold borrowFromRightLeaf. hold. Qed.
Lemma keep_borrowLeftInternal pid ci a b : keep (borrowFromLeftInternal pid ci a b) (λ _, True).
Proof. unfold borrowFromLeftInternal. hold. Qed.
Lemma keep_borrowRightInternal pid ci a b : keep (borrowFromRightInternal pid ci a b) (λ _, True).
Proof. unfold borrowFromRightInternal. hold. Qed.

Lemma keep_fixInternal path id : keep (fixInternalUnderflow path id) (λ _, True).
Proof.
  revert id. induction path as [|frame rest IH]; intros id; cbn [fixInternalUnderflow]; [hold|].
  hold; unfold mergeInternalLeft, mergeInternalRight;
    [apply keep_borrowLeftInternal|apply keep_borrowRightInternal|apply keep_mergeInternals, IH..].
Qed.
Lemma keep_fixLeaf path id : keep (fixLeafUnderflow path id) (λ _, True).
Proof.
  destruct path as [|frame rest]; cbn [fixLeafUnderflow]; [hold|].
  hold; unfold mergeLeafLeft, mergeLeafRight;
    [apply keep_borrowLeftLeaf|apply keep_borrowRightLeaf|apply keep_mergeLeaves, keep_fixInternal..].
Qed.
Lemma keep_erase k : K k → keep (BTree_erase k) (λ _, True).
Proof. intros Hk. unfold BTree_erase. hold; apply keep_fixLeaf. Qed.

(** A successful insertion ends with its report. *)
Definition ends_in {A} (x y : M BT A) : Prop :=
  ∀ t, tree_logs t → is_ok (x t).1 = true → ∃ t0, tree_logs t0 ∧ x t = y t0.
Lemma ends_in_refl {A} (y : M BT A) : ends_in y y.
Proof. intros t Ht _. by exists t. Qed.
Lemma ends_in_bind {A B} (x : M BT A) (k : A → M BT B) Q y :
  keep x Q → (∀ a, Q a → ends_in (k a) y) → ends_in (x ≫= k) y.
Proof.
  intros Hx Hk t Ht. destruct (Hx t Ht) as [H1 H2]. unfold mbind, M_bind.
  destruct (x t) as [[a|e|w| |] t']; cbn in *; try done. by apply (Hk a (H2 a eq_refl)).
Qed.
Lemma ends_in_error {A} (o : outcome A) y : is_ok o = false → ends_in (lift o) y.
Proof. intros Ho t _ Hok. cbn in Hok. congruence. Qed.

Lemma insert_reports k v : K k → ends_in (BTree_insert k v) (wal_call (onInsert k v)).
Proof.
  intros Hk. unfold BTree_insert. case_match; [by apply ends_in_error|].
  eapply ends_in_bind; [hold|]. intros t Ht. case_match.
  - do 3 (eapply ends_in_bind; [hold|intros ? ?]). apply ends_in_refl.
  - eapply ends_in_bind; [hold|]. intros [[path id] i] _. eapply ends_in_bind; [hold|]. intros lf Hlf. case_match.
    + do 2 (eapply ends_in_bind; [hold|intros ? ?]). apply ends_in_refl.
    + eapply ends_in_bind; [by apply keep_splitLeaf|intros _ _].
      eapply ends_in_bind; [hold|intros _ _]. apply ends_in_refl.
Qed.
End tree.
