(* ===== verification/LogScan.v ===== *)
(** What the scans of a log return on any bytes: reading a record of a file of
    any content returns a record or an error, and restoring the writer's state
    always succeeds. *)
From stdpp Require Import base strings list gmap.
From Stdlib Require Import ZArith Lia.
From S2P Require Import Prelude Config Formats PageAlloc Buffers DbFile Keys Nodes PageFacts Tree Wal WalManager WalFacts WalLog WalReopen Recovery RecoveryFacts TreeLog.

(** A call that returns a value or an error. *)
Definition answered {A} (o : outcome A) : Prop := match o with Ok _ | Err _ => True | _ => False end.
(** [safe I x Q]: from a state of [I] the call answers, ends in a state of [I],
    and what it returns satisfies [Q]. *)
Definition safe {S A} (I : S → Prop) (x : M S A) (Q : A → Prop) : Prop :=
  holds I x Q ∧ ∀ s, I s → answered (x s).1.

Section safe.
Context {S : Type} (I : S → Prop).
Lemma safe_weaken {A} (x : M S A) (Q R : A → Prop) : safe I x Q → (∀ a, Q a → R a) → safe I x R.
Proof. intros [H1 H2] Hq. split; [by eapply holds_weaken|done]. Qed.
Lemma safe_ret {A} (a : A) (Q : A → Prop) : Q a → safe I (mret a) Q.
Proof. intros. split; [by apply holds_ret|done]. Qed.
Lemma safe_lift {A} (o : outcome A) (Q : A → Prop) : answered o → (∀ a, o = Ok a → Q a) → safe I (lift o) Q.
Proof. intros. split; [by apply holds_lift|done]. Qed.
Lemma safe_bind {A B} (x : M S A) (k : A → M S B) Q R :
  safe I x Q → (∀ a, Q a → safe I (k a) R) → safe I (x ≫= k) R.
Proof.
  intros [H1 H2] Hk. split; [eapply holds_bind; [exact H1|]; intros; by apply Hk|].
  intros s Hs. specialize (H2 s Hs). destruct (H1 s Hs) as [H3 H4]. unfold mbind, M_bind.
  destruct (x s) as [[a|e|w| |] s']; cbn in *; try done. by apply (Hk a (H4 a eq_refl)).
Qed.
Lemma safe_if {A} (b : bool) (x y : M S A) Q : safe I x Q → safe I y Q → safe I (if b then x else y) Q.
Proof. by destruct b. Qed.
End safe.

(** ** The reader of a record *)
Definition reader_ok (r : BinaryReader) : Prop :=
  bytes_ok (r_view r) ∧ 0 <= r_offset r <= zlen (r_view r) ∧ zlen (r_view r) < 2 ^ 40.

Lemma safe_readBytes n : 0 <= n < 2 ^ 40 → safe reader_ok (BinaryReader_readBytes n) (λ bs, bytes_ok bs ∧ zlen bs = n).
Proof.
  intros Hn. split.
  - intros r (Hb & Ho & Hl). unfold BinaryReader_readBytes. rewrite u64_small by lia.
    destruct (Z.eqb_spec n 0) as [->|]; [split; [done|]; intros a [= <-]; by split; [constructor|]|].
    destruct (Z.ltb_spec (zlen (r_view r)) (r_offset r + n)); [done|]. cbn.
    split; [split; [done|cbn; lia]|]. intros a [= <-]. unfold ztake, zdrop. split.
    + by apply Forall_take, Forall_drop.
    + unfold zlen in *. rewrite length_take, length_drop. lia.
  - intros r (Hb & Ho & Hl). unfold BinaryReader_readBytes. rewrite u64_small by lia. by repeat case_match.
Qed.
Lemma safe_read n : (n <= 8)%nat → safe reader_ok (BinaryReader_read n) (λ v, 0 <= v < 256 ^ Z.of_nat n).
Proof.
  intros Hn. unfold BinaryReader_read. eapply safe_bind; [apply safe_readBytes; lia|].
  intros bs [Hb Hl]. apply safe_ret. pose proof (le_value_range bs Hb) as Hr.
  unfold zlen in Hl. by replace (length bs) with n in Hr by lia.
Qed.
Lemma safe_record : safe reader_ok LogRecord_deserialize (λ _, True).
Proof.
  unfold LogRecord_deserialize, LSN_deserialize.
  do 5 (eapply safe_bind; [apply safe_read; lia|intros ? _]).
  eapply safe_bind; [apply safe_read; lia|intros len Hlen].
  do 3 (eapply safe_bind; [apply safe_read; lia|intros ? _]).
  eapply (safe_bind _ _ _ (λ _, True)); [|intros; by apply safe_ret].
  apply safe_if; [|by apply safe_ret]. eapply safe_weaken; [apply safe_readBytes|done].
  cbv beta in Hlen. change (256 ^ Z.of_nat 4) with (2 ^ 32) in Hlen. lia.
Qed.

(** ** The file *)

(** The log is open over bytes [c], whatever the state of the stream. *)
Record log_view (c : list Z) (f : LogFile) : Prop := {
  lv_attached : lf_attached f = true; lv_open : df_isOpen (lf_file f) = true;
  lv_bytes : df_bytes (lf_file f) = c; lv_size : df_size (lf_file f) = zlen c }.

Section view.
Context (c : list Z) (Hc : bytes_ok c) (Hl : zlen c < 2 ^ 62).
Notation view := (log_view c).

Lemma safe_guard {A} (x : M LogFile A) Q : safe view x Q → safe view (guard_open x) Q.
Proof.
  intros [H1 H2]. unfold guard_open. split; intros f Hf; (destruct (LogFile_isOpen f); [|done]); [by apply H1|by apply H2].
Qed.
Lemma safe_seek pos : safe view (on_file (DatabaseFile_seek pos)) (λ _, True).
Proof.
  unfold on_file, zoom, DatabaseFile_seek. split; intros f [A B C D].
  - rewrite B. cbn [negb]. split; [|done]. unfold stream_seekp, stream_seekg.
    unfold df_isOpen, df_bytes in *. repeat case_match; simplify_eq/=; split; cbn; unfold df_isOpen, df_bytes; cbn; congruence.
  - rewrite B. cbn [negb]. by case_match.
Qed.
Lemma safe_fileBytes n : 0 <= n → safe view (on_file (DatabaseFile_readBytes n)) (λ bs, bytes_ok bs ∧ zlen bs <= n).
Proof.
  intros Hn. unfold on_file, zoom, DatabaseFile_readBytes. split; intros f [A B C D]; rewrite B; cbn [negb].
  - destruct (stream_good (df_stream (lf_file f))).
    + split.
      * split; cbn; unfold df_isOpen, df_bytes in *; cbn; congruence.
      * rewrite C. intros a [= <-]. split; [by apply Forall_take, Forall_drop|].
        unfold ztake, zlen. rewrite length_take. lia.
    + destruct (s_eof (df_stream (lf_file f))); cbn [negb];
        (split; [split; cbn; unfold df_isOpen, df_bytes in *; cbn; congruence|]); [|done].
      intros a [= <-]. by split; [constructor|].
  - destruct (stream_good _); [done|]. by destruct (s_eof _).
Qed.
Lemma safe_logBytes off n : 0 <= n → safe view (LogFile_readBytes off n) (λ bs, bytes_ok bs ∧ zlen bs <= n).
Proof. intros Hn. apply safe_guard. eapply safe_bind; [apply safe_seek|intros _ _; by apply safe_fileBytes]. Qed.
Lemma safe_fileRecord off : safe view (LogFile_readRecord off) (λ '(_, n), 0 < n < 2 ^ 33).
Proof.
  unfold LogFile_readRecord. apply safe_guard. eapply safe_bind; [by apply safe_logBytes|]. intros got [Hb Hg].
  cbv zeta. set (size := le_value (got ++ zeros (4 - length got))).
  assert (Hs : 0 <= size < 2 ^ 32).
  { assert (Hok : bytes_ok (got ++ zeros (4 - length got))) by (apply Forall_app_2; [done|apply zeros_ok]).
    pose proof (le_value_range _ Hok) as Hr. fold size in Hr. unfold zeros, zlen in *.
    rewrite length_app, length_replicate in Hr. replace (length got + (4 - length got))%nat with 4%nat in Hr by lia.
    change (256 ^ Z.of_nat 4) with (2 ^ 32) in Hr. lia. }
  destruct (Z.eqb_spec size 0); [by apply safe_lift|].
  eapply safe_bind; [apply safe_logBytes; lia|]. intros body [Hbb Hbl].
  set (buf := le_bytes 4 size ++ body ++ zeros (Z.to_nat size - length body)).
  assert (Hr : reader_ok (BinaryReader_make buf)).
  { unfold reader_ok, BinaryReader_make. cbn [r_view r_offset]. subst buf. unfold zeros, zlen in *.
    rewrite !length_app, length_le_bytes, length_replicate. split; [|lia].
    apply Forall_app_2; [apply le_bytes_ok|]. apply Forall_app_2; [done|apply zeros_ok]. }
  assert (Hd : safe reader_ok (_ ← BinaryReader_skip 4; LogRecord_deserialize) (λ _, True)).
  { eapply (safe_bind _ _ _ (λ _, True)); [|intros; apply safe_record]. clear. split; intros r (H1 & H2 & H3);
      unfold BinaryReader_skip; (destruct (Z.ltb_spec (zlen (r_view r)) (u64 (r_offset r + 4))) as [|L]; [done|]); [|done].
    rewrite u64_small in * by lia. split; [|done]. split; [done|]. cbn. lia. }
  eapply (safe_bind _ _ _ (λ _, True)).
  - destruct Hd as [D1 D2]. specialize (D2 _ Hr). unfold local. split; intros f Hf; [split; [done|done]|].
    by destruct ((_ ← BinaryReader_skip 4; LogRecord_deserialize) (BinaryReader_make buf)) as [[] ?].
  - intros [r w] _. cbv zeta. apply safe_ret.
    pose proof (Z.mod_pos_bound (4 + size) kLogRecordAlignment ltac:(done)) as Hm.
    change kLogRecordAlignment with 8 in *. destruct (_ =? 0); cbn [negb]; lia.
Qed.

(** ** The scans *)
Notation mview := (λ m, log_view c (lm_file m)).

Lemma restore_loop_view fuel off l : ∀ m, mview m →
  0 <= off → zlen c - off < Z.of_nat fuel →
  ∃ v f, restore_loop fuel off l m = (Ok v, set_lmfile f m) ∧ log_view c f.
Proof.
  revert off l. induction fuel as [|fuel IH]; intros off l m Hm Ho Hf; cbn [restore_loop];
    assert (Hz : LogFile_fileSize (lm_file m) = zlen c)
      by (unfold LogFile_fileSize; rewrite (lv_attached _ _ Hm); apply Hm);
    rewrite Hz; (destruct (Z.ltb_spec off (zlen c)); [|exists l, (lm_file m); by destruct m]); [lia|].
  destruct (safe_fileRecord off) as [S1 S2]. destruct (S1 _ Hm) as [V1 V2]. specialize (S2 _ Hm).
  unfold on_logfile at 1, zoom. destruct (LogFile_readRecord off (lm_file m)) as [[[r n]|e|w| |] f]; cbn in *; try done.
  - specialize (V2 _ eq_refl). cbn in V2. rewrite u64_small by lia.
    destruct (IH (off + n) (lr_lsn r) (set_lmfile f m) V1) as (v & f' & E & Hv); [lia..|].
    exists v, f'. by rewrite E.
  - by exists l, f.
Qed.

Lemma restoreFromFile_view m : mview m →
  ∃ m', LogWriter_restoreFromFile m = (Ok tt, m') ∧ mview m' ∧ lm_initialized m' = lm_initialized m.
Proof.
  intros Hv. unfold LogWriter_restoreFromFile, mbind, M_bind, gets.
  destruct (restore_loop_view (log_fuel m) 16 LSN_invalid m Hv) as (v & f & E & Hf); [lia| |].
  { unfold log_fuel, LogFile_fileSize, df_fileSize. rewrite (lv_attached _ _ Hv), (lv_size _ _ Hv).
    pose proof (zlen_nonneg c). lia. }
  change WalFileHeader_kSize with 16. rewrite E. by case_match; eexists.
Qed.
End view.

(** ** A log that starts with a record of zeros *)

(** What a read answers with, when it answers with bytes. *)
Lemma view_readBytes c f off n got f' : log_view c f → 0 <= off < 2 ^ 62 →
  LogFile_readBytes off n f = (Ok got, f') → got = ztake n (zdrop off c).
Proof.
  intros [A B C D] Ho. unfold LogFile_readBytes, guard_open, LogFile_isOpen. rewrite A, B. cbn [andb].
  unfold mbind, M_bind, on_file, zoom, DatabaseFile_seek. rewrite B, sgn64_small by lia. cbn [negb].
  unfold stream_seekp, stream_seekg. destruct (s_fail (df_stream (lf_file f))) eqn:Ef; cbn; [done|].
  rewrite (proj2 (Z.ltb_ge off 0)) by lia. cbn.
  unfold DatabaseFile_readBytes, df_isOpen, df_bytes in *. cbn. rewrite B. cbn. rewrite C. by intros [= <- <-].
Qed.

(** The first frame of a log: a size, then that many zeros. *)
Definition starts_with_zeros (blob : list Z) : Prop :=
  ∃ n rest, 45 <= n < 2 ^ 32 ∧ blob = le_bytes 4 n ++ zeros (Z.to_nat n) ++ rest.

Lemma first_record blob f r k f' : starts_with_zeros blob → bytes_ok (wal_header ++ blob) →
  zlen (wal_header ++ blob) < 2 ^ 62 → log_view (wal_header ++ blob) f → LogFile_readRecord 16 f = (Ok (r, k), f') → r = zero_record.
Proof.
  intros (n & rest & Hn & ->) Hb Hlen Hv. set (c := wal_header ++ le_bytes 4 n ++ zeros (Z.to_nat n) ++ rest) in *.
  unfold LogFile_readRecord, guard_open at 1. case_match; [|done].
  unfold mbind at 1, M_bind at 1. pose proof (proj1 (proj1 (safe_logBytes c Hb Hlen 16 4 ltac:(lia)) f Hv)) as Hv1.
  destruct (LogFile_readBytes 16 4 f) as [[got|e|w| |] f1] eqn:E1; try done. cbn [snd] in Hv1.
  apply (view_readBytes c) in E1; [|done|lia]. cbv zeta.
  change (ztake 4 (zdrop 16 c)) with (take 4 (le_bytes 4 n ++ zeros (Z.to_nat n) ++ rest)) in E1.
  rewrite take_app_ge, length_le_bytes, take_0, app_nil_r in E1 by (rewrite length_le_bytes; lia). subst got.
  rewrite length_le_bytes. cbn [Nat.sub zeros replicate]. rewrite app_nil_r, le_value_bytes, Z.mod_small by (change (256 ^ Z.of_nat 4) with (2 ^ 32); lia).
  rewrite (proj2 (Z.eqb_neq n 0)) by lia. rewrite u64_small by lia.
  unfold mbind at 1, M_bind at 1. destruct (LogFile_readBytes (16 + 4) n f1) as [[body|e|w| |] f2] eqn:E2; try done.
  apply (view_readBytes c) in E2; [|done|lia].
  replace (zdrop (16 + 4) c) with (zeros (Z.to_nat n) ++ rest) in E2
    by (subst c; unfold zdrop; change (Z.to_nat (16 + 4)) with (16 + length (le_bytes 4 n))%nat;
        change 16%nat with (length wal_header); by rewrite app_assoc, <-length_app, drop_app_length).
  assert (body = zeros (Z.to_nat n)) as ->.
  { rewrite E2. unfold ztake, zeros. rewrite take_app_le, take_ge by (rewrite length_replicate; lia). done. }
  replace (Z.to_nat n - length (zeros (Z.to_nat n)))%nat with 0%nat by (unfold zeros; rewrite length_replicate; lia).
  change (zeros 0) with (@nil Z). rewrite app_nil_r.
  destruct (deserialize_zeros n) as [rd Hrd]; [lia|].
  unfold mbind at 1, M_bind at 1, local, mbind at 1, M_bind at 1. rewrite skip_size, Hrd. cbn. intros [= <- _ _]. done.
Qed.

Section zero_log.
Context (blob : list Z) (Hz : starts_with_zeros blob) (Hb : bytes_ok (wal_header ++ blob))
  (Hl : zlen (wal_header ++ blob) < 2 ^ 62).
Definition zero_log (m : LogManager) : Prop :=
  lm_initialized m = true ∧ log_view (wal_header ++ blob) (lm_file m).

Lemma zero_log_size m : zero_log m → 16 < LogFile_fileSize (lm_file m).
Proof.
  intros [_ Hv]. unfold LogFile_fileSize. rewrite (lv_attached _ _ Hv). unfold df_fileSize. rewrite (lv_size _ _ Hv), zlen_app.
  destruct Hz as (n & rest & Hn & ->). rewrite zlen_app, zlen_le_bytes. change (zlen wal_header) with 16.
  pose proof (zlen_nonneg (zeros (Z.to_nat n) ++ rest)). lia.
Qed.

(** The first record is refused, and the file stays as it is. *)
Lemma zero_log_first m : zero_log m → ∃ f, log_view (wal_header ++ blob) f ∧
  ((∃ k, on_logfile (LogFile_readRecord 16) m = (Ok (zero_record, k), set_lmfile f m)) ∨
   (∃ e, on_logfile (LogFile_readRecord 16) m = (Err e, set_lmfile f m))).
Proof.
  intros [_ Hv]. destruct (safe_fileRecord _ Hb Hl 16) as [S1 S2]. destruct (S1 _ Hv) as [V1 _]. specialize (S2 _ Hv).
  unfold on_logfile, zoom.
  destruct (LogFile_readRecord 16 (lm_file m)) as [[[r k]|e|w| |] f] eqn:E; try done; exists f; (split; [exact V1|]).
  - left. exists k. by rewrite (first_record _ _ _ _ _ Hz Hb Hl Hv E).
  - right. by exists e.
Qed.

Lemma zero_readNext m : zero_log m → lm_reader m = LogReader_make →
  ∃ e m', LogManager_readNext m = (Err e, m') ∧ zero_log m'.
Proof.
  intros Hm Hr. pose proof (zero_log_size m Hm). destruct (zero_log_first m Hm) as (f & Hv & Hc).
  unfold LogManager_readNext, when_initialized. rewrite (proj1 Hm). unfold LogReader_readNext. rewrite Hr.
  cbn [rd_endOfLog LogReader_make rd_offset]. change WalFileHeader_kSize with 16 in *.
  rewrite (proj2 (Z.leb_gt _ _)) by lia. destruct Hm as [Hi _].
  destruct Hc as [[k ->]|[e ->]]; eexists _, _; (split; [reflexivity|by split]).
Qed.

Lemma zero_validate m : zero_log m → ∃ e m', LogManager_validate m = (Err e, m') ∧ zero_log m'.
Proof.
  intros Hm. pose proof (proj1 Hm) as Hi. unfold LogManager_validate, when_initialized. rewrite Hi.
  assert (Hs : safe (log_view (wal_header ++ blob)) LogFile_validate (λ _, True)).
  { apply safe_guard. eapply (safe_bind _ _ _ (λ _, True)).
    - unfold readHeader. apply safe_guard.
      match goal with |- safe _ (λ f, if _ then _ else ?x f) _ =>
        assert (Hx : safe (log_view (wal_header ++ blob)) x (λ _, True)) end.
      { eapply safe_bind; [by apply safe_seek|intros _ _].
        eapply safe_bind; [by apply (safe_fileBytes _ Hb)|intros; by apply safe_ret]. }
      destruct Hx as [X1 X2]. split; intros f Hf; (case_match; [done|]); [by apply X1|by apply X2].
    - intros h _. repeat case_match; by apply safe_lift || by apply safe_ret. }
  destruct Hs as [S1 S2]. destruct (S1 _ (proj2 Hm)) as [V1 _]. specialize (S2 _ (proj2 Hm)).
  unfold mbind at 1, M_bind at 1, on_logfile at 1, zoom.
  destruct (LogFile_validate (lm_file m)) as [[[]|e|w| |] f]; try done; cbn [snd] in V1.
  2: { eexists _, _. split; [reflexivity|by split]. }
  assert (Hm' : zero_log (set_lmfile f m)) by by split. pose proof (zero_log_size _ Hm').
  unfold mbind at 1, M_bind at 1, gets, log_fuel. cbn [log_validate_loop]. change WalFileHeader_kSize with 16.
  rewrite (proj2 (Z.ltb_lt _ _)) by lia. destruct (zero_log_first _ Hm') as (f1 & Hv1 & Hc). destruct Hm' as [Hi' _].
  unfold mbind at 1, M_bind at 1. destruct Hc as [[k ->]|[e ->]]; eexists _, _; (split; [reflexivity|by split]).
Qed.

Lemma zero_rewind m : zero_log m → ∃ m', rewindReader m = (Ok tt, m') ∧ zero_log m' ∧ lm_reader m' = LogReader_make.
Proof. intros [Hi Hv]. unfold rewindReader, when_initialized. rewrite Hi. eexists. split; [reflexivity|]. by split. Qed.

Lemma zero_restore m : zero_log m → ∃ m', restoreWriterState m = (Ok tt, m') ∧ zero_log m'.
Proof.
  intros [Hi Hv]. unfold restoreWriterState, when_initialized. rewrite Hi.
  destruct (restoreFromFile_view _ Hb Hl m Hv) as (m' & E & Hv' & Hi'). exists m'. split; [done|]. split; congruence.
Qed.

Section recover.
Context {S W : Type} `{PageSpace S} `{BTreeWalSink W}.

(** No checkpoint is found, nothing is replayed, and the final validation fails. *)
Lemma zero_recover ord m (t : BTree S W) r : zero_log m → ∃ e s, recover ord (m, t, r) = (Err e, s).
Proof.
  intros Hm. destruct (zero_rewind m Hm) as (m1 & E1 & H1 & R1). destruct (zero_readNext m1 H1 R1) as (e2 & m2 & E2 & H2).
  destruct (zero_rewind m2 H2) as (m3 & E3 & H3 & R3). destruct (zero_readNext m3 H3 R3) as (e4 & m4 & E4 & H4).
  destruct (zero_restore m4 H4) as (m5 & E5 & H5). destruct (zero_rewind m5 H5) as (m6 & E6 & H6 & _).
  destruct (zero_validate m6 H6) as (e & m7 & E7 & _).
  assert (Hf : findLastCheckpoint (m, (CheckpointPayload_default, LSN_invalid)) =
    (invalidArgument "CheckpointManager: no checkpoint found", (m2, (CheckpointPayload_default, LSN_invalid)))).
  { unfold findLastCheckpoint, on_fst, zoom, mbind, M_bind, modify, gets. cbn [fst snd]. rewrite E1. cbn [fst snd].
    unfold log_fuel. cbn [find_loop]. by rewrite E2. }
  assert (Hr : ∀ t' res, ∃ res', replay LSN_invalid (m2, t', res) = (Ok tt, (m4, t', res'))).
  { intros t' res. unfold replay, on_wal, zoom, upd_result, mbind, M_bind, modify, gets. cbn [fst snd]. rewrite E3. cbn [fst snd].
    unfold log_fuel. cbn [replay_loop]. unfold on_wal, zoom. cbn [fst snd]. rewrite E4. eauto. }
  unfold recover, mbind at 1, M_bind at 1, upd_result at 1, modify. cbn [fst snd].
  unfold mbind at 1, M_bind at 1, restore_checkpoint. rewrite Hf. unfold invalidArgument. cbv beta iota.
  unfold mbind at 1, M_bind at 1. destruct (Hr (BTree_clear ord t).2 RecoveryResult_default) as (res & ->).
  unfold mbind, M_bind, on_wal, zoom. cbn [fst snd]. rewrite E5. cbn [fst snd]. rewrite E6. cbn [fst snd].
  unfold RecoveryValidator_validate, mbind, M_bind, on_wal, zoom. cbn [fst snd]. rewrite E7. eauto.
Qed.
End recover.
End zero_log.
