(* ===== verification/Database.v ===== *)
(** The database facade (src/src/core/Database.cpp, include/quartz/core), the
    diagnostics (src/src/diagnostics) and the maintenance tools
    (src/src/maintenance) that run over it.

    The facade owns a database file, a tree, a log manager and the adapter that
    lets the tree report to the log.  The two files are paths of one file system:
    [db_fs] is passed to whichever of them runs and taken back.  The adapter holds
    the manager; while the tree's sink is attached ([db_sink]) the tree runs with
    the adapter and hands it back.  Recovery and checkpoints take the manager and
    the tree side by side; the sink is detached while the database is opened, and
    making a checkpoint does not report anything to it. *)
From stdpp Require Import base strings list gmap pretty.
From Stdlib Require Import ZArith Lia SpecFloat.
From S2P Require Import Prelude Config Formats Doubles PageAlloc FreeSpace SpaceMgr Buffers DbFile Pages Keys Nodes Tree TreeSnapshot Wal WalManager WalSink Recovery.

(** ** Options, statistics and state *)
Record DatabaseOptions : Set := mkDatabaseOptions {
  do_dataPath : string; do_createIfMissing : bool; do_enableWal : bool; do_recoverOnOpen : bool;
  do_truncateWalOnCheckpoint : bool; do_walBufferCapacity : Z; do_btreeConfig : BTreeNodeConfig }.
Definition DatabaseOptions_default : DatabaseOptions :=
  mkDatabaseOptions EmptyString true true true false (64 * 1024) BTreeNodeConfig_default.

Notation DBTree := (BTree SpaceManager BTreeWalAdapter).

(** [db_counts] is open, checkpoint and recovery count. *)
Record Database : Type := mkDatabase {
  db_options : DatabaseOptions; db_open : bool; db_fs : FileSystem; db_file : DatabaseFile;
  db_tree : DBTree; db_adapter : BTreeWalAdapter; db_sink : bool; db_lastRecovery : RecoveryResult;
  db_counts : Z * Z * Z }.

(** [clock] is the sequence of readings of the steady clock. *)
Definition Database_make (fs : FileSystem) (clock : nat → Z) (options : DatabaseOptions) : Database :=
  mkDatabase options false fs (DatabaseFile_make fs)
    (BTree_create (SpaceManager_make FirstFitPolicy) (do_btreeConfig options))
    (mkWalAdapter (LogManager_make fs) clock 0) false RecoveryResult_default (0, 0, 0).

Definition set_dbopen (b : bool) (d : Database) : Database :=
  mkDatabase (db_options d) b (db_fs d) (db_file d) (db_tree d) (db_adapter d) (db_sink d)
    (db_lastRecovery d) (db_counts d).
Definition set_sink (b : bool) (d : Database) : Database :=
  mkDatabase (db_options d) (db_open d) (db_fs d) (db_file d) (db_tree d) (db_adapter d) b
    (db_lastRecovery d) (db_counts d).
Definition set_dataPath (p : string) (d : Database) : Database :=
  let o := db_options d in
  mkDatabase (mkDatabaseOptions p (do_createIfMissing o) (do_enableWal o) (do_recoverOnOpen o)
      (do_truncateWalOnCheckpoint o) (do_walBufferCapacity o) (do_btreeConfig o))
    (db_open d) (db_fs d) (db_file d) (db_tree d) (db_adapter d) (db_sink d) (db_lastRecovery d) (db_counts d).
Definition set_counts (f : Z * Z * Z → Z * Z * Z) (d : Database) : Database :=
  mkDatabase (db_options d) (db_open d) (db_fs d) (db_file d) (db_tree d) (db_adapter d) (db_sink d)
    (db_lastRecovery d) (f (db_counts d)).

(** ** The parts of the facade *)
Definition file_in (fs : FileSystem) (d : DatabaseFile) : DatabaseFile :=
  mkDatabaseFile fs (df_path d) (df_stream d) (df_size d).
Definition manager_in (fs : FileSystem) (m : LogManager) : LogManager :=
  let f := lm_file m in
  set_lmfile (mkLogFile (file_in fs (lf_file f)) (lf_attached f) (lf_ownsFile f) (lf_appendOffset f)) m.
Definition manager_fs (m : LogManager) : FileSystem := df_fs (lf_file (lm_file m)).

Definition on_dbfile {A} (x : M DatabaseFile A) : M Database A := λ d,
  let '(o, f) := x (file_in (db_fs d) (db_file d)) in
  (o, mkDatabase (db_options d) (db_open d) (df_fs f) f (db_tree d) (db_adapter d) (db_sink d)
        (db_lastRecovery d) (db_counts d)).
Definition on_dbwal {A} (x : M LogManager A) : M Database A := λ d,
  let '(o, m) := x (manager_in (db_fs d) (wa_manager (db_adapter d))) in
  (o, mkDatabase (db_options d) (db_open d) (manager_fs m) (db_file d) (db_tree d)
        (set_manager m (db_adapter d)) (db_sink d) (db_lastRecovery d) (db_counts d)).
Definition on_dbtree {A} (x : M DBTree A) : M Database A := λ d,
  if db_sink d then
    let a := set_manager (manager_in (db_fs d) (wa_manager (db_adapter d))) (db_adapter d) in
    let '(o, t) := x (set_wal (Some a) (db_tree d)) in
    let a := default a (bt_wal t) in
    (o, mkDatabase (db_options d) (db_open d) (manager_fs (wa_manager a)) (db_file d) (set_wal None t) a
          (db_sink d) (db_lastRecovery d) (db_counts d))
  else
    let '(o, t) := x (db_tree d) in
    (o, mkDatabase (db_options d) (db_open d) (db_fs d) (db_file d) t (db_adapter d) (db_sink d)
          (db_lastRecovery d) (db_counts d)).
Definition on_dbrecovery {A} (x : M (LogManager * DBTree * RecoveryResult) A) : M Database A := λ d,
  let '(o, (m, t, r)) := x (manager_in (db_fs d) (wa_manager (db_adapter d)), db_tree d, db_lastRecovery d) in
  (o, mkDatabase (db_options d) (db_open d) (manager_fs m) (db_file d) t (set_manager m (db_adapter d))
        (db_sink d) r (db_counts d)).

(** [if (!st.ok()) { cleanup; return st; }]. *)
Definition on_error {S A} (m : M S A) (cleanup : M S unit) : M S A := λ s,
  match m s with
  | (Err e, s) => (Err e, (cleanup s).2)
  | r => r
  end.
Definition when {S} (b : bool) (m : M S unit) : M S unit := if b then m else mret tt.

(** ** Opening and closing *)
Definition walPathFor (dataPath : string) : string := dataPath +:+ ".wal".

(** The status of the flush is overwritten by success. *)
Definition initializeStorage (path : string) (create : bool) : M Database unit :=
  on_dbfile (DatabaseFile_open path create);;
  size ← gets (λ d, df_fileSize (db_file d));
  when (create || (size <? kPageSize)) (
    on_dbfile (DatabaseFile_writePage (bp_page (HeaderPage_create kVersionMajor kVersionMinor 0)));;
    ignore (on_dbfile DatabaseFile_flush)).
Definition initializeWal (walPath : string) (create : bool) : M Database unit :=
  on_dbwal (LogManager_initialize walPath create).
Definition runRecovery (ord : list Z → list Z) : M Database unit :=
  modify (set_counts (λ '(o, c, r), (o, c, u64 (r + 1))));;
  on_dbrecovery (recover ord).

Definition Database_open (ord : list Z → list Z) (path : string) (createIfMissing : bool) : M Database unit := λ d,
  if db_open d then (invalidArgument "Database: already open", d)
  else
    let wal := do_enableWal (db_options d) in
    (modify (set_dataPath path);;
     initializeStorage path createIfMissing;;
     when wal (on_error (initializeWal (walPathFor path) createIfMissing)
                 (ignore (on_dbfile DatabaseFile_close)));;
     when (wal && do_recoverOnOpen (db_options d))
       (on_error (runRecovery ord)
          (ignore (on_dbwal LogManager_shutdown);; ignore (on_dbfile DatabaseFile_close)));;
     when wal (modify (set_sink true));;
     modify (set_dbopen true);;
     modify (set_counts (λ '(o, c, r), (u64 (o + 1), c, r)))) d.

(** [open_] is cleared whatever closing the file returned; a failing log leaves
    the database open with its sink detached. *)
Definition close_file : M Database unit := λ d,
  let '(st, d) := on_dbfile DatabaseFile_close d in (st, set_dbopen false d).
Definition Database_close : M Database unit := λ d,
  if negb (db_open d) then (Ok tt, d)
  else
    (when (do_enableWal (db_options d)) (
       modify (set_sink false);;
       on_dbwal LogManager_flush;;
       on_dbwal LogManager_shutdown);;
     close_file) d.

(** The destructor ignores the status of [close]. *)
Definition Database_destroy (d : Database) : FileSystem := db_fs (Database_close d).2.

(** ** Operations *)
Definition guard_db {A} (m : M Database A) : M Database A := λ d,
  if negb (db_open d) then (invalidArgument "Database: not open", d) else m d.
Definition flush_wal : M Database unit := λ d,
  if do_enableWal (db_options d) then on_dbwal LogManager_flush d else (Ok tt, d).

Definition Database_insert (key : Key) (value : PageReference) : M Database unit :=
  guard_db (on_dbtree (BTree_insert key value);; flush_wal).
Definition Database_erase (key : Key) : M Database unit :=
  guard_db (on_dbtree (BTree_erase key);; flush_wal).
Definition Database_find (key : Key) (d : Database) : outcome PageReference :=
  if negb (db_open d) then invalidArgument "Database: not open" else BTree_find key (db_tree d).
Definition Database_contains (key : Key) (d : Database) : bool :=
  if negb (db_open d) then false else BTree_contains key (db_tree d).

(** The record of the checkpoint is stamped with the next reading of the clock. *)
Definition tick : M Database Z := λ d,
  let a := db_adapter d in
  (Ok (wa_clock a (wa_ticks a)),
   mkDatabase (db_options d) (db_open d) (db_fs d) (db_file d) (db_tree d)
     (mkWalAdapter (wa_manager a) (wa_clock a) (S (wa_ticks a))) (db_sink d) (db_lastRecovery d) (db_counts d)).
Definition checkpoint_parts (now : Z) (ord : list Z → list Z) (doTruncate : bool) :
    M (LogManager * DBTree * RecoveryResult) LSN := λ '(m, t, r),
  let '(o, (m, t)) := RecoveryManager_checkpoint now ord doTruncate (m, t) in (o, (m, t, r)).
Definition Database_checkpoint (ord : list Z → list Z) (truncateWal : bool) : M Database unit := λ d,
  if negb (db_open d) then (invalidArgument "Database: not open", d)
  else if negb (do_enableWal (db_options d)) then (invalidArgument "Database: WAL not enabled", d)
  else
    let doTruncate := truncateWal || do_truncateWalOnCheckpoint (db_options d) in
    (now ← tick;
     on_dbrecovery (checkpoint_parts now ord doTruncate);;
     modify (set_counts (λ '(o, c, r), (o, u64 (c + 1), r)))) d.

(** The aggregate of all counters; the log's figures stay at their defaults
    without a log. *)
Record DatabaseStatistics : Set := mkDatabaseStatistics {
  ds_openCount : Z; ds_checkpointCount : Z; ds_recoveryCount : Z;
  ds_btree : TreeStatistics; ds_space : SpaceStats; ds_wal : LogStatistics }.
Definition Database_statistics (ord : list Z → list Z) (d : Database) : DatabaseStatistics :=
  let '(o, c, r) := db_counts d in
  mkDatabaseStatistics o c r (BTree_statistics ord (db_tree d)) (stats_ (bt_space (db_tree d)))
    (if do_enableWal (db_options d) then LogManager_statistics (wa_manager (db_adapter d)) else LogStatistics_default).

(** ** Diagnostics *)
Inductive FindingSeverity : Set := SevInfo | SevWarning | SevError.
Record DiagnosticFinding : Set := mkFinding {
  fd_severity : FindingSeverity; fd_component : string; fd_message : string }.
Definition DiagnosticReport : Set := list DiagnosticFinding.
Definition report_passed (r : DiagnosticReport) : bool :=
  forallb (λ f, match fd_severity f with SevError => false | _ => true end) r.
Definition report_add (s : FindingSeverity) (component message : string) (r : DiagnosticReport) : DiagnosticReport :=
  r ++ [mkFinding s component message].

(** ConsistencyChecker::check, which [Database::validate] calls. *)
Definition ConsistencyChecker_check (ord : list Z → list Z) : M Database unit := λ d,
  if negb (db_open d) then (invalidArgument "ConsistencyChecker: database not open", d)
  else
    (lift (BTree_validate (db_tree d));;
     when (do_enableWal (db_options d)) (
       on_dbwal LogManager_validate;;
       on_dbwal (verifyLogicalConsistency ord (db_tree d)))) d.
Definition Database_validate (ord : list Z → list Z) : M Database unit := guard_db (ConsistencyChecker_check ord).

(** [a > b] on doubles. *)
Definition d_gtb (a b : double) : bool := match SFcompare a b with Some Gt => true | _ => false end.
Definition report_status (component good : string) (o : outcome unit) : DiagnosticReport → DiagnosticReport :=
  match o with
  | Err e => report_add SevError component (Status_toString (Some e))
  | _ => report_add SevInfo component good
  end.
(** [show] is [std::to_string] of a double. *)
Definition ConsistencyChecker_analyze (show : double → string) : M Database DiagnosticReport := λ d,
  if negb (db_open d) then (Ok (report_add SevError "database" "not open" []), d)
  else
    let report := report_status "btree" "structure valid" (BTree_validate (db_tree d)) [] in
    let space := bt_space (db_tree d) in
    let frag := FragmentationAnalyzer_analyze (fsm_ (extentAllocator_ space))
                  (u32 (allocatedPageCount space + freePageCount space)) in
    let report := if d_gtb (fr_fragmentationPercent frag) (d_of_Z 50)
      then report_add SevWarning "space"
             ("high fragmentation: " +:+ show (fr_fragmentationPercent frag) +:+ "%") report
      else report in
    if do_enableWal (db_options d) then
      let '(st, d) := on_dbwal LogManager_validate d in
      (Ok (report_status "wal" "log valid" st report), d)
    else (Ok report, d).

(** IntegrityScanner::scan: the report is kept beside the file. *)
Definition IntegrityScanner_scan : M (DatabaseFile * DiagnosticReport) unit := λ '(f, _),
  if negb (df_isOpen f)
  then (invalidArgument "IntegrityScanner: file not open", (f, report_add SevError "file" "not open" []))
  else if df_fileSize f <? kPageSize
  then (corruption "IntegrityScanner: file too small", (f, report_add SevError "file" "file too small" []))
  else
    match DatabaseFile_seek 0 f with
    | (Ok _, f) =>
        match DatabaseFile_readPage (f, Page_make 0 (PageType_value PT_Header)) with
        | (Ok _, (f, page)) =>
            match HeaderPage_validate page with
            | Ok _ =>
                (Ok tt, (f, report_add SevInfo "file"
                   ("pages=" +:+ pretty (df_fileSize f / kPageSize) +:+ ", size=" +:+ pretty (df_fileSize f))
                   (report_add SevInfo "header" "valid" [])))
            | Err e => (Err e, (f, report_add SevError "header" (Status_toString (Some e)) []))
            | Throw w => (Throw w, (f, []))
            | UB => (UB, (f, []))
            | Fuel => (Fuel, (f, []))
            end
        | (Err e, (f, _)) => (Err e, (f, report_add SevError "header" (Status_toString (Some e)) []))
        | (Throw w, (f, _)) => (Throw w, (f, []))
        | (UB, (f, _)) => (UB, (f, []))
        | (Fuel, (f, _)) => (Fuel, (f, []))
        end
    | (Err e, f) => (Err e, (f, []))
    | (Throw w, f) => (Throw w, (f, []))
    | (UB, f) => (UB, (f, []))
    | (Fuel, f) => (Fuel, (f, []))
    end.

(** ** Maintenance *)

(** BulkLoader::loadSorted: the state is the tree and [keysLoaded_]. *)
Section bulk.
Context {S W : Type} `{PageSpace S} `{BTreeWalSink W}.
Fixpoint load_loop (keys : list Key) (values : list PageReference) : M (BTree S W * Z) unit :=
  match keys, values with
  | [], _ => mret tt
  | k :: keys, v :: values =>
      zoom fst (λ t s, (t, s.2)) (BTree_insert k v);;
      modify (λ s, (s.1, u64 (s.2 + 1)));;
      load_loop keys values
  | _ :: _, [] => lift UB
  end.
Definition loadSorted (keys : list Key) (values : list PageReference) : M (BTree S W * Z) unit := λ s,
  if negb (length keys =? length values)%nat
  then (invalidArgument "BulkLoader: key/value count mismatch", s)
  else
    (modify (λ s, (s.1, 0));;
     load_loop keys values;;
     t ← gets fst;
     lift (BTree_validate t)) s.
End bulk.

(** Vacuum::run: the state is the space manager and [pagesReclaimed_]. *)
Definition Vacuum_run : M (SpaceManager * Z) unit := λ '(sm, _),
  let total := u32 (allocatedPageCount sm + freePageCount sm) in
  let fsm := fsm_ (extentAllocator_ sm) in
  let sm := mkSpaceManager (pageAllocator_ sm) (extentAllocator_ sm) (SpaceStats_update fsm total (stats_ sm)) in
  let report := FragmentationAnalyzer_analyze fsm total in
  if match SFcompare (fr_fragmentationPercent report) (d_of_Z 1) with Some Lt => true | _ => false end
  then (Ok tt, (sm, 0))
  else (Ok tt, (sm, u32 (fr_largestFreeExtent report))).
