(* ===== verification/DatabaseFacts.v ===== *)
(** The database facade: what opening, closing and the operations do, and what
    is left of a session when the database is opened again. *)
From stdpp Require Import base strings list gmap.
From Stdlib Require Import ZArith Lia.
From S2P Require Import Prelude Config Formats PageAlloc SpaceMgr Buffers DbFile Pages PageFacts Keys Nodes Tree TreeSnapshot Wal WalManager WalFacts WalLog WalReopen WalSink Recovery RecoveryFacts TreeLog LogScan Database.

(** ** Files beside the one a call works on *)

(** The file systems agree on everything but the file [p]. *)
Definition only_file (p : string) (fs fs' : FileSystem) : Prop :=
  (∀ q, q ≠ p → fs_files fs' !! q = fs_files fs !! q) ∧ fs_denied fs' = fs_denied fs.
#[global] Instance only_file_preorder p : PreOrder (only_file p).
Proof.
  split; [by split|]. intros a b c [H1 H2] [H3 H4]. split; [|congruence].
  intros q Hq. by rewrite (H3 q Hq), (H1 q Hq).
Qed.

(** The stream is open over [p] and nothing else has changed since [fs]. *)
Definition works_on (p : string) (fs : FileSystem) (d : DatabaseFile) : Prop :=
  s_file (df_stream d) = Some p ∧ only_file p fs (df_fs d).

Lemma works_seek p fs pos : holds (works_on p fs) (DatabaseFile_seek pos) (λ _, True).
Proof.
  intros d [H1 H2]. unfold DatabaseFile_seek. case_match; [done|]. split; [|done].
  split; [|done]. cbn. unfold stream_seekp, stream_seekg. by repeat case_match.
Qed.
Lemma works_write p fs bs : holds (works_on p fs) (DatabaseFile_writeBytes bs) (λ _, True).
Proof.
  intros d [H1 H2]. unfold DatabaseFile_writeBytes. rewrite H1. cbv zeta. case_match; [|done].
  split; [|done]. assert (Hs : only_file p (df_fs d) (mkFileSystem (<[p:=file_write (s_pos (df_stream d)) bs (df_bytes d)]>
    (fs_files (df_fs d))) (fs_denied (df_fs d)) (fs_what (df_fs d)))).
  { split; [|done]. intros q Hq. cbn. by rewrite lookup_insert_ne. }
  case_match; split; cbn; try done; by etransitivity.
Qed.
Lemma works_flush p fs : holds (works_on p fs) DatabaseFile_flush (λ _, True).
Proof. intros d Hd. unfold DatabaseFile_flush. by repeat case_match. Qed.
Lemma works_writePage p fs pg : holds (works_on p fs) (DatabaseFile_writePage pg) (λ _, True).
Proof.
  unfold DatabaseFile_writePage. apply holds_if; [by apply holds_lift|].
  eapply holds_bind; [apply works_seek|intros _ _].
  eapply holds_bind; [apply works_write|intros _ _; apply works_write].
Qed.

(** ** The storage file *)

Lemma storage_open fs p create : p ∉ fs_denied fs → create = true ∨ is_Some (fs_files fs !! p) →
  ∃ d c, DatabaseFile_open p create (DatabaseFile_make fs) = (Ok tt, d) ∧ opened d p c ∧ works_on p fs d ∧
    default [] (fs_files fs !! p) = c.
Proof.
  intros Hd Hc. unfold DatabaseFile_open, DatabaseFile_make. cbn. destruct (fs_files fs !! p) as [c|] eqn:E.
  - rewrite bool_decide_eq_true_2, andb_false_r by eauto. unfold stream_open. cbn.
    rewrite bool_decide_eq_false_2, E by done. cbn.
    eexists _, c. split; [reflexivity|]. split; [|by split].
    split; cbn; try done. unfold df_bytes. cbn. by rewrite E.
  - destruct Hc as [-> | [? [=]]]. rewrite bool_decide_eq_false_2 by (by intros [? ?]). cbn.
    unfold stream_create. cbn. rewrite bool_decide_eq_false_2 by done. cbn.
    eexists _, []. split; [reflexivity|]. split; [split; cbn; try done; apply lookup_insert_eq|].
    split; [|done]. split; [done|]. split; [|done]. intros q Hq. cbn. by rewrite lookup_insert_ne.
Qed.

(** The first page of a new file. *)
Definition header_page : Page := bp_page (HeaderPage_create kVersionMajor kVersionMinor 0).
Lemma header_page_ok : Page_ok header_page ∧ Page_id header_page = 0.
Proof. split; [|reflexivity]. apply page_fresh_ok. right. right. by eexists _, _, _. Qed.

Definition with_file (f : DatabaseFile) (d : Database) : Database :=
  mkDatabase (db_options d) (db_open d) (df_fs f) f (db_tree d) (db_adapter d) (db_sink d)
    (db_lastRecovery d) (db_counts d).

(** What the data file holds once it is open: the header page is written over a
    file that may be created and over one shorter than a page. *)
Definition storage_image (create : bool) (old : list Z) : list Z :=
  if create || (zlen old <? kPageSize) then file_write 0 (page_image header_page) old else old.

Lemma initializeStorage_spec d p create : file_in (db_fs d) (db_file d) = DatabaseFile_make (db_fs d) →
  p ∉ fs_denied (db_fs d) → create = true ∨ is_Some (fs_files (db_fs d) !! p) →
  ∃ f c, initializeStorage p create d = (Ok tt, with_file f d) ∧ opened f p c ∧ works_on p (db_fs d) f ∧
    c = storage_image create (default [] (fs_files (db_fs d) !! p)).
Proof.
  intros Hf Hd Hc. destruct (storage_open _ p create Hd Hc) as (f1 & c1 & E1 & O1 & W1 & D1).
  unfold initializeStorage, mbind at 1, M_bind at 1, on_dbfile at 1. rewrite Hf, E1.
  unfold mbind at 1, M_bind at 1, gets. cbn [db_file]. unfold when.
  unfold df_fileSize, storage_image. rewrite (op_size _ _ _ O1), D1. destruct (create || _) eqn:Eb.
  2: { exists f1, c1. by split. }
  destruct header_page_ok as [P1 P2].
  destruct (writePage_opened f1 p c1 header_page O1 P1) as (f2 & E2 & O2); [rewrite P2; done|unfold page_pos; rewrite P2; apply zlen_nonneg|].
  destruct (works_writePage p (db_fs d) header_page f1 W1) as [W2 _]. rewrite E2 in W2. cbn [snd] in W2.
  unfold mbind, M_bind, on_dbfile at 1. cbn [db_fs db_file file_in].
  replace (file_in (df_fs f1) f1) with f1 by by destruct f1. fold header_page. rewrite E2.
  unfold ignore, on_dbfile. cbn [db_fs db_file]. replace (file_in (df_fs f2) f2) with f2 by by destruct f2.
  assert (E3 : DatabaseFile_flush f2 = (Ok tt, f2)).
  { unfold DatabaseFile_flush. rewrite (proj2 (opened_bytes _ _ _ O2)).
    by rewrite (proj1 (good_flags _ (op_good _ _ _ O2))). }
  rewrite E3. exists f2, (file_write (page_pos header_page) (page_image header_page) c1).
  split; [reflexivity|]. split; [done|]. split; [done|]. done.
Qed.

(** ** Opening a log that starts with a record of zeros *)

Lemma validate_opened f p rest : lf_attached f = true → opened (lf_file f) p (wal_header ++ rest) →
  ∃ f', LogFile_validate f = (Ok tt, f') ∧ lf_attached f' = true ∧ opened (lf_file f') p (wal_header ++ rest).
Proof.
  intros Ha H. destruct (readHeader_open f p rest Ha H) as (d & E & H').
  exists (mkLogFile d true (lf_ownsFile f) (lf_appendOffset f)). split; [|by split].
  unfold LogFile_validate, guard_open at 1, LogFile_isOpen.
  rewrite Ha, (proj2 (opened_bytes _ _ _ H)). cbn [andb]. unfold mbind, M_bind. rewrite E, Ha. reflexivity.
Qed.

Lemma opened_view f p c : lf_attached f = true → opened (lf_file f) p c → log_view c f.
Proof. intros Ha H. destruct (opened_bytes _ _ _ H). split; try done. apply H. Qed.

(** Either way of opening the log file finds the header in place. *)
Lemma logfile_opened fs w rest (create : bool) : fs_files fs !! w = Some (wal_header ++ rest) → w ∉ fs_denied fs →
  ∃ f, (if create then LogFile_create w else LogFile_open w true) (LogFile_make fs) = (Ok tt, f) ∧
    lf_attached f = true ∧ opened (lf_file f) w (wal_header ++ rest).
Proof.
  intros Hf Hd. destruct (open_existing fs w _ Hf Hd) as (d & Ed & Od & _). destruct create.
  - unfold LogFile_create, mbind, M_bind, modify. rewrite (on_file_eq _ _ (Ok tt) d) by exact Ed. cbv beta iota.
    unfold writeHeader, mbind, M_bind.
    destruct (seek_opened d w _ 0 Od) as (d1 & E1 & O1 & P1 & _); [lia|].
    destruct (write_opened d1 w _ wal_header O1) as (d2 & E2 & O2 & _); [rewrite P1; split; [lia|apply zlen_nonneg]|].
    rewrite (on_file_eq _ _ (Ok tt) d1) by exact E1. cbv beta iota.
    rewrite (on_file_eq _ _ (Ok tt) d2) by exact E2. eexists. split; [reflexivity|]. split; [done|]. cbn [lf_file].
    replace (wal_header ++ rest) with (file_write (s_pos (df_stream d1)) wal_header (wal_header ++ rest)) at 1; [exact O2|].
    rewrite P1. reflexivity.
  - unfold LogFile_open, mbind, M_bind, modify. rewrite (on_file_eq _ _ (Ok tt) d) by exact Ed. cbv beta iota.
    unfold adopt_header. cbn [own_file LogFile_make lf_attached lf_ownsFile lf_appendOffset].
    destruct (readHeader_open (mkLogFile d true true WalFileHeader_kSize) w rest) as (d2 & E2 & O2); [done|done|].
    rewrite E2. cbn [lf_file lf_attached lf_ownsFile lf_appendOffset]. eexists. split; [reflexivity|]. by split.
Qed.

Lemma zero_initialize fs w blob create : fs_files fs !! w = Some (wal_header ++ blob) → w ∉ fs_denied fs →
  bytes_ok (wal_header ++ blob) → zlen (wal_header ++ blob) < 2 ^ 62 →
  ∃ m, LogManager_initialize w create (LogManager_make fs) = (Ok tt, m) ∧ zero_log blob m.
Proof.
  intros Hf Hd Hb Hl. destruct (logfile_opened fs w blob create Hf Hd) as (f & Ef & Af & Of).
  destruct (validate_opened f w blob Af Of) as (f1 & E1 & A1 & O1). pose proof (opened_view _ _ _ A1 O1) as V1.
  unfold LogManager_initialize. cbn [lm_initialized LogManager_make]. unfold mbind, M_bind.
  rewrite (on_logfile_eq _ _ (Ok tt) f) by exact Ef. cbv beta iota.
  rewrite (on_logfile_eq _ _ (Ok tt) f1) by exact E1. cbv beta iota. unfold gets. cbv beta iota.
  assert (Hr : ∃ m, (if negb create && (WalFileHeader_kSize <? LogFile_fileSize f1) then LogWriter_restoreFromFile else mret tt)
    (set_lmfile f1 (set_lmfile f (LogManager_make fs))) = (Ok tt, m) ∧ log_view (wal_header ++ blob) (lm_file m)).
  { destruct (negb create && _); [|eexists; split; [reflexivity|exact V1]].
    destruct (restoreFromFile_view _ Hb Hl (set_lmfile f1 (set_lmfile f (LogManager_make fs))) V1) as (m & Em & Hm & _). eauto. }
  destruct Hr as (m & Em & Hm). cbn [lm_file set_lmfile] in Em |- *.
  change (LogFile_make fs) with (lm_file (LogManager_make fs)) in Em. rewrite Em.
  unfold modify, LogReader_rewind. cbv beta iota. eexists. split; [reflexivity|]. by split.
Qed.

Lemma walPath_ne p : walPathFor p ≠ p.
Proof.
  unfold walPathFor. intros E. induction p as [|x p IH]; [done|]. injection E as E. by apply IH.
Qed.

(** Nothing but [open] and [close] changes [open_]. *)
Lemma dbwal_open {A} (x : M LogManager A) d : db_open (on_dbwal x d).2 = db_open d.
Proof. unfold on_dbwal. by destruct (x _). Qed.
Lemma dbfile_open {A} (x : M DatabaseFile A) d : db_open (on_dbfile x d).2 = db_open d.
Proof. unfold on_dbfile. by destruct (x _). Qed.
Lemma ignore_state {S A} (x : M S A) s : (ignore x s).2 = (x s).2.
Proof. unfold ignore. by destruct (x s) as [[] ?]. Qed.

Lemma open_zero_log ord fs clock o p create blob :
  do_enableWal o = true → do_recoverOnOpen o = true → p ∉ fs_denied fs → walPathFor p ∉ fs_denied fs →
  create = true ∨ is_Some (fs_files fs !! p) → fs_files fs !! walPathFor p = Some (wal_header ++ blob) →
  starts_with_zeros blob → bytes_ok (wal_header ++ blob) → zlen (wal_header ++ blob) < 2 ^ 62 →
  ∃ e d, Database_open ord p create (Database_make fs clock o) = (Err e, d) ∧ db_open d = false.
Proof.
  intros Hw Hr Hd Hdw Hp Hf Hz Hb Hl. unfold Database_open. cbn [db_open Database_make db_options]. rewrite Hw, Hr. cbn [andb when].
  unfold mbind at 1, M_bind at 1, modify. set (d0 := set_dataPath p (Database_make fs clock o)).
  destruct (initializeStorage_spec d0 p create eq_refl Hd Hp) as (f & c & E1 & _ & [_ [Ho Hden]] & _).
  unfold mbind at 1, M_bind at 1. rewrite E1.
  destruct (zero_initialize (df_fs f) (walPathFor p) blob create) as (m & Em & Hm);
    [rewrite Ho by apply walPath_ne; done|rewrite Hden; done|done|done|].
  assert (E2 : ∃ d, initializeWal (walPathFor p) create (with_file f d0) = (Ok tt, d) ∧ wa_manager (db_adapter d) = m ∧
    db_fs d = manager_fs m ∧ db_open d = false).
  { unfold initializeWal, on_dbwal. cbn [db_fs with_file db_adapter d0 set_dataPath Database_make wa_manager].
    change (manager_in (df_fs f) (LogManager_make fs)) with (LogManager_make (df_fs f)). rewrite Em.
    eexists. split; [reflexivity|]. by split. }
  destruct E2 as (d1 & E2 & M1 & F1 & O1). unfold mbind at 1, M_bind at 1, on_error at 1. rewrite E2.
  assert (E3 : ∃ e d, runRecovery ord d1 = (Err e, d) ∧ db_open d = false).
  { unfold runRecovery, mbind, M_bind, modify, on_dbrecovery. cbn [db_fs set_counts db_adapter db_tree db_lastRecovery].
    rewrite M1, F1. replace (manager_in (manager_fs m) m) with m by by destruct m as [? [[]] ? ? ?].
    destruct (zero_recover blob Hz Hb Hl ord m (db_tree d1) (db_lastRecovery d1) Hm) as (e & [[m' t'] r'] & ->).
    eexists _, _. by split. }
  destruct E3 as (e & d2 & E3 & O2). unfold mbind at 1, M_bind at 1, on_error. rewrite E3. exists e. eexists. split; [reflexivity|].
  unfold mbind, M_bind. destruct (ignore (on_dbwal LogManager_shutdown) d2) as [[]] eqn:Ei;
    apply (f_equal snd) in Ei; rewrite ignore_state in Ei; cbn [snd] in Ei; subst; cbn [snd];
    rewrite ?ignore_state, ?dbfile_open, ?dbwal_open; done.
Qed.

(** ** A log in use *)

(** The log holds a header and what was flushed, its buffer what was appended
    since; if anything was appended at all, the first record of the two is a size
    and zeros.  [p] is the other file of the database and [img] what it holds. *)
Definition pending (m : LogManager) : list Z := buf_bytes (lb_buffer (lw_buffer (lm_writer m))).
Definition blank_or_zeros (data : list Z) : Prop := data = [] ∨ starts_with_zeros data.
Record log_session (p : string) (img : list Z) (w : string) (k : Z) (blob : list Z) (m : LogManager) : Prop := {
  ss_initialized : lm_initialized m = true;
  ss_inv : log_inv m;
  ss_reader : lm_reader m = LogReader_make;
  ss_file : log_ready (lm_file m) w (wal_header ++ blob);
  ss_size : zlen blob <= 65552 * k;
  ss_bytes : bytes_ok blob ∧ bytes_ok (pending m);
  ss_start : if decide (blob = []) then blank_or_zeros (pending m) else starts_with_zeros blob;
  ss_other : fs_files (manager_fs m) !! p = Some img ∧ p ∉ fs_denied (manager_fs m)
}.

Lemma zero_frame_bytes r : bytes_ok (zero_frame r).
Proof. apply Forall_app_2; [apply le_bytes_ok|apply zeros_ok]. Qed.
Lemma zero_frame_starts r rest : wireSize r < 2 ^ 32 → starts_with_zeros (zero_frame r ++ rest).
Proof. intros Hr. exists (wireSize r), rest. pose proof (wireSize_min r). unfold zero_frame. by rewrite <-app_assoc. Qed.
Lemma starts_app data rest : starts_with_zeros data → starts_with_zeros (data ++ rest).
Proof. intros (n & r & Hn & ->). exists n, (r ++ rest). by rewrite <-!app_assoc. Qed.
Lemma starts_nonempty data : starts_with_zeros data → data ≠ [].
Proof. intros (n & r & Hn & ->). by destruct (le_bytes 4 n) eqn:E; [apply (f_equal length) in E; rewrite length_le_bytes in E|]. Qed.

(** A report leaves the file alone and appends at most one frame. *)
Lemma call_session p img w k blob c a : call_ok c → log_session p img w k blob (wa_manager a) →
  log_session p img w k blob (wa_manager (do_call c a).2) ∧
  (is_ok (do_call c a).1 = true → pending (wa_manager (do_call c a).2) ≠ []).
Proof.
  intros Hc [Hi HI Hr Hf Hs [Hb1 Hb2] Hst Ho].
  destruct (do_call_record c a Hc) as (type & id & payload & E & _ & Hp). rewrite E.
  set (r := set_payload payload (LogRecord_make (wa_clock a (wa_ticks a)) type id 0)) in *.
  pose proof (payload_size_range c Hc) as Hps.
  assert (Hw : wireSize r < 2 ^ 32) by (unfold wireSize; cbn [lr_payload set_payload r]; lia).
  destruct (append_spec (wa_manager a) r HI Hw) as (m & Em & Mi & Mf & Mr & _ & _ & _ & Mb & _).
  pose proof (keeps_append r Hw _ HI) as HI'. rewrite Em in HI'. cbn [snd] in HI'.
  unfold on_manager, zoom. cbn [wa_manager]. unfold LogManager_append, when_initialized. rewrite Hi, Em. cbn [fst snd set_manager wa_manager].
  set (frame := if is_ok (append_answer (lw_nextLsn (lm_writer (wa_manager a))) r
    (LogBuffer_size (lw_buffer (lm_writer (wa_manager a))))) then zero_frame r else []) in *.
  assert (Hfr : bytes_ok frame) by (subst frame; case_match; [apply zero_frame_bytes|constructor]).
  split.
  - split; [congruence|done|congruence|by rewrite Mf|done|..].
    + split; [done|]. unfold pending. rewrite Mb. by apply Forall_app_2.
    + unfold pending in *. rewrite Mb. destruct (decide (blob = [])); [|done].
      destruct Hst as [-> |Hst]; [|right; by apply starts_app]. cbn [app]. subst frame.
      case_match; [right; rewrite <-(app_nil_r (zero_frame r)); by apply zero_frame_starts|by left].
    + unfold manager_fs. by rewrite Mf.
  - intros Hok. unfold pending. rewrite Mb. subst frame. rewrite Hok.
    intros [_ Hn]%app_eq_nil. revert Hn. apply starts_nonempty. rewrite <-(app_nil_r (zero_frame r)). by apply zero_frame_starts.
Qed.

Lemma works_append w fs data : holds (λ f, works_on w fs (lf_file f)) (LogFile_append data) (λ _, True).
Proof.
  assert (Hon : ∀ A (x : M DatabaseFile A), holds (works_on w fs) x (λ _, True) →
    holds (λ f, works_on w fs (lf_file f)) (on_file x) (λ _, True)).
  { intros A x Hx f Hf. destruct (Hx _ Hf) as [H1 H2]. unfold on_file, zoom. by destruct (x (lf_file f)). }
  intros f Hf. unfold LogFile_append, guard_open. case_match; [|done].
  match goal with |- works_on _ _ (lf_file (?x f).2) ∧ _ => enough (holds (λ f, works_on w fs (lf_file f)) x (λ _, True)) as Hx by by apply Hx end.
  eapply holds_bind; [by apply (holds_gets _ _ (λ _, True))|intros off _].
  eapply holds_bind; [apply Hon, works_seek|intros _ _].
  eapply holds_bind; [apply Hon, works_write|intros _ _].
  eapply holds_bind; [by apply holds_modify|intros _ _]. clear f Hf H. intros f Hf. unfold alignAppendOffset.
  case_match; [done|]. eapply (holds_bind (λ f, works_on w fs (lf_file f)) _ _ (λ _, True) (λ _, True));
    [apply Hon, works_write|intros _ _; by apply holds_modify|done].
Qed.

Lemma works_logflush w fs : holds (λ m, works_on w fs (lf_file (lm_file m))) LogWriter_flush (λ _, True).
Proof.
  unfold LogWriter_flush. eapply (holds_bind _ _ _ (λ _, True)).
  - intros m Hm. unfold flushBufferToFile, zoom, LogBuffer_flush. destruct (_ =? 0); [done|].
    destruct (works_append w fs (buf_bytes (lb_buffer (lw_buffer (lm_writer m)))) _ Hm) as [H1 _].
    by destruct (LogFile_append _ (lm_file m)) as [[] f].
  - intros _ _. eapply (holds_bind _ _ _ (λ _, True)).
    + intros m Hm. unfold on_logfile, zoom, LogFile_flush. destruct (lf_attached _); [|done].
      destruct (works_flush w fs _ Hm) as [H1 _]. unfold on_file, zoom. by destruct (DatabaseFile_flush _).
    + intros _ _. repeat (eapply holds_bind; [by apply holds_modify|intros _ _]). by apply holds_modify.
Qed.

(** Flushing moves the buffer to the file and touches no other. *)
Lemma flush_session p img w k blob m : p ≠ w → log_session p img w k blob m → 0 <= k < 2 ^ 40 →
  ∃ m' blob', LogManager_flush m = (Ok tt, m') ∧ log_session p img w (k + 1) blob' m' ∧ pending m' = [] ∧
    (blob ≠ [] ∨ pending m ≠ [] → starts_with_zeros blob') ∧ (blob = [] → pending m = [] → blob' = []).
Proof.
  intros Hpw H Hk. pose proof H as [Hi HI Hr Hf Hs [Hb1 Hb2] Hst Ho].
  pose proof (zlen_nonneg blob). pose proof (bo_size _ (li_buffer _ HI)) as Hsz.
  assert (Hpen : zlen (pending m) <= 65536) by exact Hsz.
  destruct (flush_ready m w (wal_header ++ blob) (lw_nextLsn (lm_writer m)) (pending m)) as (m' & E & L & _); try done.
  { rewrite zlen_app. change (zlen wal_header) with 16. lia. }
  set (more := match pending m with [] => [] | _ => padded (pending m) end) in *.
  assert (Hm : zlen more <= 65552).
  { subst more. destruct (pending m) eqn:Ep; [unfold zlen; cbn; lia|]. rewrite <-Ep in *. rewrite zlen_padded.
    pose proof (padding_bounds (zlen (pending m))). lia. }
  assert (Hmb : bytes_ok more).
  { subst more. destruct (pending m) eqn:Ep; [constructor|]. rewrite <-Ep in *. apply Forall_app_2; [done|apply zeros_ok]. }
  assert (Hstart : (blob ≠ [] ∨ pending m ≠ []) → starts_with_zeros (blob ++ more)).
  { intros Hne. destruct (decide (blob = [])) as [-> |]; [|by apply starts_app]. destruct Hne as [|Hne]; [done|].
    destruct Hst as [|Hst]; [done|]. cbn [app]. subst more. destruct (pending m) eqn:Ep; [done|]. by apply starts_app. }
  exists m', (blob ++ more). split; [done|]. destruct L as [L1 L2 L3 L4 L5 L6].
  assert (Hnil : blob = [] → pending m = [] → blob ++ more = []) by (intros -> Hp; subst more; by rewrite Hp).
  split; [|by split].
  split; try done.
  - rewrite zlen_app. lia.
  - split; [by apply Forall_app_2|]. unfold pending. rewrite L4. constructor.
  - destruct (decide (blob ++ more = [])) as [|Hd]; [by left|]. apply Hstart. destruct (decide (blob = [])); [|by left]. right. intros Hp. by apply Hd, Hnil.
  - assert (Hw : works_on w (manager_fs m) (lf_file (lm_file m'))).
    { apply (f_equal snd) in E. cbn [snd] in E. rewrite <-E. unfold LogManager_flush, when_initialized. rewrite Hi.
      apply works_logflush. split; [apply (op_file _ _ _ (lg_opened _ _ _ Hf))|done]. }
    destruct Hw as (_ & Hw1 & Hw2). unfold manager_fs at 1 2. by rewrite Hw1, Hw2.
Qed.

(** Shutting down touches the log's own file only. *)
Lemma shutdown_only w m : s_file (df_stream (lf_file (lm_file m))) = Some w →
  only_file w (manager_fs m) (manager_fs (LogManager_shutdown m).2).
Proof.
  intros Hs. unfold LogManager_shutdown. destruct (lm_initialized m) eqn:Hi; [|done]. cbn [negb].
  destruct (works_logflush w (manager_fs m) m) as [[_ Hm] _]; [by split|].
  unfold mbind, M_bind, LogManager_flush, when_initialized. rewrite Hi.
  destruct (LogWriter_flush m) as [[] m1]; try done. cbn [snd] in Hm |- *.
  unfold close_log, on_logfile, zoom, LogFile_close, DatabaseFile_close. by repeat case_match; simplify_eq/=.
Qed.

Lemma shutdown_session p img w k blob m : p ≠ w → log_session p img w k blob m → pending m = [] → 0 <= k < 2 ^ 40 →
  ∃ m', LogManager_shutdown m = (Ok tt, m') ∧
    fs_files (manager_fs m') !! w = Some (wal_header ++ blob) ∧ w ∉ fs_denied (manager_fs m') ∧
    fs_files (manager_fs m') !! p = Some img ∧ p ∉ fs_denied (manager_fs m').
Proof.
  intros Hpw H He Hk. pose proof H as [Hi HI Hr Hf Hs _ _ [Ho1 Ho2]].
  assert (HL : log_live m w (wal_header ++ blob) (lw_nextLsn (lm_writer m))) by by split.
  destruct (shutdown_live m w _ _ HL) as (m' & E & _ & Hw & Hd).
  { rewrite zlen_app. change (zlen wal_header) with 16. lia. }
  exists m'. split; [done|]. split; [done|]. split; [done|].
  assert (Ho : only_file w (manager_fs m) (manager_fs m')).
  { apply (f_equal snd) in E. cbn [snd] in E. rewrite <-E. apply shutdown_only. apply (op_file _ _ _ (lg_opened _ _ _ Hf)). }
  destruct Ho as [Ho Hden]. by rewrite Ho, Hden by done.
Qed.

(** ** A session of the database *)
Definition tree_keys (t : DBTree) : Prop :=
  (∀ id l, bt_leaves t !! id = Some l → leaf_keys Key_ok l) ∧
  (∀ id i, bt_internals t !! id = Some i → internal_keys Key_ok i).
Definition db_manager (d : Database) : LogManager := manager_in (db_fs d) (wa_manager (db_adapter d)).
Record db_session (p : string) (img : list Z) (k : Z) (blob : list Z) (d : Database) : Prop := {
  ds_open : db_open d = true; ds_sink : db_sink d = true; ds_wal : do_enableWal (db_options d) = true;
  ds_keys : tree_keys (db_tree d);
  ds_log : log_session p img (walPathFor p) k blob (db_manager d) }.

Lemma manager_in_fs m : manager_in (manager_fs m) m = m.
Proof. by destruct m as [? [[]] ? ? ?]. Qed.

Lemma report_call (x : M BTreeWalAdapter unit) : report Key_ok x → ∃ c, call_ok c ∧ x = do_call c.
Proof.
  destruct 1 as [k r|k|id|id|l r k|s r].
  - by exists (CallInsert k r).
  - by exists (CallErase k).
  - by exists (CallAllocate id).
  - by exists (CallDeallocate id).
  - by exists (CallSplit l r k).
  - by exists (CallMerge s r).
Qed.

Lemma session_reports p img w k blob (x : M BTreeWalAdapter unit) a : report Key_ok x →
  log_session p img w k blob (wa_manager a) → log_session p img w k blob (wa_manager (x a).2).
Proof. intros (c & Hc & ->)%report_call Ha. by apply call_session. Qed.

(** A call of the tree under its sink keeps the session. *)
Notation sink_ok p img k blob := (λ a, log_session p img (walPathFor p) k blob (wa_manager a)).
Lemma dbtree_session p img k blob (x : M DBTree unit) d :
  (∀ P, (∀ y a, report Key_ok y → P a → P (y a).2) → holds (tree_logs Key_ok P) x (λ _, True)) →
  db_session p img k blob d → db_session p img k blob (on_dbtree x d).2.
Proof.
  intros Hx [H1 H2 H3 [K1 K2] H5]. specialize (Hx (sink_ok p img k blob) (session_reports p img _ k blob)).
  unfold on_dbtree. rewrite H2. set (a := set_manager (manager_in (db_fs d) (wa_manager (db_adapter d))) (db_adapter d)).
  destruct (Hx (set_wal (Some a) (db_tree d))) as [[T1 T2 (a' & Ea & Ha)] _].
  { split; [done|done|]. by exists a. }
  destruct (x (set_wal (Some a) (db_tree d))) as [o t]. cbn [snd] in *. cbv zeta. rewrite Ea. cbn [default].
  split; cbn; try done. unfold db_manager. cbn. by rewrite manager_in_fs.
Qed.

Lemma insert_session p img k blob key value d : Key_ok key → db_session p img k blob d →
  is_ok (on_dbtree (BTree_insert key value) d).1 = true →
  pending (db_manager (on_dbtree (BTree_insert key value) d).2) ≠ [].
Proof.
  intros Hk [H1 H2 H3 [K1 K2] H5]. unfold on_dbtree. rewrite H2.
  set (a := set_manager (manager_in (db_fs d) (wa_manager (db_adapter d))) (db_adapter d)).
  pose proof (insert_reports Key_ok (sink_ok p img k blob) (session_reports p img _ k blob) key value Hk (set_wal (Some a) (db_tree d))) as Hr.
  destruct (BTree_insert key value (set_wal (Some a) (db_tree d))) as [o t] eqn:E. cbn [fst snd] in *. cbv zeta.
  intros Hok. destruct Hr as (t0 & [_ _ (a0 & Ea & Ha)] & Et); [split; [done|done|by exists a]|done|].
  unfold wal_call in Et. rewrite Ea in Et. change (onInsert key value) with (do_call (CallInsert key value)) in Et.
  destruct (call_session p img _ k blob (CallInsert key value) a0 Hk Ha) as [_ Hp].
  destruct (do_call (CallInsert key value) a0) as [o' a1]. simplify_eq. cbn [fst snd bt_wal set_wal default] in *.
  unfold db_manager. cbn. rewrite manager_in_fs. by apply Hp.
Qed.

Lemma flush_wal_session p img k blob d : db_session p img k blob d → 0 <= k < 2 ^ 40 →
  ∃ d' blob', flush_wal d = (Ok tt, d') ∧ db_session p img (k + 1) blob' d' ∧ pending (db_manager d') = [] ∧
    (blob ≠ [] ∨ pending (db_manager d) ≠ [] → starts_with_zeros blob').
Proof.
  intros [H1 H2 H3 H4 H5] Hk. unfold flush_wal. rewrite H3.
  destruct (flush_session p img (walPathFor p) k blob _ (not_eq_sym (walPath_ne p)) H5 Hk) as (m' & blob' & E & Hs & Hp & Hst & _).
  unfold on_dbwal. fold (db_manager d). rewrite E. eexists _, blob'. split; [reflexivity|].
  assert (Hm : ∀ c s r n, db_manager (mkDatabase (db_options d) (db_open d) (manager_fs m') (db_file d) (db_tree d)
    (set_manager m' (db_adapter d)) c s r) = m') by (intros; unfold db_manager; cbn; by rewrite manager_in_fs).
  split; [split; cbn; try done|]; by rewrite Hm.
Qed.

(** The operations of a session. *)
Inductive DbOp : Set := DbInsert (key : Key) (value : PageReference) | DbErase (key : Key).
Definition run_db (op : DbOp) : M Database unit :=
  match op with DbInsert key value => Database_insert key value | DbErase key => Database_erase key end.
Definition dbop_ok (op : DbOp) : Prop := match op with DbInsert key _ | DbErase key => Key_ok key end.
(** Runs the operations, whatever they return; tells whether an insertion succeeded. *)
Fixpoint run_all (ops : list DbOp) (d : Database) : bool * Database :=
  match ops with
  | [] => (false, d)
  | op :: ops =>
      let '(st, d) := run_db op d in
      let '(some, d) := run_all ops d in
      (match op with DbInsert _ _ => is_ok st | DbErase _ => false end || some, d)
  end.

Lemma session_later p img k k' blob d : k <= k' → db_session p img k blob d → db_session p img k' blob d.
Proof. intros Hk [? ? ? ? []]. split; try done. split; try done. lia. Qed.

Lemma session_starts p img k blob d : db_session p img k blob d → blob ≠ [] → starts_with_zeros blob.
Proof. intros [_ _ _ _ H] Hb. pose proof (ss_start _ _ _ _ _ _ H) as Hs. by destruct (decide (blob = [])). Qed.

Lemma op_session p img k blob op d : dbop_ok op → db_session p img k blob d → 0 <= k < 2 ^ 40 →
  ∃ blob', db_session p img (k + 1) blob' (run_db op d).2 ∧ (blob ≠ [] → blob' ≠ []) ∧
    match op with DbInsert _ _ => is_ok (run_db op d).1 = true → blob' ≠ [] | DbErase _ => True end.
Proof.
  intros Hop Hd Hk. pose proof (ds_open _ _ _ _ _ Hd) as Ho.
  set (x := match op with DbInsert key value => BTree_insert key value | DbErase key => BTree_erase key end : M DBTree unit).
  assert (Hx : db_session p img k blob (on_dbtree x d).2).
  { apply dbtree_session; [|done]. intros P HP. subst x. destruct op; [by apply keep_insert|by apply keep_erase]. }
  assert (Hrun : run_db op d = match on_dbtree x d with (Ok _, d') => flush_wal d' | (o, d') => (o, d') end).
  { subst x. destruct op; cbn [run_db]; unfold Database_insert, Database_erase, guard_db; rewrite Ho; cbn [negb];
      unfold mbind, M_bind; by destruct (on_dbtree _ d) as [[]]. }
  pose proof (insert_session p img k blob) as Hins. rewrite Hrun. destruct (on_dbtree x d) as [o d1] eqn:E. cbn [snd] in Hx.
  destruct o as [[]|e|w| |].
  2-5: exists blob; (split; [apply (session_later p img k); [lia|exact Hx]|]); (split; [done|]); by destruct op.
  destruct (flush_wal_session p img k blob d1 Hx Hk) as (d2 & blob' & -> & Hd2 & _ & Hst). exists blob'. split; [exact Hd2|].
  split; [intros; apply starts_nonempty; auto|]. destruct op as [key value|key]; [|done]. intros _. apply starts_nonempty, Hst. right.
  specialize (Hins key value d Hop Hd). subst x. rewrite E in Hins. by apply Hins.
Qed.

Lemma run_all_session p img ops : Forall dbop_ok ops → ∀ k blob d, db_session p img k blob d → 0 <= k → k + zlen ops <= 2 ^ 40 →
  ∃ blob', db_session p img (k + zlen ops) blob' (run_all ops d).2 ∧ (blob ≠ [] → blob' ≠ []) ∧
    ((run_all ops d).1 = true → blob' ≠ []).
Proof.
  induction 1 as [|op ops Hop Hops IH]; intros k blob d Hd Hk Hl.
  { exists blob. change (zlen (@nil DbOp)) with 0. by rewrite Z.add_0_r. }
  assert (Hz : zlen (op :: ops) = 1 + zlen ops) by (unfold zlen; cbn [length]; lia). rewrite Hz in *.
  pose proof (zlen_nonneg ops).
  destruct (op_session p img k blob op d Hop Hd) as (blob1 & H1 & S1 & I1); [lia|]. cbn [run_all].
  destruct (run_db op d) as [st d1]. cbn [fst snd] in *.
  destruct (IH (k + 1) blob1 d1 H1) as (blob2 & H2 & S2 & I2); [lia..|].
  destruct (run_all ops d1) as [some d2]. cbn [fst snd] in *. exists blob2.
  rewrite Z.add_assoc. split; [exact H2|]. split; [auto|]. intros [Ho|Ho]%orb_true_iff; [|auto].
  apply S2. destruct op; [by apply I1|done].
Qed.

(** ** Opening a new database *)

Lemma works_readBytes p fs n : holds (works_on p fs) (DatabaseFile_readBytes n) (λ _, True).
Proof.
  intros d [H1 H2]. unfold DatabaseFile_readBytes. case_match; [done|]. cbv zeta. by repeat case_match.
Qed.
Lemma works_on_file {A} p fs (x : M DatabaseFile A) : holds (works_on p fs) x (λ _, True) →
  holds (λ f, works_on p fs (lf_file f)) (on_file x) (λ _, True).
Proof. intros Hx f Hf. destruct (Hx _ Hf) as [H1 H2]. unfold on_file, zoom. by destruct (x (lf_file f)). Qed.
Lemma works_on_log {A} p fs (x : M LogFile A) : holds (λ f, works_on p fs (lf_file f)) x (λ _, True) →
  holds (λ m, works_on p fs (lf_file (lm_file m))) (on_logfile x) (λ _, True).
Proof. intros Hx f Hf. destruct (Hx _ Hf) as [H1 H2]. unfold on_logfile, zoom. by destruct (x (lm_file f)). Qed.
Lemma works_guard {A} p fs (x : M LogFile A) : holds (λ f, works_on p fs (lf_file f)) x (λ _, True) →
  holds (λ f, works_on p fs (lf_file f)) (guard_open x) (λ _, True).
Proof. intros Hx f Hf. unfold guard_open. case_match; [by apply Hx|done]. Qed.
Lemma works_readHeader p fs : holds (λ f, works_on p fs (lf_file f)) readHeader (λ _, True).
Proof.
  apply works_guard.
  match goal with |- holds ?I (λ f, if _ then _ else ?x f) _ => assert (Hx : holds I x (λ _, True)) end.
  { eapply holds_bind; [apply works_on_file, works_seek|intros _ _].
    eapply holds_bind; [apply works_on_file, works_readBytes|intros size _; by apply holds_ret]. }
  intros f Hf. case_match; [done|by apply Hx].
Qed.
Lemma works_writeHeader p fs : holds (λ f, works_on p fs (lf_file f)) writeHeader (λ _, True).
Proof.
  unfold writeHeader. eapply holds_bind; [apply works_on_file, works_seek|intros _ _; apply works_on_file, works_write].
Qed.
Lemma works_validate p fs : holds (λ f, works_on p fs (lf_file f)) LogFile_validate (λ _, True).
Proof.
  apply works_guard. eapply (holds_bind _ _ _ (λ _, True)); [apply works_readHeader|].
  intros h _. repeat apply holds_if; by apply holds_lift || by apply holds_ret.
Qed.

(** The log file of a new log, and of one that holds no record. *)
Lemma logfile_create fs w : w ∉ fs_denied fs → fs_files fs !! w = None →
  ∃ f, LogFile_create w (LogFile_make fs) = (Ok tt, f) ∧ log_ready f w wal_header ∧ works_on w fs (lf_file f).
Proof.
  intros Hd Hn. destruct (storage_open fs w true Hd (or_introl eq_refl)) as (d & c & Ed & Od & Wd & Ec).
  rewrite Hn in Ec. cbn in Ec. subst c. set (f0 := mkLogFile d true true WalFileHeader_kSize).
  destruct (writeHeader_open f0 w eq_refl Od eq_refl) as (f & E & Hf).
  exists f. split; [|split; [done|]].
  - unfold LogFile_create, mbind, M_bind, modify. by rewrite (on_file_eq _ _ (Ok tt) d) by exact Ed.
  - destruct (works_writeHeader w fs f0 Wd) as [Hw _]. by rewrite E in Hw.
Qed.
Lemma logfile_open fs w rest : w ∉ fs_denied fs →
  fs_files fs !! w = None ∧ rest = [] ∨ fs_files fs !! w = Some (wal_header ++ rest) →
  zlen rest mod 8 = 0 → zlen rest < 2 ^ 61 →
  ∃ f, LogFile_open w true (LogFile_make fs) = (Ok tt, f) ∧ log_ready f w (wal_header ++ rest) ∧ works_on w fs (lf_file f).
Proof.
  intros Hd Hn Hal Hl. destruct (storage_open fs w true Hd (or_introl eq_refl)) as (d & c & Ed & Od & Wd & Ec).
  set (f0 := mkLogFile d true true WalFileHeader_kSize).
  assert (E : LogFile_open w true (LogFile_make fs) = adopt_header true f0).
  { unfold LogFile_open, mbind, M_bind, modify. by rewrite (on_file_eq _ _ (Ok tt) d) by exact Ed. }
  rewrite E. clear E Ed. unfold adopt_header. destruct (works_readHeader w fs f0 Wd) as [Hr _].
  destruct Hn as [[Hn ->]|Hn]; rewrite Hn in Ec; cbn in Ec; subst c.
  - assert (E : readHeader f0 = (corruption "LogFile: file too small for header", f0)).
    { unfold readHeader, guard_open, LogFile_isOpen. cbn [lf_attached lf_file f0].
      rewrite (proj2 (opened_bytes _ _ _ Od)). unfold df_fileSize. rewrite (op_size _ _ _ Od). done. }
    rewrite E, app_nil_r. unfold corruption. cbn [negb].
    destruct (writeHeader_open (set_appendOffset WalFileHeader_kSize f0) w eq_refl Od eq_refl) as (f & Ew & Hf).
    exists f. split; [done|]. split; [done|].
    destruct (works_writeHeader w fs (set_appendOffset WalFileHeader_kSize f0) Wd) as [Hw _]. by rewrite Ew in Hw.
  - destruct (readHeader_open f0 w rest eq_refl Od) as (d1 & E1 & O1).
    rewrite E1 in Hr |- *. eexists. split; [reflexivity|]. split; [|exact Hr]. pose proof (zlen_nonneg rest).
    split; cbn [lf_attached lf_file lf_appendOffset set_appendOffset f0]; try done;
      [apply (op_size _ _ _ O1)|rewrite zlen_app; change (zlen wal_header) with 16..].
    + by rewrite Z.add_mod, Hal.
    + lia.
Qed.

(** A log without records: created, or opened where there is none or only a
    header. *)
Definition log_blank (fs : FileSystem) (w : string) (create : bool) : Prop :=
  w ∉ fs_denied fs ∧ (fs_files fs !! w = None ∨ create = false ∧ fs_files fs !! w = Some wal_header).

Lemma initialize_blank fs w create : log_blank fs w create →
  ∃ m, LogManager_initialize w create (LogManager_make fs) = (Ok tt, m) ∧ log_live m w wal_header 1 ∧
    works_on w fs (lf_file (lm_file m)).
Proof.
  intros [Hd Hn].
  assert (Hf : ∃ f, (if create then LogFile_create w else LogFile_open w true) (LogFile_make fs) = (Ok tt, f) ∧
    log_ready f w wal_header ∧ works_on w fs (lf_file f)).
  { destruct create; [apply logfile_create; by destruct Hn as [|[]]|]. rewrite <-(app_nil_r wal_header) in Hn |- *.
    apply logfile_open; try done. destruct Hn as [|[]]; auto. }
  destruct Hf as (f & Ef & Rf & Wf).
  destruct (validate_ready f w []) as (f' & Ev & Rf'); [by rewrite app_nil_r|]. rewrite app_nil_r in Rf'.
  destruct (works_validate w fs f Wf) as [Wf' _]. rewrite Ev in Wf'. cbn [snd] in Wf'.
  pose proof (keeps_initialize w create (LogManager_make fs) (log_reach_inv _ (log_reach_make fs))) as HI.
  assert (Hs : LogFile_fileSize f' = 16).
  { unfold LogFile_fileSize, df_fileSize. by rewrite (lg_attached _ _ _ Rf'), (op_size _ _ _ (lg_opened _ _ _ Rf')). }
  revert HI. unfold LogManager_initialize. cbn [lm_initialized LogManager_make].
  unfold mbind, M_bind. rewrite (on_logfile_eq _ _ (Ok tt) f) by exact Ef. cbv beta iota.
  rewrite (on_logfile_eq _ _ (Ok tt) f') by exact Ev. unfold gets, mret, M_ret, modify, LogReader_rewind. cbv beta iota.
  cbn [lm_file set_lmfile]. rewrite Hs. change (WalFileHeader_kSize <? 16) with false. rewrite andb_false_r.
  intros HI. eexists. split; [reflexivity|]. by split.
Qed.

(** Recovery of an empty log succeeds and leaves an empty tree. *)
Lemma live_readNext m w n : log_live m w wal_header n → LogManager_readNext m = (invalidArgument "LogReader: end of log", end_log m).
Proof.
  intros [Hi Hf HI He Hn Hr]. unfold LogManager_readNext, when_initialized. rewrite Hi. unfold LogReader_readNext. rewrite Hr.
  cbn [rd_endOfLog rd_offset LogReader_make]. unfold LogFile_fileSize, df_fileSize.
  by rewrite (lg_attached _ _ _ Hf), (op_size _ _ _ (lg_opened _ _ _ Hf)).
Qed.
Lemma live_size m w n : log_live m w wal_header n → LogFile_fileSize (lm_file m) = 16.
Proof.
  intros [Hi Hf _ _ _ _]. unfold LogFile_fileSize, df_fileSize.
  by rewrite (lg_attached _ _ _ Hf), (op_size _ _ _ (lg_opened _ _ _ Hf)).
Qed.
Lemma live_set_reader m w c n r : log_live m w c n → log_live (set_reader LogReader_make (set_reader r m)) w c n.
Proof. intros [Hi Hf [] He Hn Hr]. split; try done; by split. Qed.

(** The scans of a log without records find its end at once. *)
Lemma rewind_initialized m : lm_initialized m = true → rewindReader m = (Ok tt, set_reader LogReader_make m).
Proof. intros Hi. unfold rewindReader, when_initialized. by rewrite Hi. Qed.
Lemma live_find m w n : lm_initialized m = true → log_live (set_reader LogReader_make m) w wal_header n →
  findLastCheckpoint (m, (CheckpointPayload_default, LSN_invalid)) =
  (invalidArgument "CheckpointManager: no checkpoint found",
   (end_log (set_reader LogReader_make m), (CheckpointPayload_default, LSN_invalid))).
Proof.
  intros Hi HL. unfold findLastCheckpoint, on_fst, zoom, mbind, M_bind, modify, gets. cbn [fst snd].
  rewrite rewind_initialized by done. cbn [fst snd]. unfold log_fuel. cbn [find_loop]. by rewrite (live_readNext _ _ _ HL).
Qed.
Lemma live_replay {S W} `{PageSpace S} `{BTreeWalSink W} m w n (t : BTree S W) res : lm_initialized m = true →
  log_live (set_reader LogReader_make m) w wal_header n →
  replay LSN_invalid (m, t, res) = (Ok tt, (end_log (set_reader LogReader_make m), t, RecoveryResult_default)).
Proof.
  intros Hi HL. unfold replay, on_wal, zoom, upd_result, mbind, M_bind, modify, gets. cbn [fst snd].
  rewrite rewind_initialized by done. cbn [fst snd]. unfold log_fuel. cbn [replay_loop]. unfold on_wal, zoom. cbn [fst snd].
  by rewrite (live_readNext _ _ _ HL).
Qed.
Lemma live_validate m w n : log_live m w wal_header n →
  ∃ f, LogManager_validate m = (Ok tt, set_lmfile f m) ∧ log_live (set_lmfile f m) w wal_header n ∧
    ∀ fs, works_on w fs (lf_file (lm_file m)) → works_on w fs (lf_file f).
Proof.
  intros HL. pose proof HL as [Hi Hf [] He Hn Hr].
  destruct (validate_ready (lm_file m) w []) as (f & Ev & Hf3); [rewrite app_nil_r; apply Hf|]. rewrite app_nil_r in Hf3.
  exists f. split; [|split].
  - unfold LogManager_validate, when_initialized. rewrite Hi. unfold mbind, M_bind, gets.
    rewrite (on_logfile_eq _ _ _ _ Ev). unfold log_fuel. cbn [log_validate_loop lm_file set_lmfile].
    unfold LogFile_fileSize, df_fileSize. rewrite (lg_attached _ _ _ Hf3), (op_size _ _ _ (lg_opened _ _ _ Hf3)). done.
  - split; try done; by split.
  - intros fs Hw. pose proof (proj1 (works_validate w fs (lm_file m) Hw)) as Hv. by rewrite Ev in Hv.
Qed.

Lemma fresh_recover {S W} `{PageSpace S} `{BTreeWalSink W} ord m w (t : BTree S W) r : log_live m w wal_header 1 →
  ∃ m' r', recover ord (m, t, r) = (Ok tt, (m', (BTree_clear ord t).2, r')) ∧ log_live m' w wal_header 1 ∧
    (∀ fs, works_on w fs (lf_file (lm_file m)) → works_on w fs (lf_file (lm_file m'))).
Proof.
  intros HL. pose proof (live_size _ _ _ HL) as Hsz. pose proof (ll_initialized _ _ _ _ HL) as Hi.
  set (m1 := set_reader LogReader_make m). assert (L1 : log_live m1 w wal_header 1) by (destruct HL as [? ? [] ? ? ?]; split; try done; by split).
  set (m2 := set_reader LogReader_make (end_log m1)). assert (L2 : log_live m2 w wal_header 1) by by apply live_set_reader.
  set (m3 := set_reader LogReader_make (end_log m2)). assert (L3 : log_live m3 w wal_header 1) by by apply live_set_reader.
  assert (Hrs : restoreWriterState (end_log m2) = (Ok tt, end_log m2)).
  { unfold restoreWriterState, when_initialized. cbn [lm_initialized end_log set_reader m2 m1]. rewrite Hi.
    unfold LogWriter_restoreFromFile, mbind, M_bind, gets, log_fuel. cbn [restore_loop].
    change (LogFile_fileSize (lm_file (end_log m2))) with (LogFile_fileSize (lm_file m)). rewrite Hsz. done. }
  destruct (live_validate m3 w 1 L3) as (f & Hv & Lf & Hw).
  exists (set_lmfile f m3), RecoveryResult_default. split; [|split; [exact Lf|intros fs Hm; by apply Hw]].
  unfold recover, mbind at 1, M_bind at 1, upd_result at 1, modify. cbn [fst snd].
  unfold mbind at 1, M_bind at 1, restore_checkpoint. rewrite (live_find m w 1 Hi L1). unfold invalidArgument. cbv beta iota.
  unfold mbind at 1, M_bind at 1. rewrite (live_replay (end_log m1) w 1) by done.
  unfold mbind, M_bind, on_wal, zoom. cbn [fst snd]. fold m2. rewrite Hrs. cbn [fst snd].
  rewrite rewind_initialized by done. cbn [fst snd]. fold m3.
  unfold RecoveryValidator_validate, mbind, M_bind, on_wal, zoom, gets. cbn [fst snd]. rewrite Hv. cbn [fst snd]. reflexivity.
Qed.

Lemma live_session p img w m fs : log_live m w wal_header 1 → p ≠ w → works_on w fs (lf_file (lm_file m)) →
  fs_files fs !! p = Some img → p ∉ fs_denied fs → log_session p img w 0 [] m.
Proof.
  intros [Hi Hf HI He Hn Hr] Hpw (_ & Hw1 & Hw2) Hp Hd. split; try done.
  - split; [constructor|]. unfold pending. rewrite He. constructor.
  - by left.
  - unfold manager_fs. by rewrite Hw1, Hw2.
Qed.

(** A database that is open and has logged nothing: its data file is [f], over
    the path [p] with the bytes [img]. *)
Record db_idle (p : string) (img : list Z) (f : DatabaseFile) (d : Database) : Prop := {
  di_open : db_open d = true; di_sink : db_sink d = true; di_wal : do_enableWal (db_options d) = true;
  di_file : db_file d = f; di_opened : opened f p img;
  di_log : log_live (db_manager d) (walPathFor p) wal_header 1;
  di_works : works_on (walPathFor p) (df_fs f) (lf_file (lm_file (db_manager d))) }.

Lemma idle_session p img f d : db_idle p img f d → tree_keys (db_tree d) → db_session p img 0 [] d.
Proof.
  intros [H1 H2 H3 H4 [] H6 H7] Hk. split; try done.
  by apply (live_session p img _ _ (df_fs f) H6 (not_eq_sym (walPath_ne p)) H7).
Qed.

(** Opening in general: the storage is initialized, then the log, and recovery is
    run where it is asked for; what recovery does is a parameter. *)
Lemma open_general ord fs clock o p create : do_enableWal o = true → p ∉ fs_denied fs →
  create = true ∨ is_Some (fs_files fs !! p) →
  ∃ f, works_on p fs f ∧ opened f p (storage_image create (default [] (fs_files fs !! p))) ∧
  ∀ m, LogManager_initialize (walPathFor p) create (LogManager_make (df_fs f)) = (Ok tt, m) →
  let t := BTree_create (SpaceManager_make FirstFitPolicy) (do_btreeConfig o) in
  ∀ m' t' r', (if do_recoverOnOpen o then recover ord (m, t, RecoveryResult_default)
               else (Ok tt, (m, t, RecoveryResult_default))) = (Ok tt, (m', t', r')) →
  ∃ d, Database_open ord p create (Database_make fs clock o) = (Ok tt, d) ∧ db_open d = true ∧ db_sink d = true ∧
    do_enableWal (db_options d) = true ∧ db_file d = f ∧ db_manager d = m' ∧ db_tree d = t' ∧ db_lastRecovery d = r'.
Proof.
  intros Hw Hd Hp. set (d0 := set_dataPath p (Database_make fs clock o)).
  destruct (initializeStorage_spec d0 p create eq_refl Hd Hp) as (f & c & E1 & O1 & W1 & ->).
  cbn [db_fs d0 set_dataPath Database_make] in O1. exists f. split; [done|]. split; [done|]. intros m Em t0 m' t' r' Hrec.
  unfold Database_open. cbn [db_open Database_make db_options]. rewrite Hw. cbn [andb].
  unfold mbind at 1, M_bind at 1, modify at 1. fold d0. unfold mbind at 1, M_bind at 1. rewrite E1. change (when true ?x) with x.
  assert (E2 : initializeWal (walPathFor p) create (with_file f d0) = (Ok tt,
    mkDatabase (db_options d0) false (manager_fs m) f (db_tree d0) (set_manager m (db_adapter d0)) false RecoveryResult_default (0, 0, 0))).
  { unfold initializeWal, on_dbwal. cbn [db_fs with_file db_adapter d0 set_dataPath Database_make wa_manager].
    change (manager_in (df_fs f) (LogManager_make fs)) with (LogManager_make (df_fs f)). by rewrite Em. }
  unfold mbind at 1, M_bind at 1, on_error at 1. rewrite E2. clear E1 E2. set (d1 := mkDatabase _ _ _ _ _ _ _ _ _).
  assert (E3 : ∃ n, when (do_recoverOnOpen o) (on_error (runRecovery ord)
      (ignore (on_dbwal LogManager_shutdown);; ignore (on_dbfile DatabaseFile_close))) d1 = (Ok tt,
      mkDatabase (db_options d1) false (manager_fs m') f t' (set_manager m' (db_adapter d0)) false r' n)).
  { destruct (do_recoverOnOpen o); cbn [when].
    - unfold on_error, runRecovery, mbind, M_bind, modify, on_dbrecovery.
      cbn [db_fs set_counts db_adapter db_tree db_lastRecovery d1 set_manager wa_manager]. rewrite manager_in_fs.
      change (db_tree d0) with t0. rewrite Hrec. eexists. reflexivity.
    - injection Hrec as <- <- <-. eexists. reflexivity. }
  destruct E3 as (n & E3). unfold mbind at 1, M_bind at 1. rewrite E3. unfold when, mbind, M_bind, modify.
  eexists. split; [reflexivity|]. split_and!; try done. unfold db_manager. cbn. by rewrite manager_in_fs.
Qed.

(** Opening over a log without records. *)
Lemma open_blank ord fs clock o p create : do_enableWal o = true → p ∉ fs_denied fs →
  create = true ∨ is_Some (fs_files fs !! p) → log_blank fs (walPathFor p) create →
  let t := BTree_create (SpaceManager_make FirstFitPolicy) (do_btreeConfig o) in
  ∃ f d, Database_open ord p create (Database_make fs clock o) = (Ok tt, d) ∧ works_on p fs f ∧
    db_idle p (storage_image create (default [] (fs_files fs !! p))) f d ∧
    db_tree d = if do_recoverOnOpen o then (BTree_clear ord t).2 else t.
Proof.
  intros Hw Hd Hp [Hdw Hf] t0. pose proof (walPath_ne p) as Hne.
  destruct (open_general ord fs clock o p create Hw Hd Hp) as (f & W1 & O1 & Hopen). pose proof W1 as [_ [Ho Hden]].
  destruct (initialize_blank (df_fs f) (walPathFor p) create) as (m & Em & HL & Wm);
    [split; [by rewrite Hden|by rewrite Ho]|].
  assert (E : ∃ m' r', (if do_recoverOnOpen o then recover ord (m, t0, RecoveryResult_default)
      else (Ok tt, (m, t0, RecoveryResult_default))) = (Ok tt, (m', if do_recoverOnOpen o then (BTree_clear ord t0).2 else t0, r')) ∧
      log_live m' (walPathFor p) wal_header 1 ∧ works_on (walPathFor p) (df_fs f) (lf_file (lm_file m'))).
  { destruct (do_recoverOnOpen o); [|by eexists m, _].
    destruct (fresh_recover ord m (walPathFor p) t0 RecoveryResult_default HL) as (m' & r' & Er & L' & W'). exists m', r'. auto. }
  destruct E as (m' & r' & E & L' & W').
  destruct (Hopen m Em m' _ r' E) as (d & Ed & D1 & D2 & D3 & D4 & D5 & D6 & _).
  exists f, d. split; [done|]. split; [done|]. split; [|done]. split; try done; by rewrite D5.
Qed.

Lemma open_new ord fs clock o p : do_enableWal o = true → p ∉ fs_denied fs → walPathFor p ∉ fs_denied fs →
  fs_files fs !! walPathFor p = None →
  ∃ d, Database_open ord p true (Database_make fs clock o) = (Ok tt, d) ∧
    db_session p (storage_image true (default [] (fs_files fs !! p))) 0 [] d.
Proof.
  intros Hw Hd Hdw Hf.
  destruct (open_blank ord fs clock o p true Hw Hd (or_introl eq_refl)) as (f & d & E & _ & Hi & Ht); [split; auto|].
  exists d. split; [done|]. apply (idle_session _ _ f); [done|]. rewrite Ht. by destruct (do_recoverOnOpen o).
Qed.

Lemma close_session p img k blob d : db_session p img k blob d → 0 <= k < 2 ^ 40 - 1 →
  ∃ d' blob', Database_close d = (Ok tt, d') ∧ db_open d' = false ∧ (blob ≠ [] → starts_with_zeros blob') ∧
    (blob = [] → pending (db_manager d) = [] → blob' = []) ∧
    bytes_ok blob' ∧ zlen blob' <= 65552 * (k + 1) ∧
    fs_files (db_fs d') !! walPathFor p = Some (wal_header ++ blob') ∧ walPathFor p ∉ fs_denied (db_fs d') ∧
    fs_files (db_fs d') !! p = Some img ∧ p ∉ fs_denied (db_fs d').
Proof.
  intros Hd Hk. pose proof Hd as [H1 H2 H3 H4 H5]. pose proof (not_eq_sym (walPath_ne p)) as Hne.
  destruct (flush_session p img _ k blob _ Hne H5 ltac:(lia)) as (m1 & blob' & E1 & S1 & P1 & Hst & Hnil).
  destruct (shutdown_session p img _ (k + 1) blob' m1 Hne S1 P1 ltac:(lia)) as (m2 & E2 & Hf).
  unfold Database_close. rewrite H1, H3. cbn [negb when]. unfold mbind at 1, M_bind at 1.
  assert (E : (modify (set_sink false);; on_dbwal LogManager_flush;; on_dbwal LogManager_shutdown) d = (Ok tt,
    mkDatabase (db_options d) true (manager_fs m2) (db_file d) (db_tree d) (set_manager m2 (db_adapter d)) false
      (db_lastRecovery d) (db_counts d))).
  { unfold mbind, M_bind, modify, on_dbwal. cbn [set_sink db_fs db_adapter db_open]. fold (db_manager d). rewrite E1.
    cbn [db_fs db_adapter set_manager wa_manager db_open]. by rewrite manager_in_fs, E2, H1. }
  rewrite E. unfold close_file, on_dbfile. cbn [db_fs db_file].
  destruct (DatabaseFile_close (file_in (manager_fs m2) (db_file d))) as [o g] eqn:Ec.
  assert (Hg : o = Ok tt ∧ df_fs g = manager_fs m2).
  { revert Ec. unfold DatabaseFile_close. case_match; intros [= <- <-]; done. }
  destruct Hg as [-> Hg]. eexists _, blob'. split; [reflexivity|]. cbn [db_open set_dbopen db_fs]. rewrite Hg.
  split; [done|]. split; [auto|]. split; [done|]. split; [apply (ss_bytes _ _ _ _ _ _ S1)|]. split; [apply (ss_size _ _ _ _ _ _ S1)|]. done.
Qed.

(** C9: A database does not survive being closed.  Open a new database with a
    write-ahead log, insert and erase keys in any order (each call may succeed or
    fail), close it: opening and closing succeed, and the data file holds the
    header page, over what it held before, and nothing else.  If any insertion
    succeeded, opening the files again with recovery returns an error, in a new
    process, whatever the other options and the clock are, and whether or not
    the files may be created. *)
Theorem database_not_reopened ord fs clock o p ops :
  do_enableWal o = true → p ∉ fs_denied fs → walPathFor p ∉ fs_denied fs →
  fs_files fs !! walPathFor p = None → Forall dbop_ok ops → zlen ops < 2 ^ 40 - 1 →
  ∃ d0 d1, Database_open ord p true (Database_make fs clock o) = (Ok tt, d0) ∧
    Database_close (run_all ops d0).2 = (Ok tt, d1) ∧
    fs_files (db_fs d1) !! p = Some (storage_image true (default [] (fs_files fs !! p))) ∧
    ((run_all ops d0).1 = true → ∀ ord' clock' o' create,
       do_enableWal o' = true → do_recoverOnOpen o' = true →
       ∃ e d2, Database_open ord' p create (Database_make (db_fs d1) clock' o') = (Err e, d2) ∧ db_open d2 = false).
Proof.
  intros Hw Hd Hdw Hf Hops Hl. destruct (open_new ord fs clock o p Hw Hd Hdw Hf) as (d0 & E0 & S0).
  pose proof (zlen_nonneg ops).
  destruct (run_all_session p _ ops Hops 0 [] d0 S0) as (blob & S1 & _ & Hsome); [lia..|]. rewrite Z.add_0_l in S1.
  destruct (close_session p _ _ blob _ S1) as (d1 & blob' & E1 & _ & Hst & _ & Hb & Hz & F1 & F2 & F3 & F4); [lia|].
  exists d0, d1. split; [done|]. split; [done|]. split; [done|]. intros Hin ord' clock' o' create Hw' Hr'.
  apply (open_zero_log ord' _ clock' o' p create blob'); try done.
  - by right.
  - apply Hst, Hsome, Hin.
  - apply Forall_app_2; [|done].
    apply (bool_decide_unpack (Forall (λ b, 0 <= b < 256) wal_header)). vm_compute. exact I.
  - rewrite zlen_app. change (zlen wal_header) with 16. lia.
Qed.

Definition demo_db : Database :=
  Database_make (mkFileSystem ∅ ∅ "no such file") (λ n, Z.of_nat n + 1) DatabaseOptions_default.
Definition demo_ops : list DbOp := [DbInsert (KeyUInt32 5) (PageReference_make 7 1 4)].

Lemma database_not_reopened_witness : ∃ d0 d1,
  Database_open id "db" true demo_db = (Ok tt, d0) ∧ Database_close (run_all demo_ops d0).2 = (Ok tt, d1) ∧
  ∃ e d2, Database_open id "db" false (Database_make (db_fs d1) (λ n, Z.of_nat n + 1) DatabaseOptions_default) =
    (Err e, d2) ∧ db_open d2 = false.
Proof.
  destruct (database_not_reopened id (mkFileSystem ∅ ∅ "no such file") (λ n, Z.of_nat n + 1) DatabaseOptions_default "db" demo_ops)
    as (d0 & d1 & E0 & E1 & _ & H).
  - reflexivity.
  - apply not_elem_of_empty.
  - apply not_elem_of_empty.
  - reflexivity.
  - repeat constructor; vm_compute; first [reflexivity|discriminate].
  - vm_compute. reflexivity.
  - exists d0, d1. split; [exact E0|]. split; [exact E1|]. apply H; [|reflexivity..].
    apply (f_equal snd) in E0. cbn [snd] in E0. rewrite <-E0. vm_compute. reflexivity.
Defined.
