(* ===== verification/Intact.v ===== *)
(** Recovery of an intact log: a file that holds the records of a history one
    after the other, each behind its size and padded to a multiple of eight, as
    the reader of the log expects them.

    Every scan of such a file reads exactly its records.  Replaying them into a
    tree whose keys fit one leaf builds the finite map that the records describe,
    and a database that is opened over such a log answers by that map. *)
From stdpp Require Import base strings list gmap.
From Stdlib Require Import ZArith Lia.
From S2P Require Import Prelude Config Formats PageAlloc FreeSpace SpaceMgr Buffers DbFile Pages PageFacts Keys Nodes NodeFacts Tree TreeShape TreeFacts TreeSearch TreeInsert TreeErase TreeValid TreeReach TreeDemo TreeDict TreeSnapshot Wal WalManager WalFacts WalLog WalReopen WalSink Recovery RecoveryFacts TreeLog LogScan Database DatabaseFacts.

(** ** The bytes of a log *)
Definition intact (r : LogRecord) : list Z := padded (le_bytes 4 (wireSize r) ++ record_wire r).
Definition intact_log (rs : list LogRecord) : list Z := concat (intact <$> rs).

(** Records the reader accepts after the sequence number [last]. *)
Fixpoint ordered (last : LSN) (rs : list LogRecord) : Prop :=
  match rs with
  | [] => True
  | r :: rs => Record_ok r ∧ validateRecord r = Ok tt ∧ validateLsnOrdering last (lr_lsn r) = Ok tt ∧ ordered (lr_lsn r) rs
  end.
(** The sequence number of the last record. *)
Fixpoint last_lsn (last : LSN) (rs : list LogRecord) : LSN :=
  match rs with [] => last | r :: rs => last_lsn (lr_lsn r) rs end.

Lemma zlen_intact r : zlen (intact r) = 4 + wireSize r + padding (4 + wireSize r).
Proof. unfold intact. by rewrite zlen_padded, zlen_app, zlen_le_bytes, zlen_record_wire. Qed.
Lemma intact_min r : 49 <= zlen (intact r).
Proof. rewrite zlen_intact. pose proof (wireSize_min r). pose proof (padding_bounds (4 + wireSize r)). lia. Qed.
Lemma intact_aligned rs : zlen (intact_log rs) mod 8 = 0.
Proof.
  induction rs as [|r rs IH]; [done|]. change (intact_log (r :: rs)) with (intact r ++ intact_log rs).
  rewrite zlen_app, zlen_intact, Z.add_mod, IH by done. pose proof (padding_bounds (4 + wireSize r)) as [_ ->]. done.
Qed.
Lemma intact_length rs : Z.of_nat (length rs) <= zlen (intact_log rs).
Proof.
  induction rs as [|r rs IH]; [done|]. change (intact_log (r :: rs)) with (intact r ++ intact_log rs).
  rewrite zlen_app. pose proof (intact_min r). cbn [length]. lia.
Qed.

Lemma read_intact f p pre r post : Record_ok r → log_ready f p (pre ++ intact r ++ post) →
  ∃ f', LogFile_readRecord (zlen pre) f = (Ok (r, zlen (intact r)), f') ∧ log_ready f' p (pre ++ intact r ++ post) ∧
    df_fs (lf_file f') = df_fs (lf_file f).
Proof.
  intros Hr Hf. pose proof (zlen_record_wire r) as Hz. pose proof (wireSize_min r). pose proof (ro_size r Hr).
  assert (E : pre ++ intact r ++ post = pre ++ (le_bytes 4 (zlen (record_wire r)) ++ record_wire r) ++
    (zeros (Z.to_nat (padding (4 + wireSize r))) ++ post)).
  { unfold intact, padded. rewrite zlen_app, zlen_le_bytes, Hz. by rewrite <-!app_assoc. }
  rewrite E in Hf |- *.
  destruct (readRecord_ready f p pre (record_wire r) _ r (reading (le_bytes 4 (zlen (record_wire r)) ++ record_wire r) []) Hf)
    as (f' & E' & Hf' & Hfs); [lia| |].
  - rewrite <-(app_nil_r (record_wire r)) at 2. apply LogRecord_deserialize_parses; [done|].
    rewrite app_nil_r, zlen_app, zlen_le_bytes. lia.
  - exists f'. split; [by rewrite zlen_intact, E', Hz|by split].
Qed.

(** ** The scans of the manager *)

(** The manager is open over [c] with the reader at [rd]; its writer and the other
    files are those of [m0]. *)
Record log_at (w : string) (c : list Z) (m0 : LogManager) (rd : LogReader) (m : LogManager) : Prop := {
  la_initialized : lm_initialized m = lm_initialized m0;
  la_ready : log_ready (lm_file m) w c;
  la_reader : lm_reader m = rd;
  la_writer : lm_writer m = lm_writer m0;
  la_fs : only_file w (manager_fs m0) (manager_fs m) }.

Lemma ready_size f p c : log_ready f p c → LogFile_fileSize f = zlen c.
Proof. intros Hf. unfold LogFile_fileSize, df_fileSize. by rewrite (lg_attached _ _ _ Hf), (op_size _ _ _ (lg_opened _ _ _ Hf)). Qed.
Lemma at_size w c m0 rd m : log_at w c m0 rd m → LogFile_fileSize (lm_file m) = zlen c.
Proof. intros H. apply (ready_size _ w), H. Qed.
Lemma at_rewind w c m0 rd m : lm_initialized m0 = true → log_at w c m0 rd m →
  rewindReader m = (Ok tt, set_reader LogReader_make m) ∧ log_at w c m0 LogReader_make (set_reader LogReader_make m).
Proof. intros Hi []. split; [apply rewind_initialized; congruence|by split]. Qed.
Lemma at_range w c m0 rd m : log_at w c m0 rd m → zlen c < 2 ^ 62.
Proof. intros H. apply (lg_header _ _ _ (la_ready _ _ _ _ _ H)). Qed.

(** One record. *)
Lemma readNext_intact w pre r post m0 last m : lm_initialized m0 = true → Record_ok r → validateRecord r = Ok tt →
  validateLsnOrdering last (lr_lsn r) = Ok tt →
  log_at w (pre ++ intact r ++ post) m0 (mkLogReader (zlen pre) last false) m →
  ∃ m', LogManager_readNext m = (Ok r, m') ∧
    log_at w (pre ++ intact r ++ post) m0 (mkLogReader (zlen (pre ++ intact r)) (lr_lsn r) false) m'.
Proof.
  intros Hi0 Hr Hv Ho H. pose proof (at_size _ _ _ _ _ H) as Hs. pose proof (at_range _ _ _ _ _ H) as Hz.
  rewrite !zlen_app in Hs, Hz. pose proof (intact_min r). pose proof (zlen_nonneg pre). pose proof (zlen_nonneg post).
  destruct (read_intact _ w pre r post Hr (la_ready _ _ _ _ _ H)) as (f' & E & Hf & Hfs). destruct H as [Hi _ Hrd Hw Hm].
  unfold LogManager_readNext, when_initialized, LogReader_readNext. rewrite Hi, Hi0, Hrd. cbn [rd_endOfLog rd_offset].
  rewrite Hs, (proj2 (Z.leb_gt _ _)), (on_logfile_eq _ _ _ _ E) by lia.
  unfold LogReader_accept, mbind, M_bind, gets, lift, modify. cbn [lm_reader set_lmfile]. rewrite Hrd. cbn [rd_lastLsn rd_offset rd_endOfLog].
  rewrite Hv, Ho. cbv beta iota. eexists. split; [reflexivity|].
  split; try done.
  - change (mkLogReader (u64 (zlen pre + zlen (intact r))) (lr_lsn r) false = mkLogReader (zlen (pre ++ intact r)) (lr_lsn r) false).
    by rewrite zlen_app, u64_small by lia.
  - unfold manager_fs. cbn. by rewrite Hfs.
Qed.
(** The end. *)
Lemma readNext_end w c m0 last m : lm_initialized m0 = true → log_at w c m0 (mkLogReader (zlen c) last false) m →
  LogManager_readNext m = (invalidArgument "LogReader: end of log", end_log m) ∧
  log_at w c m0 (mkLogReader (zlen c) last true) (end_log m).
Proof.
  intros Hi0 H. pose proof (at_size _ _ _ _ _ H) as Hs. destruct H as [Hi Hf Hrd Hw Hm].
  unfold LogManager_readNext, when_initialized, LogReader_readNext. rewrite Hi, Hi0, Hrd. cbn [rd_endOfLog rd_offset].
  rewrite Hs, (proj2 (Z.leb_le _ _)) by lia. split; [done|]. split; try done. unfold end_log. cbn. by rewrite Hrd.
Qed.

Notation no_checkpoint rs := (Forall (λ r, lr_type r ≠ LRT_CheckpointMarker) rs).

(** The search for a checkpoint passes over records that are none. *)
Lemma find_intact w rs : no_checkpoint rs → ∀ fuel pre m0 last m found out, lm_initialized m0 = true → (length rs < fuel)%nat →
  ordered last rs → log_at w (pre ++ intact_log rs) m0 (mkLogReader (zlen pre) last false) m →
  ∃ m' rd, find_loop fuel found (m, out) = (Ok found, (m', out)) ∧ log_at w (pre ++ intact_log rs) m0 rd m'.
Proof.
  induction 1 as [|r rs Hc _ IH]; intros [|fuel] pre m0 last m found out Hi0 Hfu Ho H; cbn [length] in Hfu; try lia; cbn [find_loop].
  - rewrite app_nil_r in H |- *. destruct (readNext_end _ _ _ _ _ Hi0 H) as [-> H']. eauto.
  - destruct Ho as (H1 & H2 & H3 & H4). change (intact_log (r :: rs)) with (intact r ++ intact_log rs) in *.
    destruct (readNext_intact _ _ _ _ _ _ _ Hi0 H1 H2 H3 H) as (m' & -> & H').
    rewrite (proj2 (Z.eqb_neq _ _)) by done. cbn [negb]. rewrite app_assoc in H' |- *. by apply (IH fuel _ m0 (lr_lsn r)); [done|lia|..].
Qed.

(** Restoring the writer ends with the last sequence number. *)
Lemma restore_intact w rs : ∀ fuel pre m0 rd last m, (length rs < fuel)%nat → ordered last rs →
  log_at w (pre ++ intact_log rs) m0 rd m →
  ∃ m', restore_loop fuel (zlen pre) last m = (Ok (last_lsn last rs), m') ∧ log_at w (pre ++ intact_log rs) m0 rd m'.
Proof.
  induction rs as [|r rs IH]; intros fuel pre m0 rd last m Hfu Ho H; pose proof (at_size _ _ _ _ _ H) as Hs;
    pose proof (at_range _ _ _ _ _ H) as Hz; (destruct fuel as [|fuel]; [cbn in Hfu; lia|]); cbn [restore_loop last_lsn]; rewrite Hs.
  - rewrite app_nil_r in *. rewrite (proj2 (Z.ltb_ge _ _)) by lia. eauto.
  - destruct Ho as (H1 & H2 & H3 & H4). change (intact_log (r :: rs)) with (intact r ++ intact_log rs) in *.
    rewrite !zlen_app in *. pose proof (intact_min r). pose proof (zlen_nonneg (intact_log rs)). pose proof (zlen_nonneg pre).
    rewrite (proj2 (Z.ltb_lt _ _)) by lia.
    destruct (read_intact _ w pre r _ H1 (la_ready _ _ _ _ _ H)) as (f' & E & Hf & Hfs). rewrite (on_logfile_eq _ _ _ _ E).
    rewrite u64_small, <-zlen_app by lia. rewrite app_assoc in Hf |- *.
    apply IH; [cbn in Hfu; lia|done|]. destruct H as [A1 A2 A3 A4 A5]. split; try done. unfold manager_fs. cbn. by rewrite Hfs.
Qed.

(** The validation of the log accepts it. *)
Lemma validate_intact w rs : ∀ fuel pre m0 rd last m, (length rs < fuel)%nat → ordered last rs →
  log_at w (pre ++ intact_log rs) m0 rd m →
  ∃ m', log_validate_loop fuel (zlen pre) last m = (Ok tt, m') ∧ log_at w (pre ++ intact_log rs) m0 rd m'.
Proof.
  induction rs as [|r rs IH]; intros fuel pre m0 rd last m Hfu Ho H; pose proof (at_size _ _ _ _ _ H) as Hs;
    pose proof (at_range _ _ _ _ _ H) as Hz; (destruct fuel as [|fuel]; [cbn in Hfu; lia|]); cbn [log_validate_loop]; rewrite Hs.
  - rewrite app_nil_r in *. rewrite (proj2 (Z.ltb_ge _ _)) by lia. eauto.
  - destruct Ho as (H1 & H2 & H3 & H4). change (intact_log (r :: rs)) with (intact r ++ intact_log rs) in *.
    rewrite !zlen_app in *. pose proof (intact_min r). pose proof (zlen_nonneg (intact_log rs)). pose proof (zlen_nonneg pre).
    rewrite (proj2 (Z.ltb_lt _ _)) by lia.
    destruct (read_intact _ w pre r _ H1 (la_ready _ _ _ _ _ H)) as (f' & E & Hf & Hfs).
    unfold mbind, M_bind, lift. rewrite (on_logfile_eq _ _ _ _ E), H2, H3. cbv beta iota.
    rewrite u64_small, <-zlen_app by lia. rewrite app_assoc in Hf |- *.
    apply IH; [cbn in Hfu; lia|done|]. destruct H as [A1 A2 A3 A4 A5]. split; try done. unfold manager_fs. cbn. by rewrite Hfs.
Qed.

(** ** A tree of one leaf *)

(** What a history says of each key: an update binds it, unless the binding is the
    same in the fields that are compared. *)
Inductive LogEntry : Set := EUpdate (key : Key) (ref : PageReference) | EDelete (key : Key) | ENote.
Definition edit (m : gmap Key PageReference) (e : LogEntry) : gmap Key PageReference :=
  match e with
  | EUpdate key ref =>
      match m !! key with
      | Some x => if PageReference_eqb x ref then m else <[key:=ref]> m
      | None => <[key:=ref]> m
      end
  | EDelete key => delete key m
  | ENote => m
  end.
(** The record of an entry; the other types but the checkpoint say nothing of keys. *)
Definition entry_record (e : LogEntry) (r : LogRecord) : Prop :=
  match e with
  | EUpdate key ref => update_record r key ref
  | EDelete key => delete_record r key
  | ENote => lr_type r ∈ [LRT_PageCreate; LRT_NodeSplit; LRT_NodeMerge; LRT_Allocation; LRT_Deallocation; LRT_MetadataUpdate]
  end.

Section small.
Context {S W : Type} `{PageSpace S} `{BTreeWalSink W} `{Fo : ForeignPages}.
Notation BT := (BTree S W).
Notation holds := TreeSearch.holds.
Implicit Types (t : BT) (m : gmap Key PageReference).

(** The tree is one leaf, or nothing, and holds the bindings [m]. *)
Definition leaf_holds t m : Prop :=
  holds_nothing t ∧ m = ∅ ∨ ∃ id es, holds t (PLeaf id es) 0 ∧ m = list_to_map es.

Lemma leaf_nodup t id es : holds t (PLeaf id es) 0 → NoDup es.*1.
Proof. intros Hh. pose proof (entries_keys_NoDup t _ 0 Hh) as Hn. by rewrite entries_leaf in Hn. Qed.

Lemma small_find t m k r : leaf_holds t m → BTree_find k t = Ok r ↔ m !! k = Some r.
Proof.
  intros [[Ht ->]|(id & es & Hh & ->)].
  - rewrite (find_nothing t k Ht), lookup_empty. by split.
  - rewrite (proj1 (tree_find_spec t _ 0 k Hh)), entries_leaf. apply (elem_of_list_to_map (M:=gmap Key)). by eapply leaf_nodup.
Qed.
Lemma small_contains t m k : leaf_holds t m → BTree_contains k t = bool_decide (is_Some (m !! k)).
Proof.
  intros Hl. apply eq_true_iff_eq. rewrite contains_bound, bool_decide_eq_true. unfold is_Some.
  split; intros [r Hr]; exists r; by apply (small_find t m).
Qed.

(** A page for the leaf. *)
Definition some_page : Prop := ∃ x, kFirstDataPageId <= x <= kMaxPageId ∧ ¬ foreign x.

Lemma small_insert t m key v : leaf_holds t m → config_ok (bt_config t) → some_page →
  PageReference_isValid v = true → key_fits (bt_config t) key → m !! key = None →
  Z.of_nat (size m) < computeCapacity (bt_config t) Leaf →
  ∃ t', BTree_insert key v t = (Ok tt, t') ∧ leaf_holds t' (<[key:=v]> m) ∧ bt_config t' = bt_config t.
Proof.
  intros [[Ht ->]|(id & es & Hh & ->)] Hcfg (x & Hx & Hfx) Hv Hkf Hn Hsz.
  - destruct (insert_first t key v Ht Hcfg Hv Hkf) as (t' & id & E & Hh & Hc & _).
    { exists [x]. split; [apply NoDup_singleton|]. split; [done|]. intros y ->%list_elem_of_singleton. split; [done|].
      rewrite (inv_pages _ _ (hn_inv _ Ht)). set_solver. }
    exists t'. split; [done|]. split; [|done]. right. exists id, [(key, v)]. done.
  - pose proof (leaf_nodup _ _ _ Hh) as Hnd. rewrite map_size_list_to_map in Hsz by done.
    apply (not_elem_of_list_to_map (M:=gmap Key)) in Hn.
    destruct (insert_place t _ 0 key Hh) as (c & id' & es' & l & Hp & Hc & _ & Hlen & Hl & Hr & Hs & Hne & Hse & _ & Hd); [done|].
    destruct c; [|done]. cbn [plug] in Hp. injection Hp as <- <-.
    destruct (leaf_full_keys t id es l key Hr Hkf) as (Hcap & Hlc & Hkc & _).
    rewrite (insert_at_leaf t _ 0 key v [] id es l Hh Hv Hd Hl), Hlc, Hkc, (proj2 (Z.ltb_lt _ _)) by done.
    destruct (insert_room_shape t [] id es key v 0 Hh Hc Hlen Hv Hkf Hne Hse Hs Hsz) as (t' & -> & Hh' & K1 & _).
    exists t'. split; [done|]. split; [|done]. right. cbn [plug] in Hh'. eexists id, _. split; [exact Hh'|].
    rewrite (list_to_map_proper (M:=gmap Key) (vinsert (lowerBound es.*1 key) (key, v) es) ((key, v) :: es)); [done|by eapply leaf_nodup|apply vinsert_perm].
Qed.

Lemma small_erase t m key r : leaf_holds t m → m !! key = Some r →
  ∃ t', BTree_erase key t = (Ok tt, t') ∧ leaf_holds t' (delete key m) ∧ bt_config t' = bt_config t.
Proof.
  intros [[Ht ->]|(id & es & Hh & ->)] Hk; [done|]. pose proof (leaf_nodup _ _ _ Hh) as Hnd.
  apply (elem_of_list_to_map (M:=gmap Key)) in Hk; [|done].
  assert (Hu : underflows t key = false).
  { destruct (descendToLeaf_spec t _ 0 key true Hh) as (c & id' & es' & l & _ & _ & _ & Hlen & Hl & Hr & Hs & _ & Hd).
    destruct c; [|done]. unfold underflows. rewrite Hd, (exact_at_leaf t key _ id' es' l Hl Hr Hs). by case_decide. }
  destruct (erase_spec t _ 0 key r Hh) as (t' & E & Hc & _ & Hres); [by rewrite entries_leaf|done|].
  exists t'. split; [done|]. split; [|done]. rewrite entries_leaf in Hres.
  destruct Hres as [[Ht' ->]|(p' & Hh' & _ & Hp)].
  - left. split; [done|]. apply map_eq. intros k. cbn. destruct (decide (k = key)) as [-> |Hne].
    + by rewrite lookup_delete_eq.
    + by rewrite lookup_delete_ne, lookup_insert_ne.
  - right. destruct p' as [id' es'|]; [|by destruct (h_uniform _ _ _ Hh')]. rewrite entries_leaf in Hp.
    exists id', es'. split; [done|]. rewrite (list_to_map_proper (M:=gmap Key) es ((key, r) :: es')) by done. cbn.
    apply delete_insert_id. apply (not_elem_of_list_to_map (M:=gmap Key)). rewrite Hp in Hnd. by apply NoDup_cons in Hnd as [? _].
Qed.

(** The keys the history binds are in [K] and fit a leaf. *)
Definition entry_fits (K : gset Key) (cfg : BTreeNodeConfig) (e : LogEntry) : Prop :=
  match e with
  | EUpdate key ref => PageReference_isValid ref = true ∧ key_fits cfg key ∧ key ∈ K
  | _ => True
  end.

Lemma missing_smaller m (K : gset Key) key : dom m ⊆ K → key ∈ K → m !! key = None → (size m < size K)%nat.
Proof.
  intros Hd Hk Hn. apply not_elem_of_dom in Hn. rewrite <-size_dom.
  assert (Hs : (size ({[key]} ∪ dom m) <= size K)%nat) by (apply subseteq_size; set_solver).
  rewrite size_union, size_singleton in Hs by set_solver. lia.
Qed.

(** Applying the record of an entry edits the map. *)
Lemma apply_entry t m (K : gset Key) e r : leaf_holds t m → config_ok (bt_config t) → some_page →
  dom m ⊆ K → Z.of_nat (size K) <= computeCapacity (bt_config t) Leaf →
  entry_record e r → entry_fits K (bt_config t) e →
  ∃ t', applyRecord r t = (Ok tt, t') ∧ leaf_holds t' (edit m e) ∧ bt_config t' = bt_config t ∧ dom (edit m e) ⊆ K.
Proof.
  intros Hl Hcfg Hpg Hdom Hcap Hr Hf. destruct e as [key ref|key|]; cbn [entry_record entry_fits edit] in *.
  - destruct Hf as (Hv & Hkf & HK). rewrite (applyRecord_update r key ref) by done. unfold apply_update.
    rewrite (small_contains t m) by done. destruct (m !! key) as [x|] eqn:Ex.
    + rewrite bool_decide_eq_true_2, (proj2 (small_find t m key x Hl) Ex) by eauto.
      destruct (PageReference_eqb x ref); [exists t; by split_and!|].
      destruct (small_erase t m key x Hl Ex) as (t1 & E1 & L1 & C1).
      pose proof (missing_smaller (delete key m) K key ltac:(rewrite dom_delete_L; set_solver) HK (lookup_delete_eq m key)).
      destruct (small_insert t1 (delete key m) key ref L1) as (t2 & E2 & L2 & C2); rewrite ?C1; try done;
        [apply lookup_delete_eq|lia|].
      exists t2. unfold mbind, M_bind. rewrite E1, E2. split; [done|]. rewrite insert_delete_eq in L2.
      split_and!; [done|congruence|rewrite dom_insert_L; set_solver].
    + rewrite bool_decide_eq_false_2 by (by intros []). pose proof (missing_smaller m K key Hdom HK Ex).
      destruct (small_insert t m key ref Hl Hcfg Hpg Hv Hkf Ex ltac:(lia)) as (t' & -> & L' & C').
      exists t'. split_and!; try done. rewrite dom_insert_L. set_solver.
  - rewrite (applyRecord_delete r key) by done. unfold apply_delete. rewrite (small_contains t m) by done.
    destruct (m !! key) as [x|] eqn:Ex.
    + rewrite bool_decide_eq_true_2 by eauto. cbn [negb]. destruct (small_erase t m key x Hl Ex) as (t1 & -> & L1 & C1).
      exists t1. split_and!; try done. rewrite dom_delete_L. set_solver.
    + rewrite bool_decide_eq_false_2 by (by intros []). cbn [negb]. rewrite delete_id by done. by exists t.
  - exists t. split; [|done]. unfold applyRecord. set_unfold in Hr.
    destruct Hr as [->|[->|[->|[->|[->|[->|[]]]]]]]; reflexivity.
Qed.

(** ** Replay *)

(** The counters after the records. *)
Definition result_after (res : RecoveryResult) (rs : list LogRecord) : RecoveryResult :=
  foldl (λ res r, result_replayed (lr_lsn r) res) res rs.

Lemma valid_after r : Record_ok r → validateRecord r = Ok tt → (lr_lsn r <=? LSN_invalid) = false.
Proof.
  intros Hr Hv. pose proof (ro_lsn r Hr) as Hl. unfold in_u in Hl. apply Z.leb_gt. unfold LSN_invalid.
  revert Hv. unfold validateRecord, validateRecordHeader, LSN_isValid, LSN_invalid.
  destruct (Z.eqb_spec (lr_lsn r) 0); [|lia]. by repeat case_match.
Qed.

Lemma replay_intact w es rs : Forall2 entry_record es rs → ∀ fuel pre (lm0 lm : LogManager) last t m (K : gset Key) res,
  lm_initialized lm0 = true → (length rs < fuel)%nat → ordered last rs →
  log_at w (pre ++ intact_log rs) lm0 (mkLogReader (zlen pre) last false) lm →
  leaf_holds t m → config_ok (bt_config t) → some_page → dom m ⊆ K →
  Z.of_nat (size K) <= computeCapacity (bt_config t) Leaf → Forall (entry_fits K (bt_config t)) es →
  ∃ lm' t' rd, replay_loop fuel LSN_invalid (lm, t, res) = (Ok tt, (lm', t', result_after res rs)) ∧
    log_at w (pre ++ intact_log rs) lm0 rd lm' ∧ leaf_holds t' (foldl edit m es) ∧ bt_config t' = bt_config t.
Proof.
  induction 1 as [|e r es rs He _ IH]; intros [|fuel] pre lm0 lm last t m K res Hi0 Hfu Ho HL Hl Hcfg Hpg Hd Hcap Hf;
    cbn [length] in Hfu; try lia; cbn [replay_loop]; unfold on_wal, zoom; cbn [fst snd].
  - rewrite app_nil_r in HL |- *. destruct (readNext_end _ _ _ _ _ Hi0 HL) as [-> HL']. unfold invalidArgument. cbn. eexists _, t, _.
    split; [reflexivity|]. by split_and!.
  - destruct Ho as (H1 & H2 & H3 & H4). change (intact_log (r :: rs)) with (intact r ++ intact_log rs) in *.
    apply Forall_cons in Hf as [Hfe Hf].
    destruct (readNext_intact _ _ _ _ _ _ _ Hi0 H1 H2 H3 HL) as (lm' & -> & HL'). cbn [fst snd].
    destruct (apply_entry t m K e r Hl Hcfg Hpg Hd Hcap He Hfe) as (t1 & E1 & L1 & C1 & D1).
    assert (Hck : (lr_type r =? LRT_CheckpointMarker) = false).
    { apply Z.eqb_neq. destruct e; [destruct He as (-> & _); done|destruct He as (-> & _); done|].
      cbn in He. set_unfold in He. destruct He as [->|[->|[->|[->|[->|[->|[]]]]]]]; done. }
    assert (Er : replay_record LSN_invalid r (lm', t, res) = (Ok tt, (lm', t1, result_replayed (lr_lsn r) res))).
    { unfold replay_record, mbind, M_bind, lift. rewrite H2, (valid_after r H1 H2), Hck.
      unfold on_rtree, zoom, upd_result, modify. cbn [fst snd]. by rewrite E1. }
    unfold mbind at 1, M_bind at 1. rewrite Er. rewrite app_assoc in HL' |- *. rewrite <-C1 in Hcfg, Hcap, Hf.
    destruct (IH fuel (pre ++ intact r) lm0 lm' (lr_lsn r) t1 (edit m e) K (result_replayed (lr_lsn r) res)) as
      (lm2 & t2 & rd & E2 & A2 & L2 & C2); try done; [lia|].
    exists lm2, t2, rd. split; [exact E2|]. split_and!; [done|done|congruence].
Qed.

Lemma entry_no_checkpoint es rs : Forall2 entry_record es rs → no_checkpoint rs.
Proof.
  induction 1 as [|e r es rs He _ IH]; constructor; [|done].
  destruct e; [destruct He as (-> & _); done|destruct He as (-> & _); done|].
  cbn in He. set_unfold in He. destruct He as [->|[->|[->|[->|[->|[->|[]]]]]]]; done.
Qed.
Lemma small_validates t m : leaf_holds t m → config_ok (bt_config t) → BTree_validate t = Ok tt.
Proof.
  intros [[Ht _]|(id & es & Hh & _)] Hcfg; [|by eapply holds_validates].
  unfold BTree_validate. by rewrite (holds_nothing_empty _ Ht).
Qed.
End small.

(** ** Recovery *)
Lemma last_lsn_valid rs : ∀ last, ordered last rs → LSN_isValid last = true ∨ rs ≠ [] → LSN_isValid (last_lsn last rs) = true.
Proof.
  induction rs as [|r rs IH]; intros last Ho Hv; cbn [last_lsn]; [by destruct Hv|]. destruct Ho as (H1 & H2 & H3 & H4).
  apply IH; [done|]. left. unfold LSN_isValid. pose proof (valid_after r H1 H2) as Hl. apply Z.leb_gt in Hl.
  unfold LSN_invalid in *. apply negb_true_iff, Z.eqb_neq. lia.
Qed.

(** The fuel of a scan is enough for the records. *)
Lemma intact_fuel w rs m0 rd m : log_at w (wal_header ++ intact_log rs) m0 rd m → (length rs < log_fuel m)%nat.
Proof.
  intros H. unfold log_fuel. rewrite (at_size _ _ _ _ _ H), zlen_app. change (zlen wal_header) with 16.
  pose proof (intact_length rs). lia.
Qed.

(** The writer continues behind the last record. *)
Definition writer_after (rs : list LogRecord) (m m' : LogManager) : Prop :=
  if decide (rs = []) then lm_writer m' = lm_writer m
  else lw_nextLsn (lm_writer m') = LSN_next (last_lsn LSN_invalid rs) ∧ lw_currentLsn (lm_writer m') = last_lsn LSN_invalid rs ∧
       lw_buffer (lm_writer m') = lw_buffer (lm_writer m).

Lemma restoreFile_intact w rs m0 rd m : ordered LSN_invalid rs → log_at w (wal_header ++ intact_log rs) m0 rd m →
  ∃ m', LogWriter_restoreFromFile m = (Ok tt, m') ∧ log_at w (wal_header ++ intact_log rs) m' rd m' ∧
    lm_initialized m' = lm_initialized m0 ∧ only_file w (manager_fs m0) (manager_fs m') ∧ writer_after rs m m'.
Proof.
  intros Ho H. destruct (restore_intact w rs (log_fuel m) wal_header m0 rd LSN_invalid m (intact_fuel _ _ _ _ _ H) Ho H) as (m1 & E & H1).
  unfold LogWriter_restoreFromFile, mbind, M_bind, gets. change (zlen wal_header) with WalFileHeader_kSize in E. rewrite E.
  pose proof (last_lsn_valid rs LSN_invalid Ho) as Hv. destruct H as [A1 A2 A3 A4 A5], H1 as [B1 B2 B3 B4 B5].
  unfold writer_after. case_decide as Hn.
  - subst rs. change (LSN_isValid (last_lsn LSN_invalid [])) with false. cbv iota. exists m1. split; [done|].
    split; [by split|]. split; [congruence|]. split; [done|congruence].
  - rewrite Hv by auto. unfold modify. cbv beta iota. eexists. split; [reflexivity|]. split; [by split|]. split; [cbn; congruence|]. split; [done|].
    cbn. split_and!; try done. by rewrite B4, A4.
Qed.

Lemma managerValidate_intact w rs m0 rd m : lm_initialized m0 = true → ordered LSN_invalid rs → log_at w (wal_header ++ intact_log rs) m0 rd m →
  ∃ m', LogManager_validate m = (Ok tt, m') ∧ log_at w (wal_header ++ intact_log rs) m0 rd m'.
Proof.
  intros Hi0 Ho [A1 A2 A3 A4 A5]. destruct (validate_ready _ _ _ A2) as (f & Ev & Hf).
  unfold LogManager_validate, when_initialized. rewrite A1, Hi0. unfold mbind, M_bind, gets. rewrite (on_logfile_eq _ _ _ _ Ev).
  assert (H : log_at w (wal_header ++ intact_log rs) m0 rd (set_lmfile f m)).
  { split; try done. etransitivity; [exact A5|].
    destruct (works_validate w (manager_fs m) (lm_file m)) as [[_ Hw] _]; [split; [apply (op_file _ _ _ (lg_opened _ _ _ A2))|done]|].
    by rewrite Ev in Hw. }
  change WalFileHeader_kSize with (zlen wal_header). apply (validate_intact w rs _ wal_header m0 rd); [by eapply intact_fuel|done|done].
Qed.

Section recover.
Context {S W : Type} `{PageSpace S} `{BTreeWalSink W} `{Fo : ForeignPages}.

(** Without a checkpoint the search leaves an empty tree. *)
Lemma restore_checkpoint_intact ord w rs lm0 rd lm (t : BTree S W) res : lm_initialized lm0 = true → no_checkpoint rs → ordered LSN_invalid rs →
  log_at w (wal_header ++ intact_log rs) lm0 rd lm →
  ∃ lm' rd', restore_checkpoint ord (lm, t, res) = (Ok LSN_invalid, (lm', (BTree_clear ord t).2, res)) ∧
    log_at w (wal_header ++ intact_log rs) lm0 rd' lm'.
Proof.
  intros Hi0 Hn Ho H1. destruct (at_rewind _ _ _ _ _ Hi0 H1) as [E H2].
  destruct (find_intact w rs Hn (log_fuel (set_reader LogReader_make lm)) wal_header lm0 LSN_invalid _ false
    (CheckpointPayload_default, LSN_invalid) Hi0 (intact_fuel _ _ _ _ _ H2) Ho H2) as (lm' & rd' & Ef & H3).
  exists lm', rd'. split; [|done]. unfold restore_checkpoint, findLastCheckpoint, on_fst, zoom, mbind, M_bind, modify, gets.
  cbn [fst snd]. rewrite E. cbn [fst snd]. rewrite Ef. reflexivity.
Qed.

Lemma recover_intact ord w es rs lm0 rd lm (t : BTree S W) (K : gset Key) res : lm_initialized lm0 = true →
  Forall2 entry_record es rs → ordered LSN_invalid rs → log_at w (wal_header ++ intact_log rs) lm0 rd lm → good t → (∀ l, ord l ≡ₚ l) → some_page →
  Z.of_nat (size K) <= computeCapacity (bt_config t) Leaf → Forall (entry_fits K (bt_config t)) es →
  ∃ lm' t', recover ord (lm, t, res) = (Ok tt, (lm', t', result_after RecoveryResult_default rs)) ∧
    leaf_holds t' (foldl edit ∅ es) ∧ log_at w (wal_header ++ intact_log rs) lm' LogReader_make lm' ∧ lm_initialized lm' = true ∧
    only_file w (manager_fs lm0) (manager_fs lm') ∧ writer_after rs lm0 lm'.
Proof.
  intros Hi0 He Ho H1 Hg Hord Hpg Hcap Hf. pose proof Hg as (Hcfg & _).
  destruct (restore_checkpoint_intact ord w rs lm0 rd lm t RecoveryResult_default Hi0 (entry_no_checkpoint _ _ He) Ho H1)
    as (lm1 & rd1 & E1 & H2).
  set (t1 := (BTree_clear ord t).2) in *. destruct (at_rewind _ _ _ _ _ Hi0 H2) as [E2 H3].
  destruct (replay_intact w es rs He (log_fuel (set_reader LogReader_make lm1)) wal_header lm0 (set_reader LogReader_make lm1)
    LSN_invalid t1 ∅ K RecoveryResult_default Hi0 (intact_fuel _ _ _ _ _ H3) Ho H3) as (lm2 & t2 & rd2 & E3 & H4 & L2 & C2);
    [left; split; [by apply clear_nothing|done]|done|done|set_solver|done|done|].
  destruct (restoreFile_intact w rs lm0 rd2 lm2 Ho H4) as (lm3 & E4 & H5 & I5 & F5 & W5). rewrite Hi0 in I5.
  destruct (at_rewind _ _ _ _ _ I5 H5) as [E5 H6].
  destruct (managerValidate_intact w rs lm3 LogReader_make _ I5 Ho H6) as (lm4 & E6 & H7).
  assert (Hv : BTree_validate t2 = Ok tt) by (eapply small_validates; [exact L2|by rewrite C2]).
  exists lm4, t2. split_and!.
  - unfold recover, mbind at 1, M_bind at 1, upd_result at 1, modify. cbn [fst snd].
    unfold mbind at 1, M_bind at 1. rewrite E1.
    assert (Er : replay LSN_invalid (lm1, t1, RecoveryResult_default) = (Ok tt, (lm2, t2, result_after RecoveryResult_default rs))).
    { unfold replay, on_wal, zoom, upd_result, mbind, M_bind, modify, gets. cbn [fst snd]. rewrite E2. cbn [fst snd]. exact E3. }
    unfold mbind at 1, M_bind at 1. rewrite Er. unfold mbind, M_bind, on_wal, zoom. cbn [fst snd].
    unfold restoreWriterState, when_initialized. rewrite (la_initialized _ _ _ _ _ H4), Hi0, E4. cbn [fst snd]. rewrite E5. cbn [fst snd].
    unfold RecoveryValidator_validate, mbind, M_bind, on_wal, zoom, gets, lift. cbn [fst snd]. rewrite E6. cbn [fst snd]. by rewrite Hv.
  - done.
  - destruct H7. by split.
  - by rewrite (la_initialized _ _ _ _ _ H7).
  - etransitivity; [exact F5|]. apply H7.
  - unfold writer_after in *. rewrite (la_writer _ _ _ _ _ H4) in W5. rewrite (la_writer _ _ _ _ _ H7).
    change (lm_writer (set_reader LogReader_make lm3)) with (lm_writer lm3). exact W5.
Qed.
End recover.

(** ** Opening a database over an intact log *)

Lemma initialize_intact fs w rs : w ∉ fs_denied fs → fs_files fs !! w = Some (wal_header ++ intact_log rs) →
  zlen (intact_log rs) < 2 ^ 61 → ordered LSN_invalid rs →
  ∃ m, LogManager_initialize w false (LogManager_make fs) = (Ok tt, m) ∧
    log_at w (wal_header ++ intact_log rs) m LogReader_make m ∧ lm_initialized m = true.
Proof.
  intros Hd Hf Hl Ho. destruct (logfile_open fs w (intact_log rs) Hd (or_intror Hf) (intact_aligned rs) Hl) as (f & Ef & Rf & _).
  destruct (validate_ready f w _ Rf) as (f' & Ev & Rf').
  set (m1 := set_lmfile f' (set_lmfile f (LogManager_make fs))).
  assert (H1 : log_at w (wal_header ++ intact_log rs) m1 LogReader_make m1) by by split.
  assert (Hr : ∃ m, (if negb false && (WalFileHeader_kSize <? LogFile_fileSize (lm_file m1)) then LogWriter_restoreFromFile else mret tt) m1
      = (Ok tt, m) ∧ log_at w (wal_header ++ intact_log rs) m LogReader_make m).
  { destruct (negb false && _); [|by eexists].
    destruct (restoreFile_intact w rs m1 LogReader_make m1 Ho H1) as (m & E & H2 & _). eauto. }
  destruct Hr as (m2 & Er & H2). exists (set_reader LogReader_make (set_initialized true m2)). split; [|split; [|done]].
  - unfold LogManager_initialize. cbn [lm_initialized LogManager_make]. unfold mbind, M_bind.
    rewrite (on_logfile_eq _ _ (Ok tt) f) by exact Ef. cbv beta iota.
    rewrite (on_logfile_eq _ _ (Ok tt) f') by exact Ev. fold m1. unfold gets. cbv beta iota. by rewrite Er.
  - destruct H2 as [A1 A2 A3 A4 A5]. by split.
Qed.

(** The keys a history binds, and the bindings a tree can hold. *)
Fixpoint bound_keys (es : list LogEntry) : gset Key :=
  match es with
  | [] => ∅
  | EUpdate key _ :: es => {[key]} ∪ bound_keys es
  | _ :: es => bound_keys es
  end.
Definition entry_valid (cfg : BTreeNodeConfig) (e : LogEntry) : Prop :=
  match e with EUpdate key ref => PageReference_isValid ref = true ∧ key_fits cfg key | _ => True end.

Lemma valid_entries_fit cfg es (K : gset Key) : bound_keys es ⊆ K → Forall (entry_valid cfg) es → Forall (entry_fits K cfg) es.
Proof.
  intros HK Hes. induction Hes as [|e es He _ IH]; [constructor|]. cbn [bound_keys] in HK. destruct e as [key ref|key|].
  - constructor; [|apply IH; set_solver]. destruct He. cbn. split_and!; [done|done|set_solver].
  - constructor; [done|by apply IH].
  - constructor; [done|by apply IH].
Qed.

Lemma small_find_exact {S W} `{PageSpace S} `{BTreeWalSink W} `{Fo : ForeignPages} (t : BTree S W) m k : leaf_holds t m →
  BTree_find k t = match m !! k with
    | Some r => Ok r
    | None => invalidArgument (if empty_ t then "BTree: tree is empty" else "BTree: key not found")
    end.
Proof.
  intros Hl. destruct (m !! k) as [r|] eqn:E; [by apply (small_find t m)|].
  destruct Hl as [[Ht ->]|(id & es & Hh & ->)].
  - by rewrite (find_nothing t k Ht), (holds_nothing_empty _ Ht).
  - rewrite (holds_nonempty _ _ _ Hh). apply (tree_find_spec t _ 0 k Hh). intros r Hr. rewrite entries_leaf in Hr.
    apply (elem_of_list_to_map (M:=gmap Key)) in Hr; [congruence|by eapply leaf_nodup].
Qed.

Lemma result_counts rs : ∀ res, 0 <= rr_recordsReplayed res → rr_recordsReplayed res + Z.of_nat (length rs) < 2 ^ 64 →
  rr_recordsReplayed (result_after res rs) = rr_recordsReplayed res + Z.of_nat (length rs) ∧
  rr_recordsSkipped (result_after res rs) = rr_recordsSkipped res.
Proof.
  induction rs as [|r rs IH]; intros res Hr Hl; cbn [result_after foldl length] in *; [split; [lia|done]|].
  destruct (IH (result_replayed (lr_lsn r) res)) as [E1 E2]; cbn [result_replayed rr_recordsReplayed]; rewrite ?u64_small by lia; [lia..|].
  unfold result_after in *. rewrite E1, E2. cbn [result_replayed rr_recordsReplayed rr_recordsSkipped]. rewrite u64_small by lia. split; [lia|done].
Qed.

(** C10: A database is recovered from an intact log.  Where the log file holds the
    records of a history of updates and deletions (and of page and node events),
    as the reader of the log expects them and with rising sequence numbers, over
    no more keys than a leaf holds, opening the database succeeds; afterwards
    [find] answers for every key by the finite map that the history describes,
    each record has been replayed and none skipped, and the log continues with
    the next sequence number. *)
Theorem database_recovers_intact_log ord fs clock o p img es rs :
  do_enableWal o = true → do_recoverOnOpen o = true → (∀ l, ord l ≡ₚ l) →
  config_ok (do_btreeConfig o) → allowDuplicates (do_btreeConfig o) = false →
  p ∉ fs_denied fs → walPathFor p ∉ fs_denied fs → fs_files fs !! p = Some img →
  fs_files fs !! walPathFor p = Some (wal_header ++ intact_log rs) → zlen (intact_log rs) < 2 ^ 61 →
  ordered LSN_invalid rs → Forall2 entry_record es rs → Forall (entry_valid (do_btreeConfig o)) es →
  Z.of_nat (size (bound_keys es)) <= computeCapacity (do_btreeConfig o) Leaf →
  ∃ d, Database_open ord p false (Database_make fs clock o) = (Ok tt, d) ∧
    (∀ k, Database_find k d = match foldl edit ∅ es !! k with
       | Some r => Ok r
       | None => invalidArgument (if empty_ (db_tree d) then "BTree: tree is empty" else "BTree: key not found")
       end) ∧
    rr_recordsReplayed (db_lastRecovery d) = Z.of_nat (length rs) ∧ rr_recordsSkipped (db_lastRecovery d) = 0 ∧
    (rs ≠ [] → lw_nextLsn (lm_writer (db_manager d)) = LSN_next (last_lsn LSN_invalid rs)).
Proof.
  intros Hw Hr Hord Hcfg Hnd Hd Hdw Hp Hf Hl Ho He Hes Hcap. pose proof (intact_length rs) as Hlen.
  destruct (open_general ord fs clock o p false Hw Hd) as (f & W1 & _ & Hopen); [right; by exists img|]. destruct W1 as [_ [Wo Wd]].
  destruct (initialize_intact (df_fs f) (walPathFor p) rs) as (m & Em & HL & Hi);
    [by rewrite Wd|by rewrite Wo by apply walPath_ne|done|done|].
  set (t0 := BTree_create (SpaceManager_make FirstFitPolicy) (do_btreeConfig o) : DBTree) in *.
  assert (Hg : good t0) by (apply reach_good, reach_create; [apply new_space|done|done]).
  destruct (recover_intact ord (walPathFor p) es rs m LogReader_make m t0 (bound_keys es) RecoveryResult_default Hi He Ho HL Hg Hord)
    as (m' & t' & Er & Lt & _ & _ & _ & Wa).
  { exists kFirstDataPageId. split; [split; by vm_compute|]. by intros []. } { done. } { by apply valid_entries_fit. }
  rewrite Hr in Hopen. destruct (Hopen m Em m' t' _ Er) as (d & Ed & D1 & _ & _ & _ & D5 & D6 & D7).
  destruct (result_counts rs RecoveryResult_default) as [R1 R2]; [done|cbn [rr_recordsReplayed RecoveryResult_default]; lia|].
  exists d. split; [done|]. rewrite D5, D7. split; [|split; [exact R1|split; [exact R2|]]].
  - intros k. unfold Database_find. rewrite D1, D6. cbn [negb]. by apply small_find_exact.
  - intros Hne. unfold writer_after in Wa. rewrite decide_False in Wa by done. apply Wa.
Qed.

(** Two keys are bound, a node is split and the first is deleted. *)
Definition demo_entries : list LogEntry :=
  [EUpdate (demo_key 1) (demo_ref 1); EUpdate (demo_key 2) (demo_ref 2); ENote; EDelete (demo_key 1)].
Definition demo_log_records : list LogRecord :=
  [mkLogRecord LRT_PageUpdate 1 10 1 0 0 0 0 (key_wire (demo_key 1) ++ ref_wire (demo_ref 1));
   mkLogRecord LRT_PageUpdate 2 11 2 0 0 0 0 (key_wire (demo_key 2) ++ ref_wire (demo_ref 2));
   mkLogRecord LRT_NodeSplit 3 12 1 0 0 0 0 [];
   mkLogRecord LRT_PageDelete 4 13 kInvalidPageId 0 0 0 0 (key_wire (demo_key 1))].

Lemma demo_records_ordered : ordered LSN_invalid demo_log_records.
Proof.
  assert (Hb : ∀ bs, bool_decide (Forall (λ b, 0 <= b < 256) bs) = true → bytes_ok bs) by (intros bs; by rewrite bool_decide_eq_true).
  cbn [ordered demo_log_records]. split_and!; try reflexivity;
    split; cbn [lr_type lr_lsn lr_timestamp lr_pageId lr_transactionId lr_checksum lr_reserved0 lr_reserved1 lr_payload];
    first [by vm_compute|apply Hb; by vm_compute].
Qed.

Lemma database_recovers_intact_log_witness :
  let fs := mkFileSystem {["db" := zeros 8; "db.wal" := wal_header ++ intact_log demo_log_records]} ∅ "no such file" in
  ∃ d, Database_open id "db" false (Database_make fs (λ n, Z.of_nat n + 1) DatabaseOptions_default) = (Ok tt, d) ∧
    Database_find (demo_key 2) d = Ok (demo_ref 2) ∧
    Database_find (demo_key 1) d = invalidArgument (if empty_ (db_tree d) then "BTree: tree is empty" else "BTree: key not found") ∧
    lw_nextLsn (lm_writer (db_manager d)) = 5.
Proof.
  intros fs.
  destruct (database_recovers_intact_log id fs (λ n, Z.of_nat n + 1) DatabaseOptions_default "db" (zeros 8) demo_entries demo_log_records)
    as (d & E & Hf & _ & _ & Hn).
  - reflexivity.
  - reflexivity.
  - reflexivity.
  - split; vm_compute; reflexivity.
  - reflexivity.
  - apply not_elem_of_empty.
  - apply not_elem_of_empty.
  - reflexivity.
  - reflexivity.
  - vm_compute. reflexivity.
  - exact demo_records_ordered.
  - repeat constructor; try (split_and!; [reflexivity..|]); vm_compute; intuition discriminate.
  - repeat constructor; vm_compute; first [reflexivity|discriminate].
  - vm_compute. discriminate.
  - exists d. split; [exact E|]. split; [|split].
    + rewrite Hf. reflexivity.
    + rewrite Hf. reflexivity.
    + apply Hn. discriminate.
Defined.
