(* ===== verification/DatabaseTools.v ===== *)
(** Sessions without a log, the integrity scan, and the maintenance tools. *)
From stdpp Require Import base strings list gmap pretty.
From Stdlib Require Import ZArith Lia.
From S2P Require Import Prelude Config Formats Doubles PageAlloc FreeSpace SpaceMgr Buffers DbFile Pages PageFacts Keys Nodes NodeFacts Tree TreeShape TreeFacts TreeSearch TreeInsert TreeErase TreeRebalance TreeReach TreeDemo TreeDict TreeSnapshot Wal WalManager WalSink Recovery RecoveryFacts TreeLog Database DatabaseFacts.

(** ** Sessions without a log *)

(** An open database that does not log, over a tree the operations have built. *)
Record plain_session (d : Database) : Prop := {
  pl_open : db_open d = true; pl_wal : do_enableWal (db_options d) = false; pl_sink : db_sink d = false;
  pl_tree : reach (db_tree d) }.

(** The calls of the facade that change the tree. *)
Definition db_call (c : tree_op) : M Database unit :=
  match c with
  | OpInsert key value => Database_insert key value
  | OpErase key => Database_erase key
  | OpClear _ => mret tt
  end.

(** A history of insertions and erasures, each under the tree's conditions. *)
Inductive db_run : Database → list (tree_op * outcome unit) → Database → Prop :=
  | db_run_nil d : db_run d [] d
  | db_run_cons d c o d' h d'' : (∀ ord, c ≠ OpClear ord) → op_ok c (db_tree d) → db_call c d = (o, d') →
      db_run d' h d'' → db_run d ((c, o) :: h) d''.

Lemma plain_call d c : plain_session d → (∀ ord, c ≠ OpClear ord) → op_ok c (db_tree d) →
  let '(o, d') := db_call c d in
  plain_session d' ∧ db_fs d' = db_fs d ∧ run_op c (db_tree d) = (o, db_tree d').
Proof.
  intros [Ho Hw Hs Hr] Hc Hok.
  assert (Hrun : ∀ x : M DBTree unit, reach (x (db_tree d)).2 → let '(o, d') := guard_db (on_dbtree x;; flush_wal) d in
    plain_session d' ∧ db_fs d' = db_fs d ∧ x (db_tree d) = (o, db_tree d')).
  { intros x Hx. unfold guard_db. rewrite Ho. cbn [negb]. unfold mbind, M_bind, on_dbtree. rewrite Hs.
    destruct (x (db_tree d)) as [[[]|e|e| |] t']; cbn [snd] in Hx;
      [unfold flush_wal; cbn [db_options]; rewrite Hw|..]; (split; [by split|]); done. }
  destruct c as [key v|key|ord]; [| |by destruct (Hc ord)].
  - destruct Hok as (Hf & Hp & He). exact (Hrun (BTree_insert key v) (reach_insert _ key v Hr Hf Hp He)).
  - exact (Hrun (BTree_erase key) (reach_erase _ key Hr)).
Qed.


(** ** The integrity scan *)

(** A scan of the file succeeds with a report without errors. *)
Definition scans_clean (f : DatabaseFile) (report : DiagnosticReport) (size : Z) : Prop :=
  ∃ f' report', IntegrityScanner_scan (f, report) = (Ok tt, (f', report')) ∧ report_passed report' = true ∧
    df_fileSize f' = size.

(** The scan works on its file only. *)
Lemma works_via {A} p fs (x : M DatabaseFile A) : holds (works_on p fs) x (λ _, True) →
  holds (λ s : DatabaseFile * Page, works_on p fs s.1) (via_file x) (λ _, True).
Proof. intros Hx [f pg] Hf. destruct (Hx f Hf) as [H1 _]. unfold via_file, zoom. cbn [fst snd]. by destruct (x f). Qed.
Lemma works_readPage p fs : holds (λ s : DatabaseFile * Page, works_on p fs s.1) DatabaseFile_readPage (λ _, True).
Proof.
  unfold DatabaseFile_readPage. eapply holds_bind; [by apply (holds_gets _ _ (λ _, True))|intros id _].
  apply holds_if; [by apply holds_lift|].
  eapply holds_bind; [apply works_via, works_seek|intros _ _].
  eapply holds_bind; [apply works_via, works_readBytes|intros got _].
  eapply (holds_bind _ _ _ (λ _, True)); [by apply holds_lift|intros valid _]. apply holds_if; [by apply holds_lift|].
  eapply (holds_bind _ _ _ (λ _, True)); [by apply holds_lift|intros type _].
  eapply holds_bind; [by apply holds_modify|intros _ _].
  eapply (holds_bind _ _ _ (λ _, True)); [by apply holds_lift|intros gen _].
  eapply holds_bind; [by apply holds_modify|intros _ _].
  eapply holds_bind; [apply works_via, works_readBytes|intros bs _].
  eapply holds_bind; [by apply holds_modify|intros _ _]. by apply holds_modify.
Qed.
Lemma works_scan p fs f report : works_on p fs f → works_on p fs (IntegrityScanner_scan (f, report)).2.1.
Proof.
  intros Hf. unfold IntegrityScanner_scan. destruct (negb _); [done|]. destruct (_ <? _); [done|].
  destruct (works_seek p fs 0 f Hf) as [H1 _]. destruct (DatabaseFile_seek 0 f) as [[] f1]; cbn [snd] in H1; try done.
  destruct (works_readPage p fs (f1, Page_make 0 (PageType_value PT_Header)) H1) as [H2 _].
  destruct (DatabaseFile_readPage _) as [[] [f2 pg]]; cbn [snd fst] in H2; try done. by destruct (HeaderPage_validate pg).
Qed.

Lemma header_image_length : zlen (page_image header_page) = 4096.
Proof.
  destruct header_page_ok as [P1 P2]. destruct (page_parts header_page P1) as (L1 & L2 & _); [by rewrite P2|].
  unfold page_image. rewrite zlen_app. lia.
Qed.
(** The first page is the header page. *)
Lemma storage_image_header create old : create || (zlen old <? kPageSize) = true →
  storage_image create old = page_image header_page ++ zdrop 4096 old ∧
  zlen (storage_image create old) = Z.max 4096 (zlen old).
Proof.
  intros Hc. unfold storage_image. rewrite Hc. pose proof header_image_length as Hl. pose proof (zlen_nonneg old).
  assert (E : file_write 0 (page_image header_page) old = page_image header_page ++ zdrop 4096 old).
  { rewrite file_write_inside by (lia || (intros E0; by rewrite E0 in Hl)). by rewrite Hl. }
  split; [done|]. rewrite zlen_file_write by lia. lia.
Qed.

(** A file that starts with the header page passes. *)
Lemma scan_header f p rest report : opened f p (page_image header_page ++ rest) →
  let size := zlen (page_image header_page ++ rest) in
  ∃ f', IntegrityScanner_scan (f, report) = (Ok tt, (f',
      [mkFinding SevInfo "header" "valid";
       mkFinding SevInfo "file" ("pages=" +:+ pretty (size / kPageSize) +:+ ", size=" +:+ pretty size)])) ∧
    opened f' p (page_image header_page ++ rest).
Proof.
  intros O size. destruct header_page_ok as [P1 P2]. pose proof header_image_length as Hl. pose proof (zlen_nonneg rest).
  assert (Hz : size = 4096 + zlen rest) by (unfold size; rewrite zlen_app; lia).
  destruct (page_parts header_page P1) as (_ & L2 & _); [by rewrite P2|].
  destruct (seek_opened f p _ 0 O) as (f1 & Es & O1 & _); [lia|].
  assert (Hi : page_image header_page ++ rest = [] ++ PageHeader_bytes (pg_header header_page) ++ Page_payload header_page ++ rest)
    by (unfold page_image; by rewrite <-!app_assoc).
  rewrite Hi in O1.
  destruct (readPage_opened f1 p [] _ _ _ (Page_make 0 (PageType_value PT_Header)) O1) as (f2 & Er & O2);
    [apply P1|reflexivity|done|apply page_make_ok; by vm_compute|done|done|].
  rewrite <-Hi in O2.
  unfold IntegrityScanner_scan, df_fileSize. rewrite (proj2 (opened_bytes _ _ _ O)), (op_size _ _ _ O). cbn [negb].
  rewrite (proj2 (Z.ltb_ge _ _)) by (change kPageSize with 4096; lia). rewrite Es, Er.
  assert (Hv : HeaderPage_validate (page_loaded (Page_id (Page_make 0 (PageType_value PT_Header)))
    (ph_pageType (pg_header header_page)) (ph_generation (pg_header header_page)) (Page_payload header_page)) = Ok tt)
    by (vm_compute; reflexivity).
  rewrite Hv, (op_size _ _ _ O2). by exists f2.
Qed.

(** C28: Whatever the file held, after the storage has been initialized for a
    database that may be created, the integrity scan of the file succeeds and
    reports no error, over a file of its old size or of one page. *)
Theorem storage_passes_scan fs clock o p report : p ∉ fs_denied fs →
  ∃ d, initializeStorage p true (Database_make fs clock o) = (Ok tt, d) ∧
    scans_clean (db_file d) report (Z.max 4096 (zlen (default [] (fs_files fs !! p)))).
Proof.
  intros Hd. destruct (initializeStorage_spec (Database_make fs clock o) p true eq_refl Hd (or_introl eq_refl))
    as (f & c & E & O & _ & ->). cbn [db_fs Database_make] in O.
  exists (with_file f (Database_make fs clock o)). split; [done|]. cbn [db_file with_file].
  destruct (storage_image_header true (default [] (fs_files fs !! p)) eq_refl) as [Hi Hz]. rewrite Hi in O, Hz.
  destruct (scan_header f p _ report O) as (f' & Es & O'). eexists f', _. split; [exact Es|]. split; [reflexivity|].
  unfold df_fileSize. by rewrite (op_size _ _ _ O').
Qed.

Lemma storage_passes_scan_witness : ∃ d, initializeStorage "db" true demo_db = (Ok tt, d) ∧
  scans_clean (db_file d) [] 4096.
Proof.
  exact (storage_passes_scan (mkFileSystem ∅ ∅ "no such file") (λ n, Z.of_nat n + 1) DatabaseOptions_default "db" []
    (not_elem_of_empty "db")).
Defined.

(** A database of its own, without a log. *)
Definition plain_options : DatabaseOptions :=
  mkDatabaseOptions EmptyString true false true false (64 * 1024) BTreeNodeConfig_default.
Definition plain_db : Database :=
  (Database_open id "db" true (Database_make (mkFileSystem ∅ ∅ "no such file") (λ n, Z.of_nat n + 1) plain_options)).2.
Lemma plain_db_session : plain_session plain_db.
Proof.
  split; [vm_compute; reflexivity..|].
  change (db_tree plain_db) with (BTree_create (W:=BTreeWalAdapter) (SpaceManager_make FirstFitPolicy) BTreeNodeConfig_default).
  apply reach_create; [apply new_space|split; by vm_compute|reflexivity].
Qed.

Definition plain_key : Key := KeyUInt32 5.
Definition plain_ref : PageReference := PageReference_make 7 1 4.


(** ** Maintenance *)

(** [Vacuum::run] reclaims nothing: it always succeeds and leaves the page
    allocator, the extent allocator and so the set of free pages as they were,
    whatever number [pagesReclaimed] reports; only the statistics are
    recomputed. *)
Theorem vacuum_reclaims_nothing sm n :
  ∃ stats m, Vacuum_run (sm, n) = (Ok tt, (mkSpaceManager (pageAllocator_ sm) (extentAllocator_ sm) stats, m)) ∧
    freePageCount (mkSpaceManager (pageAllocator_ sm) (extentAllocator_ sm) stats) = freePageCount sm ∧
    (m = 0 ∨ m = u32 (fr_largestFreeExtent (FragmentationAnalyzer_analyze (fsm_ (extentAllocator_ sm))
                        (u32 (allocatedPageCount sm + freePageCount sm))))).
Proof.
  unfold Vacuum_run. cbv zeta. repeat case_match; eexists _, _; (split; [reflexivity|]); auto.
Qed.

Section bulk.
Context {S W : Type} `{PageSpace S} `{BTreeWalSink W}.
(** The loader inserts the keys one by one in the order given; when it succeeds
    it has counted all of them and the validator accepted the tree. *)
Lemma load_loop_counts keys : ∀ values (t : BTree S W) n t' n', 0 <= n → n + zlen keys < 2 ^ 64 →
  load_loop keys values (t, n) = (Ok tt, (t', n')) → n' = n + zlen keys.
Proof.
  induction keys as [|k keys IH]; intros values t n t' n' Hn Hl; cbn [load_loop].
  { intros [= _ <-]. change (zlen (@nil Key)) with 0. lia. }
  assert (Hz : zlen (k :: keys) = 1 + zlen keys) by (unfold zlen; cbn [length]; lia). rewrite Hz in *.
  pose proof (zlen_nonneg keys).
  destruct values as [|v values]; [done|]. unfold mbind, M_bind, zoom, modify. cbn [fst snd].
  destruct (BTree_insert k v t) as [[[]|e|w| |] t1]; try done. cbn [fst snd]. rewrite u64_small by lia.
  intros E. apply IH in E; lia.
Qed.
Lemma loadSorted_ok keys values (t t' : BTree S W) n n' : zlen keys < 2 ^ 64 →
  loadSorted keys values (t, n) = (Ok tt, (t', n')) →
  n' = zlen keys ∧ length values = length keys ∧ BTree_validate t' = Ok tt.
Proof.
  intros Hl. unfold loadSorted. destruct (Nat.eqb_spec (length keys) (length values)) as [He|]; [|done]. cbn [negb].
  unfold mbind, M_bind, modify, gets, lift. cbn [fst snd].
  destruct (load_loop keys values (t, 0)) as [[[]|e|w| |] [t1 n1]] eqn:E; try done. cbn [fst].
  apply load_loop_counts in E as ->; [|lia..]. intros [= Hv <- <-]. by rewrite Z.add_0_l.
Qed.
End bulk.
