(* ===== verification/Example.v ===== *)
(** The example program (src/examples/main.cpp): each demonstration as a
    function that returns the text it prints, over the models of the parts it
    calls.  What the text takes from the host (clocks, random numbers, the
    printing of floating-point numbers, the directory for temporary files, the
    order of a hash map) is a parameter.  A status the program discards is
    discarded here; reading a variable that a failed call left unset is [UB]. *)
From stdpp Require Import base strings list gmap pretty.
From Stdlib Require Import ZArith Lia.
From S2P Require Import Prelude VarInt Endian Buffers Config Formats Doubles FreeSpace PageAlloc SpaceMgr DbFile Instruments Pages Keys Nodes Tree TreeDemo Cursor TreeSnapshot Wal WalManager WalSink.

(** [h_show] and [h_showf] print a double and the float with the given bits;
    [h_stamp], [h_random] and [h_clock] are successive readings of the logger's
    clock, of the random generator of object ids and of the steady clock. *)
Record Host : Type := mkHost {
  h_show : double → string; h_showf : Z → string; h_date : string; h_time : string; h_cplusplus : Z;
  h_stamp : nat → string; h_random : nat → Z; h_clock : nat → Z; h_tempdir : string;
  h_order : Order; h_ord : list Z → list Z }.

Definition cat (l : list string) : string := foldr String.append EmptyString l.
Definition line (l : list string) : string := cat l +:+ newline.
Definition quote : string := String (Ascii.ascii_of_nat 34) EmptyString.

(** [std::hex]: lower-case digits without leading zeros; sixteen digits are
    enough for 64 bits. *)
Fixpoint hex_digits (fuel : nat) (n : Z) (acc : string) : string :=
  match fuel with
  | O => acc
  | S fuel =>
      let acc := String (hex_digit (n mod 16)) acc in
      if n / 16 =? 0 then acc else hex_digits fuel (n / 16) acc
  end.
Definition hex (n : Z) : string := hex_digits 16 n EmptyString.

Definition yes_no (b : bool) : string := if b then "yes" else "no".
Definition true_false (b : bool) : string := if b then "true" else "false".

(** [st.ok() ? "OK" : st.toString()] and [st.ok() ? "OK" : "FAIL"]. *)
Definition ok_or_text {A} (o : outcome A) : outcome string :=
  match o with
  | Ok _ => Ok "OK"
  | Err e => Ok (Status_toString (Some e))
  | Throw w => Throw w
  | UB => UB
  | Fuel => Fuel
  end.
Definition ok_or_fail {A} (o : outcome A) : outcome string :=
  match o with
  | Ok _ => Ok "OK"
  | Err _ => Ok "FAIL"
  | Throw w => Throw w
  | UB => UB
  | Fuel => Fuel
  end.
Definition said {S A} (text : outcome A → outcome string) (m : M S A) : M S string := λ s,
  let '(o, s) := m s in (text o, s).
(** A value read into a variable that has no value before. *)
Definition into {S A} (m : M S A) : M S A := λ s,
  match m s with (Err _, s) => (UB, s) | r => r end.

(** Characters and bytes. *)
Definition bytes_of (s : string) : list Z :=
  (λ c, Z.of_nat (Ascii.nat_of_ascii c)) <$> String.list_ascii_of_string s.
Definition string_of (bs : list Z) : string :=
  String.string_of_list_ascii ((λ b, Ascii.ascii_of_nat (Z.to_nat b)) <$> bs).
(** A C string: up to the first zero. *)
Fixpoint c_string (bs : list Z) : list Z :=
  match bs with [] => [] | b :: bs => if b =? 0 then [] else b :: c_string bs end.

(** ** Version, status, logger *)
Definition show_version (h : Host) : string :=
  cat [line ["QuartzDB Example"]; line ["================"]; newline;
       line ["Version: "; Version_string];
       line ["Build:   "; Version_buildInfo (h_date h) (h_time h) (h_cplusplus h)]; newline].

(** A status is [None] when it is a success. *)
Definition show_status : string :=
  let ok : option Status := None in
  let err := Some (mkStatus InvalidArgument "example error") in
  let is_success (s : option Status) := true_false (match s with None => true | Some _ => false end) in
  let errors := [mkStatus IOError "disk write failed"; mkStatus Corruption "page checksum mismatch";
                 mkStatus OutOfMemory "buffer allocation failed"; mkStatus Unknown "unexpected state"] in
  cat [line ["Status::success()->ok()  = "; is_success ok];
       line ["Status::success()->toString() = "; quote; Status_toString ok; quote]; newline;
       line ["Status::invalidArgument()->ok()  = "; is_success err];
       line ["Status::invalidArgument()->toString() = "; quote; Status_toString err; quote]; newline;
       cat ((λ s, line ["  "; Status_toString (Some s)]) <$> errors); newline].

(** The logger writes to the standard output, after the text [out]. *)
Definition show_logger (h : Host) (out : string) : string :=
  let log := Logger_setLevel LevelDebug (Logger_make out) in
  let log := Logger_info (h_stamp h 0) "QuartzDB example started" log in
  let log := Logger_debug (h_stamp h 1) "This is a debug message" log in
  let log := Logger_warning (h_stamp h 2) "This is a warning" log in
  let log := Logger_error (h_stamp h 3) "This is an error" log in
  lg_stream log.

(** ** Pages, the page allocator, the database file *)
Definition show_page : string :=
  let page := Page_make 100 (PageType_value PT_Data) in
  cat [newline; line ["--- Page Layer ---"];
       line ["Page id  : "; pretty (Page_id page)];
       line ["Page type: "; pretty (Page_type page)];
       line ["Page size: "; pretty kPageSize; " bytes"];
       line ["Header sz: "; pretty kPageHeaderSize; " bytes"];
       line ["Payload sz: "; pretty kPagePayloadSize; " bytes"]; newline].

Definition show_allocator : string :=
  let alloc := PageAllocator_make in
  let '(id1, alloc) := PageAllocator_allocate alloc in
  let '(id2, alloc) := PageAllocator_allocate alloc in
  let '(id3, alloc) := PageAllocator_allocate alloc in
  let alloc := (PageAllocator_free id2 alloc).2 in
  let '(recycled, alloc) := PageAllocator_allocate alloc in
  let st := pa_stats alloc in
  cat [line ["--- Page Allocator ---"];
       line ["Allocated pages: "; pretty id1; ", "; pretty id2; ", "; pretty id3];
       line ["Recycled page: "; pretty recycled; " (expect "; pretty id2; ")"];
       line ["Allocator stats: "; pretty (currentAllocated st); " current, "; pretty (totalAllocated st); " total, ";
             pretty (peakAllocated st); " peak, "; pretty (freeListSize st); " free"]; newline].

(** [fs::remove] with an error code that nobody reads. *)
Definition fs_remove (path : string) (fs : FileSystem) : FileSystem :=
  if bool_decide (path ∈ fs_denied fs) then fs
  else mkFileSystem (delete path (fs_files fs)) (fs_denied fs) (fs_what fs).

(** The block that creates the file and writes a page. *)
Definition show_file_write (path : string) : M DatabaseFile string :=
  db ← get;
  if negb (df_isOpen db) then mret EmptyString
  else
    let message := bytes_of "Hello from QuartzDB!" in
    let writePage := payload_put 0 (message ++ [0]) (Page_make 0 (PageType_value PT_Data)) in
    ws ← said ok_or_text (DatabaseFile_writePage writePage);
    size ← gets df_fileSize;
    mret (cat [line ["Created database file: "; path]; line ["Write status: "; ws];
               line ["File size: "; pretty size; " bytes"]]).

(** The block that opens it again and reads the page. *)
Definition show_file_read : M DatabaseFile string := λ db,
  if negb (df_isOpen db) then (Ok EmptyString, db)
  else
    let '(rs, (db, readPage)) := DatabaseFile_readPage (db, Page_make 0 (PageType_value PT_Data)) in
    (match rs with
     | Ok _ =>
         Ok (cat [line ["Read page "; pretty (Page_id readPage); " (type="; pretty (Page_type readPage); ")"];
                  line ["Payload: "; string_of (c_string (Page_payload readPage))]])
     | Err e => Ok (line ["Read failed: "; Status_toString (Some e)])
     | Throw w => Throw w
     | UB => UB
     | Fuel => Fuel
     end, db).

(** A file object that lives for the duration of a block. *)
Definition in_block (path : string) (create : bool) (block : M DatabaseFile string) : M FileSystem string := λ fs,
  let '(o, db) := block (DatabaseFile_construct path create fs) in (o, DatabaseFile_destroy db).

Definition show_file (h : Host) : M FileSystem string :=
  let tempPath := h_tempdir h +:+ "/quartzdb_example.db" in
  written ← in_block tempPath true (show_file_write tempPath);
  read ← in_block tempPath false show_file_read;
  modify (fs_remove tempPath);;
  mret (cat [line ["--- Database File ---"]; written; read]).

(** ** Serialization *)

(** [serialize<std::string>] and [deserialize] into an empty string, whose status
    is discarded: a failed read leaves the string resized or empty. *)
Definition read_string : M BinaryReader (list Z) := λ r,
  match BinaryReader_readVarU32 r with
  | (Ok len, r) =>
      match BinaryReader_readBytes len r with
      | (Err _, r) => (Ok (zeros (Z.to_nat len)), r)
      | res => res
      end
  | (Err _, r) => (Ok [], r)
  | (Throw w, r) => (Throw w, r)
  | (UB, r) => (UB, r)
  | (Fuel, r) => (Fuel, r)
  end.

Definition kDemoFloat : Z := 0x40490E56.

Definition write_demo_data (h : Host) : M BinaryWriter unit :=
  ignore (BinaryWriter_write 4 0xDEADBEEF);;
  ignore (BinaryWriter_write 2 0xCAFE);;
  ignore (BinaryWriter_write 1 0x42);;
  ignore (BinaryWriter_writeVarU32 12345);;
  ignore (BinaryWriter_writeVarS32 (-42));;
  ignore (BinaryWriter_writeLE (h_order h) 4 kDemoFloat);;
  ignore (string_serialize (bytes_of "Hello from Serialization!"));;
  ignore (string_serialize (bytes_of "Round-trip works!")).

Definition read_demo_data (h : Host) : M BinaryReader string :=
  u32 ← into (BinaryReader_read 4);
  u16 ← into (BinaryReader_read 2);
  u8 ← into (BinaryReader_read 1);
  varU ← into BinaryReader_readVarU32;
  varS ← into BinaryReader_readVarS32;
  f ← into (BinaryReader_readLE (h_order h) 4);
  g ← read_string;
  r ← read_string;
  mret (cat [line ["Read back: u32=0x"; hex u32; ", u16=0x"; hex u16; ", u8=0x"; hex u8];
             line ["VarU32="; pretty varU; ", VarS32="; pretty varS];
             line ["Float="; h_showf h f];
             line ["String1="; quote; string_of g; quote];
             line ["String2="; quote; string_of r; quote]]).

Definition show_serializer_header : outcome string :=
  let '(hdrSt, hdrWriter) := Serializer_writeHeader 1 (BinaryWriter_make Buffer_empty) in
  let bytes := buf_bytes (w_buffer hdrWriter) in
  st ← ok_or_fail hdrSt;
  let readSt := (Serializer_readHeader (BinaryReader_make bytes)).1 in
  rd ← ok_or_text readSt;
  Ok (cat [line ["Serializer header: "; pretty (zlen bytes); " bytes ("; st; ")"];
           line ["Header read: "; rd];
           match readSt with Ok version => line ["Header version: "; pretty version] | _ => EmptyString end]).

Definition show_serialization (h : Host) : outcome string :=
  let '(o, writer) := write_demo_data h (BinaryWriter_make Buffer_empty) in
  _ ← o;
  let bytes := buf_bytes (w_buffer writer) in
  back ← (read_demo_data h (BinaryReader_make bytes)).1;
  header ← show_serializer_header;
  Ok (cat [newline; line ["--- Serialization Layer ---"];
           line ["Wrote "; pretty (zlen bytes); " bytes to buffer"]; back;
           line ["VarInt sizes: uint32(12345)="; pretty (encodedSizeU32 12345); " bytes, int32(-42)=";
                 pretty (encodedSizeS32 (-42)); " bytes"]; header]).

(** ** Formats *)
Definition show_header (dbHeader : DatabaseHeader) : outcome string :=
  vSt ← ok_or_text (validateHeader dbHeader);
  let sb := Superblock_make (dh_databaseId dbHeader) in
  sbSt ← ok_or_text (validateSuperblock sb);
  Ok (cat [line ["DatabaseHeader: magic=0x"; hex (dh_magic dbHeader); ", version="; pretty (dh_majorVersion dbHeader); ".";
                 pretty (dh_minorVersion dbHeader); ", pageSize="; pretty (dh_pageSize dbHeader)];
           line ["  DB ID: "; ObjectId_toString (dh_databaseId dbHeader)];
           line ["  Validation: "; vSt];
           line ["Superblock: totalPages="; pretty (sb_totalPages sb); ", reserved="; pretty (sb_reservedPages sb);
                 ", freeListPage="; pretty (sb_freeListPage sb)];
           line ["  Validation: "; sbSt]]).

Definition show_formats (h : Host) : string :=
  let oid1 := ObjectId_generate (h_random h 2) (h_random h 3) in
  let oid2 := ObjectId_generate (h_random h 4) (h_random h 5) in
  let pageRef := PageReference_make 100 1 4 in
  cat [line ["ObjectId1: "; ObjectId_toString oid1];
       line ["ObjectId2: "; ObjectId_toString oid2];
       line ["  Unique: "; yes_no (negb (ObjectId_eqb oid1 oid2))];
       line ["PageReference: pageId="; pretty (pr_pageId pageRef); ", generation="; pretty (pr_generation pageRef);
             ", type="; pretty (pr_pageType pageRef)];
       line ["Feature flags: "; FF_toString (Z.lor kChecksums kJournaling)];
       line ["Format version: "; Versioning_toString Versioning_current]].

(** [serialize] and [deserialize] of a trivially copyable header: its 128 bytes. *)
Definition show_header_roundtrip (dbHeader : DatabaseHeader) : outcome string :=
  let '(serializeSt, hdrWriter) :=
    BinaryWriter_writeBytes (DatabaseHeader_bytes dbHeader) (BinaryWriter_make Buffer_empty) in
  let bytes := buf_bytes (w_buffer hdrWriter) in
  st ← ok_or_text serializeSt;
  let deserializeSt := (BinaryReader_readBytes 128 (BinaryReader_make bytes)).1 in
  rd ← ok_or_text deserializeSt;
  Ok (cat [line ["Serialized header: "; pretty (zlen bytes); " bytes ("; st; ")"];
           line ["Deserialized: "; rd];
           match deserializeSt with
           | Ok bs => line ["  Match: "; yes_no (ObjectId_eqb (dh_databaseId (DatabaseHeader_of bs)) (dh_databaseId dbHeader))]
           | _ => EmptyString
           end]).

Definition show_descriptors : string :=
  let md := MetadataDescriptor_make kMetadataMagic 1 10 4 16384 in
  let sd := SchemaDescriptor_make 1 50 8 in
  cat [line ["MetadataDescriptor: page="; pretty (md_startPage md); ", count="; pretty (md_pageCount md);
             ", bytes="; pretty (md_byteSize md)];
       line ["SchemaDescriptor: id="; pretty (sd_schemaId sd); ", rootPage="; pretty (sd_rootPage sd);
             ", fields="; pretty (sd_fieldCount sd)]].

Definition show_format (h : Host) : outcome string :=
  let dbHeader := DatabaseHeader_make (h_random h 0) (h_random h 1) in
  header ← show_header dbHeader;
  roundtrip ← show_header_roundtrip dbHeader;
  Ok (cat [newline; line ["--- Format Layer ---"]; header; show_formats h; roundtrip; show_descriptors]).

(** ** Semantic pages *)
Record DemoPages : Set := mkDemoPages {
  dp_header : BasePage; dp_freeList : BasePage; dp_data : BasePage; dp_index : BasePage;
  dp_overflow : BasePage; dp_metadata : BasePage }.

(** Two pages are added to the free list, whose status is discarded. *)
Definition add_demo_pages (b : BasePage) : outcome BasePage :=
  let '(o, p) := (ignore (FreeListPage_addFreePage 100);; ignore (FreeListPage_addFreePage 200)) (bp_page b) in
  _ ← o; Ok (mkBasePage (bp_class b) p).

Definition demo_pages : outcome DemoPages :=
  freeList ← add_demo_pages (FreeListPage_create 2);
  Ok (mkDemoPages (HeaderPage_create 1 0 0) freeList
    (on_page (DataPage_setFreeSpaceOffset 64) (DataPage_create 8))
    (on_page (λ p, IndexBytes_setCapacity 50 (IndexBytes_setNodeType 1 p)) (IndexBytes_create 10))
    (on_page (λ p, OverflowPage_setPayloadSize 1024 (OverflowPage_setNextPageId 13 p)) (OverflowPage_create 12))
    (on_page (λ p, MetadataPage_setEntryCount 5 (MetadataPage_setVersion 1 p)) (MetadataPage_create 14))).

Definition show_demo_pages (d : DemoPages) : string :=
  let id b := pretty (BasePage_id b) in
  cat [line ["HeaderPage: id="; id (dp_header d); ", type="; pretty (Page_type (bp_page (dp_header d)));
             ", version=0x"; hex (HeaderPage_formatVersion (bp_page (dp_header d)))];
       line ["FreeListPage: id="; id (dp_freeList d); ", freeCount="; pretty (FreeListPage_freeCount (bp_page (dp_freeList d)));
             ", capacity="; pretty (FreeListPage_capacity (bp_page (dp_freeList d)))];
       line ["DataPage: id="; id (dp_data d); ", freeSpaceOffset="; pretty (DataPage_freeSpaceOffset (bp_page (dp_data d)));
             ", available="; pretty (DataPage_availableSpace (bp_page (dp_data d)))];
       line ["IndexPage: id="; id (dp_index d); ", nodeType="; pretty (IndexBytes_nodeType (bp_page (dp_index d)));
             ", capacity="; pretty (IndexBytes_capacity (bp_page (dp_index d)))];
       line ["OverflowPage: id="; id (dp_overflow d); ", nextPage="; pretty (OverflowPage_nextPageId (bp_page (dp_overflow d)));
             ", payloadSize="; pretty (OverflowPage_payloadSize (bp_page (dp_overflow d)));
             ", remaining="; pretty (OverflowPage_remainingCapacity (bp_page (dp_overflow d)))];
       line ["MetadataPage: id="; id (dp_metadata d); ", version="; pretty (MetadataPage_version (bp_page (dp_metadata d)));
             ", entries="; pretty (MetadataPage_entryCount (bp_page (dp_metadata d)))]].

Definition show_page_validation (d : DemoPages) : outcome string :=
  header ← ok_or_fail (validatePage (dp_header d));
  freeList ← ok_or_fail (validatePage (dp_freeList d));
  data ← ok_or_fail (validatePage (dp_data d));
  idx ← ok_or_fail (validatePage (dp_index d));
  overflow ← ok_or_fail (validatePage (dp_overflow d));
  metadata ← ok_or_fail (validatePage (dp_metadata d));
  Ok (cat [newline; line ["Validation:"]; line ["  HeaderPage:   "; header]; line ["  FreeListPage: "; freeList];
           line ["  DataPage:     "; data]; line ["  IndexPage:    "; idx];
           line ["  OverflowPage: "; overflow]; line ["  MetadataPage: "; metadata]]).

(** Three pages written one after the other and read back through the factory. *)
Definition write_demo_pages (d : DemoPages) : M BinaryWriter string :=
  st1 ← said ok_or_fail (BasePage_serialize (dp_header d));
  st2 ← said ok_or_fail (BasePage_serialize (dp_freeList d));
  st3 ← said ok_or_fail (BasePage_serialize (dp_data d));
  mret (line ["  Serialize: "; if bool_decide (st1 = "OK" ∧ st2 = "OK" ∧ st3 = "OK") then "OK" else "FAIL"]).

Definition read_demo_pages : M BinaryReader (option BasePage * option BasePage * option BasePage) :=
  restoredHeader ← PageFactory_deserialize PL_Header;
  restoredFreeList ← PageFactory_deserialize PL_FreeList;
  restoredData ← PageFactory_deserialize PL_Data;
  mret (restoredHeader, restoredFreeList, restoredData).

(** [if (page) ...]: nothing for a page that was not restored. *)
Definition if_restored (b : option BasePage) (text : BasePage → outcome string) : outcome string :=
  match b with Some b => text b | None => Ok EmptyString end.

Definition show_restored (header freeList data : option BasePage) : outcome string :=
  h ← if_restored header (λ b, Ok (line ["  Restored HeaderPage: id="; pretty (BasePage_id b)]));
  f ← if_restored freeList (λ b, Ok (line ["  Restored FreeListPage: id="; pretty (BasePage_id b); ", freeCount=";
        pretty (match bp_class b with C_FreeListPage => FreeListPage_freeCount (bp_page b) | _ => 0 end)]));
  d ← if_restored data (λ b, Ok (line ["  Restored DataPage: id="; pretty (BasePage_id b); ", available=";
        pretty (match bp_class b with C_DataPage => DataPage_availableSpace (bp_page b) | _ => 0 end)]));
  let validated (name : string) (b : BasePage) := v ← ok_or_fail (validatePage b); Ok (line ["  "; name; ": "; v]) in
  hv ← if_restored header (validated "HeaderPage");
  fv ← if_restored freeList (validated "FreeListPage");
  dv ← if_restored data (validated "DataPage");
  Ok (cat [h; f; d; newline; line ["Restored page validation:"]; hv; fv; dv]).

Definition show_page_statistics (h : Host) (d : DemoPages) : string :=
  let stats := PageStatistics_toString (h_show h) in
  cat [newline; line ["Page Statistics:"]; stats (stats_HeaderPage (bp_page (dp_header d)));
       stats (stats_FreeListPage (bp_page (dp_freeList d))); stats (stats_DataPage (bp_page (dp_data d)));
       stats (stats_OverflowPage (bp_page (dp_overflow d))); stats (stats_IndexPage (bp_page (dp_index d)));
       stats (stats_MetadataPage (bp_page (dp_metadata d)))].

Definition show_pages (h : Host) : outcome string :=
  d ← demo_pages;
  valid ← show_page_validation d;
  let '(o, writer) := write_demo_pages d (BinaryWriter_make Buffer_empty) in
  serialized ← o;
  '(header, freeList, data) ← (read_demo_pages (BinaryReader_make (buf_bytes (w_buffer writer)))).1;
  restored ← show_restored header freeList data;
  Ok (cat [newline; line ["--- Semantic Page Layer ---"]; show_demo_pages d; valid; newline;
           line ["PageFactory serialization round-trip:"]; serialized; restored; show_page_statistics h d]).

(** ** Space management *)
Definition show_counts (sm : SpaceManager) : string :=
  line ["  Free pages: "; pretty (freePageCount sm); ", Allocated: "; pretty (allocatedPageCount sm)].

Definition show_fragmentation (h : Host) (sm : SpaceManager) : string :=
  let report := FragmentationAnalyzer_analyze (fsm_ (extentAllocator_ sm)) (u32 (freePageCount sm + allocatedPageCount sm)) in
  let stats := stats_ sm in
  cat [newline; line ["Fragmentation Report:"]; line ["  Free pages: "; pretty (fr_totalFreePages report)];
       line ["  Extents: "; pretty (fr_extentCount report)];
       line ["  Largest extent: "; pretty (fr_largestFreeExtent report)];
       line ["  Fragmentation: "; h_show h (fr_fragmentationPercent report); "%"];
       line ["  Recommendation: "; fr_recommendation report]; newline; line ["Space Statistics:"];
       line ["  Allocations: "; pretty (allocationsSucceeded stats); " success, "; pretty (allocationsFailed stats); " failed"];
       line ["  Frees: "; pretty (freesSucceeded stats); " success, "; pretty (freesFailed stats); " failed"]].

Definition demo_hints : AllocationHints := mkHints true false false 1 false.

Definition show_policies : string :=
  let seqSm := SpaceManager_make (SequentialPolicy kFirstDataPageId) in
  let '(seq1, seqSm) := allocatePage seqSm in
  let '(seq2, seqSm) := allocatePage seqSm in
  let '(bfExt, bfSm) := allocateExtent 3 demo_hints (SpaceManager_make BestFitPolicy) in
  cat [newline; line ["Allocation policies:"]; line ["  Sequential: "; pretty seq1; ", "; pretty seq2];
       line ["  BestFit extent: start="; pretty (e_start bfExt); ", length="; pretty (e_length bfExt)]].

Definition show_extents : string :=
  let e1 := mkExtent 100 10 in
  let e2 := mkExtent 110 5 in
  let range e := cat ["["; pretty (e_start e); ","; pretty (endPage e); ") len="; pretty (e_length e)] in
  cat [newline; line ["Extent operations:"]; line ["  E1 "; range e1]; line ["  E2 "; range e2];
       line ["  Adjacent: "; yes_no (adjacentTo e1 e2)];
       match Extent_merge e1 e2 with Some merged => line ["  Merged: "; range merged] | None => EmptyString end;
       line ["  Contains(105): "; yes_no (containsPage e1 105)]].

Definition show_space (h : Host) : outcome string :=
  let sm0 := SpaceManager_make FirstFitPolicy in
  let '(p1, sm) := allocatePage sm0 in
  let '(p2, sm) := allocatePage sm in
  let '(p3, sm3) := allocatePage sm in
  let sm := (freePage p2 sm3).2 in
  let '(smRecycled, sm) := allocatePage sm in
  let '(ext, sm4) := allocateExtent 10 demo_hints sm in
  let '(reserved, sm) := said ok_or_text (reserveRange 2000 5) sm4 in
  reserved ← reserved;
  let '(freed, sm) := said ok_or_text (freeExtent ext) sm in
  freed ← freed;
  Ok (cat [newline; line ["--- Space Management Layer ---"]; line ["SpaceManager initialized:"]; show_counts sm0;
           line ["Allocated pages: "; pretty p1; ", "; pretty p2; ", "; pretty p3]; show_counts sm3;
           line ["Freed page "; pretty p2; ", recycled as "; pretty smRecycled];
           line ["Allocated extent: start="; pretty (e_start ext); ", length="; pretty (e_length ext)]; show_counts sm4;
           line ["Reserved range [2000,2005): "; reserved]; line ["Freed extent: "; freed];
           show_fragmentation h sm; show_policies; show_extents]).

(** ** Nodes *)

(** An index page as its default constructor makes it. *)
Definition IndexPage_default : IndexPage :=
  mkIndexPage (PageHeader_make 0 (PageType_value PT_Index)) 0 0 0 0 [0; 0; 0] (zeros (Z.to_nat kIndexDataSize)).

Definition fill_leaf : M LeafNode unit :=
  ignore (LeafNode_insert (KeyUInt32 30) (PageReference_make 300 1 (PageType_value PT_Data)));;
  ignore (LeafNode_insert (KeyUInt32 10) (PageReference_make 100 1 0));;
  ignore (LeafNode_insert (KeyUInt32 20) (PageReference_make 200 1 0)).

(** The page is read back from what was written; a failed read leaves the page
    as it was. *)
Definition restore_leaf (bytes : list Z) : outcome LeafNode :=
  match (IndexPage_deserialize (BinaryReader_make bytes)).1 with
  | Ok p => Ok (LeafNode_fromPage p)
  | Err _ => Ok (LeafNode_fromPage IndexPage_default)
  | Throw w => Throw w
  | UB => UB
  | Fuel => Fuel
  end.

(** [for (i = 0; i < keyCount; ++i)]: the cursor is sought to [i] and printed. *)
Fixpoint show_entries (n : nat) (i : Z) : M (Cursor SpaceManager unit) string :=
  match n with
  | O => mret EmptyString
  | S n =>
      ignore (Cursor_seek i);;
      c ← get;
      key ← lift (currentKey c);
      ref ← lift (currentReference c);
      rest ← show_entries n (i + 1);
      mret (line ["  ["; pretty i; "] key="; Key_toString key; " ref.pageId="; pretty (pr_pageId ref)] +:+ rest)
  end.

Definition show_node_statistics (h : Host) (n : BTreeNode) : string :=
  let stats := computeStatistics n in
  cat [line ["Node statistics:"];
       line ["  keys="; pretty (ns_keyCount stats); "/"; pretty (ns_capacity stats); ", occupancy=";
             h_show h (ns_occupancyPercent stats); "%"];
       line ["  freeSlots="; pretty (ns_freeSlots stats); ", utilization="; h_show h (ns_estimatedUtilization stats); "%"]].

Definition show_node (h : Host) : outcome string :=
  let leaf0 := LeafNode_create 200 BTreeNodeConfig_default in
  let '(o, leaf) := fill_leaf leaf0 in
  _ ← o;
  let '(serSt, nodeWriter) := BTreeNode_serialize (lf_node leaf) (BinaryWriter_make Buffer_empty) in
  ser ← ok_or_text serSt;
  restored ← restore_leaf (buf_bytes (w_buffer nodeWriter));
  valid ← ok_or_fail (LeafNode_validate restored);
  entries ← (show_entries (Z.to_nat (keyCount (lf_node restored))) 0 (bindLeaf (Some restored))).1;
  Ok (cat [newline; line ["--- B-Tree Node Engine ---"];
           line ["Created LeafNode: page="; pretty (ip_id (page_ (lf_node leaf0))); ", capacity="; pretty (capacity (lf_node leaf0))];
           line ["Inserted 3 keys, keyCount="; pretty (keyCount (lf_node leaf))];
           line ["  contains(20): "; yes_no (LeafNode_contains (KeyUInt32 20) leaf)];
           line ["  lowerBound(25): "; pretty (lowerBound (lf_keys leaf) (KeyUInt32 25))];
           line ["Serialize: "; ser];
           line ["Deserialize: keyCount="; pretty (keyCount (lf_node restored)); ", validate="; valid];
           line ["Cursor traversal:"]; entries; show_node_statistics h (lf_node restored)]).

(** ** The tree *)
Section demo_tree.
Context {W : Type} `{BTreeWalSink W}.
Notation BT := (BTree SpaceManager W).

(** [n] insertions from the key [i] on, of the references [base + i]. *)
Fixpoint insert_keys (n : nat) (base i : Z) : M BT unit :=
  match n with
  | O => mret tt
  | S n =>
      ignore (BTree_insert (KeyUInt32 i) (PageReference_make (base + i) 1 (PageType_value PT_Data)));;
      insert_keys n base (i + 1)
  end.
(** [n] erasures of the even keys from [2 * i] on. *)
Fixpoint erase_keys (n : nat) (i : Z) : M BT unit :=
  match n with
  | O => mret tt
  | S n => ignore (BTree_erase (KeyUInt32 (u32 (i * 2))));; erase_keys n (i + 1)
  end.
(** [for (n = 0; n < 5 && cursor.valid(); ++n)]. *)
Fixpoint show_first (n : nat) : M (Cursor SpaceManager W) string :=
  match n with
  | O => mret EmptyString
  | S n =>
      c ← get;
      if Cursor_valid c then
        key ← lift (currentKey c);
        ignore Cursor_next;;
        rest ← show_first n;
        mret (line ["  "; Key_toString key] +:+ rest)
      else mret EmptyString
  end.

Definition show_tree_statistics (h : Host) (t : BT) : string :=
  let tstats := BTree_statistics (h_ord h) t in
  cat [line ["Tree statistics:"];
       line ["  nodes="; pretty (ts_nodeCount tstats); " (leaves="; pretty (ts_leafCount tstats); ", internal=";
             pretty (ts_internalCount tstats); ")"];
       line ["  avg occupancy="; h_show h (ts_averageOccupancy tstats); "%"];
       line ["  splits="; pretty (splitCount (ts_operations tstats)); ", merges="; pretty (mergeCount (ts_operations tstats));
             ", rotations="; pretty (rotationCount (ts_operations tstats))]].
End demo_tree.

Notation DemoTree := (BTree SpaceManager unit).

(** What is printed once the keys were inserted, and once some were erased. *)
Definition show_inserted (tree : DemoTree) : string :=
  cat [line ["Inserting 300 keys..."];
       line ["  size="; pretty (bt_size tree); ", height="; pretty (bt_height tree)];
       line ["  contains(150): "; yes_no (BTree_contains (KeyUInt32 150) tree)];
       match BTree_find (KeyUInt32 42) tree with
       | Ok found => line ["  find(42): pageId="; pretty (pr_pageId found)]
       | _ => EmptyString
       end].
Definition show_erased (h : Host) (tree : DemoTree) : outcome string :=
  cursor ← BTree_begin tree;
  first ← (show_first 5 cursor).1;
  valid ← ok_or_fail (BTree_validate tree);
  Ok (cat [line ["Deleting 50 keys..."]; line ["  size after delete="; pretty (bt_size tree)];
           line ["Cursor traversal (first 5 keys):"]; first; line ["Validate: "; valid]; show_tree_statistics h tree]).

Definition tree_block (h : Host) : M DemoTree string :=
  insert_keys 300 1000 0;;
  inserted ← gets show_inserted;
  erase_keys 50 0;;
  tree ← get;
  erased ← lift (show_erased h tree);
  mret (cat [newline; line ["--- B-Tree Algorithms ---"]; inserted; erased]).
Definition show_tree (h : Host) : outcome string :=
  (tree_block h (BTree_create (SpaceManager_make FirstFitPolicy) BTreeNodeConfig_default)).1.

(** ** The write-ahead log *)

(** [fs::path::operator/] of a directory and a file name. *)
Definition path_join (dir file : string) : string :=
  if bool_decide (dir = EmptyString) then file
  else match String.get (String.length dir - 1) dir with
       | Some c => if Ascii.eqb c (Ascii.ascii_of_nat 47) then dir +:+ file else dir +:+ "/" +:+ file
       | None => file
       end.

(** Five records, made and appended one by one; [LogRecord::make] reads the
    clock, from its reading [n] on. *)
Fixpoint append_demo (h : Host) (k n : nat) : M LogManager unit :=
  match k with
  | O => mret tt
  | S k =>
      ignore (LogManager_append (LogRecord_make (h_clock h n) LRT_PageUpdate (Z.of_nat n + 1) 0));;
      append_demo h k (S n)
  end.

(** [while (logManager.readNext(record).ok())]: the records read. *)
Fixpoint read_all (fuel : nat) : M LogManager (list LogRecord) := λ m,
  match fuel with
  | O => (Fuel, m)
  | S fuel =>
      match LogManager_readNext m with
      | (Ok record, m) => (records ← read_all fuel; mret (record :: records)) m
      | (Err _, m) => (Ok [], m)
      | (Throw w, m) => (Throw w, m)
      | (UB, m) => (UB, m)
      | (Fuel, m) => (Fuel, m)
      end
  end.
(** A record takes at least one byte of the file. *)
Definition read_log : M LogManager (list LogRecord) :=
  ignore rewindReader;; fuel ← gets log_fuel; read_all (S fuel).

Definition show_log_statistics (m : LogManager) : string :=
  let logStats := LogManager_statistics m in
  cat [line ["WAL statistics:"];
       line ["  records="; pretty (ls_recordCount logStats); ", bytesWritten="; pretty (ls_bytesWritten logStats);
             ", flushes="; pretty (ls_flushCount logStats); ", currentLsn="; LSN_toString (ls_currentLsn logStats)]].

Definition show_log (h : Host) (walPath : string) : M LogManager string :=
  st ← said ok_or_text (LogManager_initialize walPath true);
  append_demo h 5 0;;
  ignore LogManager_flush;;
  records ← read_log;
  m ← get;
  mret (cat [newline; line ["--- Write-Ahead Log ---"]; line ["LogManager initialize: "; st]; line ["Log records:"];
             cat ((λ r, line ["  "; LogRecord_toString r]) <$> records); show_log_statistics m]).

(** The records the log holds after fifty insertions, and the tree. *)
Definition show_logged_records (walTree : BTree SpaceManager BTreeWalAdapter) : M LogManager string :=
  ignore LogManager_flush;;
  records ← read_log;
  valid ← lift (ok_or_fail (BTree_validate walTree));
  mret (cat [newline; line ["B-tree with WAL:"];
             line ["  btree inserts produced "; pretty (length records); " total WAL records"];
             line ["  btree size="; pretty (bt_size walTree); ", validate="; valid]]).

(** Fifty insertions into a tree whose sink is an adapter over the log. *)
Definition logged_insertions (h : Host) (m : LogManager) : outcome unit * BTree SpaceManager BTreeWalAdapter :=
  let walTree := BTree_create (SpaceManager_make FirstFitPolicy) BTreeNodeConfig_default in
  insert_keys 50 2000 0 (set_wal (Some (mkWalAdapter m (h_clock h) 5)) walTree).
Definition show_logged_tree (h : Host) : M LogManager string := λ m,
  let '(o, walTree) := logged_insertions h m in
  let m := match bt_wal walTree with Some a => wa_manager a | None => m end in
  match o with
  | Ok _ => show_logged_records walTree m
  | Err e => (Err e, m)
  | Throw w => (Throw w, m)
  | UB => (UB, m)
  | Fuel => (Fuel, m)
  end.

Definition show_wal_block (h : Host) (walPath : string) : M LogManager string :=
  text ← show_log h walPath;
  logged ← show_logged_tree h;
  ignore LogManager_shutdown;;
  mret (text +:+ logged).
Definition show_wal (h : Host) : M FileSystem string := λ fs,
  let walPath := path_join (h_tempdir h) "quartzdb_example.wal" in
  let '(o, logManager) := show_wal_block h walPath (LogManager_make (fs_remove walPath fs)) in
  (o, fs_remove walPath (df_fs (lf_file (lm_file logManager)))).

(** ** main *)
Definition example_main (h : Host) : M FileSystem string :=
  let banner := show_logger h (show_version h +:+ show_status) in
  file ← show_file h;
  serialization ← lift (show_serialization h);
  format ← lift (show_format h);
  pages ← lift (show_pages h);
  space ← lift (show_space h);
  node ← lift (show_node h);
  tree ← lift (show_tree h);
  wal ← show_wal h;
  mret (cat [banner; show_page; show_allocator; file; serialization; format; pages; space; node; tree; wal;
             newline; line ["Example completed successfully."]]).
