(* ===== verification/ExampleFacts.v ===== *)
(** What the demonstrations of the example program show: the sequential load of
    the tree, whatever its length, and the page written to a file. *)
From stdpp Require Import base strings list gmap decidable sorting sets pretty.
From Stdlib Require Import ZArith Lia.
From S2P Require Import Prelude Config PageAlloc FreeSpace SpaceMgr Buffers DbFile Instruments Pages PageFacts Keys Nodes NodeFacts Tree TreeShape TreeFacts TreeSearch TreeInsert TreeErase TreeValid TreeRebalance TreeReach TreeDemo TreeDict TreeLog DatabaseFacts DatabaseTools Example.

(** An insertion of a new key into the dictionary machine: no key disappears
    altogether, and no other key is given a binding. *)
Lemma dict_insert_new d key v o d' : dict_step d (OpInsert key v) o d' → PageReference_isValid v = true →
  d_map d !! key = None →
  o = Ok tt ∧ d_size d' = u64 (d_size d + 1) ∧
  (∀ k, k ∈ dom (d_map d') ∨ k ∈ d_seps d' ↔ k = key ∨ k ∈ dom (d_map d) ∨ k ∈ d_seps d) ∧
  (∀ k r, d_map d' !! k = Some r → (k = key ∧ r = v) ∨ d_map d !! k = Some r).
Proof.
  intros Hst Hv Hn. inversion Hst as [| |? ? ? ? Hs|? ? x ? ? Hs Hx| | | |]; subst; try congruence; cbn [d_map d_seps d_size].
  - split_and!; [done..| |].
    + intros k. rewrite dom_insert. set_solver.
    + intros k r. rewrite lookup_insert_Some. naive_solver.
  - split_and!; [done..| |].
    + intros k. rewrite dom_delete, dom_insert in *. destruct (decide (k = x)) as [->|]; set_solver.
    + intros k r. rewrite lookup_delete_Some, lookup_insert_Some. naive_solver.
Qed.

(** ** Sequential load *)
Section load.
Context {W : Type} `{BTreeWalSink W} `{Fo : ForeignPages}.
Notation BT := (BTree SpaceManager W).
Implicit Types (t : BT).

Definition load_ref (base j : Z) : PageReference := PageReference_make (base + j) 1 (PageType_value PT_Data).

Lemma insert_keys_last n base i t :
  insert_keys (S n) base i t =
  (insert_keys n base i;; ignore (BTree_insert (KeyUInt32 (i + Z.of_nat n)) (load_ref base (i + Z.of_nat n)))) t.
Proof.
  revert i t. induction n as [|n IH]; intros i t.
  - cbn [insert_keys]. rewrite Z.add_0_r. unfold mbind, M_bind, mret, M_ret, ignore, load_ref.
    by destruct (BTree_insert _ _ t) as [[[]|e|w| |] t'].
  - change (insert_keys (S (S n)) base i) with
      (ignore (BTree_insert (KeyUInt32 i) (load_ref base i));; insert_keys (S n) base (i + 1)).
    change (insert_keys (S n) base i) with
      (ignore (BTree_insert (KeyUInt32 i) (load_ref base i));; insert_keys n base (i + 1)).
    unfold mbind at 1 2 3, M_bind at 1 2 3.
    destruct (ignore (BTree_insert (KeyUInt32 i) (load_ref base i)) t) as [[[]|e|w| |] t']; try done.
    rewrite IH. unfold mbind, M_bind. by replace (i + 1 + Z.of_nat n) with (i + Z.of_nat (S n)) by lia.
Qed.

(** An insertion does not change the configuration. *)
Lemma insert_config t key v : reach t → key_fits (bt_config t) key → is_separator key t = false → enough_pages t →
  bt_config (BTree_insert key v t).2 = bt_config t.
Proof.
  intros Hr Hkf Hsep Hroom. destruct (reach_good t Hr) as (Hcfg & Hnd & Ht).
  destruct (PageReference_isValid v) eqn:Hv; [|by rewrite insert_invalid]. destruct Ht as [Hn|(p & h & Hh)].
  - destruct (insert_first t key v Hn Hcfg Hv Hkf) as (t' & id & -> & _ & Hc & _); [|done].
    by eapply room_le; [|exact Hroom]; lia.
  - destruct (decide (key ∈ (entries p).*1)) as [Hk|Hk]; [by rewrite (insert_duplicate t p h)|].
    destruct (insert_spec t p h key v Hh Hcfg Hv Hkf) as (o & t' & lost & -> & (_ & p' & h' & _ & _ & _ & Hc & _) & _);
      [by eapply separator_spec|intros _; by eapply enough_pages_room|done].
Qed.

(** The tree after the keys below [n] were inserted. *)
Record loaded (cfg : BTreeNodeConfig) (base : Z) (n : nat) t : Prop := {
  ld_reach : reach t; ld_config : bt_config t = cfg; ld_size : bt_size t = Z.of_nat n;
  ld_keys : ∀ k, k ∈ dom (d_map (dict_of t)) ∨ k ∈ d_seps (dict_of t) ↔ ∃ j, 0 <= j < Z.of_nat n ∧ k = KeyUInt32 j;
  ld_refs : ∀ j r, d_map (dict_of t) !! KeyUInt32 j = Some r → r = load_ref base j }.

Lemma loaded_step cfg base n t : loaded cfg base n t → keyType cfg = KT_UInt32 → 0 <= base →
  base + Z.of_nat n < kInvalidPageId → enough_pages t →
  ∃ t', BTree_insert (KeyUInt32 (Z.of_nat n)) (load_ref base (Z.of_nat n)) t = (Ok tt, t') ∧ loaded cfg base (S n) t'.
Proof.
  intros [Hr Hc Hz Hk Hf] Hkt Hb Hn Hp. set (key := KeyUInt32 (Z.of_nat n)). set (v := load_ref base (Z.of_nat n)).
  assert (Hv : PageReference_isValid v = true) by (apply negb_true_iff, Z.eqb_neq; change (base + Z.of_nat n ≠ kInvalidPageId); lia).
  assert (Hnew : ¬ (key ∈ dom (d_map (dict_of t)) ∨ key ∈ d_seps (dict_of t))).
  { rewrite Hk. intros (j & Hj & [= E]). lia. }
  assert (Hkf : key_fits (bt_config t) key) by (rewrite Hc; unfold key_fits, keyWireSize; by rewrite Hkt).
  assert (Hsep : is_separator key t = false).
  { apply not_true_iff_false. intros Hs%elem_of_separators. apply Hnew. right. by apply elem_of_list_to_set. }
  assert (Hok : op_ok (OpInsert key v) t) by done.
  pose proof (insert_config t key v Hr Hkf Hsep Hp) as Hc'. pose proof (reach_insert t key v Hr Hkf Hsep Hp) as Hr'.
  destruct (BTree_insert key v t) as [o t'] eqn:E. cbn [snd] in *.
  pose proof (insert_step t key v o t' Hr Hok E) as Hst. exists t'.
  destruct (dict_insert_new _ _ _ _ _ Hst Hv) as (-> & Hz' & Hk' & Hf').
  { apply not_elem_of_dom. tauto. }
  split; [done|]. split; [done|congruence| | |].
  - cbn in Hz'. rewrite Hz', Hz, u64_small by (unfold kInvalidPageId in Hn; lia). lia.
  - intros k. rewrite Hk', Hk. split.
    + intros [->|(j & Hj & ->)]; [exists (Z.of_nat n); split; [lia|done]|exists j; split; [lia|done]].
    + intros (j & Hj & ->). destruct (decide (j = Z.of_nat n)) as [->|]; [by left|right; exists j; split; [lia|done]].
  - intros j r Hl. apply Hf' in Hl as [[[= ->] ->]|Hl]; [done|by apply Hf].
Qed.

Lemma insert_keys_loaded sp cfg base n : all_foreign sp → config_ok cfg → allowDuplicates cfg = false →
  keyType cfg = KT_UInt32 → 0 <= base → base + Z.of_nat n <= kInvalidPageId →
  (∀ j, (j < n)%nat → enough_pages (insert_keys j base 0 (BTree_create sp cfg : BT)).2) →
  ∃ t, insert_keys n base 0 (BTree_create sp cfg) = (Ok tt, t) ∧ loaded cfg base n t.
Proof.
  intros Hsp Hcfg Hnd Hkt Hb. induction n as [|n IH]; intros Hn Hp.
  - exists (BTree_create sp cfg). split; [done|]. split; [by apply reach_create|done|done| |].
    + rewrite dict_create by done. cbn. intros k. split; [set_solver|]. intros (j & Hj & _). lia.
    + rewrite dict_create by done. intros j r. cbn. by rewrite lookup_empty.
  - destruct IH as (t & E & Hl); [lia|intros j Hj; apply Hp; lia|].
    assert (Hpt : enough_pages t) by (specialize (Hp n ltac:(lia)); by rewrite E in Hp).
    destruct (loaded_step cfg base n t Hl Hkt Hb ltac:(lia) Hpt) as (t' & E' & Hl').
    exists t'. split; [|done]. rewrite insert_keys_last. unfold mbind, M_bind. rewrite E, Z.add_0_l.
    unfold ignore. by rewrite E'.
Qed.

Lemma erase_keys_reach n i t : reach t → reach (erase_keys n i t).2.
Proof.
  revert i t. induction n as [|n IH]; intros i t Hr; [done|]. cbn [erase_keys].
  pose proof (reach_erase t (KeyUInt32 (u32 (i * 2))) Hr) as Hr1. unfold mbind, M_bind, ignore.
  destruct (BTree_erase (KeyUInt32 (u32 (i * 2))) t) as [[[]|e|w| |] t1]; cbn [snd] in *; auto.
Qed.

(** C39: The load of the example program, for any number of keys: inserting the
    keys 0, 1, 2, ... one after the other into a new tree over 32-bit keys, while
    pages last, succeeds every time; the tree then reports as many entries, the
    validator accepts it, and each key is found with the reference it was given
    or was taken out of its leaf by a split, is not found and stands as a
    separator.  Whatever the erasures that follow do, the validator accepts the
    tree they leave. *)
Theorem example_sequential_load sp cfg base n : all_foreign sp → config_ok cfg → allowDuplicates cfg = false →
  keyType cfg = KT_UInt32 → 0 <= base → base + Z.of_nat n <= kInvalidPageId →
  (∀ j, (j < n)%nat → enough_pages (insert_keys j base 0 (BTree_create sp cfg : BT)).2) →
  ∃ t, insert_keys n base 0 (BTree_create sp cfg) = (Ok tt, t) ∧ bt_size t = Z.of_nat n ∧ BTree_validate t = Ok tt ∧
    (∀ j, 0 <= j < Z.of_nat n →
       BTree_find (KeyUInt32 j) t = Ok (load_ref base j) ∨
       (BTree_find (KeyUInt32 j) t = invalidArgument "BTree: key not found" ∧ is_separator (KeyUInt32 j) t = true)) ∧
    ∀ m, BTree_validate (erase_keys m 0 t).2 = Ok tt.
Proof.
  intros Hsp Hcfg Hnd Hkt Hb Hn Hp.
  destruct (insert_keys_loaded sp cfg base n Hsp Hcfg Hnd Hkt Hb Hn Hp) as (t & E & [Hr Hc Hz Hk Hf]).
  exists t. split_and!; [done..|by apply reach_validates| |].
  - intros j Hj. rewrite find_lookup by done. destruct (d_map (dict_of t) !! KeyUInt32 j) as [r|] eqn:El.
    { left. f_equal. by apply Hf. }
    right. destruct (proj2 (Hk (KeyUInt32 j)) ltac:(eauto)) as [Hd|Hs]; [by apply not_elem_of_dom in El|].
    assert (Hsep : is_separator (KeyUInt32 j) t = true) by (apply elem_of_separators; by apply elem_of_list_to_set in Hs).
    split; [|done]. destruct (empty_ t) eqn:Ee; [|done]. by rewrite (empty_no_separator t _ Hr Ee) in Hsep.
  - intros m. by apply reach_validates, erase_keys_reach.
Qed.
End load.

(** Three keys into a tree of its own. *)
Lemma example_sequential_load_witness :
  ∃ t, insert_keys 3 1000 0 (BTree_create (SpaceManager_make FirstFitPolicy) BTreeNodeConfig_default : DemoTree) = (Ok tt, t) ∧
    bt_size t = 3 ∧ BTree_validate (erase_keys 2 0 t).2 = Ok tt.
Proof.
  destruct (example_sequential_load (W := unit) (SpaceManager_make FirstFitPolicy) BTreeNodeConfig_default 1000 3)
    as (t & E & Hz & _ & _ & He).
  - apply new_space.
  - split; by vm_compute.
  - reflexivity.
  - reflexivity.
  - discriminate.
  - vm_compute. discriminate.
  - intros j Hj. apply room_next.
    + destruct j as [|[|[|j]]]; [| | |lia]; (split; [split; vm_compute; discriminate|]); split; vm_compute; constructor.
    + destruct j as [|[|[|j]]]; [| | |lia]; vm_compute; discriminate.
  - exists t. split; [exact E|]. split; [exact Hz|exact (He 2%nat)].
Defined.

(** ** The serialization demonstration *)

(** What the program prints on a little-endian host: it writes 62 bytes with
    success and reads zeros and empty strings back, and the header it wrote is
    not recognised. *)
Lemma example_serialization_lost h : h_order h = Endian.Little → show_serialization h =
  Ok (cat [newline; line ["--- Serialization Layer ---"]; line ["Wrote "; "62"; " bytes to buffer"];
    cat [line ["Read back: u32=0x"; "0"; ", u16=0x"; "0"; ", u8=0x"; "0"]; line ["VarU32="; "0"; ", VarS32="; "0"];
         line ["Float="; h_showf h 0]; line ["String1="; quote; EmptyString; quote];
         line ["String2="; quote; EmptyString; quote]];
    line ["VarInt sizes: uint32(12345)="; "2"; " bytes, int32(-42)="; "5"; " bytes"];
    cat [line ["Serializer header: "; "16"; " bytes ("; "OK"; ")"];
         line ["Header read: "; "Corruption: Serializer: invalid header magic"]; EmptyString]]).
Proof. intros E. unfold show_serialization, write_demo_data, read_demo_data. rewrite E. reflexivity. Qed.

(** ** The page written to a file *)

(** The page of the demonstration. *)
Definition demo_page : Page :=
  payload_put 0 (bytes_of "Hello from QuartzDB!" ++ [0]) (Page_make 0 (PageType_value PT_Data)).

Lemma bytes_of_ok s : bytes_ok (bytes_of s).
Proof.
  unfold bytes_ok, bytes_of. apply Forall_fmap, Forall_forall. intros c _. pose proof (Ascii.nat_ascii_bounded c).
  unfold compose. lia.
Qed.

Lemma demo_page_ok : Page_ok demo_page.
Proof.
  apply payload_put_ok; [by apply page_make_ok| |vm_compute; lia].
  apply Forall_app. split; [apply bytes_of_ok|]. constructor; [lia|constructor].
Qed.

Lemma destroy_fs d : df_fs d = DatabaseFile_destroy d.
Proof. unfold DatabaseFile_destroy, DatabaseFile_close. by destruct (df_isOpen d) eqn:E; rewrite ?E. Qed.

Lemma write_block p d d1 : df_isOpen d = true → DatabaseFile_writePage demo_page d = (Ok tt, d1) →
  show_file_write p d =
    (Ok (cat [line ["Created database file: "; p]; line ["Write status: "; "OK"];
              line ["File size: "; pretty (df_fileSize d1); " bytes"]]), d1).
Proof.
  intros Ho E. unfold show_file_write, mbind, M_bind, get, gets, mret, M_ret, said. rewrite Ho. cbn [negb]. cbv zeta.
  match goal with |- context [DatabaseFile_writePage ?q] => change q with demo_page end. by rewrite E.
Qed.

Lemma read_block d d1 q : df_isOpen d = true →
  DatabaseFile_readPage (d, Page_make 0 (PageType_value PT_Data)) = (Ok tt, (d1, q)) →
  show_file_read d =
    (Ok (cat [line ["Read page "; pretty (Page_id q); " (type="; pretty (Page_type q); ")"];
              line ["Payload: "; string_of (c_string (Page_payload q))]]), d1).
Proof. intros Ho E. unfold show_file_read. by rewrite Ho, E. Qed.

Lemma file_blocks p fs : p ∉ fs_denied fs →
  ∃ fs1 fs2, in_block p true (show_file_write p) fs =
      (Ok (cat [line ["Created database file: "; p]; line ["Write status: "; "OK"];
                line ["File size: "; pretty (Z.max 4096 (zlen (default [] (fs_files fs !! p)))); " bytes"]]), fs1) ∧
    in_block p false show_file_read fs1 =
      (Ok (cat [line ["Read page "; "0"; " (type="; "4"; ")"]; line ["Payload: "; "Hello from QuartzDB!"]]), fs2) ∧
    only_file p fs fs2.
Proof.
  intros Hd. destruct (storage_open fs p true Hd ltac:(by left)) as (d & c & E & O & Wk & Hc).
  pose proof demo_page_ok as Hp. destruct (page_parts demo_page Hp) as (L1 & L2 & _); [by vm_compute|].
  destruct (writePage_opened d p c demo_page O Hp) as (d1 & E1 & O1); [by vm_compute|apply zlen_nonneg|].
  change (page_pos demo_page) with 0 in O1.
  destruct (works_writePage p fs demo_page d Wk) as [W1 _]. rewrite E1 in W1. cbn [snd] in W1.
  assert (Hl : zlen (page_image demo_page) = 4096) by (unfold page_image; rewrite zlen_app; lia).
  pose proof (zlen_nonneg c) as Hc0.
  set (c1 := file_write 0 (page_image demo_page) c) in *.
  assert (Hz : zlen c1 = Z.max 4096 (zlen c)) by (unfold c1; rewrite zlen_file_write by lia; lia).
  assert (Hi : c1 = [] ++ PageHeader_bytes (pg_header demo_page) ++ Page_payload demo_page ++ zdrop 4096 c).
  { unfold c1. rewrite file_write_inside by (lia || (intros E0; by rewrite E0 in Hl)). rewrite Hl.
    unfold page_image. by rewrite <-!app_assoc. }
  destruct (storage_open (df_fs d1) p false (op_allowed _ _ _ O1) ltac:(right; exists c1; apply O1)) as (d2 & c2 & E2 & O2 & W2 & Hc2).
  rewrite (op_bytes _ _ _ O1) in Hc2. cbn [default] in Hc2. subst c2. rewrite Hi in O2.
  destruct (readPage_opened d2 p [] _ _ _ (Page_make 0 (PageType_value PT_Data)) O2) as (d3 & E3 & O3);
    [apply Hp|reflexivity|done|by apply page_make_ok|done|done|].
  pose proof (proj1 (works_readPage p (df_fs d1) (d2, Page_make 0 (PageType_value PT_Data)) W2)) as W3.
  rewrite E3 in W3. cbn [snd fst] in W3.
  exists (df_fs d1), (df_fs d3). split_and!.
  - unfold in_block, DatabaseFile_construct. rewrite E. cbn [snd].
    rewrite (write_block p d d1 (proj2 (opened_bytes _ _ _ O)) E1), <-destroy_fs.
    unfold df_fileSize. by rewrite (op_size _ _ _ O1), Hz, Hc.
  - unfold in_block, DatabaseFile_construct. rewrite E2. cbn [snd].
    rewrite (read_block d2 d3 _ (proj2 (opened_bytes _ _ _ O2)) E3), <-destroy_fs. reflexivity.
  - etransitivity; [exact (proj2 W1)|exact (proj2 W3)].
Qed.

(** The file demonstration of the example program: whatever file stood at the
    temporary path, when the path may be used, the program creates or opens it,
    writes its page with success, reports the size of the file, reads the page
    back from a second file object with its number, type and text, and removes
    the file; no other file of the file system has changed. *)
Theorem example_file_section h fs : let p := h_tempdir h +:+ "/quartzdb_example.db" in p ∉ fs_denied fs →
  ∃ fs', show_file h fs =
    (Ok (cat [line ["--- Database File ---"];
       cat [line ["Created database file: "; p]; line ["Write status: "; "OK"];
            line ["File size: "; pretty (Z.max 4096 (zlen (default [] (fs_files fs !! p)))); " bytes"]];
       cat [line ["Read page "; "0"; " (type="; "4"; ")"]; line ["Payload: "; "Hello from QuartzDB!"]]]), fs') ∧
    fs_files fs' = delete p (fs_files fs).
Proof.
  intros p Hd. destruct (file_blocks p fs Hd) as (fs1 & fs2 & E1 & E2 & [Ho Hden]). exists (fs_remove p fs2). split.
  - unfold show_file. fold p. cbv zeta. unfold mbind, M_bind. by rewrite E1, E2.
  - unfold fs_remove. rewrite bool_decide_eq_false_2 by (by rewrite Hden). cbn. apply map_eq. intros q.
    destruct (decide (q = p)) as [->|Hne]; [by rewrite !lookup_delete_eq|]. by rewrite !lookup_delete_ne, Ho by done.
Qed.

Definition demo_host : Host :=
  mkHost (λ _, "#") (λ _, "3.1415") "Jan  1 2026" "00:00:00" 202002 (λ n, "t" +:+ pretty n)
    (λ n, Z.of_nat n + 7) (λ n, Z.of_nat n + 1) "/tmp" Endian.Little (λ l, l).

(** Witness: an empty file system, where the file reported is the page alone. *)
Lemma example_file_section_witness : ∃ fs', show_file demo_host (mkFileSystem ∅ ∅ "") =
    (Ok (cat [line ["--- Database File ---"];
       cat [line ["Created database file: "; "/tmp/quartzdb_example.db"]; line ["Write status: "; "OK"];
            line ["File size: "; "4096"; " bytes"]];
       cat [line ["Read page "; "0"; " (type="; "4"; ")"]; line ["Payload: "; "Hello from QuartzDB!"]]]), fs') ∧
    fs_files fs' = ∅.
Proof.
  destruct (example_file_section demo_host (mkFileSystem ∅ ∅ "") (not_elem_of_empty _)) as (fs' & E & F).
  exists fs'. split; [exact E|]. rewrite F. apply delete_empty.
Defined.
