(* ===== verification/Benchmarks.v ===== *)
(** The benchmark programs (src/benchmarks): [main] of each as a computation over
    the file system that returns the exit code and what it printed.  An error
    status ends a program with code 1 before it prints anything; the objects are
    then destroyed, which closes the log file without writing its buffer.

    The log benchmark never succeeds: it appends five thousand records and
    flushes once, at the end, but the buffer is full after 1337. *)
From stdpp Require Import base strings list gmap pretty.
From Stdlib Require Import ZArith Lia.
From S2P Require Import Prelude Config Formats Doubles PageAlloc FreeSpace SpaceMgr Buffers DbFile Instruments PageFacts Keys Nodes Tree TreeFacts TreeInsert TreeReach TreeDemo TreeSnapshot Wal WalManager WalFacts WalLog WalReopen WalSink Recovery TreeLog LogScan Database DatabaseFacts Example ExampleFacts.

(** [if (!st.ok()) return 1;] *)
Definition exit_with {St A} (m : M St A) (k : A → M St (Z * string)) : M St (Z * string) := λ s,
  match m s with
  | (Ok a, s) => k a s
  | (Err _, s) => (Ok (1, EmptyString), s)
  | (Throw w, s) => (Throw w, s)
  | (UB, s) => (UB, s)
  | (Fuel, s) => (Fuel, s)
  end.

(** The loop of insertions, which ends at the first that fails. *)
Fixpoint bench_inserts {W} `{BTreeWalSink W} (n : nat) (base i : Z) : M (BTree SpaceManager W) unit :=
  match n with
  | O => mret tt
  | S n =>
      BTree_insert (KeyUInt32 i) (PageReference_make (base + i) 1 (PageType_value PT_Data));;
      bench_inserts n base (i + 1)
  end.

(** ** btree_bench.cpp: the clock is read by the timer's constructor, at its start
    and at its stop; a stopped timer is printed without reading it. *)
Definition btree_text (h : Host) (t : DemoTree) : string :=
  let timer := Timer_stop (h_clock h 2) (Timer_start (h_clock h 1) (Timer_make (h_clock h 0))) in
  cat [line ["BTree insert "; pretty 10000; " keys: "; Timer_toString (h_show h) (h_clock h 3) timer];
       line ["  height="; pretty (bt_height t); ", size="; pretty (bt_size t)]].
Definition btree_bench (h : Host) : outcome (Z * string) :=
  (exit_with (bench_inserts (Z.to_nat 10000) 1000 0) (λ _, t ← get; mret (0, btree_text h t))
     (BTree_create (SpaceManager_make FirstFitPolicy) BTreeNodeConfig_default)).1.

(** ** wal_bench.cpp: every record is stamped with a reading of the clock *)
Fixpoint bench_appends (h : Host) (n : nat) (i : nat) : M LogManager unit :=
  match n with
  | O => mret tt
  | S n =>
      LogManager_append (LogRecord_make (h_clock h (2 + i)) LRT_PageUpdate (Z.of_nat i) 0);;
      bench_appends h n (S i)
  end.
Definition wal_text (h : Host) (m : LogManager) : string :=
  let timer := Timer_stop (h_clock h 5002) (Timer_start (h_clock h 1) (Timer_make (h_clock h 0))) in
  cat [line ["WAL append "; pretty 5000; " records: "; Timer_toString (h_show h) (h_clock h 5003) timer];
       line ["  bytesWritten="; pretty (ls_bytesWritten (LogManager_statistics m))]].
Definition wal_session (h : Host) (path : string) : M LogManager (Z * string) :=
  exit_with (LogManager_initialize path true) (λ _,
  exit_with (bench_appends h (Z.to_nat 5000) 0) (λ _,
  exit_with LogManager_flush (λ _,
  text ← gets (wal_text h);
  ignore LogManager_shutdown;;
  mret (0, text)))).
(** The file is removed at the end of a run that succeeds. *)
Definition finish_bench (path : string) (r : outcome (Z * string) * LogManager) : outcome (Z * string) * FileSystem :=
  let '(o, m) := r in
  let fs := DatabaseFile_destroy (lf_file (lm_file m)) in
  (o, match o with Ok (0, _) => fs_remove path fs | _ => fs end).
Definition wal_bench (h : Host) : M FileSystem (Z * string) := λ fs,
  let path := path_join (h_tempdir h) "quartzdb_bench_wal" in
  finish_bench path (wal_session h path (LogManager_make (fs_remove path fs))).

(** ** recovery_bench.cpp: the tree reports to the log through its adapter, which
    has the manager; flushing, checkpoints and recovery take the manager out *)
Notation LoggedTree := (BTree SpaceManager BTreeWalAdapter).

Definition with_manager {A} (x : M LogManager A) : M LoggedTree A := λ t,
  match bt_wal t with
  | Some a => let '(o, m) := x (wa_manager a) in (o, set_wal (Some (set_manager m a)) t)
  | None => (UB, t)
  end.
(** The record of the checkpoint is stamped with the next reading of the clock. *)
Definition bench_checkpoint (ord : list Z → list Z) : M LoggedTree LSN := λ t,
  match bt_wal t with
  | Some a =>
      let '(o, (m, t)) := RecoveryManager_checkpoint (wa_clock a (wa_ticks a)) ord false (wa_manager a, t) in
      (o, set_wal (Some (mkWalAdapter m (wa_clock a) (S (wa_ticks a)))) t)
  | None => (UB, t)
  end.
Definition recovery_text (h : Host) (n : nat) (t : LoggedTree) (r : RecoveryResult) : string :=
  let timer := Timer_stop (h_clock h (2 + n)) (Timer_start (h_clock h (1 + n)) (Timer_make (h_clock h n))) in
  cat [line ["Recovery replay: "; Timer_toString (h_show h) (h_clock h (3 + n)) timer];
       line ["  replayed="; pretty (rr_recordsReplayed r); ", checkpoint=";
             pretty (if rr_recoveredFromCheckpoint r then 1 else 0 : Z); ", size="; pretty (bt_size t)]].
(** [recoveredTree] has no sink; [n] readings of the clock were taken before. *)
Definition bench_recover (h : Host) (n : nat) (m : LogManager) : outcome (Z * string) * LogManager :=
  let fresh := BTree_create (SpaceManager_make FirstFitPolicy) BTreeNodeConfig_default : LoggedTree in
  match recover (h_ord h) (m, fresh, RecoveryResult_default) with
  | (Ok _, (m, t, r)) =>
      (Ok (0, recovery_text h n t r), (LogManager_shutdown m).2)
  | (Err _, (m, _, _)) => (Ok (1, EmptyString), m)
  | (Throw w, (m, _, _)) => (Throw w, m)
  | (UB, (m, _, _)) => (UB, m)
  | (Fuel, (m, _, _)) => (Fuel, m)
  end.
Definition recovery_loads (h : Host) : M LoggedTree (Z * string) :=
  exit_with (bench_inserts 1000 500 0) (λ _,
  exit_with (with_manager LogManager_flush) (λ _,
  exit_with (bench_checkpoint (h_ord h)) (λ _,
  exit_with (bench_inserts 500 500 1000) (λ _,
  exit_with (with_manager LogManager_flush) (λ _, mret (0, EmptyString)))))).
Definition recovery_session (h : Host) (path : string) (fs : FileSystem) : outcome (Z * string) * LogManager :=
  let tree := BTree_create (SpaceManager_make FirstFitPolicy) BTreeNodeConfig_default : LoggedTree in
  match LogManager_initialize path true (LogManager_make fs) with
  | (Ok _, m) =>
      let '(o, tree) := recovery_loads h (set_wal (Some (mkWalAdapter m (h_clock h) 0)) tree) in
      let a := default (mkWalAdapter m (h_clock h) 0) (bt_wal tree) in
      match o with
      | Ok (0, _) => bench_recover h (wa_ticks a) (wa_manager a)
      | r => (r, wa_manager a)
      end
  | (Err _, m) => (Ok (1, EmptyString), m)
  | (Throw w, m) => (Throw w, m)
  | (UB, m) => (UB, m)
  | (Fuel, m) => (Fuel, m)
  end.
Definition recovery_bench (h : Host) : M FileSystem (Z * string) := λ fs,
  let walPath := path_join (h_tempdir h) "quartzdb_bench_recovery.wal" in
  finish_bench walPath (recovery_session h walPath (fs_remove walPath fs)).

(** ** The log benchmark *)

(** An append that succeeds takes 49 bytes of a buffer of 65536. *)
Lemma append_takes m r : log_inv m → lm_initialized m = true → wireSize r = 45 →
  (∃ e m', LogManager_append r m = (Err e, m')) ∨
  ∃ m', LogManager_append r m = (Ok tt, m') ∧ log_inv m' ∧ lm_initialized m' = true ∧
    LogBuffer_size (lw_buffer (lm_writer m')) = LogBuffer_size (lw_buffer (lm_writer m)) + 49.
Proof.
  intros HI Hi Hr. pose proof (keeps_append r ltac:(lia) m HI) as HI'. unfold LogManager_append, when_initialized. rewrite Hi.
  destruct (append_spec m r HI ltac:(lia)) as (m' & E & Mi & _ & _ & _ & _ & _ & B & _). rewrite E in *. cbn [snd] in HI'.
  destruct (append_answer _ _ _) as [[]|e|w| |] eqn:Ea; [right|left; eauto|..].
  2-4: by unfold append_answer in Ea; repeat case_match.
  exists m'. split_and!; [done|done|congruence|]. unfold LogBuffer_size, Buffer_size. rewrite B. cbn [is_ok].
  rewrite zlen_app, zlen_zero_frame, Hr. lia.
Qed.

Lemma bench_appends_full h n : ∀ i m, log_inv m → lm_initialized m = true →
  65536 < LogBuffer_size (lw_buffer (lm_writer m)) + 49 * Z.of_nat n → ∃ e m', bench_appends h n i m = (Err e, m').
Proof.
  induction n as [|n IH]; intros i m HI Hi Hn.
  - pose proof (bo_size _ (li_buffer _ HI)). lia.
  - cbn [bench_appends]. unfold mbind, M_bind.
    destruct (append_takes m (LogRecord_make (h_clock h (2 + i)) LRT_PageUpdate (Z.of_nat i) 0) HI Hi eq_refl)
      as [(e & m' & ->)|(m' & -> & HI' & Hi' & Hu)]; [eauto|]. apply IH; [done..|]. lia.
Qed.

(** Creating a log where the system refuses the path. *)
Lemma initialize_denied p fs : p ∈ fs_denied fs → ∃ e m, LogManager_initialize p true (LogManager_make fs) = (Err e, m) ∧
  df_fs (lf_file (lm_file m)) = fs.
Proof.
  intros Hd. unfold LogManager_initialize. cbn [lm_initialized LogManager_make].
  assert (∃ e d, DatabaseFile_open p true (DatabaseFile_make fs) = (Err e, d) ∧ df_fs d = fs) as (e & d & E & Hfs).
  { unfold DatabaseFile_open, stream_create, stream_open. cbn [df_isOpen DatabaseFile_make df_fs df_stream df_path df_size andb].
    unfold df_isOpen at 1. rewrite bool_decide_eq_false_2 by (intros []; done). cbn [df_fs].
    destruct (bool_decide (is_Some (fs_files fs !! p))); cbn [negb andb df_fs]; rewrite ?bool_decide_eq_true_2 by done; cbn; eauto. }
  exists e. unfold mbind at 1, M_bind at 1, on_logfile at 1, zoom, LogFile_create. unfold mbind at 1, M_bind at 1, modify at 1.
  unfold mbind at 1, M_bind at 1. rewrite (on_file_eq _ _ (Err e) d) by exact E. eauto.
Qed.

(** The log benchmark never completes: whatever the host, its clock and its
    file system, [wal_bench] returns exit code 1 and prints nothing, because
    nothing empties the log's buffer between the five thousand records and it
    holds at most 1337 of them. *)
Theorem wal_bench_never_completes h fs : ∃ fs', wal_bench h fs = (Ok (1, EmptyString), fs').
Proof.
  unfold wal_bench. set (path := path_join _ _). cbv zeta.
  assert (∃ m, wal_session h path (LogManager_make (fs_remove path fs)) = (Ok (1, EmptyString), m)) as (m & E).
  2: { rewrite E. unfold finish_bench. eauto. }
  unfold wal_session, exit_with at 1, fs_remove. case_bool_decide as Hd.
  - destruct (initialize_denied path fs Hd) as (e & m & -> & _). eauto.
  - destruct (initialize_blank (mkFileSystem (delete path (fs_files fs)) (fs_denied fs) (fs_what fs)) path true) as (m & -> & HL & _);
      [split; [done|left; apply lookup_delete_eq]|].
    unfold exit_with at 1. destruct HL as [Hi _ HI He _ _].
    destruct (bench_appends_full h (Z.to_nat 5000) 0 m HI Hi) as (e & m' & ->); [|eauto].
    unfold LogBuffer_size, Buffer_size. rewrite He. done.
Qed.

(** ** The tree benchmark *)

(** While pages last every insertion succeeds, so that the program's loop is that
    of the example program. *)
Lemma bench_inserts_loaded {W} `{BTreeWalSink W} `{Fo : ForeignPages} (t : BTree SpaceManager W) cfg base i n :
  loaded cfg base i t → keyType cfg = KT_UInt32 → 0 <= base → base + Z.of_nat (i + n) <= kInvalidPageId →
  (∀ j, (j < n)%nat → enough_pages (bench_inserts j base (Z.of_nat i) t).2) →
  ∃ t', bench_inserts n base (Z.of_nat i) t = (Ok tt, t') ∧ loaded cfg base (i + n) t'.
Proof.
  revert i t. induction n as [|n IH]; intros i t Hl Hk Hb Hn Hp.
  - exists t. by rewrite Nat.add_0_r.
  - destruct (loaded_step cfg base i t Hl Hk Hb ltac:(lia) (Hp 0%nat ltac:(lia))) as (t1 & E1 & Hl1).
    assert (Hs : ∀ j, bench_inserts (S j) base (Z.of_nat i) t = bench_inserts j base (Z.of_nat (S i)) t1).
    { intros j. cbn [bench_inserts]. unfold mbind, M_bind. change (PageReference_make _ _ _) with (load_ref base (Z.of_nat i)).
      rewrite E1. by replace (Z.of_nat i + 1) with (Z.of_nat (S i)) by lia. }
    destruct (IH (S i) t1 Hl1 Hk Hb ltac:(lia)) as (t' & E & Hl').
    { intros j Hj. rewrite <-Hs. apply Hp. lia. }
    exists t'. rewrite Hs. split; [done|]. by replace (i + S n)%nat with (S i + n)%nat by lia.
Qed.

(** [btree_bench] exits with 0 and reports as many keys as it inserted, in a tree
    the validator accepts. *)
Lemma btree_bench_completes `{Fo : ForeignPages} h :
  all_foreign (SpaceManager_make FirstFitPolicy) →
  (∀ j, (Z.of_nat j < 10000) →
     enough_pages (bench_inserts j 1000 0 (BTree_create (SpaceManager_make FirstFitPolicy) BTreeNodeConfig_default : DemoTree)).2) →
  ∃ t, btree_bench h = Ok (0, btree_text h t) ∧ bt_size t = 10000 ∧ BTree_validate t = Ok tt.
Proof.
  intros Hf Hp. set (t0 := BTree_create (SpaceManager_make FirstFitPolicy) BTreeNodeConfig_default : DemoTree) in *.
  destruct (insert_keys_loaded (W := unit) (SpaceManager_make FirstFitPolicy) BTreeNodeConfig_default 1000 0)
    as (t1 & E0 & Hl); [done|split; by vm_compute|done|done|lia|by vm_compute|lia|].
  assert (t1 = t0) as -> by exact (eq_sym (f_equal snd E0)).
  destruct (bench_inserts_loaded t0 BTreeNodeConfig_default 1000 0 (Z.to_nat 10000) Hl) as (t & E & Hl');
    [done|lia|unfold kInvalidPageId; lia|intros j Hj; apply Hp; lia|].
  destruct Hl' as [Hr _ Hz _ _]. exists t. split_and!; [|rewrite Hz; lia|by apply reach_validates].
  unfold btree_bench, exit_with. change (Z.of_nat 0) with 0 in E. unfold t0 in E. by rewrite E.
Qed.
