(* ===== verification/Tools.v ===== *)
(** The command-line verifier (src/tools/quartzdb_verify.cpp) and the fuzz
    targets (src/fuzz).

    The verifier's [main] is a computation over the file system: it opens the
    database whose path is its argument, validates it, prints what the
    diagnostics report and ends with an exit code.  A status kept in a variable
    is a value; an exception that nobody catches is the computation's outcome.

    A fuzz target is a function of the bytes it is given, the last over the file
    system as well.  It ignores every status, so it returns 0 unless a call
    throws, runs into undefined behaviour or does not end. *)
From stdpp Require Import base strings list gmap pretty.
From Stdlib Require Import ZArith Lia.
From S2P Require Import Prelude Config Formats Doubles PageAlloc FreeSpace SpaceMgr Buffers DbFile Pages PageFacts Keys Nodes Tree TreeSnapshot Wal WalManager WalFacts WalLog WalReopen WalSink Recovery RecoveryFacts TreeLog LogScan Database DatabaseFacts DatabaseTools Example ExampleFacts Benchmarks.

(** ** quartzdb_verify *)

(** Exit code, standard output and standard error of a process. *)
Record Exit : Set := mkExit { ex_code : Z; ex_out : string; ex_err : string }.

(** A status kept in a variable, [None] for success. *)
Definition status {St A} (m : M St A) : M St (option Status) := λ s,
  match m s with
  | (Ok _, s) => (Ok None, s)
  | (Err e, s) => (Ok (Some e), s)
  | (Throw w, s) => (Throw w, s)
  | (UB, s) => (UB, s)
  | (Fuel, s) => (Fuel, s)
  end.
Definition st_ok (st : option Status) : bool := match st with None => true | Some _ => false end.
(** [st.ok() ? "PASS" : st.toString()]. *)
Definition pass_or_text (st : option Status) : string := if st_ok st then "PASS" else Status_toString st.

Definition finding_line (f : DiagnosticFinding) : string := line ["  ["; fd_component f; "] "; fd_message f].

(** The options of the tool: the defaults, with the two it sets. *)
Definition verify_options : DatabaseOptions :=
  let o := DatabaseOptions_default in
  mkDatabaseOptions (do_dataPath o) (do_createIfMissing o) true true (do_truncateWalOnCheckpoint o)
    (do_walBufferCapacity o) (do_btreeConfig o).

(** A scanner made for the database's own file. *)
Definition scan_dbfile : M Database unit :=
  on_dbfile (λ f, let '(o, (f, _)) := IntegrityScanner_scan (f, []) in (o, f)).

(** What is printed once the database is open. *)
Definition verify_text (valid : option Status) (report : DiagnosticReport) (scan : option Status) : string :=
  cat [line ["Consistency: "; pass_or_text valid]; cat (finding_line <$> report);
       line ["Integrity scan: "; pass_or_text scan]].

(** The status of [validate] is printed and then overwritten: the exit code is
    that of closing, or of the report and the scan. *)
Definition verify_open (to_string : double → string) (ord : list Z → list Z) : M Database Exit :=
  valid ← status (Database_validate ord);
  report ← ConsistencyChecker_analyze to_string;
  scan ← status scan_dbfile;
  closed ← status Database_close;
  mret (mkExit (if negb (st_ok closed) then 4 else if report_passed report && st_ok scan then 0 else 3)
          (verify_text valid report scan) EmptyString).
Definition verify_session (to_string : double → string) (ord : list Z → list Z) (path : string) : M Database Exit :=
  st ← status (Database_open ord path false);
  match st with
  | Some _ => mret (mkExit 2 EmptyString (line ["Open failed: "; Status_toString st]))
  | None => verify_open to_string ord
  end.

(** [to_string] is [std::to_string] of a double. *)
Definition quartzdb_verify (to_string : double → string) (h : Host) (argv : list string) : M FileSystem Exit := λ fs,
  match argv with
  | _ :: path :: _ =>
      let '(o, d) := verify_session to_string (h_ord h) path (Database_make fs (h_clock h) verify_options) in
      (o, Database_destroy d)
  | _ => (Ok (mkExit 1 EmptyString (line ["Usage: quartzdb_verify <database.qdb>"])), fs)
  end.

(** ** The fuzz targets *)

(** [std::memcpy(dst, src, n)]. *)
Definition memcpy (dst src : list Z) (n : Z) : outcome (list Z) :=
  if (zlen dst <? n) || (zlen src <? n) then UB else Ok (ztake n src ++ zdrop n dst).

(** fuzz_page.cpp: what [isValid] answers, which the target discards; none for a
    short input. *)
Definition fuzz_page_valid (data : list Z) : outcome (option bool) :=
  if zlen data <? kPageHeaderSize then Ok None
  else
    let page := Page_make 1 (PageType_value PT_Data) in
    let copy := if zlen data <? kPageSize then zlen data else kPageSize in
    bytes ← memcpy (pg_data page) data copy;
    Ok (Some (Page_isValid (set_pgdata bytes page))).
Definition fuzz_page (data : list Z) : outcome Z := _ ← fuzz_page_valid data; Ok 0.

(** What [LogRecord::deserialize] asks for with [payload_.resize(payloadLen)]:
    the length field, once all nine fields have been read. *)
Definition payload_request (view : list Z) : Z :=
  if zlen view <? 45 then 0 else field 29 4 view.

(** fuzz_serialization.cpp: the record is written behind the input and a record
    is read from the start of both; [now] is the reading of the clock that
    [LogRecord::make] stamps it with, and [memory] the largest payload vector the
    process can be given. *)
Definition fuzz_serialization (memory now : Z) (data : list Z) : outcome Z :=
  if zlen data <? 4 then Ok 0
  else
    buf ← Buffer_append data Buffer_empty;
    let record := LogRecord_make now LRT_PageUpdate 1 0 in
    let '(o, writer) := ignore (LogRecord_serialize record) (BinaryWriter_make buf) in
    _ ← o;
    _ ← (if memory <? payload_request (buf_bytes (w_buffer writer)) then Throw "std::bad_alloc" else Ok tt);
    _ ← (ignore LogRecord_deserialize (BinaryReader_make (buf_bytes (w_buffer writer)))).1;
    Ok 0.

(** fuzz_recovery.cpp: the input is not looked at.  Every path destroys the
    manager, which closes its file. *)
Definition fuzz_replay : M LogManager unit := λ m,
  let tree : DemoTree := BTree_create (SpaceManager_make FirstFitPolicy) BTreeNodeConfig_default in
  let '(o, (m, _, _)) := ignore (replay LSN_invalid) (m, tree, RecoveryResult_default) in
  match o with
  | Ok _ => ignore LogManager_shutdown m
  | Err e => (Err e, m)
  | Throw w => (Throw w, m)
  | UB => (UB, m)
  | Fuel => (Fuel, m)
  end.
Definition fuzz_recovery (h : Host) (data : list Z) : M FileSystem Z := λ fs,
  let path := path_join (h_tempdir h) "quartzdb_fuzz_recovery.wal" in
  match status (LogManager_initialize path true) (LogManager_make fs) with
  | (Ok (Some _), m) => (Ok 0, DatabaseFile_destroy (lf_file (lm_file m)))
  | (Ok None, m) =>
      let '(o, m) := fuzz_replay m in
      let fs := DatabaseFile_destroy (lf_file (lm_file m)) in
      (match o with Ok _ => Ok 0 | Err e => Err e | Throw w => Throw w | UB => UB | Fuel => Fuel end,
       match o with Ok _ => fs_remove path fs | _ => fs end)
  | (Err e, m) => (Err e, DatabaseFile_destroy (lf_file (lm_file m)))
  | (Throw w, m) => (Throw w, DatabaseFile_destroy (lf_file (lm_file m)))
  | (UB, m) => (UB, DatabaseFile_destroy (lf_file (lm_file m)))
  | (Fuel, m) => (Fuel, DatabaseFile_destroy (lf_file (lm_file m)))
  end.

(** ** The fuzz targets return *)

Lemma memcpy_inside dst src n : 0 <= n → n <= zlen dst → n <= zlen src → memcpy dst src n = Ok (ztake n src ++ zdrop n dst).
Proof. intros. unfold memcpy. by rewrite !(proj2 (Z.ltb_ge _ _)) by lia. Qed.

(** What [isValid] answers does not depend on the input: it reads the header kept
    beside the buffer. *)
Lemma fuzz_page_constant data : kPageHeaderSize <= zlen data → fuzz_page_valid data = Ok (Some true).
Proof.
  intros Hl. unfold fuzz_page_valid. rewrite (proj2 (Z.ltb_ge _ _)) by done. pose proof (zlen_nonneg data).
  assert (Hp : zlen (pg_data (Page_make 1 (PageType_value PT_Data))) = 4096) by (vm_compute; reflexivity).
  rewrite memcpy_inside; [reflexivity|..]; rewrite ?Hp; change kPageSize with 4096;
    destruct (Z.ltb_spec (zlen data) 4096); lia.
Qed.
Lemma fuzz_page_returns data : fuzz_page data = Ok 0.
Proof.
  unfold fuzz_page. destruct (Z.ltb_spec (zlen data) kPageHeaderSize) as [Hl|Hl].
  - unfold fuzz_page_valid. by rewrite (proj2 (Z.ltb_lt _ _)) by done.
  - by rewrite fuzz_page_constant.
Qed.

(** Appending to a new buffer stores the bytes. *)
Lemma append_empty src : 0 < zlen src < 2 ^ 62 →
  ∃ cap, Buffer_append src Buffer_empty = Ok (mkBuffer src cap) ∧ 0 <= cap <= 2 ^ 63.
Proof.
  intros Hs. destruct (doubling_spec 64 64 (zlen src)) as (cap & Ed & Hc & Hb); [lia..|].
  assert (Eb : Buffer_append src Buffer_empty = Buffer_append src (mkBuffer [] cap)).
  { unfold Buffer_append. rewrite (proj2 (Z.eqb_neq _ _)) by lia. unfold Buffer_size. cbn [buf_bytes buf_capacity Buffer_empty].
    change (zlen (@nil Z)) with 0. rewrite Z.add_0_l, (proj2 (Z.ltb_lt 0 (zlen src))), (proj2 (Z.ltb_ge cap (zlen src))) by lia.
    unfold Buffer_grow. cbn [buf_capacity Buffer_empty]. change (Z.max (u64 (0 * 2)) kMinCapacity) with 64. rewrite Ed.
    cbn [mbind outcome_bind]. unfold Buffer_reserve. cbn [buf_capacity buf_bytes Buffer_empty].
    by rewrite (proj2 (Z.ltb_lt 0 cap)) by lia. }
  exists cap. rewrite Eb, Buffer_append_spec by (unfold Buffer_size; cbn [buf_bytes buf_capacity]; change (zlen (@nil Z)) with 0; lia). split; [done|lia].
Qed.

(** The bytes the second target reads: its input and, since the writer appends
    zeros, as many zeros as a record has bytes. *)
Definition fuzz_view (data : list Z) : list Z := data ++ zeros 45.

Lemma fuzz_serialization_returns memory now data : bytes_ok data → zlen data < 2 ^ 39 →
  fuzz_serialization memory now data =
    if (zlen data <? 4) || (payload_request (fuzz_view data) <=? memory) then Ok 0 else Throw "std::bad_alloc".
Proof.
  intros Hb Hl. unfold fuzz_serialization. destruct (Z.ltb_spec (zlen data) 4) as [|H4]; [done|]. cbn [orb].
  destruct (append_empty data) as (cap & -> & Hc); [lia|]. cbn [mbind outcome_bind].
  set (r := LogRecord_make now LRT_PageUpdate 1 0). assert (Hw : wireSize r = 45) by reflexivity.
  destruct (emits_end (LogRecord_serialize r) (record_wire r) (mkBuffer data cap)) as (w & Ew & _ & _ & Hd);
    [apply LogRecord_serialize_emits; lia|unfold Buffer_size; cbn [buf_bytes]; rewrite zlen_record_wire; lia|done|].
  pose proof (zlen_record_wire r) as Hz. rewrite Hw in Hz. unfold zlen in Hz.
  replace (length (record_wire r)) with 45%nat in Hd by lia. cbn [buf_bytes] in Hd. change (data ++ zeros 45) with (fuzz_view data) in Hd.
  unfold ignore at 1. rewrite Ew. cbv beta iota. unfold mbind, outcome_bind. rewrite Hd.
  destruct (Z.ltb_spec memory (payload_request (fuzz_view data))), (Z.leb_spec (payload_request (fuzz_view data)) memory);
    try lia; [done|].
  destruct safe_record as [_ Hs]. specialize (Hs (BinaryReader_make (fuzz_view data))).
  unfold ignore. destruct (LogRecord_deserialize _) as [[] rd]; cbn [fst] in Hs |- *; try done;
    destruct Hs; (split; [apply Forall_app_2; [done|apply zeros_ok]|]); cbn [r_offset r_view BinaryReader_make];
    unfold fuzz_view; rewrite zlen_app, zlen_zeros; pose proof (zlen_nonneg data); lia.
Qed.

(** The length asked for is a 32-bit number. *)
Lemma payload_request_range view : bytes_ok view → 0 <= payload_request view < 2 ^ 32.
Proof.
  intros Hb. unfold payload_request. destruct (_ <? _); [lia|]. by apply (field_range 29 4 view).
Qed.

(** The log of the third target. *)
Definition fuzz_log (h : Host) : string := path_join (h_tempdir h) "quartzdb_fuzz_recovery.wal".

(** Shutting down with nothing to write returns a status. *)
Lemma shutdown_answers m : buf_bytes (lb_buffer (lw_buffer (lm_writer m))) = [] → answered (LogManager_shutdown m).1.
Proof.
  intros He. unfold LogManager_shutdown. destruct (lm_initialized m) eqn:Hi; [|done]. cbn [negb].
  assert (Hf : answered (LogManager_flush m).1).
  { unfold LogManager_flush, when_initialized. rewrite Hi. unfold LogWriter_flush, mbind, M_bind.
    unfold flushBufferToFile, zoom at 1, LogBuffer_flush, LogBuffer_size, Buffer_size. rewrite He.
    change (zlen (@nil Z) =? 0) with true. cbv beta iota. unfold on_logfile, zoom, LogFile_flush, on_file, zoom, DatabaseFile_flush.
    by repeat case_match; simplify_eq/=. }
  unfold mbind, M_bind. destruct (LogManager_flush m) as [[[]| | | |] m1]; try done. unfold close_log.
  unfold on_logfile, zoom, LogFile_close, DatabaseFile_close. by repeat case_match; simplify_eq/=.
Qed.

Lemma fuzz_recovery_returns h data fs : fs_files fs !! fuzz_log h = None →
  ∃ fs', fuzz_recovery h data fs = (Ok 0, fs') ∧ fs_files fs' = fs_files fs ∧ fs_denied fs' = fs_denied fs.
Proof.
  intros Hn. unfold fuzz_recovery. fold (fuzz_log h). set (p := fuzz_log h) in *. cbv zeta. unfold status.
  destruct (decide (p ∈ fs_denied fs)) as [Hd|Hd].
  { destruct (initialize_denied p fs Hd) as (e & m & -> & Hm). rewrite <-destroy_fs, Hm. by exists fs. }
  destruct (initialize_blank fs p true) as (m & -> & HL & Wm); [split; auto|].
  pose proof HL as [Hi Hf HI He Hx Hr].
  assert (L1 : log_live (set_reader LogReader_make m) p wal_header 1) by (destruct HI; split; try done; by split).
  unfold fuzz_replay. cbv zeta. unfold ignore at 1. rewrite (live_replay m p 1) by done. cbv beta iota.
  set (m1 := end_log (set_reader LogReader_make m)).
  assert (L2 : log_live (set_reader LogReader_make m1) p wal_header 1) by by apply live_set_reader.
  assert (Ho : s_file (df_stream (lf_file (lm_file m1))) = Some p) by apply (op_file _ _ _ (lg_opened _ _ _ Hf)).
  pose proof (shutdown_only p m1 Ho) as [H1 H2].
  assert (Hs : ∃ m2, ignore LogManager_shutdown m1 = (Ok tt, m2) ∧ manager_fs m2 = manager_fs (LogManager_shutdown m1).2).
  { pose proof (shutdown_answers m1 He) as Ha. unfold ignore. destruct (LogManager_shutdown m1) as [[] m2]; try done; by exists m2. }
  destruct Hs as (m2 & -> & Hm2). rewrite <-destroy_fs. change (df_fs (lf_file (lm_file m2))) with (manager_fs m2). rewrite Hm2.
  destruct Wm as [_ [W1 W2]]. eexists. split; [reflexivity|]. unfold fs_remove.
  rewrite bool_decide_eq_false_2 by (rewrite H2; unfold manager_fs; cbn; by rewrite W2). cbn [fs_files fs_denied].
  split; [|rewrite H2; exact W2]. apply map_eq. intros q. destruct (decide (q = p)) as [-> |Hq].
  - by rewrite lookup_delete_eq.
  - rewrite lookup_delete_ne, H1 by done. by apply W1.
Qed.

(** ** A database without records passes *)

(** Replaying a log without records gives the empty tree. *)
Lemma live_consistency {S W} `{BTreeWalSink W} ord (t : BTree S W) m w : log_live m w wal_header 1 → bt_size t = 0 →
  ∃ m', verifyLogicalConsistency ord t m = (Ok tt, m') ∧ log_live m' w wal_header 1 ∧ lm_file m' = lm_file m.
Proof.
  intros HL Ht. pose proof HL as [Hi Hf HI He Hx Hr].
  assert (L1 : log_live (set_reader LogReader_make m) w wal_header 1) by (destruct HI; split; try done; by split).
  set (m1 := end_log (set_reader LogReader_make m)).
  assert (L2 : log_live (set_reader LogReader_make m1) w wal_header 1) by by apply live_set_reader.
  set (m2 := end_log (set_reader LogReader_make m1)).
  exists (set_reader LogReader_make m2). split; [|split; [by apply live_set_reader|done]].
  unfold verifyLogicalConsistency. rewrite (live_find m w 1 Hi L1). unfold invalidArgument. cbv beta iota zeta. fold m1.
  rewrite (live_replay m1 w 1) by done. cbv beta iota. fold m2. rewrite Ht. cbn [bt_size BTree_create]. cbn [negb Z.eqb].
  apply (rewind_initialized m2). exact Hi.
Qed.

(** A call of the log that leaves it without records. *)
Lemma idle_dbwal {A} (x : M LogManager A) o m p img f d : db_idle p img f d → x (db_manager d) = (o, m) →
  log_live m (walPathFor p) wal_header 1 → works_on (walPathFor p) (df_fs f) (lf_file (lm_file m)) →
  ∃ d', on_dbwal x d = (o, d') ∧ db_idle p img f d' ∧ db_tree d' = db_tree d.
Proof.
  intros [H1 H2 H3 H4 H5 H6 H7] E HL HW. unfold on_dbwal. fold (db_manager d). rewrite E.
  eexists. split; [reflexivity|]. split; [|done]. split; cbn; try done; unfold db_manager; cbn; by rewrite manager_in_fs.
Qed.

(** The tree of a database whose log has no records. *)
Definition fresh_tree (t : DBTree) : Prop :=
  bt_space t = SpaceManager_make FirstFitPolicy ∧ bt_rootId t = kInvalidPageId ∧ bt_size t = 0 ∧
  bt_leaves t = ∅ ∧ bt_internals t = ∅.
Lemma fresh_valid t : fresh_tree t → BTree_validate t = Ok tt.
Proof. intros (_ & Hr & _). unfold BTree_validate, empty_. by rewrite Hr. Qed.
Lemma fresh_cleared ord cfg : ord [] = [] →
  fresh_tree (BTree_clear ord (BTree_create (SpaceManager_make FirstFitPolicy) cfg)).2.
Proof.
  intros Ho. unfold BTree_clear, modify, BTree_create. cbn [snd bt_leaves bt_internals bt_space].
  rewrite !dom_empty_L, !elements_empty, Ho. unfold fresh_tree. by split_and!.
Qed.

Lemma idle_validate ord p img f d : db_idle p img f d → fresh_tree (db_tree d) →
  ∃ d', Database_validate ord d = (Ok tt, d') ∧ db_idle p img f d' ∧ db_tree d' = db_tree d.
Proof.
  intros Hd Ht. pose proof Hd as [H1 H2 H3 H4 H5 H6 H7].
  unfold Database_validate, guard_db. rewrite H1. cbn [negb]. unfold ConsistencyChecker_check. rewrite H1, H3, fresh_valid by done.
  cbn [negb when]. unfold lift. unfold mbind at 1, M_bind at 1.
  destruct (live_validate _ _ _ H6) as (g & Ev & Lv & Wv).
  destruct (idle_dbwal LogManager_validate _ _ p img f d Hd Ev Lv (Wv _ H7)) as (d1 & E1 & I1 & T1).
  unfold mbind, M_bind. rewrite E1. pose proof I1 as [_ _ _ _ _ L1 W1].
  destruct (live_consistency ord (db_tree d) _ _ L1) as (m2 & E2 & L2 & F2); [apply Ht|].
  destruct (idle_dbwal (verifyLogicalConsistency ord (db_tree d)) _ _ p img f d1 I1 E2 L2) as (d2 & E3 & I2 & T2);
    [by rewrite F2|].
  exists d2. split; [exact E3|]. split; [done|congruence].
Qed.

(** The report of a sound database. *)
Definition sound_report : DiagnosticReport :=
  [mkFinding SevInfo "btree" "structure valid"; mkFinding SevInfo "wal" "log valid"].

Lemma idle_analyze to_string p img f d : db_idle p img f d → fresh_tree (db_tree d) →
  ∃ d', ConsistencyChecker_analyze to_string d = (Ok sound_report, d') ∧ db_idle p img f d' ∧ db_tree d' = db_tree d.
Proof.
  intros Hd Ht. pose proof Hd as [H1 H2 H3 H4 H5 H6 H7].
  unfold ConsistencyChecker_analyze. rewrite H1, H3, fresh_valid by done. destruct Ht as (-> & _). cbn [negb].
  destruct (live_validate _ _ _ H6) as (g & Ev & Lv & Wv).
  destruct (idle_dbwal LogManager_validate _ _ p img f d Hd Ev Lv (Wv _ H7)) as (d1 & E1 & I1 & T1). rewrite E1.
  exists d1. split; [|done].
  match goal with |- context [d_gtb ?a ?b] => assert (Hg : d_gtb a b = false) by (vm_compute; reflexivity); rewrite Hg end.
  reflexivity.
Qed.

(** The log under another file system that has the same log file. *)
Lemma live_in m w c n fs : log_live m w c n → fs_files fs !! w = Some c → w ∉ fs_denied fs →
  log_live (manager_in fs m) w c n.
Proof. intros [Hi [A [] B C D] [] He Hn Hr] Hf Hd. split; try done; split; try done. Qed.

Lemma scan_dbfile_eq d o f r : IntegrityScanner_scan (file_in (db_fs d) (db_file d), []) = (o, (f, r)) →
  scan_dbfile d = (o, with_file f d).
Proof. intros E. unfold scan_dbfile, on_dbfile. cbv beta. by rewrite E. Qed.
Lemma idle_scan p rest f d : db_idle p (page_image header_page ++ rest) f d →
  ∃ f' d', scan_dbfile d = (Ok tt, d') ∧ db_idle p (page_image header_page ++ rest) f' d' ∧ db_tree d' = db_tree d.
Proof.
  set (img := page_image header_page ++ rest). intros [H1 H2 H3 H4 H5 H6 H7]. subst f.
  pose proof (walPath_ne p) as Hne. destruct H7 as [Hs [Ho Hden]]. change (df_fs (lf_file (lm_file (db_manager d)))) with (db_fs d) in *.
  set (g := file_in (db_fs d) (db_file d)).
  assert (Og : opened g p img) by (destruct H5; split; try done; cbn; [by rewrite Ho|by rewrite Hden]).
  destruct (scan_header g p rest [] Og) as (f' & Es & O').
  destruct (works_scan p (db_fs d) g []) as [_ [Wo Wd]]; [split; [apply (op_file _ _ _ Og)|done]|]. rewrite Es in Wo, Wd. cbn [fst snd] in Wo, Wd.
  pose proof (lg_opened _ _ _ (ll_file _ _ _ _ H6)) as Ol.
  assert (HL : log_live (manager_in (df_fs f') (db_manager d)) (walPathFor p) wal_header 1).
  { apply live_in; [done|rewrite Wo by done; apply (op_bytes _ _ _ Ol)|rewrite Wd; apply (op_allowed _ _ _ Ol)]. }
  exists f', (with_file f' d). split; [exact (scan_dbfile_eq d _ f' _ Es)|]. split; [|done]. by split.
Qed.

(** What a passing run prints. *)
Definition passing_text : string := verify_text None sound_report None.

Lemma verify_open_idle to_string ord p rest f d : db_idle p (page_image header_page ++ rest) f d → fresh_tree (db_tree d) →
  ∃ d', verify_open to_string ord d = (Ok (mkExit 0 passing_text EmptyString), d') ∧ db_open d' = false ∧
    fs_files (db_fs d') !! p = Some (page_image header_page ++ rest) ∧
    fs_files (db_fs d') !! walPathFor p = Some wal_header.
Proof.
  intros Hd Ht. destruct (idle_validate ord p _ f d Hd Ht) as (d1 & E1 & I1 & T1).
  destruct (idle_analyze to_string p _ f d1 I1) as (d2 & E2 & I2 & T2); [by rewrite T1|].
  destruct (idle_scan p rest f d2 I2) as (f' & d3 & E3 & I3 & T3).
  assert (Hk : tree_keys (db_tree d3)).
  { rewrite T3, T2, T1. destruct Ht as (_ & _ & _ & Hl & Hi). split; intros id x; [rewrite Hl|rewrite Hi]; by rewrite lookup_empty. }
  destruct (close_session p _ 0 [] d3 (idle_session _ _ _ _ I3 Hk)) as (d4 & blob & E4 & O4 & _ & Hn & _ & _ & F1 & _ & F2 & _); [lia|].
  rewrite Hn, app_nil_r in F1 by (done || apply (ll_empty _ _ _ _ (di_log _ _ _ _ I3))).
  unfold verify_open, mbind, M_bind, status. rewrite E1, E2, E3, E4. by exists d4.
Qed.

(** Opening again leaves a data file as it is. *)
Lemma storage_image_again old : storage_image false (storage_image true old) = storage_image true old.
Proof.
  destruct (storage_image_header true old eq_refl) as [_ Hz]. set (c := storage_image true old) in *.
  unfold storage_image. cbn [orb]. by rewrite (proj2 (Z.ltb_ge _ _)) by (change kPageSize with 4096; lia).
Qed.

Lemma verify_blank to_string h prog p fs rest args : p ∉ fs_denied fs → log_blank fs (walPathFor p) false → h_ord h [] = [] →
  is_Some (fs_files fs !! p) → storage_image false (default [] (fs_files fs !! p)) = page_image header_page ++ rest →
  ∃ fs', quartzdb_verify to_string h (prog :: p :: args) fs = (Ok (mkExit 0 passing_text EmptyString), fs') ∧
    fs_files fs' !! p = Some (page_image header_page ++ rest) ∧ fs_files fs' !! walPathFor p = Some wal_header.
Proof.
  intros Hd Hw Ho Hp Hi.
  destruct (open_blank (h_ord h) fs (h_clock h) verify_options p false eq_refl Hd (or_intror Hp) Hw) as (f & d & E & _ & Hid & Ht).
  rewrite Hi in Hid. cbv zeta in Ht. change (do_recoverOnOpen verify_options) with true in Ht. cbv iota in Ht.
  destruct (verify_open_idle to_string (h_ord h) p rest f d Hid) as (d' & Ev & Od & F1 & F2); [rewrite Ht; by apply fresh_cleared|].
  unfold quartzdb_verify, verify_session, mbind at 1, M_bind at 1, status. rewrite E, Ev.
  unfold Database_destroy, Database_close. rewrite Od. cbn [negb snd]. by exists (db_fs d').
Qed.

(** ** The diagnostics of a database in use *)

(** In a session whose log has a record, [validate] does not pass and the report
    has an error. *)
Lemma session_diagnosed p img k blob ord to_string d : db_session p img k blob d → 0 <= k < 2 ^ 41 → blob ≠ [] →
  (Database_validate ord d).1 ≠ Ok tt ∧
  ∃ report d', ConsistencyChecker_analyze to_string d = (Ok report, d') ∧ report_passed report = false.
Proof.
  intros Hd Hk Hb. pose proof (session_starts _ _ _ _ _ Hd Hb) as Hz. pose proof Hd as [H1 H2 H3 _ [L1 L2 L3 L4 L5 [L6 _] _ _]].
  destruct (zero_validate blob Hz) with (m := db_manager d) as (e & m & Ev & _).
  - apply Forall_app_2; [|done]. apply (bool_decide_unpack (Forall (λ b, 0 <= b < 256) wal_header)). vm_compute. exact I.
  - rewrite zlen_app. change (zlen wal_header) with 16. lia.
  - split; [done|]. apply (opened_view _ (walPathFor p)); [apply (lg_attached _ _ _ L4)|apply L4].
  - assert (Ed : ∃ d', on_dbwal LogManager_validate d = (Err e, d')).
    { unfold on_dbwal. fold (db_manager d). rewrite Ev. eauto. }
    destruct Ed as (d' & Ed). split.
    + unfold Database_validate, guard_db, ConsistencyChecker_check. rewrite H1, H3. cbn [negb when]. unfold mbind, M_bind, lift.
      destruct (BTree_validate (db_tree d)); try done. by rewrite Ed.
    + unfold ConsistencyChecker_analyze. rewrite H1, H3. cbn [negb]. rewrite Ed. eexists _, d'. split; [reflexivity|].
      unfold report_status, report_add, report_passed. rewrite forallb_app. cbn. by rewrite andb_false_r.
Qed.

(** A new database in which an insertion has succeeded fails its own validation,
    while it is open, whatever else was inserted and erased. *)
Theorem database_in_use_invalid ord ord' to_string fs clock o p ops :
  do_enableWal o = true → p ∉ fs_denied fs → walPathFor p ∉ fs_denied fs →
  fs_files fs !! walPathFor p = None → Forall dbop_ok ops → zlen ops < 2 ^ 40 - 1 →
  ∃ d0, Database_open ord p true (Database_make fs clock o) = (Ok tt, d0) ∧
    ((run_all ops d0).1 = true →
     (Database_validate ord' (run_all ops d0).2).1 ≠ Ok tt ∧
     ∃ report d', ConsistencyChecker_analyze to_string (run_all ops d0).2 = (Ok report, d') ∧ report_passed report = false).
Proof.
  intros Hw Hd Hdw Hf Hops Hl. destruct (open_new ord fs clock o p Hw Hd Hdw Hf) as (d0 & E0 & S0). pose proof (zlen_nonneg ops).
  destruct (run_all_session p _ ops Hops 0 [] d0 S0) as (blob & S1 & _ & Hsome); [lia..|].
  exists d0. split; [done|]. intros Hin. eapply session_diagnosed; [exact S1|lia|auto].
Qed.

(** ** The verdict of the tool *)

(** C35: The verifier refuses every database that was used.  Create a database with
    a write-ahead log, insert and erase keys in any order and close it, which
    succeeds; then run [quartzdb_verify] on it, in a new process
    whose hash maps are traversed in any order.  If an insertion succeeded the
    tool prints nothing but [Open failed] and its reason, on the standard error,
    and exits with 2; a database that was closed as it was created passes with 0
    and the lines of a sound report. *)
Theorem quartzdb_verify_verdict to_string h prog args ord fs clock o p ops :
  do_enableWal o = true → p ∉ fs_denied fs → walPathFor p ∉ fs_denied fs →
  fs_files fs !! walPathFor p = None → Forall dbop_ok ops → zlen ops < 2 ^ 40 - 1 → (∀ l, h_ord h l ≡ₚ l) →
  ∃ d0 d1, Database_open ord p true (Database_make fs clock o) = (Ok tt, d0) ∧
    Database_close (run_all ops d0).2 = (Ok tt, d1) ∧
    ((run_all ops d0).1 = true → ∃ e fs', quartzdb_verify to_string h (prog :: p :: args) (db_fs d1) =
       (Ok (mkExit 2 EmptyString (line ["Open failed: "; Status_toString (Some e)])), fs')) ∧
    (ops = [] → ∃ fs', quartzdb_verify to_string h (prog :: p :: args) (db_fs d1) =
       (Ok (mkExit 0 passing_text EmptyString), fs')).
Proof.
  intros Hw Hd Hdw Hf Hops Hl Hord.
  destruct (open_blank ord fs clock o p true Hw Hd (or_introl eq_refl)) as (f & d0 & E0 & _ & I0 & T0); [split; auto|].
  assert (Hk : tree_keys (db_tree d0)) by (rewrite T0; by destruct (do_recoverOnOpen o)).
  pose proof (idle_session _ _ _ _ I0 Hk) as S0. pose proof (zlen_nonneg ops).
  destruct (run_all_session p _ ops Hops 0 [] d0 S0) as (blob & S1 & _ & Hsome); [lia..|]. rewrite Z.add_0_l in S1.
  exists d0.
  destruct (close_session p _ _ blob _ S1) as (d1 & blob' & E1 & _ & Hst & Hnil & Hb & Hz & F1 & F2 & F3 & F4); [lia|].
  exists d1. split; [done|]. split; [done|]. split.
  - intros Hin. destruct (open_zero_log (h_ord h) (db_fs d1) (h_clock h) verify_options p false blob') as (e & d2 & E2 & O2); try done.
    + by right.
    + apply Hst, Hsome, Hin.
    + apply Forall_app_2; [|done]. apply (bool_decide_unpack (Forall (λ b, 0 <= b < 256) wal_header)). vm_compute. exact I.
    + rewrite zlen_app. change (zlen wal_header) with 16. lia.
    + exists e. unfold quartzdb_verify, verify_session, mbind, M_bind, status. rewrite E2. eauto.
  - intros ->. cbn [run_all snd] in *.
    destruct (storage_image_header true (default [] (fs_files fs !! p)) eq_refl) as [Hi Hsz].
    destruct (close_session p _ 0 [] d0 S0) as (d1' & blob'' & E1' & _ & _ & Hnil' & _ & _ & F1' & _); [lia|].
    rewrite E1 in E1'. injection E1' as <-. rewrite Hnil', app_nil_r in F1' by (done || apply (ll_empty _ _ _ _ (di_log _ _ _ _ I0))).
    destruct (verify_blank to_string h prog p (db_fs d1) (zdrop 4096 (default [] (fs_files fs !! p))) args) as (fs' & Ev & _); try done.
    + split; [done|]. by right.
    + apply Permutation_nil. symmetry. apply Hord.
    + rewrite F3. change (default [] (Some ?c)) with c. by rewrite storage_image_again.
    + eauto.
Qed.

(** Witness: one database in which a key was inserted, and one that was only created. *)
Lemma quartzdb_verify_verdict_witness :
  let verify d := quartzdb_verify (λ _, "0.0") demo_host ["quartzdb_verify"; "db"] (db_fs d) in
  (∃ d0 d1, Database_open id "db" true demo_db = (Ok tt, d0) ∧ Database_close (run_all demo_ops d0).2 = (Ok tt, d1) ∧
    ∃ e fs', verify d1 = (Ok (mkExit 2 EmptyString (line ["Open failed: "; Status_toString (Some e)])), fs')) ∧
  (∃ d0 d1, Database_open id "db" true demo_db = (Ok tt, d0) ∧ Database_close d0 = (Ok tt, d1) ∧
    ∃ fs', verify d1 = (Ok (mkExit 0 passing_text EmptyString), fs')).
Proof.
  intros verify.
  assert (Hops : Forall dbop_ok demo_ops) by (repeat constructor; vm_compute; first [reflexivity|discriminate]).
  split.
  - destruct (quartzdb_verify_verdict (λ _, "0.0") demo_host "quartzdb_verify" [] id (mkFileSystem ∅ ∅ "no such file")
      (λ n, Z.of_nat n + 1) DatabaseOptions_default "db" demo_ops) as (d0 & d1 & E0 & E1 & H & _);
      [reflexivity|apply not_elem_of_empty|apply not_elem_of_empty|reflexivity|exact Hops|reflexivity|reflexivity|].
    exists d0, d1. split; [exact E0|]. split; [exact E1|]. apply H.
    apply (f_equal snd) in E0. cbn [snd] in E0. rewrite <-E0. vm_compute. reflexivity.
  - destruct (quartzdb_verify_verdict (λ _, "0.0") demo_host "quartzdb_verify" [] id (mkFileSystem ∅ ∅ "no such file")
      (λ n, Z.of_nat n + 1) DatabaseOptions_default "db" []) as (d0 & d1 & E0 & E1 & _ & H);
      [reflexivity|apply not_elem_of_empty|apply not_elem_of_empty|reflexivity|constructor|reflexivity|reflexivity|].
    exists d0, d1. split; [exact E0|]. split; [exact E1|]. exact (H eq_refl).
Defined.

(** C36: The verifier overwrites what it is asked to verify.  Run on a path whose
    file is shorter than a page, whatever bytes it holds, and beside which there
    is no log, [quartzdb_verify] replaces the file by a new header page, creates
    the log, prints a sound report and exits with 0; the scanner's test for a
    file that is too small never sees it. *)
Theorem quartzdb_verify_overwrites to_string h prog args fs p c :
  fs_files fs !! p = Some c → zlen c < 4096 → p ∉ fs_denied fs → walPathFor p ∉ fs_denied fs →
  fs_files fs !! walPathFor p = None → (∀ l, h_ord h l ≡ₚ l) →
  ∃ fs', quartzdb_verify to_string h (prog :: p :: args) fs = (Ok (mkExit 0 passing_text EmptyString), fs') ∧
    fs_files fs' !! p = Some (page_image header_page) ∧ fs_files fs' !! walPathFor p = Some wal_header.
Proof.
  intros Hc Hl Hd Hdw Hw Ho. destruct (storage_image_header false c) as [Hi _].
  { cbn [orb]. apply Z.ltb_lt. exact Hl. }
  assert (Hn : zdrop 4096 c = []) by (unfold zdrop; apply drop_ge; unfold zlen in Hl; lia). rewrite Hn in Hi.
  destruct (verify_blank to_string h prog p fs [] args) as (fs' & Ev & F1 & F2);
    [done|split; auto|apply Permutation_nil; symmetry; apply Ho|by eexists|by rewrite Hc|].
  exists fs'. by rewrite app_nil_r in F1.
Qed.

(** Witness: a text file of three bytes. *)
Lemma quartzdb_verify_overwrites_witness : ∃ fs',
  quartzdb_verify (λ _, "0.0") demo_host ["quartzdb_verify"; "notes.txt"] (mkFileSystem {["notes.txt" := [72; 105; 33]]} ∅ "no such file") =
    (Ok (mkExit 0 passing_text EmptyString), fs') ∧ fs_files fs' !! "notes.txt" = Some (page_image header_page).
Proof.
  destruct (quartzdb_verify_overwrites (λ _, "0.0") demo_host "quartzdb_verify" [] (mkFileSystem {["notes.txt" := [72; 105; 33]]} ∅ "no such file")
    "notes.txt" [72; 105; 33]) as (fs' & E & F & _);
    [reflexivity|reflexivity|apply not_elem_of_empty|apply not_elem_of_empty|reflexivity|reflexivity|].
  exists fs'. split; [exact E|exact F].
Defined.

(** ** The fuzz targets *)

(** C37: What an input can do to a fuzz target.  For any bytes (fewer than 2^39, so
    that no size wraps) the page target returns 0; its check has nothing to do
    with the input, since [isValid] answers the same for every input that is long
    enough.  The serialization target returns 0 if the process can be given as
    much memory as the length field in the input asks for, which is below 4 GiB,
    and otherwise throws [std::bad_alloc]; nothing else can go wrong.  The
    recovery target, run where its log does not exist yet, returns 0 and leaves
    every file as it found it. *)
Theorem fuzz_targets_return memory now h fs data : bytes_ok data → zlen data < 2 ^ 39 → fs_files fs !! fuzz_log h = None →
  fuzz_page data = Ok 0 ∧ (kPageHeaderSize <= zlen data → fuzz_page_valid data = Ok (Some true)) ∧
  fuzz_serialization memory now data =
    (if (zlen data <? 4) || (payload_request (fuzz_view data) <=? memory) then Ok 0 else Throw "std::bad_alloc") ∧
  payload_request (fuzz_view data) < 2 ^ 32 ∧
  ∃ fs', fuzz_recovery h data fs = (Ok 0, fs') ∧ fs_files fs' = fs_files fs ∧ fs_denied fs' = fs_denied fs.
Proof.
  intros Hb Hl Hn. split; [apply fuzz_page_returns|]. split; [apply fuzz_page_constant|].
  split; [by apply fuzz_serialization_returns|]. split; [|by apply fuzz_recovery_returns].
  apply payload_request_range, Forall_app_2; [done|apply zeros_ok].
Qed.

(** A hundred letters ask for a gigabyte. *)
Lemma fuzz_targets_return_witness :
  let data := repeat 65 100 in
  fuzz_page data = Ok 0 ∧ fuzz_page_valid data = Ok (Some true) ∧
  fuzz_serialization (2 ^ 32) 1 data = Ok 0 ∧ fuzz_serialization (2 ^ 30) 1 data = Throw "std::bad_alloc" ∧
  ∃ fs', fuzz_recovery demo_host data (mkFileSystem ∅ ∅ "no such file") = (Ok 0, fs') ∧ fs_files fs' = ∅ ∧ fs_denied fs' = ∅.
Proof.
  intros data.
  assert (Hb : bytes_ok data) by (apply (bool_decide_unpack (Forall (λ b, 0 <= b < 256) data)); vm_compute; exact I).
  destruct (fuzz_targets_return (2 ^ 32) 1 demo_host (mkFileSystem ∅ ∅ "no such file") data Hb) as (H1 & H2 & H3 & _ & H4).
  - reflexivity.
  - reflexivity.
  - destruct (fuzz_targets_return (2 ^ 30) 1 demo_host (mkFileSystem ∅ ∅ "no such file") data Hb) as (_ & _ & H5 & _);
      [reflexivity|reflexivity|].
    split; [exact H1|]. split; [apply H2; vm_compute; discriminate|]. rewrite H3, H5. split; [reflexivity|].
    split; [reflexivity|exact H4].
Defined.
